(** * Norish: the recipe-normalization pipeline

    A shallow embedding of the parsers of the recipe importer
    (lib/helpers.ts, server/parser/parsers/*.ts, server/parser/index.ts,
    server/importers/*.ts, server/db/repositories/stores.ts) and the
    properties the specification states about them.

    Conventions of the embedding.
    - A JavaScript string is a [string] whose characters are code units
      below 256 (Latin-1); [toLowerCase], [trim] and the regular-expression
      classes [\d], [\s], [\w], [\b] are written for that range.
    - [undefined] and [null] results are [None].
    - A JavaScript number that the modelled code produces from digit
      strings is a double whose value is an integer: [Num z] with [z] the
      value after rounding to 53 significant bits, [Infinity] from
      2^1024 on, [NaN] where the code could in principle meet it.
    - Code that throws, logs or calls an external collaborator runs in a
      small state-and-exception monad over an event trace. *)

From Stdlib Require Import ZArith QArith String Ascii List Bool Lia DecimalString Sorted.
From stdpp Require Import base gmap sets list strings.

Set Warnings "-clear-no-such-hyp".

Local Open Scope string_scope.
Local Open Scope list_scope.

(** ** JavaScript strings *)

Module Js.

Definition code (c : ascii) : nat := nat_of_ascii c.

(** [\d] *)
Definition is_digit (c : ascii) : bool :=
  (48 <=? code c)%nat && (code c <=? 57)%nat.

(** [\s], and the characters [String.prototype.trim] strips. *)
Definition is_space (c : ascii) : bool :=
  let n := code c in
  ((9 <=? n)%nat && (n <=? 13)%nat) || (n =? 32)%nat || (n =? 160)%nat.

(** [\w] (no unicode flag). *)
Definition is_word (c : ascii) : bool :=
  let n := code c in
  is_digit c
  || ((65 <=? n)%nat && (n <=? 90)%nat)
  || ((97 <=? n)%nat && (n <=? 122)%nat)
  || (n =? 95)%nat.

(** [String.prototype.toLowerCase] on one code unit. *)
Definition lower_char (c : ascii) : ascii :=
  let n := code c in
  if ((65 <=? n)%nat && (n <=? 90)%nat)
     || ((192 <=? n)%nat && (n <=? 222)%nat && negb (n =? 215)%nat)
  then ascii_of_nat (n + 32) else c.

Fixpoint toLowerCase (s : string) : string :=
  match s with
  | EmptyString => EmptyString
  | String c r => String (lower_char c) (toLowerCase r)
  end.

(** Equality of two code units under the regular-expression flag [i]. *)
Definition ci_eq (a b : ascii) : bool :=
  if decide (lower_char a = lower_char b) then true else false.

Definition is_empty (s : string) : bool :=
  match s with EmptyString => true | _ => false end.

(** [!l.length] *)
Definition is_empty_list {A : Type} (l : list A) : bool :=
  match l with [] => true | _ => false end.

Fixpoint trimStart (s : string) : string :=
  match s with
  | EmptyString => EmptyString
  | String c r => if is_space c then trimStart r else s
  end.

Fixpoint trimEnd (s : string) : string :=
  match s with
  | EmptyString => EmptyString
  | String c r =>
      let r' := trimEnd r in
      if is_space c && is_empty r' then EmptyString else String c r'
  end.

Definition trim (s : string) : string := trimEnd (trimStart s).

Fixpoint startsWith (p s : string) : bool :=
  match p, s with
  | EmptyString, _ => true
  | String a p', String b s' => if decide (a = b) then startsWith p' s' else false
  | String _ _, EmptyString => false
  end.

(** Case-insensitive prefix test: the regular-expression engine matching a
    literal under flag [i]. *)
Fixpoint startsWith_ci (p s : string) : bool :=
  match p, s with
  | EmptyString, _ => true
  | String a p', String b s' => ci_eq a b && startsWith_ci p' s'
  | String _ _, EmptyString => false
  end.

Fixpoint includes (s p : string) : bool :=
  startsWith p s ||
  match s with
  | EmptyString => false
  | String _ r => includes r p
  end.

Fixpoint drop (n : nat) (s : string) : string :=
  match n, s with
  | O, _ => s
  | S n', String _ r => drop n' r
  | S _, EmptyString => EmptyString
  end.

Fixpoint take (n : nat) (s : string) : string :=
  match n, s with
  | O, _ => EmptyString
  | S n', String c r => String c (take n' r)
  | S _, EmptyString => EmptyString
  end.

(** [s.replace(/\s+/g, " ")] *)
Fixpoint collapse_spaces (s : string) : string :=
  match s with
  | EmptyString => EmptyString
  | String c r =>
      if is_space c then
        match r with
        | String d _ => if is_space d then collapse_spaces r else String " " (collapse_spaces r)
        | EmptyString => String " " EmptyString
        end
      else String c (collapse_spaces r)
  end.

(** The maximal run of digits at the head of [s], and what follows it. *)
Fixpoint span_digits (s : string) : string * string :=
  match s with
  | String c r =>
      if is_digit c then let '(d, t) := span_digits r in (String c d, t)
      else (EmptyString, s)
  | EmptyString => (EmptyString, EmptyString)
  end.

Definition digit_val (c : ascii) : Z := Z.of_nat (code c) - 48.

Fixpoint digits_val_from (acc : Z) (s : string) : Z :=
  match s with
  | EmptyString => acc
  | String c r => digits_val_from (10 * acc + digit_val c) r
  end.

(** The value of a string of decimal digits. *)
Definition digits_val (s : string) : Z := digits_val_from 0 s.

Fixpoint all_digits (s : string) : bool :=
  match s with
  | EmptyString => true
  | String c r => is_digit c && all_digits r
  end.

(** A JavaScript number as far as the parsers need it.  The parsers make
    their numbers from runs of decimal digits, so a finite number is a
    double whose value is an integer, [Num z]; [Infinity neg] is
    [Infinity], or [-Infinity] when [neg] holds.  The two zeros are not
    told apart. *)
Inductive num : Type :=
| NaN : num
| Num : Z -> num
| Infinity : bool -> num.

(** The integer [n >= 0] rounded to 53 significant bits: to the nearest
    multiple of [2^e], a tie going to the even significand. *)
Definition round53 (n : Z) : Z :=
  let e := (Z.log2 n - 52)%Z in
  if (e <=? 0)%Z then n
  else
    let q := Z.shiftr n e in
    let r := (n - Z.shiftl q e)%Z in
    let half := Z.shiftl 1 (e - 1) in
    let q' := if (half <? r)%Z || ((half =? r)%Z && Z.odd q) then (q + 1)%Z else q in
    Z.shiftl q' e.

(** The Number value for the integer [z]: the nearest double, a tie going
    to the even significand, and an infinity from [2^1024] on. *)
Definition to_double (z : Z) : num :=
  let m := round53 (Z.abs z) in
  if (m <? 2 ^ 1024)%Z then Num (Z.sgn z * m) else Infinity (z <? 0)%Z.

(** [parseInt(s)] (and [parseInt(s, 10)]) for the strings the parsers pass
    to it, which are captures of [\d+]: the Number value for the leading
    run of decimal digits, [NaN] when there is none. *)
Definition parseInt (s : string) : num :=
  let '(d, _) := span_digits s in
  if is_empty d then NaN else to_double (digits_val d).

(** [a * b] *)
Definition num_mul (a b : num) : num :=
  match a, b with
  | Num x, Num y => to_double (x * y)
  | Infinity s, Num y | Num y, Infinity s =>
      if (y =? 0)%Z then NaN else Infinity (xorb s (y <? 0)%Z)
  | Infinity s, Infinity t => Infinity (xorb s t)
  | _, _ => NaN
  end.

(** [a + b] *)
Definition num_add (a b : num) : num :=
  match a, b with
  | Num x, Num y => to_double (x + y)
  | Infinity s, Num _ | Num _, Infinity s => Infinity s
  | Infinity s, Infinity t => if Bool.eqb s t then Infinity s else NaN
  | _, _ => NaN
  end.

(** A number that is not negative: a finite value from 0 on, or
    [Infinity]. *)
Definition nonneg_num (x : num) : Prop :=
  match x with
  | NaN => False
  | Num z => (0 <= z)%Z
  | Infinity neg => neg = false
  end.

(** [Number.isFinite(x)] with the value of a finite [x]. *)
Definition finite_value (x : num) : option Z :=
  match x with Num z => Some z | _ => None end.

(** A stand-in for [decode] of the package html-entities, for running the
    parsers on concrete inputs: it resolves the predefined entities
    [&amp;], [&lt;], [&gt;], [&quot;], [&apos;] and [&#39;] and leaves
    every other character as it is.  The properties below are proved for
    an arbitrary [decode]. *)
Fixpoint decode_from (skip : nat) (s : string) : string :=
  match s with
  | EmptyString => EmptyString
  | String c r =>
      match skip with
      | S k => decode_from k r
      | O =>
          if startsWith "&amp;" s then String "&" (decode_from 4 r)
          else if startsWith "&lt;" s then String "<" (decode_from 3 r)
          else if startsWith "&gt;" s then String ">" (decode_from 3 r)
          else if startsWith "&quot;" s then String (ascii_of_nat 34) (decode_from 5 r)
          else if startsWith "&apos;" s then String "'" (decode_from 5 r)
          else if startsWith "&#39;" s then String "'" (decode_from 4 r)
          else String c (decode_from 0 r)
      end
  end.

Definition decode_predefined (s : string) : string := decode_from 0 s.

End Js.

(** ** lib/helpers.ts: [parseIsoDuration] *)

Module Duration.
Import Js.

(** One optional component [(?:(\d+)X)?] of the pattern, tried at the head
    of [s]: the capture and what follows the component when it matches,
    no capture and [s] itself when it does not.  [\d+] is greedy; giving
    digits back cannot help, since the character after a shorter run is a
    digit and not the designator. *)
Definition component (designator : ascii) (s : string) : option string * string :=
  let '(d, t) := span_digits s in
  match d, t with
  | String _ _, String c t' =>
      if ci_eq c designator then (Some d, t') else (None, s)
  | _, _ => (None, s)
  end.

(** [/PT(?:(\d+)H)?(?:(\d+)M)?/i.exec(s)]: the captures [m[1]], [m[2]] of
    the leftmost match, [None] when there is no match.  Both components are
    optional, so the pattern matches at the first ["PT"] (in any case) of
    the input. *)
Fixpoint exec_iso (s : string) : option (option string * option string) :=
  match s with
  | EmptyString => None
  | String _ r =>
      if startsWith_ci "PT" s then
        let '(h, t) := component "H" (drop 2 s) in
        let '(m, _) := component "M" t in
        Some (h, m)
      else exec_iso r
  end.

(** [m[i] ? parseInt(m[i]) : 0] *)
Definition capture_num (c : option string) : num :=
  match c with
  | Some d => if is_empty d then Num 0 else parseInt d
  | None => Num 0
  end.

Definition parseIsoDuration (iso : string) : option num :=
  match exec_iso iso with
  | None => None
  | Some (h, m) =>
      let hours := capture_num h in
      let minutes := capture_num m in
      Some (num_add (num_mul hours (Num 60)) minutes)
  end.

(** The inputs the spec calls well-formed, from its words: the whole
    string is [PT], then an optional [\d+H], then an optional [\d+M]. *)
Definition spec_iso_form (s : string) : bool :=
  startsWith_ci "PT" s &&
  let '(_, t) := component "H" (drop 2 s) in
  let '(_, u) := component "M" t in
  is_empty u.

End Duration.

(** ** JSON values, as [JSON.parse] and the JSON-LD extractor hand them over *)

Module Json.
Import Js.

#[warnings="-register-all"] Inductive json : Type :=
| JNull : json
| JBool : bool -> json
| JNum : Z -> json
| JStr : string -> json
| JArr : list json -> json
| JObj : list (string * json) -> json.

(** [o[k]]; [None] is [undefined]. *)
Fixpoint field (k : string) (o : list (string * json)) : option json :=
  match o with
  | [] => None
  | (k', v) :: r => if decide (k' = k) then Some v else field k r
  end.

(** [f (o[k])] when the property is present, [d] otherwise; the recursive
    visitors go through this form of [field]. *)
Definition with_field {A : Type} (k : string) (f : json -> A) (d : A)
  : list (string * json) -> A :=
  fix go (o : list (string * json)) : A :=
    match o with
    | [] => d
    | (k', v) :: r => if decide (k' = k) then f v else go r
    end.

(** The first element of [l] on which [f] succeeds. *)
Fixpoint first_some_json {B : Type} (f : json -> option B) (l : list json) : option B :=
  match l with
  | [] => None
  | x :: r => match f x with Some y => Some y | None => first_some_json f r end
  end.

(** Truthiness of a value: [!!v]. *)
Definition truthy (v : json) : bool :=
  match v with
  | JNull => false
  | JBool b => b
  | JNum z => negb (z =? 0)%Z
  | JStr s => negb (is_empty s)
  | JArr _ => true
  | JObj _ => true
  end.

Definition truthy_opt (v : option json) : bool :=
  match v with Some x => truthy x | None => false end.

(** [a ?? b] *)
Definition nullish_or (a b : option json) : option json :=
  match a with
  | None | Some JNull => b
  | Some _ => a
  end.

Definition Z_to_string (z : Z) : string :=
  DecimalString.NilZero.string_of_int (Z.to_int z).

Fixpoint join (sep : string) (l : list string) : string :=
  match l with
  | [] => ""
  | [x] => x
  | x :: r => x +:+ sep +:+ join sep r
  end.

(** [String(v)]; inside [Array.prototype.join] a [null] element is the
    empty string. *)
Fixpoint to_string (v : json) : string :=
  match v with
  | JNull => "null"
  | JBool true => "true"
  | JBool false => "false"
  | JNum z => Z_to_string z
  | JStr s => s
  | JArr l =>
      join "," (map (fun x => match x with JNull => "" | _ => to_string x end) l)
  | JObj _ => "[object Object]"
  end.

(** [String(v)] for a possibly [undefined] value. *)
Definition to_string_opt (v : option json) : string :=
  match v with Some x => to_string x | None => "undefined" end.

End Json.

(** ** server/parser/parsers/steps.ts *)

(** Modelled from the spec: the type [MeasurementSystem] of
    types/dto/recipe, which is not part of the sources at hand; the spec
    lists its values as metric, us and mixed. *)
Inductive MeasurementSystem : Type := Metric | Us | Mixed.

Module Steps.
Import Js Json.

Record ParsedStep : Type := mkParsedStep {
  step : string;
  systemUsed : MeasurementSystem;
  order : Z
}.

Section WithDecode.

(** [decode] of the package html-entities. *)
Variable decode : string -> string.

Definition getNodeType (node : list (string * json)) : string :=
  match nullish_or (field "@type" node) (field "type" node) with
  | Some (JArr l) => join "," (map (fun v => toLowerCase (to_string v)) l)
  | Some (JStr s) => toLowerCase s
  | _ => ""
  end.

Definition isStepType (type : string) : bool :=
  includes type "howtostep" || includes type "howtodirection"
  || includes type "listitem".

Definition isSectionType (type : string) : bool :=
  includes type "howtosection".

(** [node.item && typeof node.item === "object" ? node.item : undefined];
    an array is an object without named properties. *)
Definition item_object (node : list (string * json)) : option (list (string * json)) :=
  match field "item" node with
  | Some (JObj o) => Some o
  | Some (JArr _) => Some []
  | _ => None
  end.

(** The trimmed, decoded string property [k] of the node or, when the node
    has no string there, of its nested item; the empty string counts as
    absent. *)
Definition text_property (k : string) (node : list (string * json)) : option string :=
  let raw :=
    match field k node with
    | Some (JStr s) => Some (trim (decode s))
    | _ =>
        match item_object node with
        | Some item =>
            match field k item with
            | Some (JStr s) => Some (trim (decode s))
            | _ => None
            end
        | None => None
        end
    end in
  match raw with
  | Some s => if is_empty s then None else Some s
  | None => None
  end.

Definition extractTextFromNode (node : list (string * json)) : option string :=
  let text := text_property "text" node in
  let name := text_property "name" node in
  match name, text with
  | Some n, Some t => Some ("**" +:+ n +:+ ":** " +:+ t)
  | _, Some t => Some t
  | _, None => name
  end.

(** [if (obj[k]) visit(obj[k])] *)
Definition visit_child (visit : json -> list string -> list string)
    (k : string) (obj : list (string * json)) (rawSteps : list string) : list string :=
  with_field k (fun v => if truthy v then visit v rawSteps else rawSteps) rawSteps obj.

(** The closure [visit] of [collectSteps]; the array [rawSteps] it pushes
    to is passed through. *)
Fixpoint visit (current : json) (rawSteps : list string) {struct current} : list string :=
  match current with
  | JNull => rawSteps
  | JBool _ => rawSteps
  | JNum _ => rawSteps
  | JStr cur =>
      if is_empty cur then rawSteps
      else
        let s := trim (decode cur) in
        if is_empty s then rawSteps else rawSteps ++ [s]
  | JArr l =>
      (fix forEach (l : list json) (acc : list string) : list string :=
         match l with
         | [] => acc
         | x :: r => forEach r (visit x acc)
         end) l rawSteps
  | JObj obj =>
      let type := getNodeType obj in
      if isSectionType type then
        let sectionName :=
          match field "name" obj with
          | Some (JStr n) => Some (trim (decode n))
          | _ => None
          end in
        let acc1 :=
          match sectionName with
          | Some n => if is_empty n then rawSteps else rawSteps ++ ["# " +:+ n]
          | None => rawSteps
          end in
        let acc2 := visit_child visit "itemListElement" obj acc1 in
        visit_child visit "item" obj acc2
      else
        let acc1 :=
          match extractTextFromNode obj with
          | Some text =>
              if isStepType type
                 || (negb (truthy_opt (field "itemListElement" obj))
                     && negb (truthy_opt (field "item" obj)))
              then rawSteps ++ [text] else rawSteps
          | None => rawSteps
          end in
        let acc2 := visit_child visit "itemListElement" obj acc1 in
        visit_child visit "item" obj acc2
  end.

Definition collectSteps (node : json) : list string := visit node [].

(** What the visit of an object pushes for the object itself: the heading
    of a section, the text of a step. *)
Definition own_steps (obj : list (string * json)) : list string :=
  let type := getNodeType obj in
  if isSectionType type then
    match field "name" obj with
    | Some (JStr n) => if is_empty (trim (decode n)) then [] else ["# " +:+ trim (decode n)]
    | _ => []
    end
  else
    match extractTextFromNode obj with
    | Some text =>
        if isStepType type
           || (negb (truthy_opt (field "itemListElement" obj))
               && negb (truthy_opt (field "item" obj)))
        then [text] else []
    | None => []
    end.

(** What the visit of the property [k] of an object pushes. *)
Definition child_steps (k : string) (obj : list (string * json)) : list string :=
  match field k obj with
  | Some v => if truthy v then visit v [] else []
  | None => []
  end.

(** The callback of [rawSteps.filter] with the set [seenSteps] made
    explicit: whether [s] is kept, and the set afterwards. *)
Definition keep_step (seenSteps : gset string) (s : string) : bool * gset string :=
  let trimmed := trim s in
  if is_empty trimmed then (false, seenSteps)
  else if startsWith "#" trimmed then (true, seenSteps)
  else
    let key := toLowerCase trimmed in
    if decide (key ∈ seenSteps) then (false, seenSteps)
    else (true, {[key]} ∪ seenSteps).

Fixpoint filter_steps (seenSteps : gset string) (rawSteps : list string) : list string :=
  match rawSteps with
  | [] => []
  | s :: r =>
      let '(keep, seen') := keep_step seenSteps s in
      if keep then s :: filter_steps seen' r else filter_steps seen' r
  end.

Definition deduplicateSteps (rawSteps : list string) : list string :=
  filter_steps ∅ rawSteps.

(** The key under which [deduplicateSteps] remembers a step, and the two
    kinds of entries it never remembers. *)
Definition step_key (s : string) : string := toLowerCase (trim s).
Definition is_blank (s : string) : bool := is_empty (trim s).
Definition is_heading (s : string) : bool := startsWith "#" (trim s).

(** The keys of the steps of [l] that are neither blank nor headings. *)
Fixpoint step_keys (l : list string) : gset string :=
  match l with
  | [] => ∅
  | s :: r =>
      (if is_blank s || is_heading s then ∅ else {[step_key s]}) ∪ step_keys r
  end.

(** [array.map((x, i) => f x i)] *)
Fixpoint mapi_from {A B : Type} (f : A -> Z -> B) (i : Z) (l : list A) : list B :=
  match l with
  | [] => []
  | x :: r => f x i :: mapi_from f (i + 1) r
  end.

Definition mapi {A B : Type} (f : A -> Z -> B) (l : list A) : list B :=
  mapi_from f 0 l.

Definition parseSteps (recipeInstructions : option json) (systemUsed : MeasurementSystem)
  : list ParsedStep :=
  let rawSteps :=
    match recipeInstructions with
    | Some node => collectSteps node
    | None => []
    end in
  let deduplicated := deduplicateSteps rawSteps in
  mapi (fun text i => mkParsedStep text systemUsed (i + 1)) deduplicated.

End WithDecode.
End Steps.

(** ** server/parser/parsers/metadata.ts *)

Module Metadata.
Import Js Json.

Record ParsedMetadata : Type := mkParsedMetadata {
  name : string;
  description : option string;
  servings : option Z;
  prepMinutes : option num;
  cookMinutes : option num;
  totalMinutes : option num
}.

(** [.] of a regular expression without flag [s]: anything but a line
    terminator. *)
Definition is_line_terminator (c : ascii) : bool :=
  (code c =? 10)%nat || (code c =? 13)%nat.

Fixpoint no_line_terminator (s : string) : bool :=
  match s with
  | EmptyString => true
  | String c r => negb (is_line_terminator c) && no_line_terminator r
  end.

(** The capture of [/^\[\s*'(.+)'\s*\]$/] on [s], if the pattern matches.
    Both runs of [\s*] are forced to be maximal by the quote that has to
    follow (precede) them, so the capture is what lies between the quote
    after the opening bracket and the quote before the closing one. *)
Definition bracketed_capture (s : string) : option string :=
  match s with
  | String "[" r =>
      match trimStart r with
      | String "'" body_and_tail =>
          match String.rev body_and_tail with
          | String "]" t =>
              match trimStart t with
              | String "'" rev_body =>
                  let body := String.rev rev_body in
                  if negb (is_empty body) && no_line_terminator body
                  then Some body else None
              | _ => None
              end
          | _ => None
          end
      | _ => None
      end
  | _ => None
  end.

(** [raw.replace(/^\[\s*'(.+)'\s*\]$/, "$1")] *)
Definition unwrap_bracketed (raw : string) : string :=
  match bracketed_capture raw with
  | Some body => body
  | None => raw
  end.

(** [s || undefined] *)
Definition nonempty (s : string) : option string :=
  if is_empty s then None else Some s.

Section WithDecode.
Variable decode : string -> string.

(** The body of [getName] once [raw] is chosen. *)
Definition name_of_raw (raw : option json) : option string :=
  match raw with
  | Some (JArr l) =>
      let first :=
        match nullish_or (head l) (Some (JStr "")) with
        | Some v => v
        | None => JStr ""
        end in
      nonempty (decode (to_string first))
  | Some (JStr s) => nonempty (decode (unwrap_bracketed s))
  | _ => None
  end.

Definition getName (json : list (string * json)) : option string :=
  name_of_raw (nullish_or (field "name" json) (field "headline" json)).

(** The first run of digits of [s]: [s.match(/\d+/)]. *)
Fixpoint first_digits (s : string) : option string :=
  match s with
  | EmptyString => None
  | String c r =>
      if is_digit c then Some (fst (span_digits s)) else first_digits r
  end.

(** One round of the loop of [getServings]: the number that is returned,
    if one is.  Every [JNum] of the model is a finite number; the number
    read from a string is returned when [Number.isFinite] holds of it. *)
Definition servings_of (v : json) : option Z :=
  match v with
  | JNum z => Some z
  | JStr s =>
      match first_digits s with
      | Some d => finite_value (parseInt d)
      | None => None
      end
  | _ => None
  end.

Fixpoint first_servings (values : list json) : option Z :=
  match values with
  | [] => None
  | v :: r =>
      match servings_of v with
      | Some n => Some n
      | None => first_servings r
      end
  end.

Definition getServings (recipeYield : option json) : option Z :=
  match recipeYield with
  | None | Some JNull => None
  | Some (JArr values) => first_servings values
  | Some v => first_servings [v]
  end.

Definition string_field (k : string) (json : list (string * json)) : option string :=
  match field k json with
  | Some (JStr s) => Some s
  | _ => None
  end.

Definition duration_field (k : string) (json : list (string * json)) : option num :=
  match string_field k json with
  | Some s => Duration.parseIsoDuration s
  | None => None
  end.

Definition parseMetadata (json : list (string * json)) : ParsedMetadata :=
  {| name := match getName json with Some n => n | None => "Untitled recipe" end;
     description := string_field "description" json;
     servings := getServings (field "recipeYield" json);
     prepMinutes := duration_field "prepTime" json;
     cookMinutes := duration_field "cookTime" json;
     totalMinutes := duration_field "totalTime" json |}.

End WithDecode.
End Metadata.

(** ** lib/helpers.ts: [parseIngredientWithDefaults] *)

Module Ingredients.
Import Js.

(** An entry of the unit dictionary ([UnitsMap] of the server
    configuration): the key is the canonical id. *)
Record UnitDef : Type := mkUnitDef {
  short : option string;
  plural : option string;
  alternates : option (list string)
}.

(** The dictionary object, in the order of its keys. *)
Definition UnitsMap : Type := list (string * UnitDef).

(** What the package parse-ingredient returns for one line. *)
Record Ingredient : Type := mkIngredient {
  quantity : option Q;
  quantity2 : option Q;
  unitOfMeasureID : option string;
  unitOfMeasure : option string;
  description : string;
  isGroupHeader : bool
}.

(** [line.replace(/(\d),(\d)/g, "$1.$2")]: matches do not overlap, the
    search resumes after the second digit. *)
Fixpoint normalize_commas (s : string) : string :=
  match s with
  | EmptyString => EmptyString
  | String c r =>
      match r with
      | String "," (String d t) =>
          if is_digit c && is_digit d
          then String c (String "." (String d (normalize_commas t)))
          else String c (normalize_commas r)
      | _ => String c (normalize_commas r)
      end
  end.

(** [allUnits.add(u)] on a [Set] kept in insertion order. *)
Definition set_add (u : string) (allUnits : list string) : list string :=
  if decide (u ∈ allUnits) then allUnits else allUnits ++ [u].

(** [if (s) allUnits.add(s)] for an optional spelling. *)
Definition set_add_truthy (s : option string) (allUnits : list string) : list string :=
  match s with
  | Some u => if is_empty u then allUnits else set_add u allUnits
  | None => allUnits
  end.

Definition add_unit (allUnits : list string) (entry : string * UnitDef) : list string :=
  let '(key, def) := entry in
  let s1 := set_add key allUnits in
  let s2 := set_add_truthy (short def) s1 in
  let s3 := set_add_truthy (plural def) s2 in
  match alternates def with
  | Some alts => fold_left (fun acc a => set_add a acc) alts s3
  | None => s3
  end.

(** The set [allUnits] after the loop over the dictionary. *)
Definition all_units (units : UnitsMap) : list string :=
  fold_left add_unit units [].

(** [sort((a, b) => b.length - a.length)]: longest first, and stable. *)
Fixpoint insert_by_length (u : string) (sorted : list string) : list string :=
  match sorted with
  | [] => [u]
  | v :: r =>
      if (String.length v <? String.length u)%nat then u :: sorted
      else v :: insert_by_length u r
  end.

Definition sort_by_length (l : list string) : list string :=
  fold_left (fun sorted u => insert_by_length u sorted) l [].

(** The alternatives of the group [(${unitPattern})]: every spelling is
    escaped and therefore a literal; with an empty dictionary the group is
    empty and matches the empty string. *)
Definition unit_alternatives (units : UnitsMap) : list string :=
  match sort_by_length (all_units units) with
  | [] => [""]
  | l => l
  end.

(** [\b] between two neighbours; [None] is an end of the input. *)
Definition is_word_opt (c : option ascii) : bool :=
  match c with Some x => is_word x | None => false end.

Definition word_boundary (prev next : option ascii) : bool :=
  xorb (is_word_opt prev) (is_word_opt next).

Definition head_char (s : string) : option ascii :=
  match s with String c _ => Some c | EmptyString => None end.

Fixpoint last_char (s : string) : option ascii :=
  match s with
  | EmptyString => None
  | String c EmptyString => Some c
  | String _ r => last_char r
  end.

Definition cons_fst (c : ascii) (p : string * string) : string * string :=
  (String c (fst p), snd p).

(** The ways [\d+] can match at the head of [s], in the order in which a
    backtracking matcher tries them (longest first): the digits taken and
    the rest. *)
Fixpoint digit_prefixes (s : string) : list (string * string) :=
  match s with
  | String c r =>
      if is_digit c then map (cons_fst c) (digit_prefixes r) ++ [(String c "", r)]
      else []
  | EmptyString => []
  end.

(** [\d+(?:[.,]\d+)?]: for each run of digits first with a fraction, then
    without. *)
Definition number_candidates (s : string) : list (string * string) :=
  flat_map
    (fun '(d, t) =>
       match t with
       | String sep t' =>
           if bool_decide (sep = "."%char) || bool_decide (sep = ","%char)
           then map (fun '(f, u) => (d +:+ String sep f, u)) (digit_prefixes t')
                ++ [(d, t)]
           else [(d, t)]
       | EmptyString => [(d, t)]
       end)
    (digit_prefixes s).

(** [\s*], longest first. *)
Fixpoint space_prefixes (s : string) : list (string * string) :=
  match s with
  | String c r =>
      if is_space c then map (cons_fst c) (space_prefixes r) ++ [("", s)]
      else [("", s)]
  | EmptyString => [("", "")]
  end.

(** The first element of [l] on which [f] succeeds. *)
Fixpoint first_some {A B : Type} (f : A -> option B) (l : list A) : option B :=
  match l with
  | [] => None
  | x :: r => match f x with Some y => Some y | None => first_some f r end
  end.

(** A match of the recovery pattern: [match[0]], [match[1]], [match[2]]. *)
Record UnitMatch : Type := mkUnitMatch {
  whole : string;
  qty : string;
  unit : string
}.

(** The pattern [\b(\d+(?:[.,]\d+)?)\s*(u1|u2|...)\b] with flag [i],
    tried at one position; [prev] is the character before it. *)
Definition match_at (alts : list string) (prev : option ascii) (s : string)
  : option UnitMatch :=
  if word_boundary prev (head_char s) then
    first_some
      (fun '(q, t) =>
         first_some
           (fun '(w, u) =>
              first_some
                (fun alt =>
                   if startsWith_ci alt u then
                     let unit := take (String.length alt) u in
                     let rest := drop (String.length alt) u in
                     let whole := q +:+ w +:+ unit in
                     if word_boundary (last_char whole) (head_char rest)
                     then Some (mkUnitMatch whole q unit) else None
                   else None)
                alts)
           (space_prefixes t))
      (number_candidates s)
  else None.

(** [normalizedLine.match(regex)]: the leftmost match. *)
Fixpoint find_match (alts : list string) (prev : option ascii) (s : string)
  : option UnitMatch :=
  match match_at alts prev s with
  | Some m => Some m
  | None =>
      match s with
      | EmptyString => None
      | String c r => find_match alts (Some c) r
      end
  end.

(** [s.replace(needle, "")] with a string pattern: the first occurrence of
    [needle] is removed. *)
Fixpoint remove_first (needle s : string) : string :=
  if startsWith needle s then drop (String.length needle) s
  else
    match s with
    | EmptyString => EmptyString
    | String c r => String c (remove_first needle r)
    end.

(** The line with quantity and unit moved to the front. *)
Definition reorder (normalizedLine : string) (m : UnitMatch) : string :=
  let rest := collapse_spaces (trim (remove_first (whole m) normalizedLine)) in
  qty m +:+ " " +:+ unit m +:+ " " +:+ rest.

(** [!parsed[0]?.quantity]: no first entry, no quantity, or quantity 0. *)
Definition no_quantity (parsed : list Ingredient) : bool :=
  match parsed with
  | [] => true
  | i :: _ =>
      match quantity i with
      | None => true
      | Some q => Qeq_bool q 0
      end
  end.

Section WithBaseline.

(** [parseIngredient] of the package parse-ingredient, called with the
    dictionary as [additionalUOMs]. *)
Variable parseIngredient : string -> UnitsMap -> list Ingredient.

(** The body of the loop over the lines, for a line that is not skipped. *)
Definition parse_line (line : string) (units : UnitsMap) : list Ingredient :=
  let normalizedLine := normalize_commas line in
  let parsed := parseIngredient normalizedLine units in
  if no_quantity parsed then
    match find_match (unit_alternatives units) None normalizedLine with
    | Some m =>
        let smartParsed := parseIngredient (reorder normalizedLine m) units in
        if no_quantity smartParsed then parsed else smartParsed
    | None => parsed
    end
  else parsed.

Fixpoint parseIngredientWithDefaults (lines : list string) (units : UnitsMap)
  : list Ingredient :=
  match lines with
  | [] => []
  | line :: r =>
      if is_empty line then parseIngredientWithDefaults r units
      else parse_line line units ++ parseIngredientWithDefaults r units
  end.

End WithBaseline.

(** *** A baseline parser for concrete inputs *)

(** The value of a match of [\d+(?:[.,]\d+)?]. *)
Definition decimal_value (q : string) : Q :=
  let '(d, t) := span_digits q in
  match t with
  | String _ f => Qmake (digits_val (d +:+ f)) (Z.to_pos (10 ^ Z.of_nat (String.length f)))
  | EmptyString => Qmake (digits_val d) 1
  end.

Definition spellings (entry : string * UnitDef) : list string :=
  let '(key, def) := entry in
  key :: match short def with Some u => [u] | None => [] end
      ++ match plural def with Some u => [u] | None => [] end
      ++ match alternates def with Some l => l | None => [] end.

(** The canonical id of the entry that lists the spelling [u]. *)
Definition canonical_id (units : UnitsMap) (u : string) : option string :=
  first_some
    (fun entry =>
       if existsb (fun v => bool_decide (toLowerCase v = toLowerCase u)) (spellings entry)
       then Some (fst entry) else None)
    units.

(** Modelled from the spec: [parseIngredient] of the package
    parse-ingredient, which is not part of the sources at hand, for
    running [parseIngredientWithDefaults] on concrete inputs.  The spec
    calls the baseline parser position-sensitive: a number at the head of
    the line is the quantity, a dictionary spelling that follows it is the
    unit, the remainder is the description; a line that does not start
    with a number has no quantity.  The properties below are proved for
    an arbitrary baseline parser. *)
Definition leading_parser (line : string) (units : UnitsMap) : list Ingredient :=
  let s := trim line in
  match number_candidates s with
  | (q, t) :: _ =>
      let t1 := trimStart t in
      let found :=
        first_some
          (fun alt =>
             if negb (is_empty alt) && startsWith_ci alt t1
                && word_boundary (last_char alt) (head_char (drop (String.length alt) t1))
             then Some alt else None)
          (unit_alternatives units) in
      match found with
      | Some alt =>
          [ {| quantity := Some (decimal_value q); quantity2 := None;
               unitOfMeasureID := canonical_id units alt;
               unitOfMeasure := Some (take (String.length alt) t1);
               description := trim (drop (String.length alt) t1);
               isGroupHeader := false |} ]
      | None =>
          [ {| quantity := Some (decimal_value q); quantity2 := None;
               unitOfMeasureID := None; unitOfMeasure := None;
               description := t1; isGroupHeader := false |} ]
      end
  | [] =>
      [ {| quantity := None; quantity2 := None;
           unitOfMeasureID := None; unitOfMeasure := None;
           description := s; isGroupHeader := false |} ]
  end.

(** A small dictionary for the examples. *)
Definition example_units : UnitsMap :=
  [ ("cup", {| short := Some "c"; plural := Some "cups"; alternates := None |});
    ("tablespoon", {| short := Some "tbsp"; plural := Some "tablespoons";
                      alternates := Some ["tbs"; "el"] |});
    ("gram", {| short := Some "g"; plural := Some "grams";
                alternates := Some ["gr"] |}) ].

(** *** The words of the spec *)

(** A recognized unit token occurs somewhere in the line: one of the
    spellings of the dictionary, in any case. *)
Definition spec_has_unit_token (units : UnitsMap) (line : string) : bool :=
  existsb (fun u => includes (toLowerCase line) (toLowerCase u)) (all_units units).

(** A match of [\d+(?:[.,]\d+)?] and nothing else. *)
Definition is_decimal_numeral (q : string) : bool :=
  let '(d, t) := span_digits q in
  negb (is_empty d) &&
  match t with
  | EmptyString => true
  | String sep f =>
      (bool_decide (sep = "."%char) || bool_decide (sep = ","%char))
      && negb (is_empty f) && all_digits f
  end.

Fixpoint all_space (s : string) : bool :=
  match s with
  | EmptyString => true
  | String c r => is_space c && all_space r
  end.

Fixpoint has_digit (s : string) : bool :=
  match s with
  | EmptyString => false
  | String c r => is_digit c || has_digit r
  end.

(** The recovery pattern [\b(\d+(?:[.,]\d+)?)\s*(u1|u2|...)\b] with flag
    [i], read as a relation: a number [q], white space [w] (possibly none)
    and a spelling [u] of the dictionary in any case, next to each other,
    with a word boundary before the number and one after the spelling.
    [prev] is the character before the number and [rest] what follows the
    spelling. *)
Definition token_at (alts : list string) (prev : option ascii) (q w u rest : string)
  : Prop :=
  word_boundary prev (head_char q) = true
  /\ is_decimal_numeral q = true
  /\ all_space w = true
  /\ (exists alt, In alt alts /\ toLowerCase u = toLowerCase alt)
  /\ word_boundary (last_char (q +:+ w +:+ u)) (head_char rest) = true.

(** The line holds such a token right after [pre]. *)
Definition token_after (alts : list string) (line pre q w u rest : string) : Prop :=
  line = pre +:+ q +:+ w +:+ u +:+ rest
  /\ token_at alts (last_char pre) q w u rest.

(** The character before the position that [pre] leads to, [prev] being
    the character before [pre]. *)
Fixpoint prev_of (prev : option ascii) (pre : string) : option ascii :=
  match pre with
  | EmptyString => prev
  | String c r => prev_of (Some c) r
  end.

(** What the spec expects of the baseline parser on a line that starts
    with a quantity and a unit: ["qty unit rest"] is read as that quantity
    and as the canonical id of that unit. *)
Definition reads_leading (parseIngredient : string -> UnitsMap -> list Ingredient)
    (units : UnitsMap) : Prop :=
  forall q u rest,
    is_decimal_numeral q = true ->
    (exists alt, In alt (unit_alternatives units) /\ toLowerCase u = toLowerCase alt) ->
    exists i tl,
      parseIngredient (q +:+ " " +:+ u +:+ " " +:+ rest) units = i :: tl
      /\ quantity i = Some (decimal_value q)
      /\ unitOfMeasureID i = canonical_id units u.

(** A spelling that is a word: not empty, made of word characters. *)
Fixpoint all_word (s : string) : bool :=
  match s with
  | EmptyString => true
  | String c r => is_word c && all_word r
  end.

Definition is_word_spelling (s : string) : bool := negb (is_empty s) && all_word s.

End Ingredients.

(** ** Effects: exceptions, a mutable state, try/catch/finally *)

Module Eff.

(** How a call ends: it returns or it throws. *)
Inductive result (A : Type) : Type :=
| Ret : A -> result A
| Throw : string -> result A.
Arguments Ret {A} _.
Arguments Throw {A} _.

(** A computation over a state [S]; the state at the time of a throw is
    kept, it is what a handler sees. *)
Definition M (S A : Type) : Type := S -> result A * S.

Definition ret {S A : Type} (a : A) : M S A := fun s => (Ret a, s).

Definition bind {S A B : Type} (m : M S A) (k : A -> M S B) : M S B :=
  fun s =>
    match m s with
    | (Ret a, s') => k a s'
    | (Throw e, s') => (Throw e, s')
    end.

Definition throw {S A : Type} (e : string) : M S A := fun s => (Throw e, s).

(** [try { body } catch (e) { handler e }] *)
Definition try_catch {S A : Type} (body : M S A) (handler : string -> M S A) : M S A :=
  fun s =>
    match body s with
    | (Ret a, s') => (Ret a, s')
    | (Throw e, s') => handler e s'
    end.

(** [try { body } finally { cleanup }]: the outcome of [body] stands
    unless [cleanup] throws. *)
Definition finally {S A : Type} (body : M S A) (cleanup : M S unit) : M S A :=
  fun s =>
    match body s with
    | (r, s') =>
        match cleanup s' with
        | (Ret _, s'') => (r, s'')
        | (Throw e, s'') => (Throw e, s'')
        end
    end.

Definition get {S : Type} : M S S := fun s => (Ret s, s).
Definition modify {S : Type} (f : S -> S) : M S unit := fun s => (Ret tt, f s).

(** A value or an exception that was computed without touching the state. *)
Definition lift {S A : Type} (r : result A) : M S A := fun s => (r, s).

End Eff.

Notation "x <- m ;; k" := (Eff.bind m (fun x => k))
  (at level 100, m at next level, right associativity).
Notation "m ;;; k" := (Eff.bind m (fun _ => k))
  (at level 100, right associativity).

(** ** server/importers/paprika-parser.ts: [extractPaprikaRecipes] *)

Module Paprika.
Import Js Json Eff.

(** A field that may be missing, [null] or present. *)
Inductive nullable (A : Type) : Type :=
| Undefined : nullable A
| Null : nullable A
| Val : A -> nullable A.
Arguments Undefined {A}.
Arguments Null {A}.
Arguments Val {A} _.

Record PaprikaPhoto : Type := mkPaprikaPhoto {
  photo_data : option string;
  photo_filename : option string
}.

Record PaprikaRecipe : Type := mkPaprikaRecipe {
  name : string;
  description : nullable string;
  ingredients : nullable string;
  directions : nullable string;
  notes : nullable string;
  categories : list string;
  rating : nullable Z;
  prep_time : nullable string;
  cook_time : nullable string;
  total_time : nullable string;
  servings : nullable string;
  difficulty : nullable string;
  source : nullable string;
  source_url : nullable string;
  photo_hash : nullable string;
  photos : list PaprikaPhoto;
  uid : nullable string;
  created : nullable string;
  nutritional_info : nullable string
}.

(** A value that does not fit a schema makes [parse] throw a [ZodError]
    whose message lists every issue.  The message is not modelled: every
    failure throws the same text, and nothing below depends on it. *)
Definition zod_error : string := "ZodError".

(** [z.string().optional().nullable()] *)
Definition zod_nullable_string (v : option json) : result (nullable string) :=
  match v with
  | None => Ret Undefined
  | Some JNull => Ret Null
  | Some (JStr s) => Ret (Val s)
  | Some _ => Throw zod_error
  end.

(** [z.number().optional().nullable()] *)
Definition zod_nullable_number (v : option json) : result (nullable Z) :=
  match v with
  | None => Ret Undefined
  | Some JNull => Ret Null
  | Some (JNum z) => Ret (Val z)
  | Some _ => Throw zod_error
  end.

(** [z.string().optional()] *)
Definition zod_optional_string (v : option json) : result (option string) :=
  match v with
  | None => Ret None
  | Some (JStr s) => Ret (Some s)
  | Some _ => Throw zod_error
  end.

(** [z.array(item)] on the elements of an array. *)
Fixpoint zod_each {A : Type} (item : json -> result A) (l : list json) : result (list A) :=
  match l with
  | [] => Ret []
  | x :: r =>
      match item x with
      | Ret a =>
          match zod_each item r with
          | Ret t => Ret (a :: t)
          | Throw e => Throw e
          end
      | Throw e => Throw e
      end
  end.

(** [z.array(item).optional().default([])] *)
Definition zod_array_default {A : Type} (item : json -> result A) (v : option json)
  : result (list A) :=
  match v with
  | None => Ret []
  | Some (JArr l) => zod_each item l
  | Some _ => Throw zod_error
  end.

Definition zod_string (v : json) : result string :=
  match v with
  | JStr s => Ret s
  | _ => Throw zod_error
  end.

Definition PaprikaPhotoSchema (v : json) : result PaprikaPhoto :=
  match v with
  | JObj o =>
      match zod_optional_string (field "data" o),
            zod_optional_string (field "filename" o) with
      | Ret d, Ret f => Ret (mkPaprikaPhoto d f)
      | Throw e, _ => Throw e
      | _, Throw e => Throw e
      end
  | _ => Throw zod_error
  end.

Definition rbind {A B : Type} (r : result A) (k : A -> result B) : result B :=
  match r with Ret a => k a | Throw e => Throw e end.

(** [PaprikaRecipeSchema.parse(data)]: unknown keys are dropped, a key of
    the wrong type makes it throw. *)
Definition PaprikaRecipeSchema_parse (data : json) : result PaprikaRecipe :=
  match data with
  | JObj o =>
      let str k := zod_nullable_string (field k o) in
      rbind (match field "name" o with
             | Some v => zod_string v
             | None => Throw zod_error
             end) (fun name =>
      rbind (str "description") (fun description =>
      rbind (str "ingredients") (fun ingredients =>
      rbind (str "directions") (fun directions =>
      rbind (str "notes") (fun notes =>
      rbind (zod_array_default zod_string (field "categories" o)) (fun categories =>
      rbind (zod_nullable_number (field "rating" o)) (fun rating =>
      rbind (str "prep_time") (fun prep_time =>
      rbind (str "cook_time") (fun cook_time =>
      rbind (str "total_time") (fun total_time =>
      rbind (str "servings") (fun servings =>
      rbind (str "difficulty") (fun difficulty =>
      rbind (str "source") (fun source =>
      rbind (str "source_url") (fun source_url =>
      rbind (str "photo_hash") (fun photo_hash =>
      rbind (zod_array_default PaprikaPhotoSchema (field "photos" o)) (fun photos =>
      rbind (str "uid") (fun uid =>
      rbind (str "created") (fun created =>
      rbind (str "nutritional_info") (fun nutritional_info =>
      Ret (mkPaprikaRecipe name description ingredients directions notes
             categories rating prep_time cook_time total_time servings
             difficulty source source_url photo_hash photos uid created
             nutritional_info))))))))))))))))))))
  | _ => Throw zod_error
  end.

(** An entry of the zip archive. *)
Record ZipEntry : Type := mkZipEntry {
  entry_name : string;
  entry_dir : bool;
  entry_data : list Byte.byte
}.

(** One element of the returned array. *)
Record Extracted : Type := mkExtracted {
  recipe : PaprikaRecipe;
  image : option (list Byte.byte);
  fileName : string
}.

(** A call of [log.warn]. *)
Record Warning : Type := mkWarning {
  warn_fileName : string;
  warn_error : string;
  warn_message : string
}.

(** [name] matches [/\.paprikarecipe$/i]. *)
Definition is_paprikarecipe (name : string) : bool :=
  let ext := ".paprikarecipe" in
  let n := String.length name in
  (String.length ext <=? n)%nat
  && bool_decide (toLowerCase (drop (n - String.length ext) name) = ext).

(** [zip.file(/\.paprikarecipe$/i)]: the files, not the folders, whose
    path matches, in the order of the archive. *)
Definition zip_files (zip : list ZipEntry) : list ZipEntry :=
  filter (fun e => negb (entry_dir e) && is_paprikarecipe (entry_name e) = true) zip.

Section WithCollaborators.

(** [paprikaFile.async("nodebuffer")] *)
Variable read_entry : ZipEntry -> result (list Byte.byte).
(** [gunzip] of zlib. *)
Variable gunzip : list Byte.byte -> result (list Byte.byte).
(** [JSON.parse(buffer.toString("utf-8"))] *)
Variable json_of_buffer : list Byte.byte -> result json.
(** [base64ToBuffer] of parser-helpers. *)
Variable base64ToBuffer : string -> result (list Byte.byte).

(** The first photo, when there is one with data; a failure to decode it
    is ignored. *)
Definition first_photo (r : PaprikaRecipe) : M (list Warning) (option (list Byte.byte)) :=
  match photos r with
  | p :: _ =>
      match photo_data p with
      | Some d =>
          if is_empty d then ret None
          else
            try_catch
              (b <- lift (base64ToBuffer d) ;; ret (Some b))
              (fun _ => ret None)
      | None => ret None
      end
  | [] => ret None
  end.

(** The body of the loop for one file: the [try] block and its [catch]. *)
Definition extract_one (paprikaFile : ZipEntry) (results : list Extracted)
  : M (list Warning) (list Extracted) :=
  try_catch
    (compressedBuffer <- lift (read_entry paprikaFile) ;;
     decompressedBuffer <- lift (gunzip compressedBuffer) ;;
     recipeData <- lift (json_of_buffer decompressedBuffer) ;;
     recipe <- lift (PaprikaRecipeSchema_parse recipeData) ;;
     imageBuffer <- first_photo recipe ;;
     ret (results ++ [mkExtracted recipe imageBuffer (entry_name paprikaFile)]))
    (fun e =>
       modify (fun log =>
                 log ++ [mkWarning (entry_name paprikaFile) e
                           "Skipping corrupted .paprikarecipe file"]) ;;;
       ret results).

Fixpoint extract_loop (paprikaFiles : list ZipEntry) (results : list Extracted)
  : M (list Warning) (list Extracted) :=
  match paprikaFiles with
  | [] => ret results
  | f :: r => results' <- extract_one f results ;; extract_loop r results'
  end.

Definition extractPaprikaRecipes (zip : list ZipEntry) : M (list Warning) (list Extracted) :=
  extract_loop (zip_files zip) [].

(** What the [try] block of the loop computes for one file, as a value:
    the element it pushes, or the exception it ends with. *)
Definition photo_of (r : PaprikaRecipe) : option (list Byte.byte) :=
  match photos r with
  | p :: _ =>
      match photo_data p with
      | Some d =>
          if is_empty d then None
          else match base64ToBuffer d with Ret b => Some b | Throw _ => None end
      | None => None
      end
  | [] => None
  end.

Definition decode_entry (paprikaFile : ZipEntry) : result Extracted :=
  rbind (read_entry paprikaFile) (fun compressedBuffer =>
  rbind (gunzip compressedBuffer) (fun decompressedBuffer =>
  rbind (json_of_buffer decompressedBuffer) (fun recipeData =>
  rbind (PaprikaRecipeSchema_parse recipeData) (fun recipe =>
  Ret (mkExtracted recipe (photo_of recipe) (entry_name paprikaFile)))))).

Definition skip_warning (paprikaFile : ZipEntry) (e : string) : Warning :=
  mkWarning (entry_name paprikaFile) e "Skipping corrupted .paprikarecipe file".

Fixpoint extracted_of (files : list ZipEntry) : list Extracted :=
  match files with
  | [] => []
  | f :: r =>
      match decode_entry f with
      | Ret x => x :: extracted_of r
      | Throw _ => extracted_of r
      end
  end.

Fixpoint warnings_of (files : list ZipEntry) : list Warning :=
  match files with
  | [] => []
  | f :: r =>
      match decode_entry f with
      | Ret _ => warnings_of r
      | Throw e => skip_warning f e :: warnings_of r
      end
  end.

End WithCollaborators.

(** Collaborators for concrete inputs: an entry reads as its data, a gzip
    stream is recognized by its two magic bytes, and the payload decides
    between two fixed documents. *)
Definition example_read (e : ZipEntry) : result (list Byte.byte) := Ret (entry_data e).

Definition example_gunzip (b : list Byte.byte) : result (list Byte.byte) :=
  match b with
  | Byte.x1f :: Byte.x8b :: payload => Ret payload
  | _ => Throw "incorrect header check"
  end.

Definition example_json (b : list Byte.byte) : result json :=
  match b with
  | [Byte.x01] =>
      Ret (JObj [("name", JStr "Tea"); ("ingredients", JStr "1 cup water");
                 ("directions", JStr "Boil water"); ("rating", JNum 5);
                 ("photos", JArr [JObj [("filename", JStr "tea.jpg")]])])
  | _ => Throw "Unexpected end of JSON input"
  end.

Definition example_base64 (s : string) : result (list Byte.byte) := Ret [].

Definition example_zip : list ZipEntry :=
  [ mkZipEntry "Recipes/" true [];
    mkZipEntry "Recipes/broken.paprikarecipe" false [Byte.x50; Byte.x4b; Byte.x03; Byte.x04];
    mkZipEntry "Recipes/Tea.PaprikaRecipe" false [Byte.x1f; Byte.x8b; Byte.x01];
    mkZipEntry "Recipes/readme.txt" false [Byte.x1f; Byte.x8b; Byte.x01] ].

End Paprika.

(** ** server/parser/parsers/videos.ts: [parseVideos] *)

Module Videos.
Import Js Json Eff.

Record ParsedVideo : Type := mkParsedVideo {
  video : string;
  thumbnail : option string;
  duration : option Q;
  order : Z
}.

Record VideoObjectCandidate : Type := mkCandidate {
  contentUrl : option string;
  url : option string;
  thumbnailUrl : option json;
  cand_duration : option string;
  cand_name : option string;
  cand_description : option string
}.

(** What the function does to the outside: the log and the calls of the
    download, transcode and storage collaborators, in order. *)
Inductive Event : Type :=
| Log (level message : string)
| GetVideoMetadata (videoUrl : string)
| DownloadVideo (videoUrl : string)
| GetFfmpegPath
| ConvertToMp4 (filePath : string)
| SaveVideoFile (filePath recipeId : string)
| Unlink (filePath : string).

(** The local variables [downloadedPath] and [convertedPath] of
    [downloadAndSaveVideo], which its [finally] block reads. *)
Record Locals : Type := mkLocals {
  downloadedPath : option string;
  convertedPath : option string
}.

(** A call of a collaborator: its outcome may depend on everything that
    happened before; the call is recorded whatever the outcome. *)
Definition call {L R : Type} (ev : Event) (oracle : list Event -> result R)
  : M (list Event * L) R :=
  fun s => (oracle (fst s), (fst s ++ [ev], snd s)).

Definition log {L : Type} (level message : string) : M (list Event * L) unit :=
  modify (fun s => (fst s ++ [Log level message], snd s)).

Definition set_downloadedPath (p : option string) : M (list Event * Locals) unit :=
  modify (fun s => (fst s, mkLocals p (convertedPath (snd s)))).

Definition set_convertedPath (p : option string) : M (list Event * Locals) unit :=
  modify (fun s => (fst s, mkLocals (downloadedPath (snd s)) p)).

(** [if (p)] for a path that may be [null]. *)
Definition path_set (p : option string) : option string :=
  match p with
  | Some f => if is_empty f then None else Some f
  | None => None
  end.

(** [!duration] *)
Definition no_duration (d : option Q) : bool :=
  match d with
  | None => true
  | Some q => Qeq_bool q 0
  end.

Definition extractThumbnailUrl (thumbnailUrl : option json) : option string :=
  match thumbnailUrl with
  | Some (JStr s) => if is_empty s then None else Some s
  | Some (JArr l) =>
      first_some_json
        (fun u => match u with
                  | JStr s => if is_empty (trim s) then None else Some (trim s)
                  | _ => None
                  end) l
  | _ => None
  end.

Section WithCollaborators.

(** [decode] of html-entities. *)
Variable decode : string -> string.
(** [parseDuration] of this module, which reads seconds with [parseFloat];
    its value is not what the loop depends on. *)
Variable parseDuration : option string -> option Q.
(** [getVideoMetadata(url)], reduced to [metadata.duration ?? null]. *)
Variable getVideoMetadata : string -> list Event -> result (option Q).
(** [downloadVideo(url)], reduced to the [filePath] of its result; [None]
    is a falsy result. *)
Variable downloadVideo : string -> list Event -> result (option string).
Variable getFfmpegPath : list Event -> result (option string).
(** [convertToMp4(filePath, ffmpegPath)], reduced to [converted.filePath]. *)
Variable convertToMp4 : string -> option string -> list Event -> result string.
(** [saveVideoFile(filePath, recipeId, duration)]: the stored [video] and
    its [duration]. *)
Variable saveVideoFile : string -> string -> option Q -> list Event -> result (string * option Q).
(** [fs.unlink(path)] *)
Variable unlink : string -> list Event -> result unit.

Definition normalizeVideoObject (node : json) : option VideoObjectCandidate :=
  match node with
  | JObj obj =>
      let type := nullish_or (field "@type" obj) (field "type" obj) in
      let typeStr := toLowerCase (to_string_opt type) in
      if negb (includes typeStr "videoobject") then None
      else
        let str k := match field k obj with Some (JStr s) => Some s | _ => None end in
        let contentUrl := str "contentUrl" in
        let url := str "url" in
        let empty o := match o with Some s => is_empty s | None => true end in
        if empty contentUrl && empty url then None
        else
          Some {| contentUrl := contentUrl;
                  url := url;
                  thumbnailUrl := field "thumbnailUrl" obj;
                  cand_duration := str "duration";
                  cand_name := option_map (fun s => trim (decode s)) (str "name");
                  cand_description :=
                    option_map (fun s => trim (decode s)) (str "description") |}
  | _ => None
  end.

Definition extractVideoCandidates (videoField : option json) : list VideoObjectCandidate :=
  match videoField with
  | Some (JArr l) =>
      flat_map (fun item => match normalizeVideoObject item with
                            | Some c => [c]
                            | None => []
                            end) l
  | Some v =>
      if truthy v then
        match normalizeVideoObject v with Some c => [c] | None => [] end
      else []
  | None => []
  end.

(** [cleanupFile]: the failure of [unlink] is ignored. *)
Definition cleanupFile (filePath : string) : M (list Event * Locals) unit :=
  try_catch
    (call (Unlink filePath) (unlink filePath) ;;;
     log "debug" "Cleaned up temp file")
    (fun _ => ret tt).

(** [duration] after the optional look at the metadata. *)
Definition duration_with_metadata (videoUrl : string) (durationHint : option Q)
  : M (list Event * Locals) (option Q) :=
  if no_duration durationHint then
    try_catch
      (call (GetVideoMetadata videoUrl) (getVideoMetadata videoUrl))
      (fun _ => ret durationHint)
  else ret durationHint.

(** The [try] block of [downloadAndSaveVideo]. *)
Definition download_try (videoUrl recipeId : string) (order : Z)
    (thumbnailUrl : option string) (durationHint : option Q)
  : M (list Event * Locals) (option ParsedVideo) :=
  log "debug" "Attempting to download video from JSON-LD" ;;;
  duration <- duration_with_metadata videoUrl durationHint ;;
  downloadResult <- call (DownloadVideo videoUrl) (downloadVideo videoUrl) ;;
  match downloadResult with
  | None => log "warn" "Failed to download video" ;;; ret None
  | Some filePath =>
      set_downloadedPath (Some filePath) ;;;
      ffmpegPath <- call GetFfmpegPath getFfmpegPath ;;
      converted <- call (ConvertToMp4 filePath) (convertToMp4 filePath ffmpegPath) ;;
      (if decide (converted = filePath) then ret tt
       else set_convertedPath (Some converted) ;;; set_downloadedPath None) ;;;
      savedVideo <- call (SaveVideoFile converted recipeId)
                         (saveVideoFile converted recipeId duration) ;;
      log "info" "Video downloaded and saved from JSON-LD" ;;;
      s <- get ;;
      match path_set (convertedPath (snd s)), path_set (downloadedPath (snd s)) with
      | Some p, _ => cleanupFile p ;;; set_convertedPath None
      | None, Some p => cleanupFile p ;;; set_downloadedPath None
      | None, None => ret tt
      end ;;;
      ret (Some {| video := fst savedVideo;
                   thumbnail := thumbnailUrl;
                   duration := snd savedVideo;
                   order := order |})
  end.

(** The [finally] block. *)
Definition download_finally : M (list Event * Locals) unit :=
  s <- get ;;
  match path_set (downloadedPath (snd s)) with
  | Some p => cleanupFile p
  | None => ret tt
  end ;;;
  match path_set (convertedPath (snd s)) with
  | Some p => cleanupFile p
  | None => ret tt
  end.

(** [downloadAndSaveVideo], with its two local variables fresh on entry. *)
Definition downloadAndSaveVideo (videoUrl recipeId : string) (order : Z)
    (thumbnailUrl : option string) (durationHint : option Q)
  : M (list Event) (option ParsedVideo) :=
  fun trace =>
    let body :=
      finally
        (try_catch
           (download_try videoUrl recipeId order thumbnailUrl durationHint)
           (fun _ => log "warn" "Failed to process video from JSON-LD" ;;; ret None))
        download_finally in
    match body (trace, mkLocals None None) with
    | (r, s) => (r, fst s)
    end.

(** [candidate.contentUrl || candidate.url] *)
Definition video_url (c : VideoObjectCandidate) : option string :=
  match contentUrl c with
  | Some u => if is_empty u then url c else Some u
  | None => url c
  end.

(** One round of the loop, for the candidate at index [i]. *)
Definition process_candidate (recipeId : string) (i : Z) (candidate : VideoObjectCandidate)
  : M (list Event) (option ParsedVideo) :=
  match path_set (video_url candidate) with
  | None => ret None
  | Some videoUrl =>
      let thumbnailUrl := extractThumbnailUrl (thumbnailUrl candidate) in
      let duration := parseDuration (cand_duration candidate) in
      downloadAndSaveVideo videoUrl recipeId i thumbnailUrl duration
  end.

(** The loop, over the candidates below the bound. *)
Fixpoint process_candidates (recipeId : string) (i : Z)
    (candidates : list VideoObjectCandidate) (videos : list ParsedVideo)
  : M (list Event) (list ParsedVideo) :=
  match candidates with
  | [] => ret videos
  | candidate :: r =>
      parsed <- process_candidate recipeId i candidate ;;
      process_candidates recipeId (i + 1) r
        (match parsed with Some v => videos ++ [v] | None => videos end)
  end.

(** [Math.min(candidates.length, maxVideos)] as a number of rounds. *)
Definition rounds (candidates : list VideoObjectCandidate) (maxVideos : Z) : nat :=
  Z.to_nat (Z.min (Z.of_nat (length candidates)) maxVideos).

Definition trace_log (level message : string) : M (list Event) unit :=
  modify (fun trace => trace ++ [Log level message]).

Definition parseVideos (videoField : option json) (recipeId : string)
    (maxVideos : option Z) : M (list Event) (list ParsedVideo) :=
  let maxVideos := match maxVideos with Some n => n | None => 3%Z end in
  if negb (truthy_opt videoField) then ret []
  else
    let candidates := extractVideoCandidates videoField in
    match candidates with
    | [] => trace_log "debug" "No valid VideoObject candidates found in JSON-LD" ;;; ret []
    | _ =>
        trace_log "debug" "Found VideoObject candidates in JSON-LD" ;;;
        process_candidates recipeId 0 (firstn (rounds candidates maxVideos) candidates) []
    end.

(** The rounds of the loop run one after the other: the outcome of each
    round and the trace after the last. *)
Fixpoint run_rounds (recipeId : string) (i : Z)
    (candidates : list VideoObjectCandidate) (trace : list Event)
  : list (result (option ParsedVideo)) * list Event :=
  match candidates with
  | [] => ([], trace)
  | candidate :: r =>
      let '(outcome, trace1) := process_candidate recipeId i candidate trace in
      let '(outcomes, trace2) := run_rounds recipeId (i + 1) r trace1 in
      (outcome :: outcomes, trace2)
  end.

(** The video [v] comes from a download of [videoUrl] that succeeded,
    followed by a conversion and a save that succeeded. *)
Definition produced_from (videoUrl recipeId : string) (v : ParsedVideo) : Prop :=
  exists h1 filePath h2 ffmpegPath h3 converted h4 d,
    downloadVideo videoUrl h1 = Ret (Some filePath)
    /\ getFfmpegPath h2 = Ret ffmpegPath
    /\ convertToMp4 filePath ffmpegPath h3 = Ret converted
    /\ saveVideoFile converted recipeId d h4 = Ret (video v, duration v).

(** The collaborators succeed for [videoUrl] whenever they are called. *)
Definition always_succeeds (videoUrl recipeId : string) (saved : string * option Q) : Prop :=
  exists filePath ffmpegPath converted,
    (forall h, downloadVideo videoUrl h = Ret (Some filePath))
    /\ (forall h, getFfmpegPath h = Ret ffmpegPath)
    /\ (forall h, convertToMp4 filePath ffmpegPath h = Ret converted)
    /\ (forall d h, saveVideoFile converted recipeId d h = Ret saved).

End WithCollaborators.

(** The videos of the rounds that returned one. *)
Fixpoint successes (outcomes : list (result (option ParsedVideo))) : list ParsedVideo :=
  match outcomes with
  | [] => []
  | Ret (Some v) :: r => v :: successes r
  | _ :: r => successes r
  end.

(** The download calls of a trace, in order. *)
Fixpoint downloads (trace : list Event) : list string :=
  match trace with
  | [] => []
  | DownloadVideo u :: r => u :: downloads r
  | _ :: r => downloads r
  end.

(** The URLs the loop hands to the downloader. *)
Fixpoint urls_of (candidates : list VideoObjectCandidate) : list string :=
  match candidates with
  | [] => []
  | c :: r =>
      match path_set (video_url c) with
      | Some u => u :: urls_of r
      | None => urls_of r
      end
  end.

(** Collaborators for a concrete run: one URL can be downloaded, every
    other download throws. *)
Definition example_metadata (u : string) (h : list Event) : result (option Q) :=
  Throw "metadata unavailable".

Definition example_download (u : string) (h : list Event) : result (option string) :=
  if decide (u = "https://cdn.example/ok.webm") then Ret (Some "/tmp/ok.webm")
  else Throw "HTTP 404".

Definition example_ffmpeg (h : list Event) : result (option string) :=
  Ret (Some "/usr/bin/ffmpeg").

Definition example_convert (p : string) (ffmpeg : option string) (h : list Event)
  : result string :=
  Ret "/tmp/ok.mp4".

Definition example_save (p recipeId : string) (d : option Q) (h : list Event)
  : result (string * option Q) :=
  Ret ("/recipes/r1/ok.mp4", Some (12 # 1)).

Definition example_unlink (p : string) (h : list Event) : result unit := Ret tt.

Definition example_video_field : json :=
  JArr [ JObj [("@type", JStr "VideoObject");
               ("contentUrl", JStr "https://cdn.example/gone.mp4")];
         JObj [("@type", JStr "videoobject");
               ("url", JStr "https://cdn.example/ok.webm");
               ("thumbnailUrl", JArr [JStr " https://cdn.example/ok.jpg "])];
         JObj [("@type", JStr "ImageObject"); ("url", JStr "https://cdn.example/x.png")] ].

End Videos.

(** ** server/db/repositories/stores.ts: [findBestIngredientStorePreference] *)

Module Stores.
Import Js.

Record IngredientStorePreferenceDto : Type := mkPreference {
  userId : string;
  normalizedName : string;
  storeId : string
}.

Record FuzzyPreferenceMatch : Type := mkMatch {
  preference : IngredientStorePreferenceDto;
  score : Q;
  isExactMatch : bool;
  isCurrentUser : bool
}.

(** An element of the result of [fuse.search]. *)
Record FuseResult : Type := mkFuseResult {
  item : IngredientStorePreferenceDto;
  fuse_score : option Q
}.

Definition normalizeIngredientName (name : string) : string :=
  collapse_spaces (trim (toLowerCase name)).

(** [listIngredientStorePreferencesForUsers]: the rows of the table whose
    user is one of [userIds]. *)
Definition listIngredientStorePreferencesForUsers
    (table : list IngredientStorePreferenceDto) (userIds : list string)
  : list IngredientStorePreferenceDto :=
  match userIds with
  | [] => []
  | _ => List.filter (fun p => bool_decide (userId p ∈ userIds)) table
  end.

(** [best.score ?? 1] *)
Definition score_or_1 (r : FuseResult) : Q :=
  match fuse_score r with Some q => q | None => 1 end.

Section WithFuse.

(** The rows of the table [ingredient_store_preferences]. *)
Variable table : list IngredientStorePreferenceDto.
(** [new Fuse(all, FUSE_OPTIONS).search(q)], of the package fuse.js. *)
Variable fuse_search :
  list IngredientStorePreferenceDto -> string -> list FuseResult.

Definition findBestIngredientStorePreference
    (currentUserId : string) (userIds : list string) (searchName : string)
  : option FuzzyPreferenceMatch :=
  if is_empty_list userIds || is_empty (trim searchName) then None
  else
    let normalizedSearch := normalizeIngredientName searchName in
    let allPreferences := listIngredientStorePreferencesForUsers table userIds in
    if is_empty_list allPreferences then None
    else
      let currentUserExact :=
        List.find (fun p => bool_decide (userId p = currentUserId)
                            && bool_decide (normalizedName p = normalizedSearch))
                  allPreferences in
      match currentUserExact with
      | Some p => Some (mkMatch p 0 true true)
      | None =>
          let otherUserExact :=
            List.find (fun p => negb (bool_decide (userId p = currentUserId))
                                && bool_decide (normalizedName p = normalizedSearch))
                      allPreferences in
          match otherUserExact with
          | Some p => Some (mkMatch p 0 true false)
          | None =>
              let results := fuse_search allPreferences normalizedSearch in
              if is_empty_list results then None
              else
                let currentUserMatches :=
                  List.filter (fun r => bool_decide (userId (item r) = currentUserId))
                              results in
                let otherUserMatches :=
                  List.filter (fun r => negb (bool_decide (userId (item r) = currentUserId)))
                              results in
                match currentUserMatches with
                | best :: _ => Some (mkMatch (item best) (score_or_1 best) false true)
                | [] =>
                    match otherUserMatches with
                    | best :: _ => Some (mkMatch (item best) (score_or_1 best) false false)
                    | [] => None
                    end
                end
          end
      end.

End WithFuse.

(** The selection in the words of the spec, by strict priority: the exact
    match of the current user, then the exact match of another member of
    the household, then the best fuzzy match of the current user, then the
    best fuzzy match of the others; [results] are the fuzzy matches, best
    first. *)
Definition spec_select (currentUserId : string)
    (allPreferences : list IngredientStorePreferenceDto)
    (results : list FuseResult) (normalizedSearch : string)
  : option FuzzyPreferenceMatch :=
  let exact p := bool_decide (normalizedName p = normalizedSearch) in
  let mine p := bool_decide (userId p = currentUserId) in
  match List.find (fun p => mine p && exact p) allPreferences with
  | Some p => Some (mkMatch p 0 true true)
  | None =>
      match List.find (fun p => negb (mine p) && exact p) allPreferences with
      | Some p => Some (mkMatch p 0 true false)
      | None =>
          match List.find (fun r => mine (item r)) results with
          | Some r => Some (mkMatch (item r) (score_or_1 r) false true)
          | None =>
              match List.find (fun r => negb (mine (item r))) results with
              | Some r => Some (mkMatch (item r) (score_or_1 r) false false)
              | None => None
              end
          end
      end
  end.

(** The fuzzy matches come best first. *)
Definition best_first (results : list FuseResult) : Prop :=
  StronglySorted (fun a b => Qle (score_or_1 a) (score_or_1 b)) results.

(** A search for concrete inputs: the rows whose name contains the query
    or is contained in it, all with the same score. *)
Definition example_fuse (all : list IngredientStorePreferenceDto) (q : string)
  : list FuseResult :=
  map (fun p => mkFuseResult p (Some (2 # 10)))
      (List.filter (fun p => includes (normalizedName p) q || includes q (normalizedName p))
                   all).

Definition example_table : list IngredientStorePreferenceDto :=
  [ mkPreference "bob" "whole milk" "store-b";
    mkPreference "ann" "oat milk" "store-a";
    mkPreference "bob" "flour" "store-b";
    mkPreference "eve" "milk" "store-e" ].

End Stores.

(** ** The recipe DTO and the two ways to assemble it *)

Module Recipe.
Import Js Json Eff.

Record ParsedIngredient : Type := mkParsedIngredient {
  ingredientName : string;
  amount : option Q;
  ing_unit : option string;
  ing_systemUsed : MeasurementSystem;
  ing_order : Z
}.

Record ParsedImage : Type := mkParsedImage {
  image_path : string;
  image_order : Z
}.

Record ParsedNutrition : Type := mkParsedNutrition {
  calories : option Q;
  fat : option string;
  carbs : option string;
  protein : option string
}.

(** [FullRecipeInsertDTO]; a field that the assembling code leaves out is
    [None].  The two arrays the orchestrator looks at are arrays in every
    DTO of this type. *)
Record FullRecipeInsertDTO : Type := mkDTO {
  id : option string;
  name : string;
  description : option string;
  url : option string;
  image : option string;
  servings : option num;
  prepMinutes : option num;
  cookMinutes : option num;
  totalMinutes : option num;
  nutrition : option ParsedNutrition;
  systemUsed : MeasurementSystem;
  steps : list Steps.ParsedStep;
  recipeIngredients : list ParsedIngredient;
  tags : list string;
  images : option (list ParsedImage);
  videos : option (list Videos.ParsedVideo)
}.

(** [parsed.map((ing, i) => ({ ..., order: i }))], in both assembling
    functions. *)
Definition to_parsed_ingredient (systemUsed : MeasurementSystem)
    (ing : Ingredients.Ingredient) (i : Z) : ParsedIngredient :=
  {| ingredientName := Ingredients.description ing;
     amount := Ingredients.quantity ing;
     ing_unit := Ingredients.unitOfMeasureID ing;
     ing_systemUsed := systemUsed;
     ing_order := i |}.

(** [s.split(/\r?\n/)]; [cur] is the piece being read. *)
Fixpoint split_lines_from (cur : string) (s : string) : list string :=
  match s with
  | EmptyString => [cur]
  | String c r =>
      if (code c =? 10)%nat then cur :: split_lines_from "" r
      else if (code c =? 13)%nat
              && match r with String d _ => (code d =? 10)%nat | EmptyString => false end
      then split_lines_from cur r
      else split_lines_from (cur +:+ String c "") r
  end.

(** [splitNonEmptyLines] of parser-helpers. *)
Definition splitNonEmptyLines (s : option string) : list string :=
  match s with
  | None => []
  | Some t =>
      if is_empty t then []
      else List.filter (fun x => negb (is_empty x)) (map trim (split_lines_from "" t))
  end.

(** [x || undefined] for an optional string. *)
Definition truthy_string (s : option string) : option string :=
  match s with
  | Some t => if is_empty t then None else Some t
  | None => None
  end.

(** The argument of [buildRecipeDTO]. *)
Record RecipeParseInput : Type := mkInput {
  in_name : string;
  in_image : option string;
  in_url : option string;
  in_description : option string;
  in_servings : option num;
  in_prepMinutes : option num;
  in_cookMinutes : option num;
  in_totalMinutes : option num;
  ingredientsText : option string;
  instructionsText : option string;
  in_categories : option (list string)
}.

Section WithCollaborators.

Variable decode : string -> string.
Variable parseIngredient : string -> Ingredients.UnitsMap -> list Ingredients.Ingredient.
(** [inferSystemUsedFromParsed] of lib/determine-recipe-system. *)
Variable inferSystemUsedFromParsed : list Ingredients.Ingredient -> MeasurementSystem.
(** [extractNutrition] of parsers/nutrition, which reads numbers with
    [parseFloat]. *)
Variable extractNutrition : list (string * json) -> ParsedNutrition.
(** [FullRecipeInsertSchema.safeParse(dto)]: the error when the DTO is
    rejected; an accepted DTO is returned as it is. *)
Variable schema_error : FullRecipeInsertDTO -> option string.

(** [normalizeIngredientSource] of parsers/ingredients. *)
Definition normalizeIngredientSource (ingSource : option json) : list string :=
  match ingSource with
  | Some (JArr l) =>
      List.filter (fun s => negb (is_empty s))
        (map (fun v => match v with JNull => "" | _ => decode (to_string v) end) l)
  | Some (JStr s) => [decode s]
  | _ => []
  end.

(** [parseIngredients] of parsers/ingredients. *)
Definition parseIngredients (json : list (string * json)) (units : Ingredients.UnitsMap)
  : list ParsedIngredient * MeasurementSystem :=
  let ingSource := nullish_or (field "recipeIngredient" json) (field "ingredients" json) in
  let rawIngredients := normalizeIngredientSource ingSource in
  let parsed := Ingredients.parseIngredientWithDefaults parseIngredient rawIngredients units in
  let systemUsed := inferSystemUsedFromParsed parsed in
  (Steps.mapi (to_parsed_ingredient systemUsed) parsed, systemUsed).

Definition parseTags (keywords : option json) : list string :=
  match keywords with
  | Some (JArr l) =>
      flat_map (fun k => match k with JStr s => [toLowerCase s] | _ => [] end) l
  | _ => []
  end.

(** [buildRecipeDTO] of importers/parser-helpers, which the Mela and the
    Paprika importer call. *)
Definition buildRecipeDTO (input : RecipeParseInput) (units : Ingredients.UnitsMap)
  : result FullRecipeInsertDTO :=
  if is_empty (in_name input) || is_empty (trim (in_name input))
  then Throw "Missing recipe name"
  else
    let ingredientLines := splitNonEmptyLines (ingredientsText input) in
    let ingredientArray :=
      Ingredients.parseIngredientWithDefaults parseIngredient ingredientLines units in
    let systemUsed := inferSystemUsedFromParsed ingredientArray in
    let stepLines := splitNonEmptyLines (instructionsText input) in
    let tags :=
      map trim
        (List.filter (fun cat => negb (is_empty cat) && negb (is_empty (trim cat)))
           (match in_categories input with Some l => l | None => [] end)) in
    let dto :=
      {| id := None;
         name := trim (in_name input);
         description := truthy_string (in_description input);
         url := truthy_string (in_url input);
         image := truthy_string (in_image input);
         servings := in_servings input;
         prepMinutes := in_prepMinutes input;
         cookMinutes := in_cookMinutes input;
         totalMinutes := in_totalMinutes input;
         nutrition := None;
         systemUsed := systemUsed;
         steps :=
           Steps.mapi (fun s i => Steps.mkParsedStep s systemUsed i) stepLines;
         recipeIngredients :=
           Steps.mapi (to_parsed_ingredient systemUsed) ingredientArray;
         tags := tags;
         images := None;
         videos := None |} in
    match schema_error dto with
    | Some message => Throw ("Schema validation failed: " +:+ message)
    | None => Ret dto
    end.

End WithCollaborators.

(** The Mela recipe of the spec's example, as [parseMelaRecipeToDTO] hands
    it to [buildRecipeDTO]. *)
Definition tea_input : RecipeParseInput :=
  {| in_name := "Tea"; in_image := None; in_url := None; in_description := None;
     in_servings := None; in_prepMinutes := None; in_cookMinutes := None;
     in_totalMinutes := None;
     ingredientsText :=
       Some ("1 cup water" +:+ String (ascii_of_nat 10) "2 tbsp tea leaves");
     instructionsText :=
       Some ("Boil water" +:+ String (ascii_of_nat 10) "Steep leaves");
     in_categories := None |}.

(** The same recipe as a JSON-LD node. *)
Definition tea_jsonld : json :=
  JObj [("@type", JStr "Recipe"); ("name", JStr "Tea");
        ("recipeIngredient", JArr [JStr "1 cup water"; JStr "2 tbsp tea leaves"]);
        ("recipeInstructions",
         JArr [JObj [("@type", JStr "HowToStep"); ("text", JStr "Boil water")];
               JObj [("@type", JStr "HowToStep"); ("text", JStr "Steep leaves")]])].

Definition no_nutrition (json : list (string * json)) : ParsedNutrition :=
  mkParsedNutrition None None None None.

End Recipe.

(** ** server/parser/index.ts: the orchestrator of a URL import *)

Module Orchestrator.
Import Js Json Eff Recipe.

Record ParseRecipeResult : Type := mkResult {
  recipe : FullRecipeInsertDTO;
  usedAI : bool
}.

(** The calls of the collaborators and the log, in order. *)
Inductive Event : Type :=
| Log (level message : string)
| IsVideoParsingEnabled
| ProcessVideoRecipe (url : string)
| FetchViaPlaywright (url : string)
| GetContentIndicators
| ShouldAlwaysUseAI
| TryExtractRecipeFromJsonLd
| TryExtractRecipeFromMicrodata
| IsAIEnabled
| ExtractRecipeWithAI (input : string).

(** The result of [getContentIndicators()]. *)
Record ContentIndicators : Type := mkIndicators {
  schemaIndicators : list string;
  contentIndicators : list string
}.

(** The [AIResult] of [extractRecipeWithAI]. *)
Inductive AIResult : Type :=
| AISuccess (data : FullRecipeInsertDTO)
| AIError (error code : string).

Definition call {R : Type} (ev : Event) (outcome : result R) : M (list Event) R :=
  fun trace => (outcome, trace ++ [ev]).

Definition log (level message : string) : M (list Event) unit :=
  modify (fun trace => trace ++ [Log level message]).

(** Both arrays of a DTO are arrays by its type, which leaves the two
    length tests of [hasValidRecipeData]. *)
Definition hasValidRecipeData (recipe : option FullRecipeInsertDTO) : bool :=
  match recipe with
  | Some r =>
      negb (is_empty_list (recipeIngredients r)) && negb (is_empty_list (steps r))
  | None => false
  end.

Section WithCollaborators.

Variable isVideoUrl : string -> bool.
Variable isVideoParsingEnabled : result bool.
(** [processVideoRecipe(url, recipeId, allergies)] *)
Variable processVideoRecipe :
  string -> string -> option (list string) -> result FullRecipeInsertDTO.
(** [fetchViaPlaywright(url)]; [None] is a [null] page. *)
Variable fetchViaPlaywright : string -> result (option string).
Variable getContentIndicators : result ContentIndicators.
Variable shouldAlwaysUseAI : result bool.
(** [tryExtractRecipeFromJsonLd(url, html, recipeId)] *)
Variable tryExtractRecipeFromJsonLd :
  string -> string -> string -> result (option FullRecipeInsertDTO).
(** [tryExtractRecipeFromMicrodata(url, html, recipeId)] *)
Variable tryExtractRecipeFromMicrodata :
  string -> string -> string -> result (option FullRecipeInsertDTO).
(** [extractRecipeNodesFromJsonLd(html)], as the input made of it for the
    model: [JSON.stringify(nodes, null, 2)] when there are nodes. *)
Variable jsonLdInput : string -> option string.
Variable isAIEnabled : result bool.
(** [extractRecipeWithAI(input, recipeId, url, allergies)] *)
Variable extractRecipeWithAI :
  string -> string -> string -> option (list string) -> result AIResult.

Definition tryExtractWithAI (input recipeId url : string)
    (allergies : option (list string)) (requireAI : bool)
  : M (list Event) (option FullRecipeInsertDTO) :=
  enabled <- call IsAIEnabled isAIEnabled ;;
  if negb enabled then
    if requireAI then throw "AI-only import requested but AI is not enabled."
    else ret None
  else
    log "info" "Attempting AI extraction" ;;;
    result <- call (ExtractRecipeWithAI input)
                   (extractRecipeWithAI input recipeId url allergies) ;;
    match result with
    | AISuccess data => ret (Some data)
    | AIError _ _ => log "warn" "AI extraction failed" ;;; ret None
    end.

Definition extractWithAIPreference (html recipeId url : string)
    (allergies : option (list string)) (requireAI : bool)
  : M (list Event) (option FullRecipeInsertDTO) :=
  let fullHtml :=
    log "info" "AI: using full HTML as input" ;;;
    tryExtractWithAI html recipeId url allergies requireAI in
  match jsonLdInput html with
  | Some jsonLdInput =>
      log "info" "AI: using extracted JSON-LD as input (fewer tokens)" ;;;
      fromJsonLd <- tryExtractWithAI jsonLdInput recipeId url allergies requireAI ;;
      match fromJsonLd with
      | Some r => ret (Some r)
      | None => fullHtml
      end
  | None => fullHtml
  end.

Definition tryStructuredParsers (url html recipeId : string)
  : M (list Event) (option FullRecipeInsertDTO) :=
  jsonLdParsed <- call TryExtractRecipeFromJsonLd
                       (tryExtractRecipeFromJsonLd url html recipeId) ;;
  if hasValidRecipeData jsonLdParsed then ret jsonLdParsed
  else
    microParsed <- call TryExtractRecipeFromMicrodata
                        (tryExtractRecipeFromMicrodata url html recipeId) ;;
    if hasValidRecipeData microParsed then ret microParsed
    else ret None.

Definition tryHandleVideoUrl (url recipeId : string) (allergies : option (list string))
  : M (list Event) (option ParseRecipeResult) :=
  if negb (isVideoUrl url) then ret None
  else
    enabled <- call IsVideoParsingEnabled isVideoParsingEnabled ;;
    if negb enabled then throw "Video recipe parsing is not enabled."
    else
      try_catch
        (recipe <- call (ProcessVideoRecipe url) (processVideoRecipe url recipeId allergies) ;;
         ret (Some (mkResult recipe true)))
        (fun error => log "error" "Video processing failed" ;;; throw error).

(** [isPageLikelyRecipe], once the indicators are there. *)
Definition page_likely (html : string) (indicators : ContentIndicators) : bool :=
  let lowered := toLowerCase html in
  let hasSchema :=
    existsb (fun i => includes lowered (toLowerCase i)) (schemaIndicators indicators) in
  let contentHits :=
    length (List.filter (fun i => includes lowered (toLowerCase i))
              (contentIndicators indicators)) in
  hasSchema || (2 <=? contentHits)%nat.

Definition isPageLikelyRecipe (html : string) : M (list Event) bool :=
  indicators <- call GetContentIndicators getContentIndicators ;;
  ret (page_likely html indicators).

Definition parseRecipeFromUrl (url recipeId : string)
    (allergies : option (list string)) (forceAI : option bool)
  : M (list Event) ParseRecipeResult :=
  videoResult <- tryHandleVideoUrl url recipeId allergies ;;
  match videoResult with
  | Some r => ret r
  | None =>
      fetched <- call (FetchViaPlaywright url) (fetchViaPlaywright url) ;;
      match truthy_string fetched with
      | None => throw "Cannot fetch recipe page."
      | Some html =>
          likely <- isPageLikelyRecipe html ;;
          if negb likely then throw "Page does not appear to contain a recipe."
          else
            useAIOnly <- match forceAI with
                         | Some b => ret b
                         | None => call ShouldAlwaysUseAI shouldAlwaysUseAI
                         end ;;
            if useAIOnly then
              recipe <- extractWithAIPreference html recipeId url allergies true ;;
              match recipe with
              | None => throw "AI extraction failed"
              | Some r => ret (mkResult r true)
              end
            else
              structured <- tryStructuredParsers url html recipeId ;;
              match structured with
              | Some r => ret (mkResult r false)
              | None =>
                  recipe <- extractWithAIPreference html recipeId url allergies false ;;
                  match recipe with
                  | Some r => ret (mkResult r true)
                  | None =>
                      log "error" "All extraction methods failed" ;;;
                      throw "Cannot parse recipe."
                  end
              end
      end
  end.

(** The import reached the structured parsers: the URL is not a video,
    the page was fetched and looks like a recipe, and AI-only extraction
    is neither forced nor configured. *)
Definition reaches_structured (url : string) (forceAI : option bool) (html : string) : Prop :=
  isVideoUrl url = false
  /\ (exists fetched, fetchViaPlaywright url = Ret fetched /\ truthy_string fetched = Some html)
  /\ (exists indicators,
        getContentIndicators = Ret indicators /\ page_likely html indicators = true)
  /\ (forceAI = Some false \/ (forceAI = None /\ shouldAlwaysUseAI = Ret false)).

End WithCollaborators.

(** A page for a concrete run: its JSON-LD has the ingredient but no
    steps, its microdata has both. *)
Definition example_dto (steps : list Steps.ParsedStep) : FullRecipeInsertDTO :=
  {| id := Some "r1"; name := "Tea"; description := None; url := Some "";
     image := None; servings := None; prepMinutes := None; cookMinutes := None;
     totalMinutes := None; nutrition := None; systemUsed := Us;
     steps := steps;
     recipeIngredients :=
       [ {| ingredientName := "water"; amount := Some (1 # 1); ing_unit := Some "cup";
            ing_systemUsed := Us; ing_order := 0 |} ];
     tags := []; images := Some []; videos := Some [] |}.

Definition example_indicators : ContentIndicators :=
  {| schemaIndicators := ["schema.org/recipe"];
     contentIndicators := ["ingredients"; "instructions"; "servings"] |}.

Definition example_page : string :=
  "<html><h1>Tea</h1><h2>Ingredients</h2><p>1 cup water</p><h2>Instructions</h2></html>".

Definition example_import : M (list Event) ParseRecipeResult :=
  parseRecipeFromUrl
    (fun _ => false) (Ret false) (fun _ _ _ => Throw "not a video")
    (fun _ => Ret (Some example_page)) (Ret example_indicators) (Ret false)
    (fun _ _ _ => Ret (Some (example_dto [])))
    (fun _ _ _ => Ret (Some (example_dto [Steps.mkParsedStep "Boil water" Us 1])))
    (fun _ => None) (Ret false) (fun _ _ _ _ => Ret (AIError "disabled" "AI_DISABLED"))
    "https://example.org/tea" "r1" None None.

(** The same page on a site where both structured results are rejected
    and AI is enabled: the model finds no recipe in the JSON-LD of the page
    and finds one in the full HTML. *)
Definition example_fallback : M (list Event) ParseRecipeResult :=
  parseRecipeFromUrl
    (fun _ => false) (Ret false) (fun _ _ _ => Throw "not a video")
    (fun _ => Ret (Some example_page)) (Ret example_indicators) (Ret false)
    (fun _ _ _ => Ret (Some (example_dto [])))
    (fun _ _ _ => Ret None)
    (fun _ => Some "[{}]") (Ret true)
    (fun input _ _ _ =>
       if decide (input = "[{}]") then Ret (AIError "no recipe" "EMPTY")
       else Ret (AISuccess (example_dto [Steps.mkParsedStep "Boil water" Us 1])))
    "https://example.org/tea" "r1" None None.

End Orchestrator.

(** ** lib/helpers.ts: durations for display, the order of tags *)

Module Helpers.
Import Js Json.

(** [s.padStart(2, "0")] *)
Definition padStart2 (s : string) : string :=
  match String.length s with
  | O => "00"
  | S O => "0" +:+ s
  | _ => s
  end.

(** [formatMinutesHM], for a whole number of minutes; [None] is
    [undefined] on both sides. *)
Definition formatMinutesHM (mins : option Z) : option string :=
  match mins with
  | None => None
  | Some mins =>
      if (mins <? 0)%Z then None
      else if (mins <? 60)%Z then Some (Z_to_string mins +:+ "m")
      else
        let h := (mins / 60)%Z in
        let m := (mins mod 60)%Z in
        Some (Z_to_string h +:+ ":" +:+ padStart2 (Z_to_string m) +:+ "h")
  end.

(** [allergySet.has(tagName.toLowerCase())] *)
Definition isAllergenTag (tagName : string) (allergySet : gset string) : bool :=
  bool_decide (toLowerCase tagName ∈ allergySet).

Section WithTag.

(** The type [T extends { name: string }] of the tags. *)
Variable T : Type.
Variable name : T -> string.

(** The body of the loop of [sortTagsWithAllergyPriority]: the two arrays
    after [tag] was pushed to one of them. *)
Definition push_tag (allergySet : gset string) (acc : list T * list T) (tag : T)
  : list T * list T :=
  if decide (toLowerCase (name tag) ∈ allergySet)
  then (fst acc ++ [tag], snd acc)
  else (fst acc, snd acc ++ [tag]).

Definition sortTagsWithAllergyPriority (tags : list T) (allergies : list string) : list T :=
  let allergySet : gset string := list_to_set (map toLowerCase allergies) in
  let '(allergenTags, nonAllergenTags) :=
    fold_left (push_tag allergySet) tags ([], []) in
  allergenTags ++ nonAllergenTags.

End WithTag.

End Helpers.

(** ** server/importers/parser-helpers.ts *)

Module ParserHelpers.
Import Js Json Eff.

(** The alternatives of [(?:hrs?|hours?|h)] and [(?:mins?|minutes?|m)] in
    the order in which a backtracking matcher tries them. *)
Definition hour_words : list string := ["hrs"; "hr"; "hours"; "hour"; "h"].
Definition minute_words : list string := ["mins"; "min"; "minutes"; "minute"; "m"].

(** [(?:\s|\d|$)] at the head of [rest]. *)
Definition hour_tail (rest : string) : bool :=
  match rest with
  | EmptyString => true
  | String c _ => is_space c || is_digit c
  end.

(** [(?!\w)] at the head of [rest]. *)
Definition minute_tail (rest : string) : bool :=
  match rest with
  | EmptyString => true
  | String c _ => negb (is_word c)
  end.

(** The pattern [(\d+)\s*(?:w1|w2|...)tail] with flag [i], tried at the
    head of [s]: the capture. *)
Definition unit_match_at (words : list string) (tail : string -> bool) (s : string)
  : option string :=
  Ingredients.first_some
    (fun '(d, t) =>
       Ingredients.first_some
         (fun '(_, u) =>
            Ingredients.first_some
              (fun w =>
                 if startsWith_ci w u && tail (drop (String.length w) u)
                 then Some d else None)
              words)
         (Ingredients.space_prefixes t))
    (Ingredients.digit_prefixes s).

(** [lower.match(pattern)]: the capture of the leftmost match. *)
Fixpoint unit_search (words : list string) (tail : string -> bool) (s : string)
  : option string :=
  match unit_match_at words tail s with
  | Some d => Some d
  | None =>
      match s with
      | EmptyString => None
      | String _ r => unit_search words tail r
      end
  end.

(** [lower.match(/^(\d{1,2}):(\d{2})\s*(?:h|hr)?$/i)]: the two captures. *)
Definition colon_match (lower : string) : option (string * string) :=
  Ingredients.first_some
    (fun '(h, t) =>
       if (String.length h <=? 2)%nat then
         match t with
         | String ":" (String a (String b t2)) =>
             if is_digit a && is_digit b then
               Ingredients.first_some
                 (fun '(_, u) =>
                    Ingredients.first_some
                      (fun w =>
                         if startsWith_ci w u && is_empty (drop (String.length w) u)
                         then Some (h, String a (String b "")) else None)
                      ["h"; "hr"; ""])
                 (Ingredients.space_prefixes t2)
             else None
         | _ => None
         end
       else None)
    (Ingredients.digit_prefixes lower).

(** [Number.isFinite(total) && total > 0 ? total : undefined] *)
Definition positive_total (total : num) : option Z :=
  match total with
  | Num t => if (0 <? t)%Z then Some t else None
  | _ => None
  end.

(** [hours * 60 + minutes] *)
Definition total_minutes (hours minutes : num) : num :=
  num_add (num_mul hours (Num 60)) minutes.

(** [parseHumanDurationToMinutes].  Every capture is a run of digits. *)
Definition parseHumanDurationToMinutes (s : option string) : option Z :=
  match s with
  | None => None
  | Some s =>
      if is_empty s || is_empty (trim s) then None
      else
        let lower := trim (toLowerCase s) in
        match colon_match lower with
        | Some (h, m) => positive_total (total_minutes (parseInt h) (parseInt m))
        | None =>
            let hours :=
              match unit_search hour_words hour_tail lower with
              | Some d => parseInt d
              | None => Num 0
              end in
            let minutes :=
              match unit_search minute_words minute_tail lower with
              | Some d => parseInt d
              | None => Num 0
              end in
            positive_total (total_minutes hours minutes)
        end
  end.

(** The argument of [parseServings] when it is neither [null] nor
    [undefined]: a finite number or a string. *)
Inductive ServingsInput : Type :=
| ServingsNumber (n : Q)
| ServingsString (s : string).

(** [Math.round] on a finite number: halves go up. *)
Definition round (q : Q) : Z :=
  let x := (q + (1 # 2))%Q in
  (Qnum x / Z.pos (Qden x))%Z.

Definition parseServings (inp : option ServingsInput) : option num :=
  match inp with
  | None => None
  | Some (ServingsNumber n) => Some (Num (Z.max 1 (round n)))
  | Some (ServingsString s) => option_map parseInt (Metadata.first_digits s)
  end.

(** Whether [s] holds a line feed. *)
Fixpoint has_line_feed (s : string) : bool :=
  match s with
  | EmptyString => false
  | String c r => (code c =? 10)%nat || has_line_feed r
  end.

(** A line as [splitNonEmptyLines] returns it: not empty, no white space
    around it, no line feed in it. *)
Definition clean_line (line : string) : bool :=
  negb (is_empty line) && bool_decide (trim line = line) && negb (has_line_feed line).

End ParserHelpers.

(** ** The two directions of a duration: [formatMinutesHM] of lib/helpers
    and [parseHumanDurationToMinutes] of the importers *)

Module DurationRoundTrip.
Import Helpers ParserHelpers.

(** Reading back what [formatMinutesHM] wrote for [mins] gives [mins]. *)
Definition reads_back (mins : Z) : bool :=
  match parseHumanDurationToMinutes (formatMinutesHM (Some mins)) with
  | Some n => (n =? mins)%Z
  | None => false
  end.

End DurationRoundTrip.

(** ** server/importers: [parseMelaRecipeToDTO], [parseMelaArchive],
    [parsePaprikaRecipeToDTO] *)

Module Importers.
Import Js Json Eff Recipe ParserHelpers.

(** What an import does to the outside: the image files it stores. *)
Inductive Event : Type :=
| SaveImageBytes (recipeId : string).

(** [{ ...dto, id: recipeId }] *)
Definition with_id (dto : FullRecipeInsertDTO) (recipeId : string) : FullRecipeInsertDTO :=
  {| id := Some recipeId;
     name := name dto;
     description := description dto;
     url := url dto;
     image := image dto;
     servings := servings dto;
     prepMinutes := prepMinutes dto;
     cookMinutes := cookMinutes dto;
     totalMinutes := totalMinutes dto;
     nutrition := nutrition dto;
     systemUsed := systemUsed dto;
     steps := steps dto;
     recipeIngredients := recipeIngredients dto;
     tags := tags dto;
     images := images dto;
     videos := videos dto |}.

(** The type [MelaRecipe]. *)
Record MelaRecipe : Type := mkMelaRecipe {
  categories : option (list string);
  cookTime : option string;
  date : option Z;
  favorite : option bool;
  mela_id : option string;
  images : option (list string);
  ingredients : option string;
  instructions : option string;
  link : option string;
  notes : option string;
  mela_nutrition : option string;
  prepTime : option string;
  text : option string;
  title : option string;
  totalTime : option string;
  wantToCook : option bool;
  yield : option ServingsInput
}.

(** [x || undefined] and [x] itself for a field of the Paprika schema. *)
Definition nullable_truthy (v : Paprika.nullable string) : option string :=
  match v with
  | Paprika.Val s => if is_empty s then None else Some s
  | _ => None
  end.

Definition nullable_value (v : Paprika.nullable string) : option string :=
  match v with
  | Paprika.Val s => Some s
  | _ => None
  end.

(** [name] matches [/\.melarecipe$/i]. *)
Definition is_melarecipe (name : string) : bool :=
  let ext := ".melarecipe" in
  let n := String.length name in
  (String.length ext <=? n)%nat
  && bool_decide (toLowerCase (drop (n - String.length ext) name) = ext).

(** [zip.file(/\.melarecipe$/i)] *)
Definition mela_files (zip : list Paprika.ZipEntry) : list Paprika.ZipEntry :=
  filter (fun e => negb (Paprika.entry_dir e) && is_melarecipe (Paprika.entry_name e) = true)
         zip.

Section WithCollaborators.

Variable parseIngredient : string -> Ingredients.UnitsMap -> list Ingredients.Ingredient.
Variable inferSystemUsedFromParsed : list Ingredients.Ingredient -> MeasurementSystem.
Variable schema_error : FullRecipeInsertDTO -> option string.
(** The result of [getUnits()]. *)
Variable units : Ingredients.UnitsMap.
(** The result of [crypto.randomUUID()]. *)
Variable uuid : string.
(** [base64ToBuffer] of parser-helpers, as far as it ends: with the bytes
    or with an exception. *)
Variable base64ToBuffer : string -> result (list Byte.byte).
(** [saveImageBytes(buffer, recipeId)] of the downloader. *)
Variable saveImageBytes : list Byte.byte -> string -> result string.
(** [entry.async("string")] and [JSON.parse(text)]. *)
Variable read_string : Paprika.ZipEntry -> result string.
Variable json_parse : string -> result json.

Definition save (buffer : list Byte.byte) (recipeId : string) : M (list Event) string :=
  fun trace => (saveImageBytes buffer recipeId, trace ++ [SaveImageBytes recipeId]).

(** [saveBase64Image]: a failure to decode or to store is ignored. *)
Definition saveBase64Image (base64Data recipeId : string) : M (list Event) (option string) :=
  try_catch
    (buffer <- lift (base64ToBuffer base64Data) ;;
     path <- save buffer recipeId ;;
     ret (Some path))
    (fun _ => ret None).

(** [saveBufferImage] *)
Definition saveBufferImage (buffer : option (list Byte.byte)) (recipeId : string)
  : M (list Event) (option string) :=
  match buffer with
  | None | Some [] => ret None
  | Some bytes =>
      try_catch
        (path <- save bytes recipeId ;; ret (Some path))
        (fun _ => ret None)
  end.

Definition parseMelaRecipeToDTO (json : MelaRecipe) : M (list Event) FullRecipeInsertDTO :=
  let title := trim (match title json with Some t => t | None => "" end) in
  if is_empty title then throw "Missing title"
  else
    let recipeId := uuid in
    image <- match images json with
             | Some (first :: _) => saveBase64Image first recipeId
             | _ => ret None
             end ;;
    dto <- lift (buildRecipeDTO parseIngredient inferSystemUsedFromParsed schema_error
                   {| in_name := title;
                      in_image := image;
                      in_url := truthy_string (link json);
                      in_description := truthy_string (text json);
                      in_servings := parseServings (yield json);
                      in_prepMinutes :=
                        option_map Num (parseHumanDurationToMinutes (prepTime json));
                      in_cookMinutes :=
                        option_map Num (parseHumanDurationToMinutes (cookTime json));
                      in_totalMinutes :=
                        option_map Num (parseHumanDurationToMinutes (totalTime json));
                      ingredientsText := ingredients json;
                      instructionsText := instructions json;
                      in_categories := categories json |}
                   units) ;;
    ret (with_id dto recipeId).

(** The body of the loop of [parseMelaArchive] for one entry. *)
Definition parse_entry (entry : Paprika.ZipEntry) (recipes : list json)
  : M (list Paprika.Warning) (list json) :=
  try_catch
    (text <- lift (read_string entry) ;;
     json <- lift (json_parse text) ;;
     ret (recipes ++ [json]))
    (fun e =>
       modify (fun log =>
                 log ++ [Paprika.mkWarning (Paprika.entry_name entry) e
                           "Skipping corrupted .melarecipe file"]) ;;;
       ret recipes).

Fixpoint parse_entries (entries : list Paprika.ZipEntry) (recipes : list json)
  : M (list Paprika.Warning) (list json) :=
  match entries with
  | [] => ret recipes
  | entry :: r => recipes' <- parse_entry entry recipes ;; parse_entries r recipes'
  end.

Definition parseMelaArchive (zip : list Paprika.ZipEntry)
  : M (list Paprika.Warning) (list json) :=
  parse_entries (mela_files zip) [].

(** What the [try] block reads from one entry. *)
Definition read_entry_json (entry : Paprika.ZipEntry) : result json :=
  Paprika.rbind (read_string entry) json_parse.

(** [parsePaprikaRecipeToDTO]; [json] is the value it is handed, which it
    validates itself. *)
Definition parsePaprikaRecipeToDTO (json : json) (imageBuffer : option (list Byte.byte))
  : M (list Event) FullRecipeInsertDTO :=
  validated <- lift (Paprika.PaprikaRecipeSchema_parse json) ;;
  let name := trim (Paprika.name validated) in
  if is_empty name then throw "Missing recipe name"
  else
    let recipeId := uuid in
    image <- saveBufferImage imageBuffer recipeId ;;
    let url :=
      match nullable_truthy (Paprika.source_url validated) with
      | Some u => Some u
      | None => nullable_truthy (Paprika.source validated)
      end in
    dto <- lift (buildRecipeDTO parseIngredient inferSystemUsedFromParsed schema_error
                   {| in_name := name;
                      in_image := image;
                      in_url := url;
                      in_description := nullable_truthy (Paprika.description validated);
                      in_servings :=
                        parseServings
                          (option_map ServingsString
                             (nullable_value (Paprika.servings validated)));
                      in_prepMinutes :=
                        option_map Num
                          (parseHumanDurationToMinutes
                             (nullable_value (Paprika.prep_time validated)));
                      in_cookMinutes :=
                        option_map Num
                          (parseHumanDurationToMinutes
                             (nullable_value (Paprika.cook_time validated)));
                      in_totalMinutes :=
                        option_map Num
                          (parseHumanDurationToMinutes
                             (nullable_value (Paprika.total_time validated)));
                      ingredientsText := nullable_truthy (Paprika.ingredients validated);
                      instructionsText := nullable_truthy (Paprika.directions validated);
                      in_categories := Some (Paprika.categories validated) |}
                   units) ;;
    ret (with_id dto recipeId).

End WithCollaborators.

(** A Mela recipe with a title and nothing else. *)
Definition mela_titled (t : string) : MelaRecipe :=
  {| categories := None; cookTime := None; date := None; favorite := None;
     mela_id := None; images := None; ingredients := None; instructions := None;
     link := None; notes := None; mela_nutrition := None; prepTime := None;
     text := None; title := Some t; totalTime := None; wantToCook := None;
     yield := None |}.

(** The Mela recipe of the spec's example, with a picture. *)
Definition mela_tea : MelaRecipe :=
  {| categories := Some ["Drinks"; "  "; " Hot "]; cookTime := Some "5 min";
     date := None; favorite := None; mela_id := None;
     images := Some ["aGVsbG8="]; ingredients := ingredientsText tea_input;
     instructions := instructionsText tea_input;
     link := Some "https://example.org/tea"; notes := None; mela_nutrition := None;
     prepTime := Some "0:05"; text := Some ""; title := Some " Tea ";
     totalTime := Some "10m"; wantToCook := None;
     yield := Some (ServingsString "2 cups") |}.

(** A Mela archive: a folder, a recipe, a broken recipe, another file. *)
Definition mela_zip : list Paprika.ZipEntry :=
  [ Paprika.mkZipEntry "Recipes/" true [];
    Paprika.mkZipEntry "Recipes/Tea.melarecipe" false [Byte.x01];
    Paprika.mkZipEntry "Recipes/Broken.MelaRecipe" false [Byte.x00];
    Paprika.mkZipEntry "Recipes/cover.png" false [Byte.x01] ].

Definition mela_read (e : Paprika.ZipEntry) : result string :=
  match Paprika.entry_data e with
  | [Byte.x01] => Ret "{}"
  | _ => Ret "{"
  end.

Definition mela_json (text : string) : result json :=
  if bool_decide (text = "{}") then Ret (JObj [])
  else Throw "Unexpected end of JSON input".

End Importers.

(** ** What an archive import accounts for *)

Module Accounting.
Import Js Json Eff.

(** The recipes and the warnings of [parseMelaArchive], entry by entry. *)
Definition mela_recipe_of (r : result json) : list json :=
  match r with Ret j => [j] | Throw _ => [] end.

Definition mela_warning_of (entry : Paprika.ZipEntry) (r : result json)
  : list Paprika.Warning :=
  match r with
  | Ret _ => []
  | Throw e =>
      [Paprika.mkWarning (Paprika.entry_name entry) e "Skipping corrupted .melarecipe file"]
  end.

(** The same Mela recipe without its pictures. *)
Definition without_images (json : Importers.MelaRecipe) : Importers.MelaRecipe :=
  {| Importers.categories := Importers.categories json;
     Importers.cookTime := Importers.cookTime json;
     Importers.date := Importers.date json;
     Importers.favorite := Importers.favorite json;
     Importers.mela_id := Importers.mela_id json;
     Importers.images := None;
     Importers.ingredients := Importers.ingredients json;
     Importers.instructions := Importers.instructions json;
     Importers.link := Importers.link json;
     Importers.notes := Importers.notes json;
     Importers.mela_nutrition := Importers.mela_nutrition json;
     Importers.prepTime := Importers.prepTime json;
     Importers.text := Importers.text json;
     Importers.title := Importers.title json;
     Importers.totalTime := Importers.totalTime json;
     Importers.wantToCook := Importers.wantToCook json;
     Importers.yield := Importers.yield json |}.

End Accounting.

(** ** The kinds of calls in a trace of the orchestrator *)

Module Calls.
Import Orchestrator.

(** A call of one of the two structured extractors. *)
Definition is_structured_call (e : Event) : bool :=
  match e with
  | TryExtractRecipeFromJsonLd | TryExtractRecipeFromMicrodata => true
  | _ => false
  end.

(** A call of the model. *)
Definition is_ai_call (e : Event) : bool :=
  match e with ExtractRecipeWithAI _ => true | _ => false end.

(** A call of the video pipeline. *)
Definition is_video_call (e : Event) : bool :=
  match e with ProcessVideoRecipe _ => true | _ => false end.

(** A fetch of a page. *)
Definition is_fetch (e : Event) : bool :=
  match e with FetchViaPlaywright _ => true | _ => false end.

(** Any call that reads a recipe out of something. *)
Definition is_extraction (e : Event) : bool :=
  is_structured_call e || is_ai_call e || is_video_call e.

Section WithPage.
Variable isVideoUrl : string -> bool.
Variable fetchViaPlaywright : string -> Eff.result (option string).
Variable getContentIndicators : Eff.result ContentIndicators.

(** The URL is not a video, its page was fetched and looks like a
    recipe. *)
Definition page_accepted (url html : string) : Prop :=
  isVideoUrl url = false
  /\ (exists fetched,
        fetchViaPlaywright url = Eff.Ret fetched
        /\ Recipe.truthy_string fetched = Some html)
  /\ (exists indicators,
        getContentIndicators = Eff.Ret indicators
        /\ page_likely html indicators = true).

End WithPage.

End Calls.

(** ** The temporary files of [downloadAndSaveVideo] *)

Module TempFiles.
Import Videos.

(** The files a trace removes, in order. *)
Fixpoint unlinks (trace : list Event) : list string :=
  match trace with
  | [] => []
  | Unlink p :: r => p :: unlinks r
  | _ :: r => unlinks r
  end.

End TempFiles.

(** ** Normalized ingredient names *)

Module NormalNames.
Import Js.

(** Every white-space character of [s] is a plain space that is followed
    by a character that is not white space. *)
Fixpoint single_spaced (s : string) : bool :=
  match s with
  | EmptyString => true
  | String c r =>
      (if is_space c
       then bool_decide (c = " "%char)
            && match r with String d _ => negb (is_space d) | EmptyString => false end
       else true)
      && single_spaced r
  end.

(** A name in normal form: lower case, no white space at its head or its
    end, single plain spaces between its words. *)
Definition normal_name (s : string) : bool :=
  bool_decide (toLowerCase s = s)
  && match s with String c _ => negb (is_space c) | EmptyString => true end
  && single_spaced s.

End NormalNames.

(** ** The shape of a step *)

Module TextShape.
Import Js.

(** A text as the step parsers return it: not empty, no white space
    around it. *)
Definition clean_text (s : string) : Prop := s <> "" /\ trim s = s.

End TextShape.

(** ** The spellings of the unit dictionary *)

Module UnitSpellings.
Import Js Ingredients.

(** The spellings that the loop over the dictionary adds for one entry:
    the key, the short and the plural form when they are not empty, the
    alternates. *)
Definition added_spellings (entry : string * UnitDef) : list string :=
  fst entry
  :: match short (snd entry) with
     | Some u => if is_empty u then [] else [u]
     | None => []
     end
  ++ match plural (snd entry) with
     | Some u => if is_empty u then [] else [u]
     | None => []
     end
  ++ match alternates (snd entry) with
     | Some alts => alts
     | None => []
     end.

(** [a] may stand before [b] in a list sorted by length, longest first. *)
Definition longer_first (a b : string) : Prop :=
  (String.length b <= String.length a)%nat.

(** The elements of [l] of length [n], in their order. *)
Definition of_length (n : nat) (l : list string) : list string :=
  List.filter (fun u => (String.length u =? n)%nat) l.

End UnitSpellings.

(** ** server/parser/parsers/images.ts: [parseImages] *)

Module Images.
Import Js Json Eff Recipe.

(** The calls of the downloader. *)
Inductive Event : Type :=
| DownloadAllImagesFromJsonLd (imageField : json) (recipeId : string) (maxImages : Z).

(** [isLocalPath] *)
Definition isLocalPath (img : json) : bool :=
  match img with
  | JStr s => startsWith "/recipes/" s
  | _ => false
  end.

(** The string that an element is when [isLocalPath] holds of it. *)
Definition local_path (img : json) : list string :=
  match img with
  | JStr s => if startsWith "/recipes/" s then [s] else []
  | _ => []
  end.

Section WithDownloader.

(** [MAX_RECIPE_IMAGES] of the zod schemas. *)
Variable MAX_RECIPE_IMAGES : Z.
(** [downloadAllImagesFromJsonLd(imageField, recipeId, maxImages)] of the
    downloader. *)
Variable downloadAllImagesFromJsonLd : json -> string -> Z -> result (list string).

Definition download (imageField : json) (recipeId : string) (maxImages : Z)
  : M (list Event) (list string) :=
  fun trace =>
    (downloadAllImagesFromJsonLd imageField recipeId maxImages,
     trace ++ [DownloadAllImagesFromJsonLd imageField recipeId maxImages]).

(** The array [downloadedImages] before the result is built. *)
Definition downloaded_images (imageField : json) (recipeId : string)
  : M (list Event) (list string) :=
  if isLocalPath imageField then ret (local_path imageField)
  else
    match imageField with
    | JArr l =>
        let localPaths := List.filter isLocalPath l in
        let remotePaths := List.filter (fun img => negb (isLocalPath img)) l in
        if is_empty_list remotePaths then ret (flat_map local_path localPaths)
        else
          downloaded <- download (JArr remotePaths) recipeId
                          (MAX_RECIPE_IMAGES - Z.of_nat (length localPaths)) ;;
          ret (flat_map local_path localPaths ++ downloaded)
    | _ => download imageField recipeId MAX_RECIPE_IMAGES
    end.

(** [parseImages]: the array [images] and [primaryImage]. *)
Definition parseImages (imageField : option json) (recipeId : string)
  : M (list Event) (list ParsedImage * option string) :=
  if negb (truthy_opt imageField) then ret ([], None)
  else
    match imageField with
    | None => ret ([], None)
    | Some field =>
        downloadedImages <- downloaded_images field recipeId ;;
        ret (Steps.mapi (fun img index => mkParsedImage img index) downloadedImages,
             head downloadedImages)
    end.

End WithDownloader.

(** A downloader for concrete inputs: every remote picture of an array is
    stored under the recipe, up to the limit. *)
Definition example_downloader (imageField : json) (recipeId : string) (maxImages : Z)
  : result (list string) :=
  match imageField with
  | JArr l =>
      Ret (firstn (Z.to_nat maxImages)
             (map (fun _ => "/recipes/" +:+ recipeId +:+ "/downloaded.jpg") l))
  | _ => Ret ["/recipes/" +:+ recipeId +:+ "/downloaded.jpg"]
  end.

End Images.

(** ** server/parser/normalize.ts: [normalizeRecipeFromJson] *)

Module Normalize.
Import Js Json Eff Recipe.

(** What a normalization does to the outside: the calls of the image
    downloader, and the log and the calls of the video pipeline. *)
Record World : Type := mkWorld {
  image_events : list Images.Event;
  video_events : list Videos.Event
}.

(** [await parseImages(...)] and [await parseVideos(...)] inside the
    normalization: each runs on its own part of the world. *)
Definition on_images {A : Type} (m : M (list Images.Event) A) : M World A :=
  fun w =>
    let '(r, events) := m (image_events w) in
    (r, mkWorld events (video_events w)).

Definition on_videos {A : Type} (m : M (list Videos.Event) A) : M World A :=
  fun w =>
    let '(r, events) := m (video_events w) in
    (r, mkWorld (image_events w) events).

Section WithCollaborators.

Variable decode : string -> string.
Variable parseIngredient : string -> Ingredients.UnitsMap -> list Ingredients.Ingredient.
Variable inferSystemUsedFromParsed : list Ingredients.Ingredient -> MeasurementSystem.
Variable extractNutrition : list (string * json) -> ParsedNutrition.
(** [getUnits()] of the configuration loader. *)
Variable getUnits : result Ingredients.UnitsMap.
(** [randomUUID()] *)
Variable randomUUID : string.
Variable MAX_RECIPE_IMAGES : Z.
Variable downloadAllImagesFromJsonLd : json -> string -> Z -> result (list string).
Variable parseDuration : option string -> option Q.
Variable getVideoMetadata : string -> list Videos.Event -> result (option Q).
Variable downloadVideo : string -> list Videos.Event -> result (option string).
Variable getFfmpegPath : list Videos.Event -> result (option string).
Variable convertToMp4 : string -> option string -> list Videos.Event -> result string.
Variable saveVideoFile :
  string -> string -> option Q -> list Videos.Event -> result (string * option Q).
Variable unlink : string -> list Videos.Event -> result unit.

(** [normalizeRecipeFromJson].  A node that is not an object has none of
    the properties that are read.  The lines of the debug log are left
    out. *)
Definition normalizeRecipeFromJson (json : option json) (recipeId : option string)
  : M World (option FullRecipeInsertDTO) :=
  if negb (truthy_opt json) then ret None
  else
    let jsonObj := match json with Some (JObj o) => o | _ => [] end in
    let effectiveRecipeId := match recipeId with Some r => r | None => randomUUID end in
    units <- lift getUnits ;;
    let metadata := Metadata.parseMetadata decode jsonObj in
    let '(recipeIngredients, systemUsed) :=
      parseIngredients decode parseIngredient inferSystemUsedFromParsed jsonObj units in
    let steps := Steps.parseSteps decode (field "recipeInstructions" jsonObj) systemUsed in
    let nutrition := extractNutrition jsonObj in
    imageResult <- on_images
                     (Images.parseImages MAX_RECIPE_IMAGES downloadAllImagesFromJsonLd
                        (field "image" jsonObj) effectiveRecipeId) ;;
    let '(images, primaryImage) := imageResult in
    videos <- on_videos
                (Videos.parseVideos decode parseDuration getVideoMetadata downloadVideo
                   getFfmpegPath convertToMp4 saveVideoFile unlink
                   (field "video" jsonObj) effectiveRecipeId None) ;;
    let tags := parseTags (field "keywords" jsonObj) in
    ret (Some {| id := Some effectiveRecipeId;
                 name := Metadata.name metadata;
                 description := Metadata.description metadata;
                 url := Some "";
                 image := primaryImage;
                 servings := option_map Num (Metadata.servings metadata);
                 prepMinutes := Metadata.prepMinutes metadata;
                 cookMinutes := Metadata.cookMinutes metadata;
                 totalMinutes := Metadata.totalMinutes metadata;
                 nutrition := Some nutrition;
                 systemUsed := systemUsed;
                 steps := steps;
                 recipeIngredients := recipeIngredients;
                 tags := tags;
                 images := Some images;
                 videos := Some videos |}).

End WithCollaborators.

(** A downloader that fails, for concrete runs. *)
Definition failing_downloader (imageField : json) (recipeId : string) (maxImages : Z)
  : result (list string) :=
  Throw "ENOSPC: no space left on device".

End Normalize.

(** ** lib/grocery-grouping.ts: names for grouping *)

Module Grouping.
Import Js.

(** What follows the first [close] of [s]. *)
Fixpoint after_close (close : ascii) (s : string) : option string :=
  match s with
  | EmptyString => None
  | String c r => if decide (c = close) then Some r else after_close close r
  end.

(** The pattern [\s*\OPEN[^CLOSE]*\CLOSE\s*] tried at the head of [s]: what
    follows the match.  Each of the three runs is forced to be maximal: a
    shorter run of white space is followed by white space and not by the
    opening bracket, a shorter run of [[^CLOSE]] is followed by a character
    that is not the closing bracket. *)
Definition qualifier_at (open close : ascii) (s : string) : option string :=
  match trimStart s with
  | String c r =>
      if decide (c = open) then option_map trimStart (after_close close r) else None
  | EmptyString => None
  end.

(** [s.replace(/\s*\OPEN[^CLOSE]*\CLOSE\s*/g, " ")]; [skip] is the number of
    characters of [s] that still belong to the match just replaced. *)
Fixpoint strip_from (open close : ascii) (skip : nat) (s : string) : string :=
  match s with
  | EmptyString => EmptyString
  | String c r =>
      match skip with
      | S k => strip_from open close k r
      | O =>
          match qualifier_at open close s with
          | Some rest =>
              String " "
                (strip_from open close (String.length r - String.length rest) r)
          | None => String c (strip_from open close 0 r)
          end
      end
  end.

Definition strip_qualifiers (open close : ascii) (s : string) : string :=
  strip_from open close 0 s.

(** [normalizeIngredientNameForGrouping]; [None] is [null]. *)
Definition normalizeIngredientNameForGrouping (name : option string) : string :=
  match name with
  | None => ""
  | Some name =>
      if is_empty name then ""
      else
        toLowerCase
          (trim
             (collapse_spaces
                (strip_qualifiers "{" "}"
                   (strip_qualifiers "[" "]"
                      (strip_qualifiers "(" ")" name)))))
  end.

(** [getDisplayName] *)
Definition getDisplayName (name : option string) : string :=
  match name with
  | None => "Unknown item"
  | Some name =>
      if is_empty name then "Unknown item"
      else
        let shown :=
          trim (collapse_spaces
                  (strip_qualifiers "[" "]" (strip_qualifiers "(" ")" name))) in
        if is_empty shown then "Unknown item" else shown
  end.

(** Whether the character [c] occurs in [s]. *)
Fixpoint has_char (c : ascii) (s : string) : bool :=
  match s with
  | EmptyString => false
  | String d r => bool_decide (d = c) || has_char c r
  end.

(** A name without any of the six brackets. *)
Definition no_brackets (s : string) : bool :=
  negb (has_char "(" s) && negb (has_char ")" s)
  && negb (has_char "[" s) && negb (has_char "]" s)
  && negb (has_char "{" s) && negb (has_char "}" s).

(** Every white-space character of [s] is a plain space that is not
    followed by white space. *)
Fixpoint spaced (s : string) : bool :=
  match s with
  | EmptyString => true
  | String c r =>
      (if is_space c
       then bool_decide (c = " "%char)
            && match r with String d _ => negb (is_space d) | EmptyString => true end
       else true)
      && spaced r
  end.

End Grouping.

(** ** lib/grocery-grouping.ts: [hasGroupableItems] *)

Module GroupingItems.
Import Js Grouping.

Section WithGrocery.

(** The type [GroceryDto], of which the function reads two properties. *)
Variable GroceryDto : Type.
Variable storeId : GroceryDto -> option string.
Variable name : GroceryDto -> option string.

(** The groceries of a store ([None] is the list without a store) and
    their names for grouping. *)
Definition store_groceries (groceries : list GroceryDto) (store : option string)
  : list GroceryDto :=
  List.filter (fun g => bool_decide (storeId g = store)) groceries.

Definition store_names (groceries : list GroceryDto) (store : option string)
  : list string :=
  map (fun g => normalizeIngredientNameForGrouping (name g))
      (store_groceries groceries store).

Definition hasGroupableItems (groceries : list GroceryDto) (store : option string) : bool :=
  let storeGroceries := store_groceries groceries store in
  let names := store_names groceries store in
  let uniqueNames : gset string :=
    list_to_set (List.filter (fun n => negb (is_empty n)) names) in
  (size uniqueNames <? length storeGroceries)%nat.

End WithGrocery.

End GroupingItems.

(** * Properties *)

(** ** Strings *)

Module JsFacts.
Import Js.

Lemma startsWith_ci_lower p s :
  startsWith_ci p s = startsWith (toLowerCase p) (toLowerCase s).
Proof.
  revert s; induction p as [|a p IH]; intros [|b s]; simpl; try reflexivity.
  unfold ci_eq. destruct (decide (lower_char a = lower_char b)); simpl; auto.
Qed.

Lemma span_digits_all d :
  all_digits d = true -> span_digits d = (d, "").
Proof.
  induction d as [|c d IH]; simpl; [reflexivity|].
  intros [Hc Hd]%andb_prop. rewrite Hc, (IH Hd). reflexivity.
Qed.

Lemma span_digits_app d c r :
  all_digits d = true -> is_digit c = false ->
  span_digits (d +:+ String c r) = (d, String c r).
Proof.
  intros Hd Hc. induction d as [|a d IH]; simpl.
  - rewrite Hc. reflexivity.
  - simpl in Hd. apply andb_prop in Hd as [Ha Hd].
    rewrite Ha, (IH Hd). reflexivity.
Qed.

Lemma span_digits_prefix s d t :
  span_digits s = (d, t) -> all_digits d = true /\ s = d +:+ t.
Proof.
  revert d t; induction s as [|c s IH]; simpl; intros d t H.
  - inversion H; auto.
  - destruct (is_digit c) eqn:Hc.
    + destruct (span_digits s) as [d' t'] eqn:Hs. inversion H; subst.
      destruct (IH _ _ eq_refl) as [Hd ->]. simpl. rewrite Hc. auto.
    + inversion H; auto.
Qed.

Lemma digit_val_nonneg c : is_digit c = true -> (0 <= digit_val c)%Z.
Proof.
  unfold is_digit, digit_val. intros [H _]%andb_prop.
  apply Nat.leb_le in H. lia.
Qed.

Lemma digits_val_from_nonneg d acc :
  all_digits d = true -> (0 <= acc)%Z -> (0 <= digits_val_from acc d)%Z.
Proof.
  revert acc; induction d as [|c d IH]; simpl; intros acc Hd Hacc; [assumption|].
  apply andb_prop in Hd as [Hc Hd]. apply IH; [assumption|].
  pose proof (digit_val_nonneg c Hc). lia.
Qed.

Lemma digits_val_nonneg d : all_digits d = true -> (0 <= digits_val d)%Z.
Proof. intros Hd. apply digits_val_from_nonneg; [exact Hd|lia]. Qed.

(** *** Numbers *)

Lemma pow2_53_lt_1024 : (2 ^ 53 < 2 ^ 1024)%Z.
Proof. apply Z.pow_lt_mono_r; lia. Qed.

Lemma round53_small n : (0 <= n < 2 ^ 53)%Z -> round53 n = n.
Proof.
  intros [H0 H]. unfold round53.
  assert (Z.log2 n - 52 <= 0)%Z as He.
  { destruct (Z.eq_dec n 0%Z) as [->|Hn]; [vm_compute; discriminate|].
    assert (Z.log2 n < 53)%Z by (apply Z.log2_lt_pow2; [lia|exact H]). lia. }
  apply Z.leb_le in He. rewrite He. reflexivity.
Qed.

Lemma round53_nonneg n : (0 <= n)%Z -> (0 <= round53 n)%Z.
Proof.
  intros H. unfold round53. destruct (Z.log2 n - 52 <=? 0)%Z; [exact H|].
  apply Z.shiftl_nonneg.
  assert (0 <= Z.shiftr n (Z.log2 n - 52))%Z by (apply Z.shiftr_nonneg; exact H).
  destruct (_ || _); lia.
Qed.

(** Below [2^53] every integer is a double. *)
Lemma to_double_exact z : (Z.abs z < 2 ^ 53)%Z -> to_double z = Num z.
Proof.
  intros H. unfold to_double.
  rewrite round53_small by (split; [apply Z.abs_nonneg|exact H]).
  assert ((Z.abs z <? 2 ^ 1024)%Z = true) as ->.
  { apply Z.ltb_lt. pose proof pow2_53_lt_1024. lia. }
  rewrite Z.mul_comm, Z.abs_sgn. reflexivity.
Qed.

(** From [2^1024] on the Number value is [Infinity]. *)
Lemma to_double_overflow z : (2 ^ 1024 <= z)%Z -> to_double z = Infinity false.
Proof.
  intros H. assert (0 < 2 ^ 1024)%Z as Hpos by (apply Z.pow_pos_nonneg; lia).
  assert (0 < z)%Z as Hz by lia.
  unfold to_double. rewrite (Z.abs_eq z) by lia.
  assert (1024 <= Z.log2 z)%Z as Hlog by (apply Z.log2_le_pow2; assumption).
  assert (2 ^ 1024 <= round53 z)%Z as Hr.
  { unfold round53. set (e := (Z.log2 z - 52)%Z).
    assert (0 < e)%Z as He by (unfold e; lia).
    destruct (e <=? 0)%Z eqn:E; [apply Z.leb_le in E; lia|].
    set (q := Z.shiftr z e).
    assert (2 ^ 52 <= q)%Z as Hq.
    { unfold q. rewrite Z.shiftr_div_pow2 by lia.
      apply Z.div_le_lower_bound; [apply Z.pow_pos_nonneg; lia|].
      rewrite <- Z.pow_add_r by lia.
      replace (e + 52)%Z with (Z.log2 z) by (unfold e; lia).
      apply Z.log2_spec. exact Hz. }
    rewrite Z.shiftl_mul_pow2 by lia.
    assert (0 < 2 ^ e)%Z as Hpe by (apply Z.pow_pos_nonneg; lia).
    assert (2 ^ 1024 <= 2 ^ 52 * 2 ^ e)%Z as Hlow.
    { rewrite <- Z.pow_add_r by lia. apply Z.pow_le_mono_r; [lia|]. unfold e. lia. }
    eapply Z.le_trans; [exact Hlow|].
    apply Z.mul_le_mono_nonneg_r; [lia|].
    destruct (_ || _); lia. }
  assert ((round53 z <? 2 ^ 1024)%Z = false) as -> by (apply Z.ltb_ge; exact Hr).
  assert ((z <? 0)%Z = false) as -> by (apply Z.ltb_ge; lia).
  reflexivity.
Qed.

Lemma to_double_nonneg z : (0 <= z)%Z -> nonneg_num (to_double z).
Proof.
  intros H. unfold to_double. rewrite (Z.abs_eq z) by exact H.
  pose proof (round53_nonneg z H) as Hr.
  destruct (round53 z <? 2 ^ 1024)%Z; simpl.
  - apply Z.mul_nonneg_nonneg; [apply Z.sgn_nonneg; exact H|exact Hr].
  - apply Z.ltb_ge. exact H.
Qed.

Lemma nonneg_times_60 x : nonneg_num x -> nonneg_num (num_mul x (Num 60)).
Proof.
  destruct x as [|z|neg]; simpl; [tauto| |].
  - intros H. apply to_double_nonneg. lia.
  - intros ->. reflexivity.
Qed.

Lemma nonneg_add x y : nonneg_num x -> nonneg_num y -> nonneg_num (num_add x y).
Proof.
  destruct x as [|a|s], y as [|b|t]; simpl; try tauto.
  - intros Ha Hb. apply to_double_nonneg. lia.
  - intros -> ->. reflexivity.
Qed.

Lemma parseInt_digits d :
  all_digits d = true -> is_empty d = false -> parseInt d = to_double (digits_val d).
Proof.
  intros Hd Hne. unfold parseInt. rewrite (span_digits_all d Hd), Hne. reflexivity.
Qed.

Lemma parseInt_nonneg d :
  all_digits d = true -> is_empty d = false -> nonneg_num (parseInt d).
Proof.
  intros Hd Hne. rewrite (parseInt_digits d Hd Hne).
  apply to_double_nonneg, digits_val_nonneg, Hd.
Qed.

(** [h * 60 + m] in doubles is exact as long as the sum stays below
    [2^53]. *)
Lemma times_60_plus_exact h m :
  (0 <= h)%Z -> (0 <= m)%Z -> (h * 60 + m < 2 ^ 53)%Z ->
  num_add (num_mul (to_double h) (Num 60)) (to_double m) = Num (h * 60 + m).
Proof.
  intros Hh Hm H.
  rewrite (to_double_exact h), (to_double_exact m) by lia.
  cbn [num_mul num_add]. rewrite (to_double_exact (h * 60)) by lia.
  cbn [num_add]. apply to_double_exact. lia.
Qed.

End JsFacts.

(** ** [parseIsoDuration] *)

Module DurationFacts.
Import Js Duration JsFacts.

Lemma component_some designator s d t :
  component designator s = (Some d, t) ->
  all_digits d = true /\ is_empty d = false.
Proof.
  unfold component. destruct (span_digits s) as [d' t'] eqn:Hs.
  destruct d' as [|a d']; [discriminate|].
  destruct t' as [|c t']; [discriminate|].
  destruct (ci_eq c designator); [|discriminate].
  intros H; inversion H; subst. split; [|reflexivity].
  apply (span_digits_prefix _ _ _ Hs).
Qed.

Lemma component_hit designator d c r :
  all_digits d = true -> is_empty d = false ->
  is_digit c = false -> ci_eq c designator = true ->
  component designator (d +:+ String c r) = (Some d, r).
Proof.
  intros Hd Hne Hc Hci. unfold component.
  rewrite (span_digits_app d c r Hd Hc).
  destruct d; [discriminate|]. rewrite Hci. reflexivity.
Qed.

Lemma capture_num_component designator s c t :
  component designator s = (c, t) -> nonneg_num (capture_num c).
Proof.
  destruct c as [d|]; simpl.
  - intros [Hd Hne]%component_some. rewrite Hne. apply parseInt_nonneg; assumption.
  - intros _. lia.
Qed.

Lemma exec_iso_cons c r :
  exec_iso (String c r) =
  if startsWith_ci "PT" (String c r) then
    let '(h, t) := component "H" (drop 2 (String c r)) in
    let '(m, _) := component "M" t in
    Some (h, m)
  else exec_iso r.
Proof. reflexivity. Qed.

Lemma includes_cons c r p :
  includes (String c r) p = startsWith p (String c r) || includes r p.
Proof. reflexivity. Qed.

Lemma exec_iso_none s :
  exec_iso s = None <-> includes (toLowerCase s) "pt" = false.
Proof.
  induction s as [|c s IH]; [simpl; tauto|].
  rewrite exec_iso_cons, startsWith_ci_lower.
  change (toLowerCase "PT") with "pt".
  change (toLowerCase (String c s)) with (String (lower_char c) (toLowerCase s)).
  rewrite includes_cons.
  destruct (startsWith "pt" _).
  - destruct (component "H" _) as [h t], (component "M" t) as [m u].
    simpl. split; intros H; discriminate H.
  - simpl. exact IH.
Qed.

(** The duration is a number that is not negative whenever the pattern
    matches. *)
Lemma parseIsoDuration_number s x :
  parseIsoDuration s = Some x -> nonneg_num x.
Proof.
  unfold parseIsoDuration.
  destruct (exec_iso s) as [[h m]|] eqn:He; [|discriminate].
  assert (exists s1 t1 s2 t2, component "H" s1 = (h, t1) /\ component "M" s2 = (m, t2))
    as (s1 & t1 & s2 & t2 & Hh & Hm).
  { clear -He. induction s as [|c s IH]; [discriminate|].
    rewrite exec_iso_cons in He.
    destruct (startsWith_ci "PT" (String c s)).
    - destruct (component "H" _) as [h' t'] eqn:Hh.
      destruct (component "M" t') as [m' u'] eqn:Hm.
      inversion He; subst. eauto 8.
    - auto. }
  intros [= <-]. apply nonneg_add.
  - apply nonneg_times_60, (capture_num_component _ _ _ _ Hh).
  - apply (capture_num_component _ _ _ _ Hm).
Qed.

Lemma parseIsoDuration_hm dh dm :
  all_digits dh = true -> is_empty dh = false ->
  all_digits dm = true -> is_empty dm = false ->
  parseIsoDuration ("PT" +:+ dh +:+ "H" +:+ dm +:+ "M")
  = Some (num_add (num_mul (to_double (digits_val dh)) (Num 60)) (to_double (digits_val dm))).
Proof.
  intros Hh Hhe Hm Hme. unfold parseIsoDuration.
  change (exec_iso ("PT" +:+ dh +:+ "H" +:+ dm +:+ "M"))
    with (let '(h, t) := component "H" (dh +:+ String "H" (dm +:+ "M")) in
          let '(m, _) := component "M" t in Some (h, m)).
  rewrite (component_hit "H" dh "H" _ Hh Hhe eq_refl eq_refl).
  rewrite (component_hit "M" dm "M" "" Hm Hme eq_refl eq_refl).
  unfold capture_num. rewrite Hhe, Hme.
  rewrite (parseInt_digits dh Hh Hhe), (parseInt_digits dm Hm Hme).
  reflexivity.
Qed.

(** C3, as the code has it.  For digit strings [h] and [m],
    [parseIsoDuration] of [PT{h}H{m}M] is [h * 60 + m] computed on
    doubles: exactly [h*60+m] minutes as long as that is below [2^53],
    the rounded value beyond, and [Infinity] once [h] reaches [2^1024].
    The result is [undefined] exactly when the input contains no ["PT"]
    in any case, so only then; it is never [NaN] and never negative; and
    an input in which neither an hour nor a minute component follows its
    leading [PT] gives 0, not [undefined]. *)
Theorem parseIsoDuration_amended :
  (forall dh dm,
      all_digits dh = true -> is_empty dh = false ->
      all_digits dm = true -> is_empty dm = false ->
      let duration := parseIsoDuration ("PT" +:+ dh +:+ "H" +:+ dm +:+ "M") in
      duration
      = Some (num_add (num_mul (to_double (digits_val dh)) (Num 60))
                      (to_double (digits_val dm)))
      /\ ((digits_val dh * 60 + digits_val dm < 2 ^ 53)%Z ->
          duration = Some (Num (digits_val dh * 60 + digits_val dm)))
      /\ ((2 ^ 1024 <= digits_val dh)%Z -> duration = Some (Infinity false)))
  /\ (forall s, parseIsoDuration s = None <-> includes (toLowerCase s) "pt" = false)
  /\ (forall s, parseIsoDuration s <> Some NaN)
  /\ (forall s n, parseIsoDuration s = Some (Num n) -> (0 <= n)%Z)
  /\ (forall s, parseIsoDuration s <> Some (Infinity true))
  /\ (forall r,
        component "H" r = (None, r) -> component "M" r = (None, r) ->
        parseIsoDuration ("PT" +:+ r) = Some (Num 0)).
Proof.
  split.
  { intros dh dm Hh Hhe Hm Hme duration. unfold duration.
    rewrite (parseIsoDuration_hm dh dm Hh Hhe Hm Hme).
    pose proof (digits_val_nonneg dh Hh) as Hh0.
    pose proof (digits_val_nonneg dm Hm) as Hm0.
    split; [reflexivity|]. split.
    - intros Hsum. rewrite times_60_plus_exact by assumption. reflexivity.
    - intros Hbig. rewrite (to_double_overflow _ Hbig).
      pose proof (to_double_nonneg _ Hm0) as Hnn.
      destruct (to_double (digits_val dm)) as [|m|[]]; simpl in *;
        try reflexivity; try contradiction; discriminate. }
  split.
  { intros s. unfold parseIsoDuration. rewrite <- exec_iso_none.
    destruct (exec_iso s) as [[h m]|]; split; intros H; try reflexivity; discriminate H. }
  split.
  { intros s H. apply (parseIsoDuration_number s NaN H). }
  split.
  { intros s n H. apply (parseIsoDuration_number s (Num n) H). }
  split.
  { intros s H. pose proof (parseIsoDuration_number s _ H) as Hn. discriminate Hn. }
  intros r Hh Hm. unfold parseIsoDuration.
  change (exec_iso ("PT" +:+ r))
    with (let '(h, t) := component "H" r in
          let '(m, _) := component "M" t in Some (h, m)).
  rewrite Hh, Hm. reflexivity.
Qed.

Lemma parseIsoDuration_amended_witness :
  parseIsoDuration "PT1H30M" = Some (Num 90)
  /\ parseIsoDuration "PT" = Some (Num 0).
Proof.
  split.
  - exact (proj1 (proj2 (proj1 parseIsoDuration_amended "1" "30"
                           eq_refl eq_refl eq_refl eq_refl)) eq_refl).
  - exact (proj2 (proj2 (proj2 (proj2 (proj2 parseIsoDuration_amended)))) "" eq_refl eq_refl).
Defined.

(** Beyond [2^53] the minutes are rounded: 2^53 + 1 hours are read as
    2^53 hours. *)
Example parseIsoDuration_rounds :
  parseIsoDuration "PT9007199254740993H" = Some (Num 540431955284459520).
Proof. vm_compute. reflexivity. Qed.

(** C3 as stated fails: ["PTxyz"] is not of the form [PT{h}H{m}M], yet
    the unanchored pattern matches its first two characters and the result
    is 0, not [undefined]. *)
Lemma parseIsoDuration_malformed_zero :
  spec_iso_form "PTxyz" = false
  /\ parseIsoDuration "PTxyz" = Some (Num 0)
  /\ ~ (forall s, spec_iso_form s = false -> parseIsoDuration s = None).
Proof.
  split; [reflexivity|]. split; [reflexivity|].
  intros H. specialize (H "PTxyz" eq_refl). discriminate H.
Qed.

End DurationFacts.

(** ** [deduplicateSteps] *)

Module DedupFacts.
Import Js Steps.

Lemma filter_steps_cons seen s r :
  filter_steps seen (s :: r) =
  if is_blank s then filter_steps seen r
  else if is_heading s then s :: filter_steps seen r
  else if decide (step_key s ∈ seen) then filter_steps seen r
  else s :: filter_steps ({[step_key s]} ∪ seen) r.
Proof.
  unfold is_blank, is_heading, step_key. cbn [filter_steps]. unfold keep_step.
  destruct (is_empty (trim s)); [reflexivity|].
  destruct (startsWith "#" (trim s)); [reflexivity|].
  destruct (decide (toLowerCase (trim s) ∈ seen)); reflexivity.
Qed.

Lemma filter_steps_app seen l1 l2 :
  filter_steps seen (l1 ++ l2) =
  filter_steps seen l1 ++ filter_steps (seen ∪ step_keys l1) l2.
Proof.
  revert seen; induction l1 as [|s r IH]; intros seen.
  - simpl. f_equal. set_solver.
  - rewrite <- app_comm_cons, !filter_steps_cons. simpl step_keys.
    destruct (is_blank s); simpl.
    { rewrite IH. do 2 f_equal. set_solver. }
    destruct (is_heading s); simpl.
    { rewrite IH. do 3 f_equal. set_solver. }
    destruct (decide (step_key s ∈ seen)).
    + rewrite IH. do 2 f_equal. set_solver.
    + rewrite IH. simpl. do 3 f_equal. set_solver.
Qed.

Lemma filter_steps_again seen1 seen2 l :
  seen2 ⊆ seen1 ->
  filter_steps seen2 (filter_steps seen1 l) = filter_steps seen1 l.
Proof.
  revert seen1 seen2; induction l as [|s r IH]; intros seen1 seen2 Hsub; [reflexivity|].
  rewrite filter_steps_cons.
  destruct (is_blank s) eqn:Hb; [auto|].
  destruct (is_heading s) eqn:Hh.
  { rewrite filter_steps_cons, Hb, Hh. f_equal. auto. }
  destruct (decide (step_key s ∈ seen1)) as [Hin|Hout]; [auto|].
  rewrite filter_steps_cons, Hb, Hh.
  destruct (decide (step_key s ∈ seen2)) as [Hin2|_]; [set_solver|].
  f_equal. apply IH. set_solver.
Qed.

Lemma filter_steps_sublist seen l : sublist (filter_steps seen l) l.
Proof.
  revert seen; induction l as [|s r IH]; intros seen; [constructor|].
  rewrite filter_steps_cons.
  destruct (is_blank s); [apply sublist_cons, IH|].
  destruct (is_heading s); [apply sublist_skip, IH|].
  destruct (decide _); [apply sublist_cons, IH|apply sublist_skip, IH].
Qed.

Lemma trimEnd_lower s : trimEnd (toLowerCase s) = toLowerCase (trimEnd s).
Proof.
  induction s as [|c s IH]; [reflexivity|].
  simpl. rewrite IH.
  assert (is_space (lower_char c) = is_space c) as ->.
  { destruct c as [[] [] [] [] [] [] [] []]; reflexivity. }
  assert (is_empty (toLowerCase (trimEnd s)) = is_empty (trimEnd s)) as ->.
  { destruct (trimEnd s); reflexivity. }
  destruct (is_space c && is_empty (trimEnd s)); reflexivity.
Qed.

Lemma trimStart_lower s : trimStart (toLowerCase s) = toLowerCase (trimStart s).
Proof.
  induction s as [|c s IH]; [reflexivity|].
  simpl.
  assert (is_space (lower_char c) = is_space c) as ->.
  { destruct c as [[] [] [] [] [] [] [] []]; reflexivity. }
  destruct (is_space c); [exact IH|reflexivity].
Qed.

(** Two steps that are equal up to case have the same key. *)
Lemma step_key_ci s s' :
  toLowerCase s = toLowerCase s' -> step_key s = step_key s'.
Proof.
  intros H. unfold step_key, trim.
  rewrite <- !trimEnd_lower, <- !trimStart_lower, H. reflexivity.
Qed.

(** A string that starts with [#] is a heading and is not blank. *)
Lemma hash_is_heading s :
  startsWith "#" s = true -> is_blank s = false /\ is_heading s = true.
Proof.
  destruct s as [|c r]; [discriminate|]. simpl.
  destruct (decide ("#"%char = c)) as [<-|]; [|discriminate]. intros _.
  unfold is_blank, is_heading, trim. simpl.
  destruct (trimEnd r); simpl; auto.
Qed.

Lemma lower_char_hash c : lower_char c = "#"%char -> c = "#"%char.
Proof. destruct c as [[] [] [] [] [] [] [] []]; simpl; intros H; try reflexivity; discriminate H. Qed.

Lemma is_blank_ci s s' :
  toLowerCase s = toLowerCase s' -> is_blank s = is_blank s'.
Proof.
  intros H%step_key_ci. unfold step_key, is_blank in *.
  destruct (trim s), (trim s'); try reflexivity; discriminate H.
Qed.

Lemma is_heading_ci s s' :
  toLowerCase s = toLowerCase s' -> is_heading s = is_heading s'.
Proof.
  intros H%step_key_ci. unfold step_key, is_heading in *.
  destruct (trim s) as [|a r], (trim s') as [|b r']; try reflexivity; try discriminate H.
  simpl in H. inversion H as [[Hc Hr]]. simpl.
  destruct (decide ("#"%char = a)) as [<-|Ha], (decide ("#"%char = b)) as [<-|Hb];
    try reflexivity.
  - exfalso. apply Hb. symmetry. apply lower_char_hash. rewrite <- Hc. reflexivity.
  - exfalso. apply Ha. symmetry. apply lower_char_hash. rewrite Hc. reflexivity.
Qed.

Lemma step_keys_elem s l :
  s ∈ l -> is_blank s = false -> is_heading s = false ->
  step_key s ∈ step_keys l.
Proof.
  intros Hin Hb Hh. induction Hin as [s l|s x l _ IH]; simpl.
  - rewrite Hb, Hh. set_solver.
  - set_solver.
Qed.

Lemma step_keys_snoc l s :
  is_blank s = false -> is_heading s = false ->
  step_keys (l ++ [s]) = {[step_key s]} ∪ step_keys l.
Proof.
  intros Hb Hh. induction l as [|x l IH]; simpl.
  - rewrite Hb, Hh. set_solver.
  - rewrite IH. set_solver.
Qed.

(** C6.  [deduplicateSteps] is idempotent, keeps the order of its input,
    never removes a string that starts with [#], keeps the first
    occurrence of a step and removes every later non-heading step that is
    equal to an earlier one up to case. *)
Theorem deduplicateSteps_spec :
  (forall l, deduplicateSteps (deduplicateSteps l) = deduplicateSteps l)
  /\ (forall l, sublist (deduplicateSteps l) l)
  /\ (forall l1 s l2,
        startsWith "#" s = true ->
        deduplicateSteps (l1 ++ s :: l2)
        = deduplicateSteps l1 ++ s :: filter_steps (step_keys l1) l2)
  /\ (forall l1 s l2,
        is_blank s = false -> is_heading s = false ->
        step_key s ∉ step_keys l1 ->
        deduplicateSteps (l1 ++ s :: l2)
        = deduplicateSteps l1 ++ s :: filter_steps (step_keys (l1 ++ [s])) l2)
  /\ (forall l1 s0 s l2,
        s0 ∈ l1 -> toLowerCase s0 = toLowerCase s ->
        startsWith "#" (trim s) = false ->
        deduplicateSteps (l1 ++ s :: l2) = deduplicateSteps (l1 ++ l2)).
Proof.
  unfold deduplicateSteps. repeat split.
  - intros l. apply filter_steps_again. set_solver.
  - intros l. apply filter_steps_sublist.
  - intros l1 s l2 [Hb Hh]%hash_is_heading.
    rewrite filter_steps_app, filter_steps_cons, Hb, Hh.
    do 3 f_equal. set_solver.
  - intros l1 s l2 Hb Hh Hnew.
    rewrite filter_steps_app, filter_steps_cons, Hb, Hh.
    destruct (decide (step_key s ∈ ∅ ∪ step_keys l1)) as [Hin|_]; [set_solver|].
    rewrite (step_keys_snoc l1 s Hb Hh). do 3 f_equal. set_solver.
  - intros l1 s0 s l2 Hin Hci Hh.
    rewrite !filter_steps_app, filter_steps_cons.
    destruct (is_blank s) eqn:Hb; [reflexivity|].
    change (is_heading s = false) in Hh. rewrite Hh.
    destruct (decide (step_key s ∈ ∅ ∪ step_keys l1)) as [_|Hout]; [reflexivity|].
    exfalso. apply Hout.
    rewrite <- (step_key_ci _ _ Hci).
    apply elem_of_union_r, step_keys_elem; [assumption| |].
    + rewrite (is_blank_ci _ _ Hci). assumption.
    + rewrite (is_heading_ci _ _ Hci). assumption.
Qed.

Example deduplicateSteps_example :
  deduplicateSteps ["Mix."; "# Sauce"; " MIX. "; ""; "# Sauce"; "Bake."]
  = ["Mix."; "# Sauce"; "# Sauce"; "Bake."].
Proof. vm_compute. reflexivity. Qed.

Lemma deduplicateSteps_spec_witness :
  deduplicateSteps (["Mix."; "# Sauce"] ++ "# Sauce" :: ["Bake."])
  = deduplicateSteps ["Mix."; "# Sauce"] ++ "# Sauce" :: filter_steps (step_keys ["Mix."; "# Sauce"]) ["Bake."]
  /\ deduplicateSteps (["Mix."] ++ "Bake." :: ["bake."])
     = deduplicateSteps ["Mix."] ++ "Bake." :: filter_steps (step_keys (["Mix."] ++ ["Bake."])) ["bake."]
  /\ deduplicateSteps (["Mix."; "Bake."] ++ "MIX." :: ["Serve."])
     = deduplicateSteps (["Mix."; "Bake."] ++ ["Serve."]).
Proof.
  destruct deduplicateSteps_spec as (_ & _ & Hhead & Hfirst & Hdup).
  split; [|split].
  - apply Hhead. reflexivity.
  - apply Hfirst; [reflexivity|reflexivity|].
    apply (bool_decide_unpack _). vm_compute. exact I.
  - apply (Hdup ["Mix."; "Bake."] "Mix." "MIX." ["Serve."]);
      [|reflexivity|reflexivity].
    apply (bool_decide_unpack _). vm_compute. exact I.
Defined.

End DedupFacts.

(** ** [collectSteps] *)

Module StepsFacts.
Import Js Json Steps.

Lemma with_field_field {A : Type} k (f : json -> A) d o :
  with_field k f d o = match field k o with Some v => f v | None => d end.
Proof.
  induction o as [|[k' v] o IH]; simpl; [reflexivity|].
  destruct (decide (k' = k)); [reflexivity|exact IH].
Qed.

Section WithDecode.
Variable decode : string -> string.

Lemma visit_child_field visit k obj acc :
  visit_child visit k obj acc =
  match field k obj with
  | Some v => if truthy v then visit v acc else acc
  | None => acc
  end.
Proof. unfold visit_child. apply with_field_field. Qed.

(** What [visit] does on an object, with the property reads written with
    [field]. *)
Lemma visit_object obj rawSteps :
  visit decode (JObj obj) rawSteps =
  let type := getNodeType obj in
  let acc1 :=
    if isSectionType type then
      match field "name" obj with
      | Some (JStr n) =>
          if is_empty (trim (decode n)) then rawSteps
          else rawSteps ++ ["# " +:+ trim (decode n)]
      | _ => rawSteps
      end
    else
      match extractTextFromNode decode obj with
      | Some text =>
          if isStepType type
             || (negb (truthy_opt (field "itemListElement" obj))
                 && negb (truthy_opt (field "item" obj)))
          then rawSteps ++ [text] else rawSteps
      | None => rawSteps
      end in
  let acc2 :=
    match field "itemListElement" obj with
    | Some v => if truthy v then visit decode v acc1 else acc1
    | None => acc1
    end in
  match field "item" obj with
  | Some v => if truthy v then visit decode v acc2 else acc2
  | None => acc2
  end.
Proof.
  cbn [visit]. cbv zeta.
  destruct (isSectionType (getNodeType obj)).
  - rewrite !visit_child_field.
    destruct (field "name" obj) as [[]|]; reflexivity.
  - rewrite !visit_child_field. reflexivity.
Qed.

Lemma visit_singleton x rawSteps :
  visit decode (JArr [x]) rawSteps = visit decode x rawSteps.
Proof. reflexivity. Qed.

Lemma visit_string t rawSteps :
  visit decode (JStr t) rawSteps =
  if is_empty t then rawSteps
  else if is_empty (trim (decode t)) then rawSteps
       else rawSteps ++ [trim (decode t)].
Proof. reflexivity. Qed.

(** A step object without children of its own adds exactly its text. *)
Lemma visit_leaf_step child rawSteps text :
  isSectionType (getNodeType child) = false ->
  isStepType (getNodeType child) = true ->
  extractTextFromNode decode child = Some text ->
  field "itemListElement" child = None ->
  field "item" child = None ->
  visit decode (JObj child) rawSteps = rawSteps ++ [text].
Proof.
  intros Hsec Hstep Htext Hlist Hitem.
  rewrite visit_object. cbv zeta.
  rewrite Hsec, Htext, Hstep, Hlist, Hitem. reflexivity.
Qed.

Lemma extractText_text_only child t :
  field "text" child = Some (JStr t) ->
  is_empty (trim (decode t)) = false ->
  field "name" child = None ->
  field "item" child = None ->
  extractTextFromNode decode child = Some (trim (decode t)).
Proof.
  intros Ht Hne Hn Hi. unfold extractTextFromNode, text_property, item_object.
  rewrite Ht, Hn, Hi, Hne. reflexivity.
Qed.

(** Induction on a JSON value, with the hypothesis for every element of
    an array and every property value of an object. *)
Lemma json_induction (P : json -> Prop) :
  P JNull -> (forall b, P (JBool b)) -> (forall z, P (JNum z)) -> (forall s, P (JStr s)) ->
  (forall l, Forall P l -> P (JArr l)) ->
  (forall o, Forall (fun kv => P (snd kv)) o -> P (JObj o)) ->
  forall j, P j.
Proof.
  intros Hnull Hbool Hnum Hstr Harr Hobj.
  fix IH 1. intros [| b | z | s | l | o].
  - exact Hnull.
  - apply Hbool.
  - apply Hnum.
  - apply Hstr.
  - apply Harr. induction l as [|x l IHl]; constructor; [apply IH|exact IHl].
  - apply Hobj. induction o as [|[k v] o IHo]; constructor; [apply IH|exact IHo].
Qed.

Lemma field_Forall (P : json -> Prop) k o v :
  Forall (fun kv => P (snd kv)) o -> field k o = Some v -> P v.
Proof.
  induction 1 as [|[k' v'] o Hv _ IH]; simpl; [discriminate|].
  destruct (decide (k' = k)); [|exact IH].
  intros E; inversion E; subst. exact Hv.
Qed.

Lemma visit_array l rawSteps :
  visit decode (JArr l) rawSteps
  = fold_left (fun acc x => visit decode x acc) l rawSteps.
Proof. revert rawSteps; induction l as [|x l IH]; intros acc; [reflexivity|apply IH]. Qed.

(** The array after the visit of an object pushed for the object itself. *)
Lemma own_steps_app obj rawSteps :
  (if isSectionType (getNodeType obj) then
     match field "name" obj with
     | Some (JStr n) =>
         if is_empty (trim (decode n)) then rawSteps
         else rawSteps ++ ["# " +:+ trim (decode n)]
     | _ => rawSteps
     end
   else
     match extractTextFromNode decode obj with
     | Some text =>
         if isStepType (getNodeType obj)
            || (negb (truthy_opt (field "itemListElement" obj))
                && negb (truthy_opt (field "item" obj)))
         then rawSteps ++ [text] else rawSteps
     | None => rawSteps
     end)
  = rawSteps ++ own_steps decode obj.
Proof.
  unfold own_steps. destruct (isSectionType (getNodeType obj)).
  - destruct (field "name" obj) as [[| | |n| |]|]; rewrite ?app_nil_r; try reflexivity.
    destruct (is_empty (trim (decode n))); rewrite ?app_nil_r; reflexivity.
  - destruct (extractTextFromNode decode obj); [|rewrite app_nil_r; reflexivity].
    destruct (isStepType _ || _); rewrite ?app_nil_r; reflexivity.
Qed.

(** What a visit pushes does not depend on what was pushed before. *)
Lemma visit_app j : forall rawSteps,
  visit decode j rawSteps = rawSteps ++ visit decode j [].
Proof.
  induction j as [| b | z | s | l IHl | o IHo] using json_induction; intros acc.
  - simpl. rewrite app_nil_r. reflexivity.
  - simpl. rewrite app_nil_r. reflexivity.
  - simpl. rewrite app_nil_r. reflexivity.
  - rewrite !visit_string. destruct (is_empty s); [rewrite app_nil_r; reflexivity|].
    destruct (is_empty (trim (decode s))); [rewrite app_nil_r|]; reflexivity.
  - rewrite !visit_array. revert acc.
    induction IHl as [|x l Hx _ IH]; intros acc; simpl.
    + rewrite app_nil_r. reflexivity.
    + rewrite (IH (visit decode x acc)), (IH (visit decode x [])), (Hx acc).
      rewrite app_assoc. reflexivity.
  - assert (forall k a,
               match field k o with
               | Some v => if truthy v then visit decode v a else a
               | None => a
               end = a ++ child_steps decode k o) as Hchild.
    { intros k a. unfold child_steps. destruct (field k o) as [v|] eqn:Hk.
      - destruct (truthy v); [|rewrite app_nil_r; reflexivity].
        apply (field_Forall
                 (fun v => forall r, visit decode v r = r ++ visit decode v [])
                 k o v IHo Hk).
      - rewrite app_nil_r. reflexivity. }
    assert (forall a, visit decode (JObj o) a =
                        a ++ own_steps decode o ++ child_steps decode "itemListElement" o
                          ++ child_steps decode "item" o) as Hobj.
    { intros a. rewrite visit_object. cbv zeta. rewrite !Hchild.
      rewrite (own_steps_app o a), <- !app_assoc. reflexivity. }
    rewrite (Hobj acc), (Hobj []). reflexivity.
Qed.

(** The steps of an object: its own, then those under [itemListElement],
    then those under [item]. *)
Lemma collectSteps_object obj :
  collectSteps decode (JObj obj)
  = own_steps decode obj ++ child_steps decode "itemListElement" obj
      ++ child_steps decode "item" obj.
Proof.
  unfold collectSteps. rewrite visit_object. cbv zeta.
  assert (forall k a,
             match field k obj with
             | Some v => if truthy v then visit decode v a else a
             | None => a
             end = a ++ child_steps decode k obj) as Hchild.
  { intros k a. unfold child_steps. destruct (field k obj) as [v|].
    - destruct (truthy v); [apply visit_app|rewrite app_nil_r; reflexivity].
    - rewrite app_nil_r. reflexivity. }
  rewrite !Hchild, (own_steps_app obj []), <- !app_assoc. reflexivity.
Qed.


End WithDecode.


(** The ordering on a larger tree: two sections, a compound step, and a
    repeated heading. *)
Example collectSteps_two_sections :
  collectSteps decode_predefined
    (JArr [JObj [("@type", JStr "HowToSection"); ("name", JStr "Dough");
                 ("itemListElement",
                  JArr [JObj [("@type", JStr "HowToStep"); ("name", JStr "Mix");
                              ("text", JStr "Mix flour and water.")];
                        JStr "Rest."])];
           JObj [("@type", JStr "howtosection"); ("name", JStr "  ");
                 ("itemListElement", JArr [JStr "Bake."])]])
  = ["# Dough"; "**Mix:** Mix flour and water."; "Rest."; "Bake."].
Proof. reflexivity. Qed.

(** Two tests of the repository's suite for the JSON-LD path. *)
Example parseSteps_preserves_order_across_sections :
  let section name a b :=
    JObj [("@type", JStr "HowToSection"); ("name", JStr name);
          ("itemListElement",
           JArr [JObj [("@type", JStr "HowToStep"); ("text", JStr a)];
                 JObj [("@type", JStr "HowToStep"); ("text", JStr b)]])] in
  map (fun s => (Steps.order s, step s))
      (parseSteps decode_predefined
         (Some (JArr [section "Part 1" "Step 1" "Step 2";
                      section "Part 2" "Step 3" "Step 4"])) Us)
  = [(1, "# Part 1"); (2, "Step 1"); (3, "Step 2");
     (4, "# Part 2"); (5, "Step 3"); (6, "Step 4")]%Z.
Proof. vm_compute. reflexivity. Qed.

Example parseSteps_keeps_repeated_headings :
  let section name a :=
    JObj [("@type", JStr "HowToSection"); ("name", JStr name);
          ("itemListElement",
           JArr [JObj [("@type", JStr "HowToStep"); ("text", JStr a)]])] in
  map step
      (parseSteps decode_predefined
         (Some (JArr [section "Repeat" "Step A"; section "Repeat" "Step B"])) Us)
  = ["# Repeat"; "Step A"; "# Repeat"; "Step B"].
Proof. vm_compute. reflexivity. Qed.

End StepsFacts.

(** ** [parseIngredientWithDefaults] *)

Module IngredientsFacts.
Import Js Ingredients JsFacts.

Lemma append_assoc (a b c : string) : (a +:+ b) +:+ c = a +:+ b +:+ c.
Proof.
  induction a as [|x a IH]; [reflexivity|].
  change (String x ((a +:+ b) +:+ c) = String x (a +:+ b +:+ c)).
  rewrite IH. reflexivity.
Qed.

Lemma first_some_Some {A B : Type} (f : A -> option B) l y :
  first_some f l = Some y -> exists x, In x l /\ f x = Some y.
Proof.
  induction l as [|x l IH]; simpl; [discriminate|].
  destruct (f x) as [z|] eqn:Hx.
  - intros H; inversion H; subst. exists x; auto.
  - intros H. destruct (IH H) as (x' & Hin & Hf). exists x'; auto.
Qed.

Lemma first_some_nil_all {A B : Type} (f : A -> option B) l :
  (forall x, In x l -> f x = None) -> first_some f l = None.
Proof.
  induction l as [|x l IH]; simpl; [reflexivity|].
  intros H. rewrite (H x (or_introl eq_refl)). apply IH. intros; apply H; auto.
Qed.

Lemma digit_prefixes_spec s d t :
  In (d, t) (digit_prefixes s) ->
  s = d +:+ t /\ all_digits d = true /\ is_empty d = false.
Proof.
  revert d t; induction s as [|c s IH]; simpl; intros d t H; [contradiction|].
  destruct (is_digit c) eqn:Hc; [|contradiction].
  apply in_app_iff in H as [H|[H|[]]].
  - apply in_map_iff in H as ([d' t'] & E & Hin). unfold cons_fst in E. simpl in E.
    inversion E; subst. destruct (IH _ _ Hin) as (-> & Hd & _).
    simpl. rewrite Hc. auto.
  - inversion H; subst. simpl. rewrite Hc. auto.
Qed.

Lemma is_decimal_numeral_digits d :
  all_digits d = true -> is_empty d = false -> is_decimal_numeral d = true.
Proof.
  intros Hd Hne. unfold is_decimal_numeral. rewrite (span_digits_all d Hd), Hne. reflexivity.
Qed.

Lemma is_decimal_numeral_fraction d sep f :
  all_digits d = true -> is_empty d = false ->
  bool_decide (sep = "."%char) || bool_decide (sep = ","%char) = true ->
  all_digits f = true -> is_empty f = false ->
  is_decimal_numeral (d +:+ String sep f) = true.
Proof.
  intros Hd Hne Hsep Hf Hfe. unfold is_decimal_numeral.
  rewrite (span_digits_app d sep f Hd).
  - rewrite Hne, Hsep, Hfe, Hf. reflexivity.
  - apply orb_prop in Hsep as [H|H]; apply bool_decide_eq_true in H; subst; reflexivity.
Qed.

Lemma number_candidates_spec s q t :
  In (q, t) (number_candidates s) ->
  s = q +:+ t /\ is_decimal_numeral q = true.
Proof.
  unfold number_candidates. intros H.
  apply in_flat_map in H as ([d t0] & Hin & H).
  destruct (digit_prefixes_spec _ _ _ Hin) as (-> & Hd & Hne).
  assert (In (q, t) [(d, t0)] -> d +:+ t0 = q +:+ t /\ is_decimal_numeral q = true) as Hplain.
  { intros [E|[]]. inversion E; subst. split; [reflexivity|].
    apply is_decimal_numeral_digits; assumption. }
  destruct t0 as [|sep t']; [auto|].
  destruct (bool_decide (sep = "."%char) || bool_decide (sep = ","%char)) eqn:Hsep; [|auto].
  apply in_app_iff in H as [H|H]; [|auto].
  apply in_map_iff in H as ([f u] & E & Hf). inversion E; subst.
  destruct (digit_prefixes_spec _ _ _ Hf) as (-> & Hfd & Hfe).
  split.
  - rewrite append_assoc. reflexivity.
  - apply is_decimal_numeral_fraction; assumption.
Qed.

Lemma space_prefixes_spec s w u :
  In (w, u) (space_prefixes s) -> s = w +:+ u /\ all_space w = true.
Proof.
  revert w u; induction s as [|c s IH]; simpl; intros w u H.
  - destruct H as [E|[]]. inversion E; subst. auto.
  - destruct (is_space c) eqn:Hc.
    + apply in_app_iff in H as [H|[E|[]]].
      * apply in_map_iff in H as ([w' u'] & E & Hin). unfold cons_fst in E; simpl in E.
        inversion E; subst. destruct (IH _ _ Hin) as (-> & Hw).
        simpl. rewrite Hc. auto.
      * inversion E; subst. auto.
    + destruct H as [E|[]]. inversion E; subst. auto.
Qed.

Lemma startsWith_ci_split alt u :
  startsWith_ci alt u = true ->
  u = take (String.length alt) u +:+ drop (String.length alt) u
  /\ toLowerCase (take (String.length alt) u) = toLowerCase alt.
Proof.
  revert u; induction alt as [|a alt IH]; intros u H; simpl.
  - destruct u; simpl; auto.
  - destruct u as [|b u]; [discriminate|]. simpl in H.
    apply andb_prop in H as [Hab H]. destruct (IH _ H) as (E1 & E2).
    simpl. split.
    + change (String b u = String b (take (String.length alt) u +:+ drop (String.length alt) u)).
      rewrite <- E1. reflexivity.
    + rewrite E2. unfold ci_eq in Hab.
      destruct (decide (lower_char a = lower_char b)) as [->|]; [reflexivity|discriminate].
Qed.

(** A match of the recovery pattern is a number, white space and a
    spelling of the dictionary (in any case), next to each other. *)
Lemma match_at_sound alts prev s m :
  match_at alts prev s = Some m ->
  exists w rest alt,
    s = qty m +:+ w +:+ unit m +:+ rest
    /\ whole m = qty m +:+ w +:+ unit m
    /\ is_decimal_numeral (qty m) = true
    /\ all_space w = true
    /\ In alt alts /\ toLowerCase (unit m) = toLowerCase alt.
Proof.
  unfold match_at. destruct (word_boundary prev (head_char s)); [|discriminate].
  intros H.
  apply first_some_Some in H as ([q t] & Hq & H).
  apply first_some_Some in H as ([w u] & Hw & H).
  apply first_some_Some in H as (alt & Halt & H).
  destruct (startsWith_ci alt u) eqn:Hci; [|discriminate].
  destruct (word_boundary _ _); [|discriminate].
  inversion H; subst m; simpl.
  destruct (number_candidates_spec _ _ _ Hq) as (-> & Hnum).
  destruct (space_prefixes_spec _ _ _ Hw) as (-> & Hsp).
  destruct (startsWith_ci_split _ _ Hci) as (Hu & Hlow).
  exists w, (drop (String.length alt) u), alt.
  rewrite <- Hu. auto 10.
Qed.

Lemma find_match_sound alts prev s m :
  find_match alts prev s = Some m ->
  exists pre w rest alt,
    s = pre +:+ qty m +:+ w +:+ unit m +:+ rest
    /\ whole m = qty m +:+ w +:+ unit m
    /\ is_decimal_numeral (qty m) = true
    /\ all_space w = true
    /\ In alt alts /\ toLowerCase (unit m) = toLowerCase alt.
Proof.
  revert prev; induction s as [|c s IH]; intros prev; simpl.
  - destruct (match_at alts prev "") as [m'|] eqn:Hm; [|discriminate].
    intros H; inversion H; subst m'.
    destruct (match_at_sound _ _ _ _ Hm) as (w & rest & alt & H1).
    exists "", w, rest, alt. exact H1.
  - destruct (match_at alts prev (String c s)) as [m'|] eqn:Hm.
    + intros H; inversion H; subst m'.
      destruct (match_at_sound _ _ _ _ Hm) as (w & rest & alt & H1).
      exists "", w, rest, alt. exact H1.
    + intros H. destruct (IH _ H) as (pre & w & rest & alt & -> & H1).
      exists (String c pre), w, rest, alt. split; [reflexivity|exact H1].
Qed.

(** Without a digit in the line the recovery pattern cannot match. *)
Lemma find_match_no_digit alts prev s :
  has_digit s = false -> find_match alts prev s = None.
Proof.
  revert prev; induction s as [|c s IH]; intros prev H.
  - simpl. unfold match_at. destruct (word_boundary _ _); reflexivity.
  - simpl in H. apply orb_false_elim in H as [Hc Hs].
    cbn [find_match].
    assert (match_at alts prev (String c s) = None) as ->.
    { unfold match_at. destruct (word_boundary _ _); [|reflexivity].
      unfold number_candidates. simpl. rewrite Hc. reflexivity. }
    apply IH, Hs.
Qed.

Example all_units_example :
  unit_alternatives example_units
  = ["tablespoons"; "tablespoon"; "grams"; "cups"; "tbsp"; "gram"; "cup"; "tbs"; "el"; "gr"; "c"; "g"].
Proof. reflexivity. Qed.

Example find_match_example :
  find_match (unit_alternatives example_units) None "Add flour, 2 cups"
  = Some {| whole := "2 cups"; qty := "2"; unit := "cups" |}.
Proof. vm_compute. reflexivity. Qed.

Example reorder_example :
  reorder "Add flour, 2 cups" {| whole := "2 cups"; qty := "2"; unit := "cups" |}
  = "2 cups Add flour,".
Proof. vm_compute. reflexivity. Qed.

Example recovery_example :
  map (fun i => (quantity i, unitOfMeasureID i, description i))
      (parseIngredientWithDefaults leading_parser ["Add flour, 2 cups"] example_units)
  = [(Some (2 # 1), Some "cup", "Add flour,")].
Proof. vm_compute. reflexivity. Qed.

Example decimal_comma_example :
  map (fun i => (quantity i, unitOfMeasureID i, description i))
      (parseIngredientWithDefaults leading_parser ["butter 1,5 tbsp, melted"] example_units)
  = [(Some (15 # 10), Some "tablespoon", "butter , melted")].
Proof. vm_compute. reflexivity. Qed.

Lemma has_digit_normalize_commas s :
  has_digit (normalize_commas s) = has_digit s.
Proof.
  assert (forall n s, (String.length s <= n)%nat ->
                      has_digit (normalize_commas s) = has_digit s) as H.
  { intros n. induction n as [|n IH]; intros [|c r] Hlen; try reflexivity.
    - simpl in Hlen. lia.
    - simpl in Hlen.
      assert (has_digit (String c (normalize_commas r)) = has_digit (String c r)) as Hplain.
      { simpl. rewrite IH by lia. reflexivity. }
      destruct r as [|x r']; [exact Hplain|].
      destruct x as [[] [] [] [] [] [] [] []]; try exact Hplain.
      destruct r' as [|d t]; [exact Hplain|].
      cbn [normalize_commas]. fold (normalize_commas (String "," (String d t))).
      destruct (is_digit c && is_digit d); [|exact Hplain].
      simpl. simpl in Hlen. rewrite IH by lia. reflexivity. }
  apply (H (String.length s)). lia.
Qed.

(** *** Completeness of the recovery pattern *)

Lemma append_empty_right (s : string) : s +:+ "" = s.
Proof.
  induction s as [|c s IH]; [reflexivity|].
  change (String c (s +:+ "") = String c s). rewrite IH. reflexivity.
Qed.

Lemma first_some_complete {A B : Type} (f : A -> option B) l x y :
  In x l -> f x = Some y -> exists y', first_some f l = Some y'.
Proof.
  induction l as [|a l IH]; [contradiction|].
  intros [->|Hin] Hx; cbn [first_some].
  - rewrite Hx. eauto.
  - destruct (f a) as [z|]; [eauto|]. apply IH; assumption.
Qed.

Lemma digit_prefixes_complete d t :
  all_digits d = true -> is_empty d = false -> In (d, t) (digit_prefixes (d +:+ t)).
Proof.
  induction d as [|c d IH]; [discriminate|].
  intros [Hc Hd]%andb_prop _.
  change (String c d +:+ t) with (String c (d +:+ t)).
  cbn [digit_prefixes]. rewrite Hc. apply in_app_iff.
  destruct d as [|c' d'].
  - right. left. reflexivity.
  - left. apply in_map_iff. exists (String c' d', t). split; [reflexivity|].
    apply IH; [exact Hd|reflexivity].
Qed.

Lemma number_candidates_complete q t :
  is_decimal_numeral q = true -> In (q, t) (number_candidates (q +:+ t)).
Proof.
  unfold is_decimal_numeral. destruct (span_digits q) as [d t0] eqn:Hs.
  destruct (span_digits_prefix _ _ _ Hs) as [Hd ->].
  intros [Hne H]%andb_prop. apply negb_true_iff in Hne.
  unfold number_candidates. apply in_flat_map.
  destruct t0 as [|sep f].
  - rewrite append_empty_right. exists (d, t).
    split; [apply digit_prefixes_complete; assumption|].
    destruct t as [|sep t']; [left; reflexivity|].
    destruct (_ || _); [apply in_app_iff; right|]; left; reflexivity.
  - apply andb_prop in H as [[Hsep Hfe]%andb_prop Hf]. apply negb_true_iff in Hfe.
    exists (d, String sep (f +:+ t)). split.
    + rewrite append_assoc. apply digit_prefixes_complete; assumption.
    + rewrite Hsep. apply in_app_iff. left. apply in_map_iff.
      exists (f, t). split; [reflexivity|].
      apply digit_prefixes_complete; assumption.
Qed.

Lemma space_prefixes_complete w u :
  all_space w = true -> In (w, u) (space_prefixes (w +:+ u)).
Proof.
  induction w as [|c w IH].
  - intros _. change ("" +:+ u) with u.
    destruct u as [|c r]; [left; reflexivity|].
    cbn [space_prefixes]. destruct (is_space c); [apply in_app_iff; right|]; left; reflexivity.
  - intros [Hc Hw]%andb_prop.
    change (String c w +:+ u) with (String c (w +:+ u)).
    cbn [space_prefixes]. rewrite Hc. apply in_app_iff. left.
    apply in_map_iff. exists (w, u). split; [reflexivity|]. apply IH, Hw.
Qed.

Lemma startsWith_ci_complete alt : forall u rest,
  toLowerCase u = toLowerCase alt ->
  startsWith_ci alt (u +:+ rest) = true
  /\ take (String.length alt) (u +:+ rest) = u
  /\ drop (String.length alt) (u +:+ rest) = rest.
Proof.
  induction alt as [|a alt IH]; intros [|b u] rest H; cbn [toLowerCase] in H;
    try discriminate.
  - repeat split.
  - injection H as Hc Hr.
    destruct (IH u rest Hr) as (H1 & H2 & H3).
    change (String b u +:+ rest) with (String b (u +:+ rest)).
    cbn [startsWith_ci String.length take drop]. rewrite H1, H2, H3.
    unfold ci_eq. rewrite Hc. destruct (decide _) as [_|Hn]; [|congruence].
    repeat split.
Qed.

Lemma head_char_append q t :
  is_empty q = false -> head_char (q +:+ t) = head_char q.
Proof. destruct q; [discriminate|reflexivity]. Qed.

Lemma is_decimal_numeral_nonempty q : is_decimal_numeral q = true -> is_empty q = false.
Proof.
  destruct q as [|c q]; [discriminate|reflexivity].
Qed.

(** A match at a position is a token at that position, *)
Lemma match_at_token alts prev s m :
  match_at alts prev s = Some m ->
  exists w rest,
    s = qty m +:+ w +:+ unit m +:+ rest
    /\ whole m = qty m +:+ w +:+ unit m
    /\ token_at alts prev (qty m) w (unit m) rest.
Proof.
  unfold match_at. destruct (word_boundary prev (head_char s)) eqn:Hb; [|discriminate].
  intros H.
  apply first_some_Some in H as ([q t] & Hq & H).
  apply first_some_Some in H as ([w u] & Hw & H).
  apply first_some_Some in H as (alt & Halt & H).
  destruct (startsWith_ci alt u) eqn:Hci; [|discriminate].
  destruct (word_boundary (last_char _) _) eqn:Hb2; [|discriminate].
  injection H as <-. cbn [qty unit whole].
  destruct (number_candidates_spec _ _ _ Hq) as (-> & Hnum).
  destruct (space_prefixes_spec _ _ _ Hw) as (-> & Hsp).
  destruct (startsWith_ci_split _ _ Hci) as (Hu & Hlow).
  exists w, (drop (String.length alt) u).
  rewrite <- Hu. split; [reflexivity|]. split; [reflexivity|].
  rewrite head_char_append in Hb by (apply is_decimal_numeral_nonempty, Hnum).
  repeat split; try assumption. exists alt. auto.
Qed.

(** and where there is a token, the pattern matches. *)
Lemma match_at_complete alts prev q w u rest :
  token_at alts prev q w u rest ->
  exists m, match_at alts prev (q +:+ w +:+ u +:+ rest) = Some m.
Proof.
  intros (Hb & Hq & Hw & (alt & Halt & Hlow) & Hb2).
  unfold match_at.
  rewrite head_char_append by (apply is_decimal_numeral_nonempty, Hq).
  rewrite Hb.
  destruct (startsWith_ci_complete alt u rest Hlow) as (Hci & Htake & Hdrop).
  match goal with
  | |- exists m, first_some ?F ?L = Some m =>
      assert (exists y, F (q, w +:+ u +:+ rest) = Some y) as (y & Hy);
        [|exact (first_some_complete F L _ y (number_candidates_complete q _ Hq) Hy)]
  end.
  cbv beta iota.
  match goal with
  | |- exists m, first_some ?F ?L = Some m =>
      assert (exists y, F (w, u +:+ rest) = Some y) as (y & Hy);
        [|exact (first_some_complete F L _ y (space_prefixes_complete w _ Hw) Hy)]
  end.
  cbv beta iota.
  match goal with
  | |- exists m, first_some ?F ?L = Some m =>
      assert (exists y, F alt = Some y) as (y & Hy);
        [|exact (first_some_complete F L _ y Halt Hy)]
  end.
  cbv beta. rewrite Hci, Htake, Hdrop, Hb2. eauto.
Qed.

Lemma prev_of_last_char r : forall c, prev_of (Some c) r = last_char (String c r).
Proof.
  induction r as [|d r IH]; intros c; [reflexivity|].
  cbn [prev_of]. rewrite IH. reflexivity.
Qed.

Lemma prev_of_None pre : prev_of None pre = last_char pre.
Proof. destruct pre as [|c r]; [reflexivity|]. apply prev_of_last_char. Qed.

(** The match that is found is a token, and no token starts before it. *)
Lemma find_match_token alts s : forall prev m,
  find_match alts prev s = Some m ->
  exists pre w rest,
    s = pre +:+ qty m +:+ w +:+ unit m +:+ rest
    /\ whole m = qty m +:+ w +:+ unit m
    /\ token_at alts (prev_of prev pre) (qty m) w (unit m) rest
    /\ forall pre' q' w' u' rest',
         s = pre' +:+ q' +:+ w' +:+ u' +:+ rest' ->
         token_at alts (prev_of prev pre') q' w' u' rest' ->
         (String.length pre <= String.length pre')%nat.
Proof.
  induction s as [|c s IH]; intros prev m.
  - cbn [find_match]. destruct (match_at alts prev "") as [m'|] eqn:Hm; [|discriminate].
    intros [= ->]. destruct (match_at_token _ _ _ _ Hm) as (w & rest & Hs & Hwhole & Htok).
    exists "", w, rest. split; [exact Hs|]. split; [exact Hwhole|].
      split; [exact Htok|]. intros; cbn; lia.
  - cbn [find_match]. destruct (match_at alts prev (String c s)) as [m'|] eqn:Hm.
    + intros [= ->]. destruct (match_at_token _ _ _ _ Hm) as (w & rest & Hs & Hwhole & Htok).
      exists "", w, rest. split; [exact Hs|]. split; [exact Hwhole|].
      split; [exact Htok|]. intros; cbn; lia.
    + intros H. destruct (IH _ _ H) as (pre & w & rest & -> & Hwhole & Htok & Hleft).
      exists (String c pre), w, rest. split; [reflexivity|]. split; [exact Hwhole|].
      split; [exact Htok|].
      intros pre' q' w' u' rest' Hs Htok'.
      destruct pre' as [|c' pre'].
      * change ("" +:+ q' +:+ w' +:+ u' +:+ rest') with (q' +:+ w' +:+ u' +:+ rest') in Hs.
        cbn [prev_of] in Htok'.
        destruct (match_at_complete _ _ _ _ _ _ Htok') as (m' & Hm').
        rewrite <- Hs, Hm in Hm'. discriminate.
      * change (String c' pre' +:+ q' +:+ w' +:+ u' +:+ rest')
          with (String c' (pre' +:+ q' +:+ w' +:+ u' +:+ rest')) in Hs.
        injection Hs as <- Hs.
        cbn [String.length]. apply le_n_S. apply (Hleft pre' q' w' u' rest' Hs Htok').
Qed.

(** No match means no token anywhere. *)
Lemma find_match_none alts s : forall prev,
  find_match alts prev s = None ->
  forall pre q w u rest,
    s = pre +:+ q +:+ w +:+ u +:+ rest ->
    ~ token_at alts (prev_of prev pre) q w u rest.
Proof.
  induction s as [|c s IH]; intros prev Hnone pre q w u rest Hs Htok.
  - destruct pre as [|c' pre']; [|discriminate].
    cbn [prev_of] in Htok.
    destruct (match_at_complete _ _ _ _ _ _ Htok) as (m & Hm).
    change ("" +:+ q +:+ w +:+ u +:+ rest) with (q +:+ w +:+ u +:+ rest) in Hs.
    rewrite <- Hs in Hm. cbn [find_match] in Hnone. rewrite Hm in Hnone. discriminate.
  - cbn [find_match] in Hnone.
    destruct (match_at alts prev (String c s)) as [m'|] eqn:Hm; [discriminate|].
    destruct pre as [|c' pre'].
    + change ("" +:+ q +:+ w +:+ u +:+ rest) with (q +:+ w +:+ u +:+ rest) in Hs.
      cbn [prev_of] in Htok.
      destruct (match_at_complete _ _ _ _ _ _ Htok) as (m & Hm').
      rewrite <- Hs, Hm in Hm'. discriminate.
    + change (String c' pre' +:+ q +:+ w +:+ u +:+ rest)
        with (String c' (pre' +:+ q +:+ w +:+ u +:+ rest)) in Hs.
      injection Hs as <- Hs.
      exact (IH _ Hnone pre' q w u rest Hs Htok).
Qed.

(** The pattern matches exactly the lines that hold a token. *)
Lemma find_match_iff alts line :
  find_match alts None line = None
  <-> forall pre q w u rest, ~ token_after alts line pre q w u rest.
Proof.
  split.
  - intros Hnone pre q w u rest [Hs Htok].
    apply (find_match_none alts line None Hnone pre q w u rest Hs).
    rewrite prev_of_None. exact Htok.
  - intros Hno. destruct (find_match alts None line) as [m|] eqn:Hm; [|reflexivity].
    destruct (find_match_token _ _ _ _ Hm) as (pre & w & rest & Hs & _ & Htok & _).
    rewrite prev_of_None in Htok.
    destruct (Hno pre (qty m) w (unit m) rest). split; assumption.
Qed.
(** *** The position-sensitive parser reads a leading quantity and unit *)

Lemma is_word_lower c : is_word (lower_char c) = is_word c.
Proof. destruct c as [[] [] [] [] [] [] [] []]; reflexivity. Qed.

Lemma is_word_not_space c : is_word c = true -> is_space c = false.
Proof. destruct c as [[] [] [] [] [] [] [] []]; vm_compute; congruence. Qed.

Lemma is_digit_not_space c : is_digit c = true -> is_space c = false.
Proof. destruct c as [[] [] [] [] [] [] [] []]; vm_compute; congruence. Qed.

Lemma all_word_lower s : all_word (toLowerCase s) = all_word s.
Proof.
  induction s as [|c s IH]; [reflexivity|].
  cbn [toLowerCase all_word]. rewrite is_word_lower, IH. reflexivity.
Qed.

Lemma is_empty_toLowerCase s : is_empty (toLowerCase s) = is_empty s.
Proof. destruct s; reflexivity. Qed.

Lemma is_word_spelling_ci u alt :
  toLowerCase u = toLowerCase alt -> is_word_spelling u = is_word_spelling alt.
Proof.
  intros H. unfold is_word_spelling.
  rewrite <- (all_word_lower u), <- (is_empty_toLowerCase u), H.
  rewrite all_word_lower, is_empty_toLowerCase. reflexivity.
Qed.

Lemma canonical_id_ci units u v :
  toLowerCase u = toLowerCase v -> canonical_id units u = canonical_id units v.
Proof. intros H. unfold canonical_id. rewrite H. reflexivity. Qed.

Lemma last_char_word s :
  is_word_spelling s = true -> is_word_opt (last_char s) = true.
Proof.
  unfold is_word_spelling. destruct s as [|c s]; [discriminate|]. cbn [is_empty negb andb].
  revert c. induction s as [|d s IH]; intros c; cbn [all_word last_char].
  - rewrite andb_true_r. auto.
  - intros [_ H]%andb_prop. apply IH. exact H.
Qed.

Lemma last_char_append a b :
  is_empty b = false -> last_char (a +:+ b) = last_char b.
Proof.
  intros Hb. induction a as [|c a IH]; [reflexivity|].
  change (String c a +:+ b) with (String c (a +:+ b)).
  cbn [last_char]. destruct (a +:+ b) eqn:E; [|exact IH].
  destruct a; [|discriminate E]. change ("" +:+ b) with b in E.
  rewrite E in Hb. discriminate Hb.
Qed.

(** [trimEnd] leaves alone what stands before a character that is not
    white space. *)
Lemma trimEnd_after a b :
  match last_char a with Some c => is_space c = false | None => False end ->
  trimEnd (a +:+ b) = a +:+ trimEnd b.
Proof.
  induction a as [|c a IH]; [contradiction|].
  intros H. change (String c a +:+ b) with (String c (a +:+ b)).
  cbn [trimEnd]. destruct a as [|d a'].
  - cbn [last_char] in H. rewrite H. reflexivity.
  - rewrite (IH H).
    change (String d a' +:+ trimEnd b) with (String d (a' +:+ trimEnd b)).
    cbn [is_empty]. rewrite andb_false_r. reflexivity.
Qed.

Lemma digit_prefixes_head d t :
  all_digits d = true -> is_empty d = false ->
  match head_char t with Some c => is_digit c = false | None => True end ->
  exists l, digit_prefixes (d +:+ t) = (d, t) :: l.
Proof.
  induction d as [|c d IH]; [discriminate|].
  intros [Hc Hd]%andb_prop _ Ht.
  change (String c d +:+ t) with (String c (d +:+ t)).
  cbn [digit_prefixes]. rewrite Hc.
  destruct d as [|c' d'].
  - change ("" +:+ t) with t.
    assert (digit_prefixes t = []) as ->.
    { destruct t as [|x t']; [reflexivity|]. cbn [head_char] in Ht.
      cbn [digit_prefixes]. rewrite Ht. reflexivity. }
    eexists. reflexivity.
  - destruct (IH Hd eq_refl Ht) as (l & ->). eexists. reflexivity.
Qed.

Lemma number_candidates_head q t :
  is_decimal_numeral q = true ->
  exists l, number_candidates (q +:+ String " " t) = (q, String " " t) :: l.
Proof.
  unfold is_decimal_numeral. destruct (span_digits q) as [d t0] eqn:Hs.
  destruct (span_digits_prefix _ _ _ Hs) as [Hd ->].
  intros [Hne H]%andb_prop. apply negb_true_iff in Hne.
  unfold number_candidates.
  destruct t0 as [|sep f].
  - rewrite append_empty_right.
    destruct (digit_prefixes_head d (String " " t) Hd Hne eq_refl) as (l & ->).
    eexists. reflexivity.
  - apply andb_prop in H as [[Hsep Hfe]%andb_prop Hf]. apply negb_true_iff in Hfe.
    rewrite append_assoc.
    change (String sep f +:+ String " " t) with (String sep (f +:+ String " " t)).
    assert (is_digit sep = false) as Hnd.
    { apply orb_prop in Hsep as [E|E]; apply bool_decide_eq_true in E; subst; reflexivity. }
    destruct (digit_prefixes_head d (String sep (f +:+ String " " t)) Hd Hne Hnd) as (l & ->).
    cbn [flat_map]. rewrite Hsep.
    destruct (digit_prefixes_head f (String " " t) Hf Hfe eq_refl) as (l' & ->).
    eexists. reflexivity.
Qed.

Lemma ci_eq_word a b : ci_eq a b = true -> is_word a = is_word b.
Proof.
  unfold ci_eq. destruct (decide (lower_char a = lower_char b)) as [E|]; [|discriminate].
  intros _. rewrite <- (is_word_lower a), <- (is_word_lower b), E. reflexivity.
Qed.

(** A word that is a prefix, in any case, of a word followed by something
    that is no word character, is a prefix of the word. *)
Lemma ci_prefix_of_word alt : forall u tail,
  all_word alt = true ->
  is_word_opt (head_char tail) = false ->
  startsWith_ci alt (u +:+ tail) = true ->
  exists u1 u2,
    u = u1 +:+ u2 /\ toLowerCase u1 = toLowerCase alt
    /\ drop (String.length alt) (u +:+ tail) = u2 +:+ tail.
Proof.
  induction alt as [|a alt IH]; intros u tail Hw Ht Hci.
  - exists "", u. repeat split.
  - cbn [all_word] in Hw. apply andb_prop in Hw as [Ha Hw].
    destruct u as [|b u].
    + change ("" +:+ tail) with tail in Hci. destruct tail as [|b tail']; [discriminate|].
      cbn [startsWith_ci] in Hci. apply andb_prop in Hci as [Hab _].
      apply ci_eq_word in Hab. cbn [head_char is_word_opt] in Ht. congruence.
    + change (String b u +:+ tail) with (String b (u +:+ tail)) in *.
      cbn [startsWith_ci] in Hci. apply andb_prop in Hci as [Hab Hci].
      destruct (IH u tail Hw Ht Hci) as (u1 & u2 & -> & Hlow & Hdrop).
      exists (String b u1), u2. split; [reflexivity|]. split.
      * cbn [toLowerCase]. rewrite Hlow. f_equal.
        unfold ci_eq in Hab. destruct (decide _) as [E|]; [symmetry; exact E|discriminate].
      * cbn [String.length drop]. exact Hdrop.
Qed.

Lemma head_char_word u :
  is_word_spelling u = true -> is_word_opt (head_char u) = true.
Proof.
  unfold is_word_spelling. destruct u as [|c u]; [discriminate|].
  cbn. intros [H _]%andb_prop. exact H.
Qed.

Lemma all_word_append a b : all_word (a +:+ b) = all_word a && all_word b.
Proof.
  induction a as [|c a IH]; [reflexivity|].
  change (String c a +:+ b) with (String c (a +:+ b)).
  cbn [all_word]. rewrite IH, andb_assoc. reflexivity.
Qed.

(** With a dictionary whose spellings are words, the position-sensitive
    parser reads the quantity and the unit at the head of a line. *)
Lemma leading_parser_reads_leading units :
  forallb is_word_spelling (unit_alternatives units) = true ->
  reads_leading leading_parser units.
Proof.
  intros Hwords q u rest Hq (alt0 & Halt0 & Hlow0).
  pose proof (proj1 (forallb_forall _ _) Hwords) as Hall.
  assert (is_word_spelling u = true) as Hu
    by (rewrite (is_word_spelling_ci u alt0 Hlow0); apply Hall, Halt0).
  pose proof (is_decimal_numeral_nonempty q Hq) as Hqne.
  set (tail := trimEnd (String " " rest)).
  assert (is_word_opt (head_char tail) = false) as Htail.
  { unfold tail. cbn [trimEnd]. destruct (is_space " " && is_empty (trimEnd rest)); reflexivity. }
  assert (trim (q +:+ " " +:+ u +:+ " " +:+ rest) = q +:+ String " " (u +:+ tail)) as Htrim.
  { unfold trim.
    assert (trimStart (q +:+ " " +:+ u +:+ " " +:+ rest) = q +:+ " " +:+ u +:+ " " +:+ rest)
      as ->.
    { destruct q as [|c q']; [discriminate|].
      change (String c q' +:+ " " +:+ u +:+ " " +:+ rest)
        with (String c (q' +:+ " " +:+ u +:+ " " +:+ rest)).
      cbn [trimStart].
      assert (is_digit c = true) as Hc.
      { unfold is_decimal_numeral in Hq. cbn [span_digits] in Hq.
        destruct (is_digit c); [reflexivity|discriminate]. }
      rewrite (is_digit_not_space c Hc). reflexivity. }
    replace (q +:+ " " +:+ u +:+ " " +:+ rest)
      with ((q +:+ " " +:+ u) +:+ String " " rest) by (rewrite !append_assoc; reflexivity).
    rewrite trimEnd_after; [rewrite !append_assoc; reflexivity|].
    rewrite last_char_append by (destruct u; [discriminate|reflexivity]).
    change (" " +:+ u) with (String " " u).
    pose proof (last_char_word u Hu) as Hl.
    destruct u as [|c u']; [discriminate|].
    change (last_char (String " " (String c u'))) with (last_char (String c u')).
    destruct (last_char (String c u')) as [x|]; [|discriminate].
    apply is_word_not_space. exact Hl. }
  unfold leading_parser. rewrite Htrim.
  destruct (number_candidates_head q (u +:+ tail) Hq) as (l & ->).
  assert (trimStart (String " " (u +:+ tail)) = u +:+ tail) as ->.
  { cbn [trimStart is_space]. change (is_space " ") with true. cbv iota.
    pose proof (head_char_word u Hu) as Hh. destruct u as [|c u']; [discriminate|].
    change (String c u' +:+ tail) with (String c (u' +:+ tail)).
    cbn [trimStart]. rewrite (is_word_not_space c Hh). reflexivity. }
  destruct (startsWith_ci_complete alt0 u tail Hlow0) as (Hci0 & _ & Hdrop0).
  match goal with
  | |- context [first_some ?F (unit_alternatives units)] =>
      assert (exists alt1, first_some F (unit_alternatives units) = Some alt1) as (alt1 & Hfound)
  end.
  { eapply first_some_complete; [exact Halt0|]. cbv beta.
    rewrite Hci0, Hdrop0.
    pose proof (Hall alt0 Halt0) as Hw0. pose proof (last_char_word alt0 Hw0) as Hl0.
    unfold is_word_spelling in Hw0. apply andb_prop in Hw0 as [Hne0 _].
    rewrite Hne0. unfold word_boundary. rewrite Hl0, Htail. reflexivity. }
  rewrite Hfound.
  apply first_some_Some in Hfound as (alt & Halt & Hcond).
  cbv beta in Hcond.
  destruct (negb (is_empty alt) && startsWith_ci alt (u +:+ tail)
            && word_boundary (last_char alt)
                 (head_char (drop (String.length alt) (u +:+ tail)))) eqn:Hc;
    [|discriminate].
  injection Hcond as <-.
  apply andb_prop in Hc as [[_ Hci]%andb_prop Hb].
  pose proof (Hall alt Halt) as Hw. pose proof (last_char_word alt Hw) as Hl.
  unfold is_word_spelling in Hw. apply andb_prop in Hw as [_ Haw].
  destruct (ci_prefix_of_word alt u tail Haw Htail Hci) as (u1 & u2 & Hsplit & Hlow & Hdrop).
  rewrite Hdrop in Hb. unfold word_boundary in Hb. rewrite Hl in Hb.
  assert (u2 = "") as ->.
  { destruct u2 as [|c u2']; [reflexivity|].
    unfold is_word_spelling in Hu. apply andb_prop in Hu as [_ Hau].
    rewrite Hsplit, all_word_append in Hau. apply andb_prop in Hau as [_ Hau].
    cbn [all_word] in Hau. apply andb_prop in Hau as [Hcw _].
    change (String c u2' +:+ tail) with (String c (u2' +:+ tail)) in Hb.
    cbn [head_char is_word_opt] in Hb. rewrite Hcw in Hb. discriminate. }
  rewrite append_empty_right in Hsplit. subst u1.
  eexists _, _. split; [reflexivity|]. cbn [quantity unitOfMeasureID].
  split; [reflexivity|]. apply canonical_id_ci. symmetry. exact Hlow.
Qed.

Section WithBaseline.
Variable parseIngredient : string -> UnitsMap -> list Ingredient.
Variable units : UnitsMap.

Lemma parseIngredientWithDefaults_single line :
  is_empty line = false ->
  parseIngredientWithDefaults parseIngredient [line] units
  = parse_line parseIngredient line units.
Proof.
  intros H. simpl. rewrite H. apply app_nil_r.
Qed.

(** C1, as the code has it.  For a line that is not empty, with [nl] the
    line after its decimal commas became dots:
    - when the first pass of the baseline parser finds a quantity, its
      result is returned;
    - otherwise the line is searched for a token: a number directly
      followed (white space apart) by a spelling of the dictionary, in any
      case and between word boundaries.  The search finds a token exactly
      when the line holds one, and the one it finds is the leftmost;
    - the token [m] is moved to the front and the baseline parser runs
      again on the reordered line; its result is returned when it has a
      quantity, the result of the first pass when it has none.  With a
      baseline parser that reads a quantity and a unit at the head of a
      line, the result has the number of the token as its quantity and
      the canonical id of the spelling of the token as its unit, unless
      that number is 0, in which case the result of the first pass is
      returned;
    - without a token the result of the first pass, without a quantity,
      is returned; this is the case of every line without a digit,
      whatever unit tokens it contains. *)
Theorem parseIngredientWithDefaults_recovery line :
  is_empty line = false ->
  let nl := normalize_commas line in
  let alts := unit_alternatives units in
  let first := parseIngredient nl units in
  let result := parseIngredientWithDefaults parseIngredient [line] units in
  (no_quantity first = false -> result = first)
  /\ (no_quantity first = true ->
      forall m, find_match alts None nl = Some m ->
        (exists pre w rest,
            token_after alts nl pre (qty m) w (unit m) rest
            /\ whole m = qty m +:+ w +:+ unit m
            /\ forall pre' q' w' u' rest',
                 token_after alts nl pre' q' w' u' rest' ->
                 (String.length pre <= String.length pre')%nat)
        /\ startsWith (qty m +:+ " " +:+ unit m +:+ " ") (reorder nl m) = true
        /\ (no_quantity (parseIngredient (reorder nl m) units) = false ->
            result = parseIngredient (reorder nl m) units)
        /\ (no_quantity (parseIngredient (reorder nl m) units) = true ->
            result = first)
        /\ (reads_leading parseIngredient units ->
            (~ (decimal_value (qty m) == 0)%Q ->
             exists i tl,
               result = i :: tl
               /\ quantity i = Some (decimal_value (qty m))
               /\ unitOfMeasureID i = canonical_id units (unit m))
            /\ ((decimal_value (qty m) == 0)%Q -> result = first)))
  /\ ((exists pre q w u rest, token_after alts nl pre q w u rest)
      <-> exists m, find_match alts None nl = Some m)
  /\ (no_quantity first = true ->
      find_match alts None nl = None -> result = first)
  /\ (has_digit line = false ->
      find_match alts None nl = None /\ result = first).
Proof.
  intros Hne nl alts first result.
  assert (result = parse_line parseIngredient line units) as Hres
    by (apply parseIngredientWithDefaults_single; exact Hne).
  unfold parse_line in Hres. fold nl in Hres. fold first in Hres. fold alts in Hres.
  assert (forall a b, startsWith a (a +:+ b) = true) as Hprefix.
  { intros a b. induction a as [|x a IH]; [reflexivity|].
    simpl. destruct (decide (x = x)); [exact IH|congruence]. }
  split; [intros H; rewrite H in Hres; exact Hres|].
  split.
  { intros Hnq m Hm. rewrite Hnq, Hm in Hres.
    destruct (find_match_token _ _ _ _ Hm) as (pre & w & rest & Hs & Hwhole & Htok & Hleft).
    rewrite prev_of_None in Htok.
    split.
    { exists pre, w, rest. split; [split; assumption|]. split; [exact Hwhole|].
      intros pre' q' w' u' rest' [Hs' Htok']. apply (Hleft pre' q' w' u' rest' Hs').
      rewrite prev_of_None. exact Htok'. }
    split; [unfold reorder; rewrite <- !append_assoc; apply Hprefix|].
    split; [intros H1; rewrite H1 in Hres; exact Hres|].
    split; [intros H1; rewrite H1 in Hres; exact Hres|].
    intros Hreads.
    destruct Htok as (_ & Hq & _ & Halt & _).
    destruct (Hreads (qty m) (unit m)
                (collapse_spaces (trim (remove_first (whole m) nl))) Hq Halt)
      as (i & tl & Hparse & Hqty & Hunit).
    fold (reorder nl m) in Hparse. rewrite Hparse in Hres.
    cbn [no_quantity] in Hres. rewrite Hqty in Hres.
    split.
    - intros Hnz. exists i, tl.
      destruct (Qeq_bool (decimal_value (qty m)) 0) eqn:E;
        [apply Qeq_bool_iff in E; contradiction|].
      split; [exact Hres|]. split; assumption.
    - intros Hz. apply Qeq_bool_iff in Hz. rewrite Hz in Hres. exact Hres. }
  split.
  { split.
    - intros (pre & q & w & u & rest & Htok).
      destruct (find_match alts None nl) as [m|] eqn:Hm; [eauto|].
      destruct (proj1 (find_match_iff alts nl) Hm pre q w u rest Htok).
    - intros (m & Hm).
      destruct (find_match_token _ _ _ _ Hm) as (pre & w & rest & Hs & _ & Htok & _).
      rewrite prev_of_None in Htok.
      exists pre, (qty m), w, (unit m), rest. split; assumption. }
  split; [intros H H0; rewrite H, H0 in Hres; exact Hres|].
  intros H.
  assert (find_match alts None nl = None) as Hnone
    by (apply find_match_no_digit; unfold nl; rewrite has_digit_normalize_commas; exact H).
  split; [exact Hnone|].
  rewrite Hnone in Hres. destruct (no_quantity first); exact Hres.
Qed.

End WithBaseline.

Lemma parseIngredientWithDefaults_recovery_witness :
  parseIngredientWithDefaults leading_parser ["Add flour, 2 cups"] example_units
  = leading_parser "2 cups Add flour," example_units
  /\ exists i tl,
       parseIngredientWithDefaults leading_parser ["Add flour, 2 cups"] example_units
       = i :: tl
       /\ quantity i = Some (2 # 1) /\ unitOfMeasureID i = Some "cup".
Proof.
  pose proof (parseIngredientWithDefaults_recovery leading_parser example_units
                "Add flour, 2 cups" eq_refl) as (_ & H & _ & _).
  destruct (H eq_refl {| whole := "2 cups"; qty := "2"; unit := "cups" |} eq_refl)
    as (_ & _ & Hre & _ & Hreads).
  split; [exact (Hre eq_refl)|].
  destruct (Hreads (leading_parser_reads_leading example_units eq_refl)) as [Hqty _].
  apply Hqty. discriminate.
Defined.

(** C1 as stated fails.  Both lines contain the unit token "cups"; in the
    first no number stands directly before it, the second has no number at
    all.  The recovery pattern matches neither, so the result is that of
    the first pass, whatever the baseline parser is, and a
    position-sensitive baseline parser finds no quantity in it. *)
Lemma unit_token_without_quantity :
  spec_has_unit_token example_units "flour 2 heaping cups" = true
  /\ spec_has_unit_token example_units "cups of flour" = true
  /\ (forall baseline,
        parseIngredientWithDefaults baseline ["flour 2 heaping cups"] example_units
        = baseline "flour 2 heaping cups" example_units
        /\ parseIngredientWithDefaults baseline ["cups of flour"] example_units
           = baseline "cups of flour" example_units)
  /\ map quantity
       (parseIngredientWithDefaults leading_parser ["flour 2 heaping cups"] example_units)
     = [None]
  /\ map quantity
       (parseIngredientWithDefaults leading_parser ["cups of flour"] example_units)
     = [None].
Proof.
  split; [vm_compute; reflexivity|].
  split; [vm_compute; reflexivity|].
  split.
  - intros baseline. split.
    + rewrite parseIngredientWithDefaults_single by reflexivity.
      unfold parse_line.
      change (normalize_commas "flour 2 heaping cups") with "flour 2 heaping cups".
      assert (find_match (unit_alternatives example_units) None "flour 2 heaping cups" = None)
        as -> by (vm_compute; reflexivity).
      destruct (no_quantity _); reflexivity.
    + rewrite parseIngredientWithDefaults_single by reflexivity.
      unfold parse_line.
      change (normalize_commas "cups of flour") with "cups of flour".
      rewrite (find_match_no_digit _ None "cups of flour" eq_refl).
      destruct (no_quantity _); reflexivity.
  - split; vm_compute; reflexivity.
Qed.

End IngredientsFacts.

(** ** [extractPaprikaRecipes] *)

Module PaprikaFacts.
Import Js Json Eff Paprika.

Section WithCollaborators.
Variable read_entry : ZipEntry -> result (list Byte.byte).
Variable gunzip : list Byte.byte -> result (list Byte.byte).
Variable json_of_buffer : list Byte.byte -> result json.
Variable base64ToBuffer : string -> result (list Byte.byte).

Local Abbreviation decode_entry := (decode_entry read_entry gunzip json_of_buffer base64ToBuffer).
Local Abbreviation extract_one := (extract_one read_entry gunzip json_of_buffer base64ToBuffer).
Local Abbreviation extract_loop := (extract_loop read_entry gunzip json_of_buffer base64ToBuffer).
Local Abbreviation extractPaprikaRecipes :=
  (extractPaprikaRecipes read_entry gunzip json_of_buffer base64ToBuffer).
Local Abbreviation extracted_of := (extracted_of read_entry gunzip json_of_buffer base64ToBuffer).
Local Abbreviation warnings_of := (warnings_of read_entry gunzip json_of_buffer base64ToBuffer).

(** Reading the first photo neither throws nor logs. *)
Lemma first_photo_spec r log :
  first_photo base64ToBuffer r log = (Ret (photo_of base64ToBuffer r), log).
Proof.
  unfold first_photo, photo_of.
  destruct (photos r) as [|p ps]; [reflexivity|].
  destruct (photo_data p) as [d|]; [|reflexivity].
  destruct (is_empty d); [reflexivity|].
  unfold try_catch, bind, lift, ret.
  destruct (base64ToBuffer d); reflexivity.
Qed.

(** One round of the loop: the element is pushed, or a warning is logged;
    the round itself never throws. *)
Lemma extract_one_spec f results log :
  extract_one f results log =
  match decode_entry f with
  | Ret x => (Ret (results ++ [x]), log)
  | Throw e => (Ret results, log ++ [skip_warning f e])
  end.
Proof.
  unfold Paprika.extract_one, Paprika.decode_entry, try_catch, bind, lift, rbind, modify, ret.
  destruct (read_entry f) as [c|e]; [|reflexivity].
  destruct (gunzip c) as [d|e]; [|reflexivity].
  destruct (json_of_buffer d) as [j|e]; [|reflexivity].
  destruct (PaprikaRecipeSchema_parse j) as [r|e]; [|reflexivity].
  rewrite first_photo_spec. reflexivity.
Qed.

Lemma extract_loop_spec files results log :
  extract_loop files results log =
  (Ret (results ++ extracted_of files), log ++ warnings_of files).
Proof.
  revert results log; induction files as [|f files IH]; intros results log.
  - simpl. unfold ret. rewrite !app_nil_r. reflexivity.
  - cbn [Paprika.extract_loop]. unfold bind at 1. rewrite extract_one_spec.
    cbn [Paprika.extracted_of Paprika.warnings_of].
    destruct (decode_entry f) as [x|e]; rewrite IH.
    + rewrite <- app_assoc. reflexivity.
    + rewrite <- app_assoc. reflexivity.
Qed.

(** An entry that is not a gzip stream makes the [try] block throw. *)
Lemma decode_entry_not_gzip f c e :
  read_entry f = Ret c -> gunzip c = Throw e -> decode_entry f = Throw e.
Proof.
  intros Hr Hg. unfold Paprika.decode_entry, rbind. rewrite Hr, Hg. reflexivity.
Qed.

(** C7.  For an archive whose [.paprikarecipe] files are one valid entry
    and one entry that is not gzip data, in either order,
    [extractPaprikaRecipes] returns (it does not throw) exactly the valid
    recipe and logs one warning, for the corrupted entry. *)
Theorem extractPaprikaRecipes_skips_corrupted zip valid bad x c e log :
  zip_files zip = [valid; bad] \/ zip_files zip = [bad; valid] ->
  decode_entry valid = Ret x ->
  read_entry bad = Ret c -> gunzip c = Throw e ->
  extractPaprikaRecipes zip log = (Ret [x], log ++ [skip_warning bad e]).
Proof.
  intros Hzip Hvalid Hread Hgunzip.
  pose proof (decode_entry_not_gzip bad c e Hread Hgunzip) as Hbad.
  unfold Paprika.extractPaprikaRecipes. rewrite extract_loop_spec.
  destruct Hzip as [-> | ->]; simpl; rewrite Hvalid, Hbad; reflexivity.
Qed.

(** In general the call never throws: it returns the entries that decode,
    in the order of the archive, and logs one warning for each of the
    others. *)
Lemma extractPaprikaRecipes_total zip log :
  extractPaprikaRecipes zip log =
  (Ret (extracted_of (zip_files zip)), log ++ warnings_of (zip_files zip)).
Proof.
  unfold Paprika.extractPaprikaRecipes. rewrite extract_loop_spec. reflexivity.
Qed.

End WithCollaborators.

Lemma extractPaprikaRecipes_skips_corrupted_witness :
  exists x,
    extractPaprikaRecipes example_read example_gunzip example_json example_base64
      example_zip []
    = (Ret [x],
       [mkWarning "Recipes/broken.paprikarecipe" "incorrect header check"
          "Skipping corrupted .paprikarecipe file"])
    /\ name (recipe x) = "Tea" /\ fileName x = "Recipes/Tea.PaprikaRecipe".
Proof.
  eexists. split.
  - apply (extractPaprikaRecipes_skips_corrupted
             example_read example_gunzip example_json example_base64 example_zip
             (mkZipEntry "Recipes/Tea.PaprikaRecipe" false [Byte.x1f; Byte.x8b; Byte.x01])
             (mkZipEntry "Recipes/broken.paprikarecipe" false
                [Byte.x50; Byte.x4b; Byte.x03; Byte.x04])
             _ [Byte.x50; Byte.x4b; Byte.x03; Byte.x04] "incorrect header check" []).
    + right. vm_compute. reflexivity.
    + vm_compute. reflexivity.
    + reflexivity.
    + reflexivity.
  - split; reflexivity.
Defined.

End PaprikaFacts.

(** ** [parseVideos] *)

Module VideosFacts.
Import Js Json Eff Videos.

Lemma downloads_app t1 t2 : downloads (t1 ++ t2) = downloads t1 ++ downloads t2.
Proof.
  induction t1 as [|e t1 IH]; [reflexivity|].
  destruct e; simpl; rewrite IH; reflexivity.
Qed.

Section WithCollaborators.
Variable decode : string -> string.
Variable parseDuration : option string -> option Q.
Variable getVideoMetadata : string -> list Event -> result (option Q).
Variable downloadVideo : string -> list Event -> result (option string).
Variable getFfmpegPath : list Event -> result (option string).
Variable convertToMp4 : string -> option string -> list Event -> result string.
Variable saveVideoFile : string -> string -> option Q -> list Event -> result (string * option Q).
Variable unlink : string -> list Event -> result unit.

Local Abbreviation cleanupFile := (cleanupFile unlink).
Local Abbreviation downloadAndSaveVideo :=
  (downloadAndSaveVideo getVideoMetadata downloadVideo getFfmpegPath convertToMp4
     saveVideoFile unlink).
Local Abbreviation process_candidate :=
  (process_candidate parseDuration getVideoMetadata downloadVideo getFfmpegPath
     convertToMp4 saveVideoFile unlink).
Local Abbreviation process_candidates :=
  (process_candidates parseDuration getVideoMetadata downloadVideo getFfmpegPath
     convertToMp4 saveVideoFile unlink).
Local Abbreviation run_rounds :=
  (run_rounds parseDuration getVideoMetadata downloadVideo getFfmpegPath
     convertToMp4 saveVideoFile unlink).
Local Abbreviation parseVideos :=
  (parseVideos decode parseDuration getVideoMetadata downloadVideo getFfmpegPath
     convertToMp4 saveVideoFile unlink).

(** [cleanupFile] returns, keeps the local variables and downloads
    nothing. *)
Lemma cleanupFile_spec p s :
  exists tr',
    cleanupFile p s = (Ret tt, (tr', snd s))
    /\ downloads tr' = downloads (fst s).
Proof.
  unfold Videos.cleanupFile, try_catch, bind, call, log, modify, ret.
  destruct s as [tr l]; simpl.
  destruct (unlink p tr); simpl; eexists; (split; [reflexivity|]);
    rewrite ?downloads_app; simpl; rewrite ?app_nil_r; reflexivity.
Qed.

(** A call of [downloadAndSaveVideo] always returns; it calls the
    downloader exactly once, for its URL, and a video it returns carries
    the order and the thumbnail it was given. *)
Lemma downloadAndSaveVideo_returns videoUrl recipeId i thumb hint trace :
  exists r trace',
    downloadAndSaveVideo videoUrl recipeId i thumb hint trace = (Ret r, trace')
    /\ downloads trace' = downloads trace ++ [videoUrl]
    /\ (forall v, r = Some v -> order v = i /\ thumbnail v = thumb).
Proof.
  unfold Videos.downloadAndSaveVideo, finally, try_catch, download_try, download_finally,
    duration_with_metadata, Videos.cleanupFile, set_downloadedPath, set_convertedPath,
    try_catch, bind, call, log, modify, get, ret.
  simpl.
  repeat (case_match; simpl in *; simplify_eq);
    (eexists _, _; split; [reflexivity|]; split;
     [ simpl; repeat (rewrite downloads_app; simpl); rewrite ?app_nil_r; reflexivity
     | intros v Hv; inversion Hv; subst; simpl; auto ]).
Qed.

Local Abbreviation produced_from :=
  (produced_from downloadVideo getFfmpegPath convertToMp4 saveVideoFile).
Local Abbreviation always_succeeds :=
  (always_succeeds downloadVideo getFfmpegPath convertToMp4 saveVideoFile).

(** A video is returned only after download, conversion and save
    succeeded: a candidate for which one of them fails is skipped. *)
Lemma downloadAndSaveVideo_some videoUrl recipeId i thumb hint trace v trace' :
  downloadAndSaveVideo videoUrl recipeId i thumb hint trace = (Ret (Some v), trace') ->
  produced_from videoUrl recipeId v.
Proof.
  unfold Videos.downloadAndSaveVideo, finally, try_catch, download_try, download_finally,
    duration_with_metadata, Videos.cleanupFile, set_downloadedPath, set_convertedPath,
    try_catch, bind, call, log, modify, get, ret, Videos.produced_from.
  simpl. intros H.
  repeat (case_match; simpl in *; simplify_eq);
    match goal with
    | Hs : saveVideoFile _ _ _ _ = Ret ?p |- _ => destruct p; simpl
    end;
    do 8 eexists; repeat split; eassumption.
Qed.

(** When the collaborators succeed for the URL, the video is returned. *)
Lemma downloadAndSaveVideo_complete videoUrl recipeId i thumb hint trace saved :
  always_succeeds videoUrl recipeId saved ->
  exists trace',
    downloadAndSaveVideo videoUrl recipeId i thumb hint trace
    = (Ret (Some {| video := fst saved; thumbnail := thumb;
                    duration := snd saved; order := i |}), trace').
Proof.
  intros (filePath & ffmpegPath & converted & Hd & Hf & Hc & Hs).
  unfold Videos.downloadAndSaveVideo, finally, try_catch, download_try, download_finally,
    duration_with_metadata, Videos.cleanupFile, set_downloadedPath, set_convertedPath,
    try_catch, bind, call, log, modify, get, ret.
  simpl.
  repeat (rewrite ?Hd, ?Hf, ?Hc, ?Hs; simpl);
  repeat (case_match; simpl in *; simplify_eq;
          rewrite ?Hd, ?Hf, ?Hc, ?Hs in *; simpl in *; simplify_eq);
    eexists; reflexivity.
Qed.

(** One round of the loop returns; it downloads the URL of its candidate
    once, or nothing when the candidate has none. *)
Lemma process_candidate_returns recipeId i c trace :
  exists r trace',
    process_candidate recipeId i c trace = (Ret r, trace')
    /\ downloads trace' = downloads trace ++ urls_of [c]
    /\ (forall v, r = Some v -> order v = i).
Proof.
  unfold Videos.process_candidate. simpl urls_of.
  destruct (path_set (video_url c)) as [u|].
  - destruct (downloadAndSaveVideo_returns u recipeId i
                (extractThumbnailUrl (thumbnailUrl c))
                (parseDuration (cand_duration c)) trace) as (r & tr' & E & Hd & Ho).
    exists r, tr'. split; [exact E|]. split; [exact Hd|].
    intros v Hv. apply (Ho v Hv).
  - exists None, trace. split; [reflexivity|]. split; [rewrite app_nil_r; reflexivity|].
    discriminate.
Qed.

Lemma urls_of_cons c r : urls_of (c :: r) = urls_of [c] ++ urls_of r.
Proof. simpl. destruct (path_set (video_url c)); reflexivity. Qed.

(** The loop runs every round, whatever the outcomes of the rounds before,
    and collects the videos of the rounds that returned one. *)
Lemma process_candidates_spec recipeId i cands videos trace :
  process_candidates recipeId i cands videos trace =
  (Ret (videos ++ successes (fst (run_rounds recipeId i cands trace))),
   snd (run_rounds recipeId i cands trace)).
Proof.
  revert i videos trace; induction cands as [|c r IH]; intros i videos trace.
  - simpl. unfold ret. rewrite app_nil_r. reflexivity.
  - cbn [Videos.process_candidates Videos.run_rounds]. unfold bind at 1.
    destruct (process_candidate_returns recipeId i c trace) as (o & tr1 & E & _ & _).
    rewrite E, IH.
    destruct (Videos.run_rounds _ _ _ _ _ _ _ recipeId (i + 1) r tr1) as [os tr2].
    simpl. destruct o as [v|]; simpl; [rewrite <- app_assoc|]; reflexivity.
Qed.

Lemma run_rounds_downloads recipeId i cands trace :
  downloads (snd (run_rounds recipeId i cands trace))
  = downloads trace ++ urls_of cands.
Proof.
  revert i trace; induction cands as [|c r IH]; intros i trace.
  - simpl. rewrite app_nil_r. reflexivity.
  - cbn [Videos.run_rounds].
    destruct (process_candidate_returns recipeId i c trace) as (o & tr1 & E & Hd & _).
    rewrite E. specialize (IH (i + 1)%Z tr1).
    destruct (Videos.run_rounds _ _ _ _ _ _ _ recipeId (i + 1) r tr1) as [os tr2].
    cbn [fst snd] in *. rewrite IH, Hd, (urls_of_cons c r), app_assoc. reflexivity.
Qed.

(** Every collected video belongs to a candidate: its order is the index
    of the candidate, and the candidate's URL was downloaded, converted
    and saved. *)
Lemma run_rounds_sound recipeId i cands trace v :
  In v (successes (fst (run_rounds recipeId i cands trace))) ->
  exists (n : nat) c u,
    nth_error cands n = Some c
    /\ order v = (i + Z.of_nat n)%Z
    /\ path_set (video_url c) = Some u
    /\ produced_from u recipeId v.
Proof.
  revert i trace; induction cands as [|c r IH]; intros i trace; [contradiction|].
  cbn [Videos.run_rounds].
  destruct (process_candidate recipeId i c trace) as [o tr1] eqn:E.
  specialize (IH (i + 1)%Z tr1).
  destruct (Videos.run_rounds _ _ _ _ _ _ _ recipeId (i + 1) r tr1) as [os tr2].
  simpl in *.
  assert (In v (successes os) ->
          exists (n : nat) c0 u, nth_error (c :: r) n = Some c0
            /\ order v = (i + Z.of_nat n)%Z /\ path_set (video_url c0) = Some u
            /\ produced_from u recipeId v) as Hrest.
  { intros Hin. destruct (IH Hin) as (n & c0 & u & Hn & Ho & Hu & Hp).
    exists (S n), c0, u. repeat split; auto. lia. }
  destruct o as [[v0|]|e]; simpl; auto.
  intros [<-|Hin]; [|auto].
  unfold Videos.process_candidate in E.
  destruct (path_set (video_url c)) as [u|] eqn:Hu; [|discriminate].
  exists O, c, u. split; [reflexivity|].
  destruct (downloadAndSaveVideo_returns u recipeId i
              (extractThumbnailUrl (thumbnailUrl c))
              (parseDuration (cand_duration c)) trace) as (r0 & tr' & E' & _ & Ho).
  rewrite E' in E. inversion E; subst.
  split; [rewrite (proj1 (Ho v0 eq_refl)); lia|]. split; [exact Hu|].
  apply (downloadAndSaveVideo_some _ _ _ _ _ _ _ _ E').
Qed.

(** A candidate below the bound whose collaborators succeed is collected,
    whatever happened to the other candidates. *)
Lemma run_rounds_complete recipeId i cands trace (n : nat) c u saved :
  nth_error cands n = Some c ->
  path_set (video_url c) = Some u ->
  always_succeeds u recipeId saved ->
  exists v,
    In v (successes (fst (run_rounds recipeId i cands trace)))
    /\ order v = (i + Z.of_nat n)%Z
    /\ video v = fst saved /\ duration v = snd saved.
Proof.
  revert i trace n; induction cands as [|c0 r IH]; intros i trace n Hn Hu Hok.
  { destruct n; discriminate. }
  cbn [Videos.run_rounds].
  destruct (process_candidate recipeId i c0 trace) as [o tr1] eqn:E.
  destruct n as [|n]; simpl in Hn.
  - inversion Hn; subst c0.
    unfold Videos.process_candidate in E. rewrite Hu in E.
    destruct (downloadAndSaveVideo_complete u recipeId i
                (extractThumbnailUrl (thumbnailUrl c))
                (parseDuration (cand_duration c)) trace saved Hok) as (tr' & E').
    rewrite E' in E. inversion E; subst.
    destruct (Videos.run_rounds _ _ _ _ _ _ _ recipeId (i + 1) r tr1) as [os tr2].
    simpl. eexists. split; [left; reflexivity|]. simpl. repeat split; lia.
  - destruct (IH (i + 1)%Z tr1 n Hn Hu Hok) as (v & Hin & Ho & Hv & Hd).
    destruct (Videos.run_rounds _ _ _ _ _ _ _ recipeId (i + 1) r tr1) as [os tr2].
    simpl in *. exists v. split.
    + destruct o as [[v0|]|e]; simpl; auto.
    + repeat split; auto. lia.
Qed.

(** The orders of the collected videos increase. *)
Lemma run_rounds_sorted recipeId i cands trace :
  sublist (map order (successes (fst (run_rounds recipeId i cands trace))))
          (seqZ i (Z.of_nat (length cands))).
Proof.
  revert i trace; induction cands as [|c r IH]; intros i trace.
  - simpl. constructor.
  - cbn [Videos.run_rounds].
    destruct (process_candidate_returns recipeId i c trace) as (o & tr1 & E & _ & Ho).
    rewrite E. specialize (IH (i + 1)%Z tr1).
    destruct (Videos.run_rounds _ _ _ _ _ _ _ recipeId (i + 1) r tr1) as [os tr2].
    simpl in IH. cbn [length]. rewrite Nat2Z.inj_succ, seqZ_cons by lia.
    replace (Z.pred (Z.succ (Z.of_nat (length r)))) with (Z.of_nat (length r)) by lia.
    replace (Z.succ i) with (i + 1)%Z by lia.
    destruct o as [v|]; simpl.
    + rewrite (Ho v eq_refl). apply sublist_skip, IH.
    + apply sublist_cons, IH.
Qed.

Lemma extractVideoCandidates_falsy videoField :
  truthy_opt videoField = false -> extractVideoCandidates decode videoField = [].
Proof.
  destruct videoField as [v|]; [|reflexivity].
  destruct v; simpl; intros H; try discriminate; rewrite ?H; reflexivity.
Qed.

Lemma rounds_bound (cands : list VideoObjectCandidate) bound :
  (Z.of_nat (length (firstn (rounds cands bound) cands)) <= Z.max 0 bound)%Z.
Proof.
  rewrite length_take. unfold rounds. lia.
Qed.

(** [parseVideos] is the loop over the candidates below the bound, after
    at most one line of log. *)
Lemma parseVideos_rounds videoField recipeId maxVideos trace :
  let cands := extractVideoCandidates decode videoField in
  let bound := match maxVideos with Some n => n | None => 3%Z end in
  let processed := firstn (rounds cands bound) cands in
  exists trace1,
    downloads trace1 = downloads trace
    /\ parseVideos videoField recipeId maxVideos trace
       = (Ret (successes (fst (run_rounds recipeId 0 processed trace1))),
          snd (run_rounds recipeId 0 processed trace1)).
Proof.
  cbv zeta. unfold Videos.parseVideos.
  set (bound := match maxVideos with Some n => n | None => 3%Z end).
  set (cands := extractVideoCandidates decode videoField).
  assert (forall n, firstn n ([] : list VideoObjectCandidate) = []) as Hnil
    by (intros [|n]; reflexivity).
  destruct (truthy_opt videoField) eqn:Htruthy; cbv beta iota delta [negb].
  2:{ exists trace. split; [reflexivity|].
      assert (cands = []) as Hc by (apply extractVideoCandidates_falsy; exact Htruthy).
      clearbody cands. subst cands. rewrite Hnil. reflexivity. }
  clearbody cands. destruct cands as [|c0 cs].
  - exists (trace ++ [Log "debug" "No valid VideoObject candidates found in JSON-LD"]).
    split; [rewrite downloads_app; simpl; apply app_nil_r|].
    rewrite Hnil. reflexivity.
  - exists (trace ++ [Log "debug" "Found VideoObject candidates in JSON-LD"]).
    split; [rewrite downloads_app; simpl; apply app_nil_r|].
    unfold bind at 1. unfold trace_log, modify. cbv beta iota delta [negb].
    rewrite process_candidates_spec. reflexivity.
Qed.


End WithCollaborators.

Example parseVideos_example :
  parseVideos decode_predefined (fun _ => None) example_metadata example_download
    example_ffmpeg example_convert example_save example_unlink
    (Some example_video_field) "r1" None []
  = (Ret [ {| video := "/recipes/r1/ok.mp4";
              thumbnail := Some "https://cdn.example/ok.jpg";
              duration := Some (12 # 1); order := 1 |} ],
     [ Log "debug" "Found VideoObject candidates in JSON-LD";
       Log "debug" "Attempting to download video from JSON-LD";
       GetVideoMetadata "https://cdn.example/gone.mp4";
       DownloadVideo "https://cdn.example/gone.mp4";
       Log "warn" "Failed to process video from JSON-LD";
       Log "debug" "Attempting to download video from JSON-LD";
       GetVideoMetadata "https://cdn.example/ok.webm";
       DownloadVideo "https://cdn.example/ok.webm";
       GetFfmpegPath;
       ConvertToMp4 "/tmp/ok.webm";
       SaveVideoFile "/tmp/ok.mp4" "r1";
       Log "info" "Video downloaded and saved from JSON-LD";
       Unlink "/tmp/ok.mp4";
       Log "debug" "Cleaned up temp file" ]).
Proof. vm_compute. reflexivity. Qed.

(** The test of the repository's suite for the bound: four candidates,
    [maxVideos = 2], every download succeeds. *)
Example parseVideos_limits_to_maxVideos :
  let candidate u := JObj [("@type", JStr "VideoObject"); ("contentUrl", JStr u)] in
  let outcome :=
    parseVideos decode_predefined (fun _ => None)
      (fun _ _ => Throw "Cannot read properties of undefined")
      (fun _ _ => Ret (Some "/tmp/video.mp4"))
      (fun _ => Ret (Some "/usr/bin/ffmpeg"))
      (fun _ _ _ => Ret "/tmp/video.mp4")
      (fun _ _ _ _ => Ret ("/recipes/test-id/video-123.mp4", Some (120 # 1)))
      (fun _ _ => Ret tt)
      (Some (JArr [candidate "https://example.com/video1.mp4";
                   candidate "https://example.com/video2.mp4";
                   candidate "https://example.com/video3.mp4";
                   candidate "https://example.com/video4.mp4"]))
      "test-recipe-id" (Some 2%Z) [] in
  option_map (map order) (match fst outcome with Ret vs => Some vs | Throw _ => None end)
  = Some [0; 1]%Z
  /\ downloads (snd outcome)
     = ["https://example.com/video1.mp4"; "https://example.com/video2.mp4"].
Proof. vm_compute. split; reflexivity. Qed.


End VideosFacts.

(** ** [findBestIngredientStorePreference] *)

Module StoresFacts.
Import Js Stores.

Lemma head_filter_find {A : Type} (P : A -> bool) (l : list A) :
  match List.filter P l with x :: _ => Some x | [] => None end = List.find P l.
Proof.
  induction l as [|x l IH]; simpl; [reflexivity|].
  destruct (P x); [reflexivity|exact IH].
Qed.

Lemma find_none_nil {A : Type} (P : A -> bool) : List.find P [] = None.
Proof. reflexivity. Qed.

(** The first element with a property, in a list sorted by score, has the
    least score among the elements with the property. *)
Lemma find_best_first (P : FuseResult -> bool) results r :
  best_first results -> List.find P results = Some r ->
  forall r', In r' results -> P r' = true -> Qle (score_or_1 r) (score_or_1 r').
Proof.
  unfold best_first. intros Hs. induction Hs as [|x l Hs IH Hx]; simpl; [discriminate|].
  destruct (P x) eqn:Hp.
  - intros E r' [<-|Hin] _; inversion E; subst.
    + apply Qle_refl.
    + rewrite Forall_forall in Hx. apply Hx. apply list_elem_of_In. exact Hin.
  - intros E r' [<-|Hin] Hr'; [congruence|]. apply (IH E r' Hin Hr').
Qed.

Section WithFuse.
Variable table : list IngredientStorePreferenceDto.
Variable fuse_search : list IngredientStorePreferenceDto -> string -> list FuseResult.

Local Abbreviation findBest := (findBestIngredientStorePreference table fuse_search).

(** Past its two guards the function is the selection of the spec. *)
Lemma findBest_select currentUserId userIds searchName :
  is_empty (trim searchName) = false ->
  listIngredientStorePreferencesForUsers table userIds <> [] ->
  findBest currentUserId userIds searchName
  = spec_select currentUserId
      (listIngredientStorePreferencesForUsers table userIds)
      (fuse_search (listIngredientStorePreferencesForUsers table userIds)
         (normalizeIngredientName searchName))
      (normalizeIngredientName searchName).
Proof.
  intros Hne Hall. unfold Stores.findBestIngredientStorePreference, spec_select.
  rewrite Hne.
  destruct userIds as [|u us]; [exfalso; apply Hall; reflexivity|].
  cbn [is_empty_list orb].
  destruct (listIngredientStorePreferencesForUsers table (u :: us)) as [|p0 ps];
    [contradiction|].
  cbn [is_empty_list].
  destruct (List.find _ (p0 :: ps)) as [p|]; [reflexivity|].
  destruct (List.find _ (p0 :: ps)) as [p|]; [reflexivity|].
  rewrite <- !head_filter_find.
  destruct (fuse_search (p0 :: ps) (normalizeIngredientName searchName)) as [|r0 rs];
    [reflexivity|].
  cbn [is_empty_list].
  destruct (List.filter _ (r0 :: rs)); [|reflexivity].
  destruct (List.filter _ (r0 :: rs)); reflexivity.
Qed.

(** C9.  [findBestIngredientStorePreference] returns [null] when the
    search name is empty or white space only and when the household has
    no stored preference.  Otherwise it selects by strict priority: the
    exact match of the current user; else the exact match of another
    member; else the best fuzzy match of the current user; else the best
    fuzzy match of the others; else nothing. *)
Theorem findBestIngredientStorePreference_priority currentUserId userIds searchName :
  let q := normalizeIngredientName searchName in
  let all := listIngredientStorePreferencesForUsers table userIds in
  let results := fuse_search all q in
  let result := findBest currentUserId userIds searchName in
  (is_empty (trim searchName) = true -> result = None)
  /\ (all = [] -> result = None)
  /\ (is_empty (trim searchName) = false -> all <> [] ->
      result = spec_select currentUserId all results q
      /\ (forall p, In p all -> userId p = currentUserId -> normalizedName p = q ->
            exists p', result = Some (mkMatch p' 0 true true)
                       /\ userId p' = currentUserId /\ normalizedName p' = q)
      /\ ((forall p, In p all -> userId p = currentUserId -> normalizedName p <> q) ->
          forall p, In p all -> normalizedName p = q ->
            exists p', result = Some (mkMatch p' 0 true false)
                       /\ userId p' <> currentUserId /\ normalizedName p' = q)
      /\ ((forall p, In p all -> normalizedName p <> q) ->
          (forall r, In r results -> userId (item r) = currentUserId ->
             exists b, result = Some (mkMatch (item b) (score_or_1 b) false true)
                       /\ In b results /\ userId (item b) = currentUserId
                       /\ (best_first results ->
                           forall r', In r' results -> userId (item r') = currentUserId ->
                                      Qle (score_or_1 b) (score_or_1 r')))
          /\ ((forall r, In r results -> userId (item r) <> currentUserId) ->
              forall r, In r results ->
                exists b, result = Some (mkMatch (item b) (score_or_1 b) false false)
                          /\ In b results
                          /\ (best_first results ->
                              forall r', In r' results ->
                                         Qle (score_or_1 b) (score_or_1 r')))
          /\ (results = [] -> result = None))).
Proof.
  cbv zeta.
  set (q := normalizeIngredientName searchName).
  set (all := listIngredientStorePreferencesForUsers table userIds).
  set (results := fuse_search all q).
  split.
  { intros Hb. unfold Stores.findBestIngredientStorePreference.
    rewrite Hb, orb_true_r. reflexivity. }
  split.
  { intros Hall. unfold Stores.findBestIngredientStorePreference.
    fold all. rewrite Hall. destruct (_ || _); reflexivity. }
  intros Hne Hall.
  pose proof (findBest_select currentUserId userIds searchName Hne Hall) as Hsel.
  fold q all results in Hsel. clearbody results. clearbody all. clearbody q.
  split; [exact Hsel|].
  rewrite Hsel. unfold spec_select. cbv zeta. clear Hsel.
  destruct (List.find _ all) as [p1|] eqn:Hf1.
  { apply find_some in Hf1 as [Hin1 [H1 H2]%andb_prop].
    apply bool_decide_eq_true in H1, H2.
    split; [intros; eauto|].
    split; intros Hno; exfalso; eapply Hno; eauto. }
  pose proof (find_none _ _ Hf1) as Hn1. cbv beta in Hn1.
  split.
  { intros p Hin Hu Hq. exfalso. specialize (Hn1 p Hin).
    rewrite !bool_decide_eq_true_2 in Hn1 by assumption. discriminate. }
  match goal with
  | |- context [List.find ?f all] => destruct (List.find f all) as [p2|] eqn:Hf2
  end.
  { apply find_some in Hf2 as [Hin2 [H1 H2]%andb_prop].
    apply negb_true_iff, bool_decide_eq_false in H1. apply bool_decide_eq_true in H2.
    split; [intros; eauto|].
    intros Hno; exfalso; eapply Hno; eauto. }
  pose proof (find_none _ _ Hf2) as Hn2. cbv beta in Hn2.
  split.
  { intros Hnomine p Hin Hq. exfalso. specialize (Hn2 p Hin).
    rewrite (bool_decide_eq_true_2 _ Hq), andb_true_r in Hn2.
    apply negb_false_iff, bool_decide_eq_true in Hn2.
    apply (Hnomine p Hin Hn2 Hq). }
  intros Hnoexact.
  match goal with
  | |- context [List.find ?f results] => destruct (List.find f results) as [b1|] eqn:Hf3
  end.
  { pose proof (find_some _ _ Hf3) as [Hb1 Hb2]. apply bool_decide_eq_true in Hb2.
    split.
    - intros r Hin Hu. exists b1. split; [reflexivity|].
      split; [exact Hb1|]. split; [exact Hb2|].
      intros Hs r' Hin' Hu'. apply (find_best_first _ _ _ Hs Hf3 r' Hin').
      apply bool_decide_eq_true_2. exact Hu'.
    - split; [intros Hnomine; exfalso; apply (Hnomine b1 Hb1 Hb2)|].
      intros ->. discriminate Hf3. }
  pose proof (find_none _ _ Hf3) as Hn3. cbv beta in Hn3.
  split.
  { intros r Hin Hu. exfalso. specialize (Hn3 r Hin).
    rewrite (bool_decide_eq_true_2 _ Hu) in Hn3. discriminate. }
  match goal with
  | |- context [List.find ?f results] => destruct (List.find f results) as [b2|] eqn:Hf4
  end.
  { pose proof (find_some _ _ Hf4) as [Hb1 _].
    split; [|intros ->; discriminate Hf4].
    intros Hnomine r Hin. exists b2. split; [reflexivity|]. split; [exact Hb1|].
    intros Hs r' Hin'. apply (find_best_first _ _ _ Hs Hf4 r' Hin').
    apply negb_true_iff, bool_decide_eq_false. apply (Hnomine r' Hin'). }
  pose proof (find_none _ _ Hf4) as Hn4. cbv beta in Hn4.
  split; [|reflexivity].
  intros Hnomine r Hin. exfalso. specialize (Hn4 r Hin).
  apply negb_false_iff, bool_decide_eq_true in Hn4. apply (Hnomine r Hin Hn4).
Qed.

End WithFuse.

Lemma findBestIngredientStorePreference_priority_witness :
  findBestIngredientStorePreference example_table example_fuse
    "ann" ["ann"; "bob"; "eve"] " Milk "
  = Some (mkMatch (mkPreference "eve" "milk" "store-e") 0 true false)
  /\ findBestIngredientStorePreference example_table example_fuse
       "ann" ["ann"; "bob"] "MILK"
     = Some (mkMatch (mkPreference "ann" "oat milk" "store-a") (2 # 10) false true).
Proof.
  split.
  - rewrite (proj1 (proj2 (proj2 (findBestIngredientStorePreference_priority
               example_table example_fuse "ann" ["ann"; "bob"; "eve"] " Milk "))
               eq_refl ltac:(discriminate))).
    vm_compute. reflexivity.
  - rewrite (proj1 (proj2 (proj2 (findBestIngredientStorePreference_priority
               example_table example_fuse "ann" ["ann"; "bob"] "MILK"))
               eq_refl ltac:(discriminate))).
    vm_compute. reflexivity.
Defined.

End StoresFacts.

(** ** The order fields of a DTO *)

Module RecipeFacts.
Import Js Json Eff Recipe.

(** [array.map((x, i) => ...)] numbers the elements from 0, in list
    position. *)
Lemma map_mapi_from {A B : Type} (f : A -> Z -> B) (g : B -> Z) (c i : Z) (l : list A) :
  (forall x j, g (f x j) = (j + c)%Z) ->
  map g (Steps.mapi_from f i l) = seqZ (i + c) (Z.of_nat (length l)).
Proof.
  intros Hg. revert i; induction l as [|x l IH]; intros i; [reflexivity|].
  cbn [Steps.mapi_from map length]. rewrite Hg, IH.
  rewrite Nat2Z.inj_succ, (seqZ_cons (i + c)) by lia.
  f_equal. f_equal; lia.
Qed.

Lemma length_mapi_from {A B : Type} (f : A -> Z -> B) (i : Z) (l : list A) :
  length (Steps.mapi_from f i l) = length l.
Proof. revert i; induction l as [|x l IH]; intros i; simpl; [reflexivity|]. rewrite IH. reflexivity. Qed.

Section WithCollaborators.
Variable decode : string -> string.
Variable parseIngredient : string -> Ingredients.UnitsMap -> list Ingredients.Ingredient.
Variable inferSystemUsedFromParsed : list Ingredients.Ingredient -> MeasurementSystem.
Variable extractNutrition : list (string * json) -> ParsedNutrition.
Variable schema_error : FullRecipeInsertDTO -> option string.

Local Abbreviation buildRecipeDTO :=
  (buildRecipeDTO parseIngredient inferSystemUsedFromParsed schema_error).

(** C2, the archive path.  In a DTO that [buildRecipeDTO] returns the
    ingredients are numbered 0..n-1 in list position, and so are the
    steps: 0..m-1, not 1..m. *)
Theorem buildRecipeDTO_orders input units dto :
  buildRecipeDTO input units = Ret dto ->
  map ing_order (recipeIngredients dto)
  = seqZ 0 (Z.of_nat (length (recipeIngredients dto)))
  /\ map Steps.order (steps dto) = seqZ 0 (Z.of_nat (length (steps dto)))
  /\ map Steps.step (steps dto) = splitNonEmptyLines (instructionsText input).
Proof.
  unfold Recipe.buildRecipeDTO.
  destruct (is_empty (in_name input) || is_empty (trim (in_name input))); [discriminate|].
  cbv zeta. destruct (schema_error _); [discriminate|].
  intros H. inversion H; subst dto; clear H. simpl.
  unfold Steps.mapi. rewrite !length_mapi_from. split; [|split].
  - apply (map_mapi_from _ ing_order 0 0). intros x j. simpl. lia.
  - apply (map_mapi_from _ Steps.order 0 0). intros x j. simpl. lia.
  - generalize 0%Z. induction (splitNonEmptyLines (instructionsText input)) as [|s l IH];
      intros i; simpl; [reflexivity|]. rewrite IH. reflexivity.
Qed.

End WithCollaborators.

(** The Mela recipe of the spec's example through [buildRecipeDTO]: its
    two steps get the orders 0 and 1. *)
Lemma buildRecipeDTO_orders_witness :
  exists dto,
    Recipe.buildRecipeDTO Ingredients.leading_parser (fun _ => Us) (fun _ => None)
      tea_input Ingredients.example_units = Ret dto
    /\ map Steps.step (steps dto) = ["Boil water"; "Steep leaves"]
    /\ map Steps.order (steps dto) = [0; 1]%Z
    /\ map ing_order (recipeIngredients dto) = [0; 1]%Z.
Proof.
  eexists. split; [vm_compute; reflexivity|].
  match goal with
  | |- context [steps ?d] =>
      destruct (buildRecipeDTO_orders Ingredients.leading_parser (fun _ => Us)
                  (fun _ => None) tea_input Ingredients.example_units d
                  ltac:(vm_compute; reflexivity)) as (Hi & Hs & Ht)
  end.
  split; [rewrite Ht; vm_compute; reflexivity|].
  split; [rewrite Hs; vm_compute; reflexivity|].
  rewrite Hi. vm_compute. reflexivity.
Defined.

(** *** The JSON-LD path *)

Section WithNormalization.
Variable decode : string -> string.
Variable parseIngredient : string -> Ingredients.UnitsMap -> list Ingredients.Ingredient.
Variable inferSystemUsedFromParsed : list Ingredients.Ingredient -> MeasurementSystem.
Variable extractNutrition : list (string * json) -> ParsedNutrition.
Variable getUnits : result Ingredients.UnitsMap.
Variable randomUUID : string.
Variable MAX_RECIPE_IMAGES : Z.
Variable downloadAllImagesFromJsonLd : json -> string -> Z -> result (list string).
Variable parseDuration : option string -> option Q.
Variable getVideoMetadata : string -> list Videos.Event -> result (option Q).
Variable downloadVideo : string -> list Videos.Event -> result (option string).
Variable getFfmpegPath : list Videos.Event -> result (option string).
Variable convertToMp4 : string -> option string -> list Videos.Event -> result string.
Variable saveVideoFile :
  string -> string -> option Q -> list Videos.Event -> result (string * option Q).
Variable unlink : string -> list Videos.Event -> result unit.

Local Abbreviation normalizeRecipeFromJson :=
  (Normalize.normalizeRecipeFromJson decode parseIngredient inferSystemUsedFromParsed
     extractNutrition getUnits randomUUID MAX_RECIPE_IMAGES downloadAllImagesFromJsonLd
     parseDuration getVideoMetadata downloadVideo getFfmpegPath convertToMp4
     saveVideoFile unlink).
Local Abbreviation parseImages :=
  (Images.parseImages MAX_RECIPE_IMAGES downloadAllImagesFromJsonLd).
Local Abbreviation parseVideos :=
  (Videos.parseVideos decode parseDuration getVideoMetadata downloadVideo getFfmpegPath
     convertToMp4 saveVideoFile unlink).
Local Abbreviation parseIngredients :=
  (parseIngredients decode parseIngredient inferSystemUsedFromParsed).

Lemma normalizeRecipeFromJson_falsy json recipeId world :
  truthy_opt json = false ->
  normalizeRecipeFromJson json recipeId world = (Ret None, world).
Proof.
  intros H. unfold Normalize.normalizeRecipeFromJson. rewrite H. reflexivity.
Qed.

(** The three ways a normalization of a truthy node ends: [getUnits]
    throws and nothing else happens; [parseImages] throws, before the
    videos are looked at; or the DTO is returned, assembled from the
    parts. *)
Lemma normalizeRecipeFromJson_cases json recipeId world :
  truthy_opt json = true ->
  let jsonObj := match json with Some (JObj o) => o | _ => [] end in
  let effectiveRecipeId := match recipeId with Some r => r | None => randomUUID end in
  let outcome := normalizeRecipeFromJson json recipeId world in
  match getUnits with
  | Throw e => outcome = (Throw e, world)
  | Ret units =>
      match parseImages (field "image" jsonObj) effectiveRecipeId (Normalize.image_events world)
      with
      | (Throw e, events) =>
          outcome = (Throw e, Normalize.mkWorld events (Normalize.video_events world))
      | (Ret (images, primaryImage), events) =>
          exists parsedVideos vevents dto,
            parseVideos (field "video" jsonObj) effectiveRecipeId None
              (Normalize.video_events world) = (Ret parsedVideos, vevents)
            /\ outcome = (Ret (Some dto), Normalize.mkWorld events vevents)
            /\ id dto = Some effectiveRecipeId
            /\ name dto = Metadata.name (Metadata.parseMetadata decode jsonObj)
            /\ image dto = primaryImage
            /\ Recipe.images dto = Some images
            /\ videos dto = Some parsedVideos
            /\ recipeIngredients dto = fst (parseIngredients jsonObj units)
            /\ systemUsed dto = snd (parseIngredients jsonObj units)
            /\ steps dto
               = Steps.parseSteps decode (field "recipeInstructions" jsonObj)
                   (snd (parseIngredients jsonObj units))
            /\ tags dto = parseTags (field "keywords" jsonObj)
      end
  end.
Proof.
  intros Htruthy jsonObj effectiveRecipeId outcome. unfold outcome.
  unfold Normalize.normalizeRecipeFromJson. rewrite Htruthy. cbn [negb].
  fold jsonObj. fold effectiveRecipeId.
  unfold bind, lift, Normalize.on_images, Normalize.on_videos, ret.
  destruct getUnits as [units|e]; [|reflexivity].
  destruct (parseIngredients jsonObj units) as [ings sys] eqn:Hing.
  destruct (parseImages (field "image" jsonObj) effectiveRecipeId _)
    as [[[images primaryImage]|e] events]; [|reflexivity].
  cbn [Normalize.image_events Normalize.video_events].
  destruct (VideosFacts.parseVideos_rounds decode parseDuration getVideoMetadata
              downloadVideo getFfmpegPath convertToMp4 saveVideoFile unlink
              (field "video" jsonObj) effectiveRecipeId None (Normalize.video_events world))
    as (trace1 & _ & E).
  rewrite E. eexists _, _, _. split; [reflexivity|]. split; [reflexivity|].
  cbn. repeat split.
Qed.

(** Ingredients are numbered 0..n-1 and steps 1..m. *)
Lemma normalizeRecipeFromJson_orders json recipeId world dto :
  fst (normalizeRecipeFromJson json recipeId world) = Ret (Some dto) ->
  map ing_order (recipeIngredients dto)
  = seqZ 0 (Z.of_nat (length (recipeIngredients dto)))
  /\ map Steps.order (steps dto) = seqZ 1 (Z.of_nat (length (steps dto))).
Proof.
  destruct (truthy_opt json) eqn:Htruthy;
    [|rewrite (normalizeRecipeFromJson_falsy json recipeId world Htruthy); discriminate].
  pose proof (normalizeRecipeFromJson_cases json recipeId world Htruthy) as H.
  cbv zeta in H. destruct getUnits as [units|e]; [|rewrite H; discriminate].
  destruct (parseImages _ _ _) as [[[images primaryImage]|e] events];
    [|rewrite H; discriminate].
  destruct H as (vs & vev & d & _ & -> & _ & _ & _ & _ & _ & Hi & _ & Hs & _).
  intros [= <-]. rewrite Hi, Hs.
  unfold Recipe.parseIngredients, Steps.parseSteps, Steps.mapi. cbn [fst snd].
  rewrite !length_mapi_from. split.
  - apply (map_mapi_from _ ing_order 0 0). intros x j. simpl. lia.
  - apply (map_mapi_from _ Steps.order 1 0). intros x j. simpl. lia.
Qed.

End WithNormalization.

(** The same recipe as JSON-LD through [normalizeRecipeFromJson]: its two
    steps get the orders 1 and 2. *)
Example normalizeRecipeFromJson_orders_example :
  exists dto,
    Normalize.normalizeRecipeFromJson decode_predefined Ingredients.leading_parser
      (fun _ => Us) no_nutrition (Ret Ingredients.example_units)
      "00000000-0000-4000-8000-000000000000" 10 Images.example_downloader
      (fun _ => None) Videos.example_metadata Videos.example_download
      Videos.example_ffmpeg Videos.example_convert Videos.example_save
      Videos.example_unlink (Some tea_jsonld) None (Normalize.mkWorld [] [])
    = (Ret (Some dto), Normalize.mkWorld [] [])
    /\ map Steps.step (steps dto) = ["Boil water"; "Steep leaves"]
    /\ map Steps.order (steps dto) = [1; 2]%Z
    /\ map ing_order (recipeIngredients dto) = [0; 1]%Z.
Proof. eexists. split; [vm_compute; reflexivity|]. repeat split. Qed.

End RecipeFacts.

(** ** [parseMetadata] *)

Module MetadataFacts.
Import Js Json Metadata.

Section WithDecode.
Variable decode : string -> string.

(** The values from which [getName] obtains no name, when [decode] maps
    the empty string to itself. *)
Lemma name_of_raw_none raw :
  decode "" = "" ->
  match raw with
  | None | Some JNull | Some (JBool _) | Some (JNum _) | Some (JObj _) => True
  | Some (JStr s) => s = ""
  | Some (JArr l) =>
      match l with
      | [] | JNull :: _ | JStr "" :: _ => True
      | _ => False
      end
  end ->
  name_of_raw decode raw = None.
Proof.
  intros Hd H. destruct raw as [[| | |s|l|]|]; try reflexivity.
  - subst s. unfold name_of_raw. change (unwrap_bracketed "") with "".
    rewrite Hd. reflexivity.
  - unfold name_of_raw.
    destruct l as [|[| | |[|c s]| |] l]; try contradiction; simpl;
      rewrite Hd; reflexivity.
Qed.

Lemma getName_none json :
  name_of_raw decode (field "name" json) = None ->
  name_of_raw decode (field "headline" json) = None ->
  getName decode json = None.
Proof.
  intros Hn Hh. unfold getName.
  destruct (field "name" json) as [[]|]; simpl; assumption.
Qed.

Variable parseIngredient : string -> Ingredients.UnitsMap -> list Ingredients.Ingredient.
Variable inferSystemUsedFromParsed : list Ingredients.Ingredient -> MeasurementSystem.
Variable extractNutrition : list (string * json) -> Recipe.ParsedNutrition.
Variable getUnits : Eff.result Ingredients.UnitsMap.
Variable randomUUID : string.
Variable MAX_RECIPE_IMAGES : Z.
Variable downloadAllImagesFromJsonLd : json -> string -> Z -> Eff.result (list string).
Variable parseDuration : option string -> option Q.
Variable getVideoMetadata : string -> list Videos.Event -> Eff.result (option Q).
Variable downloadVideo : string -> list Videos.Event -> Eff.result (option string).
Variable getFfmpegPath : list Videos.Event -> Eff.result (option string).
Variable convertToMp4 : string -> option string -> list Videos.Event -> Eff.result string.
Variable saveVideoFile :
  string -> string -> option Q -> list Videos.Event -> Eff.result (string * option Q).
Variable unlink : string -> list Videos.Event -> Eff.result unit.

Local Abbreviation normalizeRecipeFromJson :=
  (Normalize.normalizeRecipeFromJson decode parseIngredient inferSystemUsedFromParsed
     extractNutrition getUnits randomUUID MAX_RECIPE_IMAGES downloadAllImagesFromJsonLd
     parseDuration getVideoMetadata downloadVideo getFfmpegPath convertToMp4
     saveVideoFile unlink).
Local Abbreviation parseImages :=
  (Images.parseImages MAX_RECIPE_IMAGES downloadAllImagesFromJsonLd).


End WithDecode.


(** A nameless recipe whose picture cannot be downloaded: the
    normalization throws what the downloader threw, as it does for a
    recipe with a name. *)
Example normalizeRecipeFromJson_download_fails :
  forall name,
    fst (Normalize.normalizeRecipeFromJson decode_predefined Ingredients.leading_parser
           (fun _ => Us) Recipe.no_nutrition (Eff.Ret Ingredients.example_units)
           "00000000-0000-4000-8000-000000000000" 10 Normalize.failing_downloader
           (fun _ => None) Videos.example_metadata Videos.example_download
           Videos.example_ffmpeg Videos.example_convert Videos.example_save
           Videos.example_unlink
           (Some (JObj [("name", JStr name);
                        ("image", JStr "https://example.org/tea.jpg")]))
           None (Normalize.mkWorld [] []))
    = Eff.Throw "ENOSPC: no space left on device".
Proof. intros name. reflexivity. Qed.

Example parseMetadata_example :
  parseMetadata decode_predefined
    [("@type", JStr "Recipe"); ("headline", JStr "['Fish &amp; chips']");
     ("recipeYield", JStr "Serves 4"); ("totalTime", JStr "PT1H5M")]
  = {| name := "Fish & chips"; description := None; servings := Some 4%Z;
       prepMinutes := None; cookMinutes := None; totalMinutes := Some (Num 65) |}.
Proof. reflexivity. Qed.

End MetadataFacts.

(** ** The orchestrator *)

Module OrchestratorFacts.
Import Js Json Eff Recipe Orchestrator.

Lemma hasValidRecipeData_iff r :
  hasValidRecipeData (Some r) = true <-> recipeIngredients r <> [] /\ steps r <> [].
Proof.
  unfold hasValidRecipeData.
  destruct (recipeIngredients r), (steps r); simpl; split;
    try discriminate; try (intros [H1 H2]; congruence); intros _; split; discriminate.
Qed.

Section WithCollaborators.
Variable isVideoUrl : string -> bool.
Variable isVideoParsingEnabled : result bool.
Variable processVideoRecipe :
  string -> string -> option (list string) -> result FullRecipeInsertDTO.
Variable fetchViaPlaywright : string -> result (option string).
Variable getContentIndicators : result ContentIndicators.
Variable shouldAlwaysUseAI : result bool.
Variable tryExtractRecipeFromJsonLd :
  string -> string -> string -> result (option FullRecipeInsertDTO).
Variable tryExtractRecipeFromMicrodata :
  string -> string -> string -> result (option FullRecipeInsertDTO).
Variable jsonLdInput : string -> option string.
Variable isAIEnabled : result bool.
Variable extractRecipeWithAI :
  string -> string -> string -> option (list string) -> result AIResult.

Local Abbreviation parseRecipeFromUrl :=
  (parseRecipeFromUrl isVideoUrl isVideoParsingEnabled processVideoRecipe
     fetchViaPlaywright getContentIndicators shouldAlwaysUseAI
     tryExtractRecipeFromJsonLd tryExtractRecipeFromMicrodata jsonLdInput
     isAIEnabled extractRecipeWithAI).
Local Abbreviation extractWithAIPreference :=
  (extractWithAIPreference jsonLdInput isAIEnabled extractRecipeWithAI).
Local Abbreviation tryStructuredParsers :=
  (tryStructuredParsers tryExtractRecipeFromJsonLd tryExtractRecipeFromMicrodata).
Local Abbreviation reaches_structured :=
  (reaches_structured isVideoUrl fetchViaPlaywright getContentIndicators shouldAlwaysUseAI).

(** The AI fallback asks first whether AI is enabled. *)
Lemma extractWithAIPreference_asks html recipeId url allergies requireAI trace :
  In IsAIEnabled (snd (extractWithAIPreference html recipeId url allergies requireAI trace)).
Proof.
  unfold Orchestrator.extractWithAIPreference, tryExtractWithAI, bind, call, log, modify,
    throw, ret.
  repeat (case_match; simpl in *; simplify_eq);
    rewrite ?in_app_iff; simpl; rewrite ?in_app_iff; simpl; tauto.
Qed.

(** From the structured parsers on, the import is: the structured result
    when there is one, else the AI fallback. *)
Lemma parseRecipeFromUrl_structured url recipeId allergies forceAI html trace :
  reaches_structured url forceAI html ->
  exists trace1,
    parseRecipeFromUrl url recipeId allergies forceAI trace =
    match tryStructuredParsers url html recipeId trace1 with
    | (Ret (Some r), trace2) => (Ret (mkResult r false), trace2)
    | (Ret None, trace2) =>
        match extractWithAIPreference html recipeId url allergies false trace2 with
        | (Ret (Some r), trace3) => (Ret (mkResult r true), trace3)
        | (Ret None, trace3) =>
            (Throw "Cannot parse recipe.",
             trace3 ++ [Log "error" "All extraction methods failed"])
        | (Throw e, trace3) => (Throw e, trace3)
        end
    | (Throw e, trace2) => (Throw e, trace2)
    end.
Proof.
  intros (Hvideo & (fetched & Hfetch & Hhtml) & (ind & Hind & Hlikely) & Hai).
  unfold Orchestrator.parseRecipeFromUrl, tryHandleVideoUrl, isPageLikelyRecipe.
  rewrite Hvideo. unfold bind, call, ret, throw, log, modify; simpl.
  rewrite Hfetch, Hhtml, Hind, Hlikely. simpl.
  destruct Hai as [-> | [-> Hcfg]]; [|rewrite Hcfg]; simpl.
  - exists ((trace ++ [FetchViaPlaywright url]) ++ [GetContentIndicators]).
    destruct (tryStructuredParsers url html recipeId _) as [[[r|]|e] t2]; try reflexivity.
    destruct (extractWithAIPreference html recipeId url allergies false t2)
      as [[[r|]|e] t3]; reflexivity.
  - exists (((trace ++ [FetchViaPlaywright url]) ++ [GetContentIndicators])
              ++ [ShouldAlwaysUseAI]).
    destruct (tryStructuredParsers url html recipeId _) as [[[r|]|e] t2]; try reflexivity.
    destruct (extractWithAIPreference html recipeId url allergies false t2)
      as [[[r|]|e] t3]; reflexivity.
Qed.

(** C4.  When the import reaches the structured parsers, a DTO is returned
    with [usedAI = false] exactly when it has an ingredient and a step and
    is the result of the JSON-LD extractor, or that of the microdata
    extractor after the JSON-LD result was rejected.  When both results
    are rejected nothing is returned with [usedAI = false] and the AI
    fallback runs: it asks whether AI is enabled; when it is not, the
    model is not called and the import throws "Cannot parse recipe.";
    when it is, the model is called on the JSON-LD of the page if there
    is some, and on the full HTML if there is none or the first call
    gave no recipe; the first recipe the model returns is returned with
    [usedAI = true], an exception of the model is thrown on, and the
    import throws "Cannot parse recipe." when no call gave a recipe. *)
Theorem parseRecipeFromUrl_structured_accepts
    url recipeId allergies forceAI html trace jsonLd micro :
  reaches_structured url forceAI html ->
  tryExtractRecipeFromJsonLd url html recipeId = Ret jsonLd ->
  tryExtractRecipeFromMicrodata url html recipeId = Ret micro ->
  let outcome := parseRecipeFromUrl url recipeId allergies forceAI trace in
  (forall d,
      fst outcome = Ret (mkResult d false) <->
      (recipeIngredients d <> [] /\ steps d <> [])
      /\ (jsonLd = Some d \/ (hasValidRecipeData jsonLd = false /\ micro = Some d)))
  /\ (hasValidRecipeData jsonLd = false -> hasValidRecipeData micro = false ->
      let ask input := extractRecipeWithAI input recipeId url allergies in
      let first := match jsonLdInput html with Some j => j | None => html end in
      exists events,
        snd outcome = trace ++ events
        /\ In IsAIEnabled events
        /\ ((exists d, fst outcome = Ret (mkResult d true))
            \/ (exists e, fst outcome = Throw e))
        /\ (forall e, isAIEnabled = Throw e -> fst outcome = Throw e)
        /\ (isAIEnabled = Ret false ->
            fst outcome = Throw "Cannot parse recipe."
            /\ existsb Calls.is_ai_call events = false)
        /\ (isAIEnabled = Ret true ->
            In (ExtractRecipeWithAI first) events
            /\ (forall d, ask first = Ret (AISuccess d) ->
                          fst outcome = Ret (mkResult d true))
            /\ (forall e, ask first = Throw e -> fst outcome = Throw e)
            /\ (forall error code,
                  ask first = Ret (AIError error code) ->
                  match jsonLdInput html with
                  | None => fst outcome = Throw "Cannot parse recipe."
                  | Some _ =>
                      In (ExtractRecipeWithAI html) events
                      /\ (forall d, ask html = Ret (AISuccess d) ->
                                    fst outcome = Ret (mkResult d true))
                      /\ (forall e, ask html = Throw e -> fst outcome = Throw e)
                      /\ (forall error' code',
                            ask html = Ret (AIError error' code') ->
                            fst outcome = Throw "Cannot parse recipe.")
                  end))).
Proof.
  intros Hreach Hj Hm outcome. split.
  { destruct (parseRecipeFromUrl_structured url recipeId allergies forceAI html trace Hreach)
      as (trace1 & E).
    unfold outcome. rewrite E. clear E outcome.
    unfold Orchestrator.tryStructuredParsers, bind, call, ret. rewrite Hj.
    destruct (hasValidRecipeData jsonLd) eqn:Hvj.
    - destruct jsonLd as [j|]; [|discriminate]. simpl.
      intros d. split.
      + intros H. inversion H; subst. split; [apply hasValidRecipeData_iff; exact Hvj|auto].
      + intros (_ & [H | [H _]]); [inversion H; reflexivity|discriminate].
    - rewrite Hm. destruct (hasValidRecipeData micro) eqn:Hvm.
      + destruct micro as [m|]; [|discriminate]. simpl.
        intros d. split.
        * intros H. inversion H; subst. split; [apply hasValidRecipeData_iff; exact Hvm|auto].
        * intros (Hv & [H | [_ H]]).
          -- subst jsonLd. apply hasValidRecipeData_iff in Hv. congruence.
          -- inversion H; reflexivity.
      + simpl.
        destruct (extractWithAIPreference html recipeId url allergies false _)
          as [[[r|]|e] trace3]; simpl;
          (intros d; split; [discriminate|]);
          intros (Hv & [H | [_ H]]); apply hasValidRecipeData_iff in Hv;
            subst; congruence. }
  intros Hvj Hvm ask first.
  destruct Hreach as (Hvideo & (fetched & Hfetch & Hhtml) & (ind & Hind & Hlikely) & Hai).
  unfold outcome, first, ask. clear outcome first ask.
  unfold Orchestrator.parseRecipeFromUrl, tryHandleVideoUrl, isPageLikelyRecipe,
    Orchestrator.extractWithAIPreference, Orchestrator.tryStructuredParsers,
    tryExtractWithAI, try_catch, bind, call, log, modify, throw, ret.
  rewrite Hvideo. cbn [negb]. rewrite Hfetch. cbn beta iota. rewrite Hhtml, Hind.
  cbn beta iota. rewrite Hlikely. cbn [negb].
  assert (forall ev (a b : list Event), In ev (a ++ ev :: b)) as Hmid.
  { intros ev a b. apply in_app_iff. right. left. reflexivity. }
  destruct Hai as [-> | [-> ->]]; cbn beta iota; rewrite Hj, Hvj, Hm, Hvm;
    cbn beta iota;
    destruct isAIEnabled as [[|]|eAI]; cbn [negb];
    destruct (jsonLdInput html) as [j|]; cbn beta iota;
    repeat (case_match; cbn [fst snd negb] in *; simplify_eq);
    rewrite <- ?app_assoc; cbn [app];
    (eexists; split; [reflexivity|]);
    cbn [fst snd];
    repeat match goal with
           | |- _ /\ _ => split
           | |- forall _, _ => intro
           | |- _ -> _ => intro
           end;
    simplify_eq; try reflexivity; try (cbn; tauto); eauto 10.
Qed.

End WithCollaborators.

Lemma parseRecipeFromUrl_structured_accepts_witness :
  fst (example_import [])
  = Ret (mkResult (example_dto [Steps.mkParsedStep "Boil water" Us 1]) false).
Proof.
  assert (reaches_structured (fun _ => false) (fun _ => Ret (Some example_page))
            (Ret example_indicators) (Ret false)
            "https://example.org/tea" None example_page) as Hreach.
  { split; [reflexivity|]. split; [exists (Some example_page); split; reflexivity|].
    split; [exists example_indicators; split; [reflexivity|vm_compute; reflexivity]|].
    right. split; reflexivity. }
  pose proof (parseRecipeFromUrl_structured_accepts
           (fun _ => false) (Ret false) (fun _ _ _ => Throw "not a video")
           (fun _ => Ret (Some example_page)) (Ret example_indicators) (Ret false)
           (fun _ _ _ => Ret (Some (example_dto [])))
           (fun _ _ _ => Ret (Some (example_dto [Steps.mkParsedStep "Boil water" Us 1])))
           (fun _ => None) (Ret false) (fun _ _ _ _ => Ret (AIError "disabled" "AI_DISABLED"))
           "https://example.org/tea" "r1" None None example_page []
           (Some (example_dto []))
           (Some (example_dto [Steps.mkParsedStep "Boil water" Us 1]))
           Hreach eq_refl eq_refl) as H.
  cbv zeta in H. destruct H as [H _].
  apply (H (example_dto [Steps.mkParsedStep "Boil water" Us 1])).
  split; [split; discriminate|]. right. split; reflexivity.
Defined.

Example example_import_trace :
  example_import []
  = (Ret (mkResult (example_dto [Steps.mkParsedStep "Boil water" Us 1]) false),
     [FetchViaPlaywright "https://example.org/tea"; GetContentIndicators;
      ShouldAlwaysUseAI; TryExtractRecipeFromJsonLd; TryExtractRecipeFromMicrodata]).
Proof. vm_compute. reflexivity. Qed.

Example example_fallback_trace :
  example_fallback []
  = (Ret (mkResult (example_dto [Steps.mkParsedStep "Boil water" Us 1]) true),
     [FetchViaPlaywright "https://example.org/tea"; GetContentIndicators;
      ShouldAlwaysUseAI; TryExtractRecipeFromJsonLd; TryExtractRecipeFromMicrodata;
      Log "info" "AI: using extracted JSON-LD as input (fewer tokens)";
      IsAIEnabled; Log "info" "Attempting AI extraction";
      ExtractRecipeWithAI "[{}]"; Log "warn" "AI extraction failed";
      Log "info" "AI: using full HTML as input"; IsAIEnabled;
      Log "info" "Attempting AI extraction"; ExtractRecipeWithAI example_page]).
Proof. vm_compute. reflexivity. Qed.

End OrchestratorFacts.

(** ** More on strings *)

Module StringFacts.
Import Js.

Lemma is_space_lower c : is_space (lower_char c) = is_space c.
Proof. destruct c as [[] [] [] [] [] [] [] []]; reflexivity. Qed.

Lemma is_digit_lower c : is_digit (lower_char c) = is_digit c.
Proof. destruct c as [[] [] [] [] [] [] [] []]; reflexivity. Qed.

Lemma lower_char_idem c : lower_char (lower_char c) = lower_char c.
Proof. destruct c as [[] [] [] [] [] [] [] []]; reflexivity. Qed.

Lemma toLowerCase_idem s : toLowerCase (toLowerCase s) = toLowerCase s.
Proof.
  induction s as [|c s IH]; [reflexivity|].
  cbn [toLowerCase]. rewrite lower_char_idem, IH. reflexivity.
Qed.

Lemma is_empty_lower s : is_empty (toLowerCase s) = is_empty s.
Proof. destruct s; reflexivity. Qed.

Lemma trim_lower s : trim (toLowerCase s) = toLowerCase (trim s).
Proof.
  unfold trim. rewrite DedupFacts.trimStart_lower, DedupFacts.trimEnd_lower. reflexivity.
Qed.

Lemma trimStart_idem s : trimStart (trimStart s) = trimStart s.
Proof.
  induction s as [|c s IH]; [reflexivity|].
  simpl. destruct (is_space c) eqn:E; [exact IH|].
  simpl. rewrite E. reflexivity.
Qed.

Lemma trimEnd_idem s : trimEnd (trimEnd s) = trimEnd s.
Proof.
  induction s as [|c s IH]; [reflexivity|].
  cbn [trimEnd]. cbv zeta.
  destruct (is_space c && is_empty (trimEnd s)) eqn:E; [reflexivity|].
  cbn [trimEnd]. cbv zeta. rewrite IH, E. reflexivity.
Qed.

(** A string that does not start with a space keeps its head under
    [trimEnd]. *)
Lemma trimStart_trimEnd s : trimStart s = s -> trimStart (trimEnd s) = trimEnd s.
Proof.
  destruct s as [|c r]; [reflexivity|].
  simpl. destruct (is_space c) eqn:E.
  - intros H. exfalso.
    assert (String.length (trimStart r) <= String.length r)%nat as Hlen.
    { clear. induction r as [|d r IH]; simpl; [lia|]. destruct (is_space d); simpl; lia. }
    rewrite H in Hlen. simpl in Hlen. lia.
  - intros _. simpl. rewrite E. reflexivity.
Qed.

Lemma trim_idem s : trim (trim s) = trim s.
Proof.
  unfold trim.
  rewrite (trimStart_trimEnd (trimStart s) (trimStart_idem s)).
  apply trimEnd_idem.
Qed.

End StringFacts.

(** ** Durations written by [formatMinutesHM] and read by
    [parseHumanDurationToMinutes] *)

Module DurationRoundTripFacts.
Import Js Json Helpers ParserHelpers DurationRoundTrip.

Lemma reads_back_below_100_hours :
  forallb reads_back (seqZ 1 5999) = true.
Proof. vm_compute. reflexivity. Qed.

(** X1.  A duration of 1 to 5999 minutes that [formatMinutesHM] wrote
    ("45m", "1:30h", ..., "99:59h") is read back by
    [parseHumanDurationToMinutes] as the same number of minutes. *)
Theorem formatMinutesHM_reads_back mins :
  (0 < mins < 6000)%Z ->
  parseHumanDurationToMinutes (formatMinutesHM (Some mins)) = Some mins.
Proof.
  intros Hrange.
  pose proof reads_back_below_100_hours as Hall.
  rewrite forallb_forall in Hall.
  assert (In mins (seqZ 1 5999)) as Hin.
  { apply list_elem_of_In, elem_of_seqZ. lia. }
  specialize (Hall mins Hin). unfold reads_back in Hall.
  destruct (parseHumanDurationToMinutes (formatMinutesHM (Some mins))) as [n|];
    [|discriminate].
  apply Z.eqb_eq in Hall. congruence.
Qed.

Lemma formatMinutesHM_reads_back_witness :
  parseHumanDurationToMinutes (formatMinutesHM (Some 90%Z)) = Some 90%Z.
Proof. apply (formatMinutesHM_reads_back 90). lia. Defined.

(** The two ends of the range are sharp: "0m" reads as no duration, and
    from 100 hours on the text no longer reads as a duration. *)
Example formatMinutesHM_range_is_sharp :
  formatMinutesHM (Some 0%Z) = Some "0m"
  /\ parseHumanDurationToMinutes (Some "0m") = None
  /\ formatMinutesHM (Some 6000%Z) = Some "100:00h"
  /\ parseHumanDurationToMinutes (Some "100:00h") = None.
Proof. vm_compute. repeat split; reflexivity. Qed.

End DurationRoundTripFacts.

(** ** importers/parser-helpers *)

Module ParserHelpersFacts.
Import Js Json Helpers ParserHelpers StringFacts.

Lemma positive_total_pos total n : positive_total total = Some n -> (0 < n)%Z.
Proof.
  unfold positive_total. destruct total as [|t|neg]; try discriminate.
  destruct (0 <? t)%Z eqn:E; [|discriminate].
  intros [= <-]. apply Z.ltb_lt, E.
Qed.

(** X2.  [parseHumanDurationToMinutes] never returns zero or a negative
    number; it returns nothing for a missing, empty or blank text; and the
    case of the letters and the white space around the text do not change
    what it returns. *)
Theorem parseHumanDurationToMinutes_positive :
  (forall s n, parseHumanDurationToMinutes s = Some n -> (0 < n)%Z)
  /\ parseHumanDurationToMinutes None = None
  /\ (forall s, is_empty (trim s) = true -> parseHumanDurationToMinutes (Some s) = None)
  /\ (forall s, parseHumanDurationToMinutes (Some (toLowerCase s))
                = parseHumanDurationToMinutes (Some s))
  /\ (forall s, parseHumanDurationToMinutes (Some (trim s))
                = parseHumanDurationToMinutes (Some s)).
Proof.
  split; [|split; [reflexivity|split; [|split]]].
  - intros [s|] n; [|discriminate]. unfold parseHumanDurationToMinutes.
    destruct (is_empty s || is_empty (trim s)); [discriminate|].
    destruct (colon_match _) as [[h m]|]; apply positive_total_pos.
  - intros s H. unfold parseHumanDurationToMinutes. rewrite H, orb_true_r. reflexivity.
  - intros s. unfold parseHumanDurationToMinutes.
    rewrite toLowerCase_idem, is_empty_lower, trim_lower, is_empty_lower. reflexivity.
  - intros s. unfold parseHumanDurationToMinutes.
    rewrite trim_idem, <- !trim_lower, trim_idem.
    destruct (is_empty (trim s)) eqn:E; [rewrite !orb_true_r; reflexivity|].
    rewrite !orb_false_r.
    destruct s as [|c r]; [reflexivity|]. reflexivity.
Qed.

Lemma parseHumanDurationToMinutes_positive_witness :
  (0 < 75)%Z /\ parseHumanDurationToMinutes (Some "   ") = None.
Proof.
  destruct parseHumanDurationToMinutes_positive as (Hpos & _ & Hblank & _).
  split.
  - apply (Hpos (Some "1 hr 15 min")). reflexivity.
  - apply Hblank. reflexivity.
Defined.

(** *** [parseServings] *)

Lemma round_floor n :
  (inject_Z (round n) <= n + (1 # 2))%Q /\ (n + (1 # 2) < inject_Z (round n + 1))%Q.
Proof.
  unfold round. cbv zeta.
  destruct (n + (1 # 2))%Q as [a b]. unfold Qle, Qlt, inject_Z. cbn [Qnum Qden].
  pose proof (Z.mul_div_le a (Z.pos b) ltac:(lia)).
  pose proof (Z.mul_succ_div_gt a (Z.pos b) ltac:(lia)).
  lia.
Qed.

Lemma first_digits_spec s d :
  Metadata.first_digits s = Some d -> all_digits d = true /\ is_empty d = false.
Proof.
  revert d. induction s as [|c r IH]; intros d; [discriminate|].
  cbn [Metadata.first_digits]. destruct (is_digit c) eqn:E; [|apply IH].
  intros [= <-]. clear IH. cbn [span_digits]. rewrite E.
  destruct (span_digits r) as [d' t'] eqn:Hs.
  destruct (JsFacts.span_digits_prefix _ _ _ Hs) as [Hd _].
  cbn. rewrite E, Hd. split; reflexivity.
Qed.

Lemma first_digits_has_digit s :
  Metadata.first_digits s = None <-> Ingredients.has_digit s = false.
Proof.
  induction s as [|c r IH]; [split; reflexivity|].
  cbn [Metadata.first_digits Ingredients.has_digit].
  destruct (is_digit c); simpl; [split; discriminate|exact IH].
Qed.

(** X3.  [parseServings] of a number is that number rounded to the
    nearest integer (halves up) and never less than 1.  Of a text it is
    [parseInt] of the first run of digits: the value of the run as long
    as that is below [2^53], [Infinity] once it reaches [2^1024].
    [getServings] of the JSON-LD parser reads the same number from the
    same text, except that it returns nothing where [parseServings]
    returns [Infinity].  A text without a digit gives nothing, and so
    does a missing value. *)
Theorem parseServings_spec :
  (forall n k, parseServings (Some (ServingsNumber n)) = Some (Num k) ->
     (1 <= k)%Z
     /\ (n + (1 # 2) < inject_Z (k + 1))%Q
     /\ ((1 < k)%Z -> (inject_Z k <= n + (1 # 2))%Q))
  /\ (forall n, exists k, parseServings (Some (ServingsNumber n)) = Some (Num k))
  /\ (forall s, Metadata.getServings (Some (JStr s))
                = match parseServings (Some (ServingsString s)) with
                  | Some x => finite_value x
                  | None => None
                  end)
  /\ (forall s d,
        Metadata.first_digits s = Some d ->
        parseServings (Some (ServingsString s)) = Some (to_double (digits_val d))
        /\ ((digits_val d < 2 ^ 53)%Z ->
            parseServings (Some (ServingsString s)) = Some (Num (digits_val d))
            /\ Metadata.getServings (Some (JStr s)) = Some (digits_val d))
        /\ ((2 ^ 1024 <= digits_val d)%Z ->
            parseServings (Some (ServingsString s)) = Some (Infinity false)
            /\ Metadata.getServings (Some (JStr s)) = None))
  /\ (forall s, parseServings (Some (ServingsString s)) = None
                <-> Ingredients.has_digit s = false)
  /\ parseServings None = None.
Proof.
  split; [|split; [|split; [|split; [|split]]]].
  - intros n k [= <-]. destruct (round_floor n) as [Hlo Hhi].
    split; [lia|]. split.
    + eapply Qlt_le_trans; [exact Hhi|].
      rewrite <- Zle_Qle. lia.
    + intros Hk. replace (Z.max 1 (round n)) with (round n) by lia. exact Hlo.
  - intros n. eexists. reflexivity.
  - intros s. cbn [parseServings Metadata.getServings Metadata.first_servings
                   Metadata.servings_of].
    destruct (Metadata.first_digits s) as [d|]; [|reflexivity].
    cbn [option_map]. destruct (finite_value (parseInt d)); reflexivity.
  - intros s d E.
    cbn [parseServings Metadata.getServings Metadata.first_servings Metadata.servings_of].
    rewrite E. cbn [option_map].
    destruct (first_digits_spec s d E) as [Hd He].
    rewrite (JsFacts.parseInt_digits d Hd He).
    split; [reflexivity|]. split.
    + intros Hsmall. pose proof (JsFacts.digits_val_nonneg d Hd).
      rewrite JsFacts.to_double_exact by lia. split; reflexivity.
    + intros Hbig. rewrite (JsFacts.to_double_overflow _ Hbig). split; reflexivity.
  - intros s. cbn [parseServings]. rewrite <- first_digits_has_digit.
    destruct (Metadata.first_digits s); simpl; split; congruence.
  - reflexivity.
Qed.

Lemma parseServings_spec_witness :
  (1 <= 3)%Z /\ ((5 # 2) + (1 # 2) < inject_Z (3 + 1))%Q
  /\ parseServings (Some (ServingsString "Serves 12 to 14")) = Some (Num 12).
Proof.
  destruct parseServings_spec as (Hnum & _ & _ & Htext & _).
  destruct (Hnum (5 # 2) 3%Z eq_refl) as (H1 & H2 & _).
  split; [exact H1|]. split; [exact H2|].
  destruct (Htext "Serves 12 to 14" "12" eq_refl) as (_ & Hsmall & _).
  exact (proj1 (Hsmall eq_refl)).
Defined.

(** *** [splitNonEmptyLines] *)

Lemma has_line_feed_app a b :
  has_line_feed (a +:+ b) = has_line_feed a || has_line_feed b.
Proof.
  induction a as [|c a IH]; [reflexivity|].
  change (String c a +:+ b) with (String c (a +:+ b)).
  cbn [has_line_feed]. rewrite IH, orb_assoc. reflexivity.
Qed.

Lemma has_line_feed_trimStart s :
  has_line_feed s = false -> has_line_feed (trimStart s) = false.
Proof.
  induction s as [|c r IH]; [reflexivity|].
  cbn [has_line_feed trimStart]. intros [Hc Hr]%orb_false_iff.
  destruct (is_space c); [exact (IH Hr)|].
  cbn [has_line_feed]. rewrite Hc, Hr. reflexivity.
Qed.

Lemma has_line_feed_trimEnd s :
  has_line_feed s = false -> has_line_feed (trimEnd s) = false.
Proof.
  induction s as [|c r IH]; [reflexivity|].
  cbn [has_line_feed trimEnd]. cbv zeta. intros [Hc Hr]%orb_false_iff.
  destruct (is_space c && is_empty (trimEnd r)); [reflexivity|].
  cbn [has_line_feed]. rewrite Hc, (IH Hr). reflexivity.
Qed.

Lemma split_lines_from_no_feed s : forall cur piece,
  has_line_feed cur = false ->
  In piece (Recipe.split_lines_from cur s) -> has_line_feed piece = false.
Proof.
  induction s as [|c r IH]; intros cur piece Hcur.
  - intros [<-|[]]. exact Hcur.
  - cbn [Recipe.split_lines_from].
    destruct (code c =? 10)%nat eqn:E10.
    + intros [<-|Hin]; [exact Hcur|]. apply (IH "" piece eq_refl Hin).
    + destruct (_ && _).
      * apply IH, Hcur.
      * apply IH. rewrite has_line_feed_app, Hcur. cbn [has_line_feed].
        rewrite E10. reflexivity.
Qed.

Lemma clean_line_spec line :
  clean_line line = true
  <-> line <> "" /\ trim line = line /\ has_line_feed line = false.
Proof.
  unfold clean_line. rewrite !andb_true_iff, !negb_true_iff, bool_decide_eq_true.
  destruct line; simpl; intuition congruence.
Qed.

(** Every line that [splitNonEmptyLines] returns is not
    empty, has no white space around it and holds no line feed. *)
Lemma splitNonEmptyLines_clean s :
  forallb clean_line (Recipe.splitNonEmptyLines s) = true.
Proof.
  apply forallb_forall. intros line Hin. apply clean_line_spec.
  unfold Recipe.splitNonEmptyLines in Hin.
  destruct s as [t|]; [|contradiction].
  destruct (is_empty t); [contradiction|].
  apply filter_In in Hin. destruct Hin as [Hin Hne].
  apply in_map_iff in Hin. destruct Hin as (piece & <- & Hpiece).
  split; [|split].
  - intros H. rewrite H in Hne. discriminate.
  - apply trim_idem.
  - apply has_line_feed_trimEnd, has_line_feed_trimStart.
    apply (split_lines_from_no_feed t "" piece eq_refl Hpiece).
Qed.

Lemma append_empty_r s : s +:+ "" = s.
Proof.
  induction s as [|c s IH]; [reflexivity|].
  change (String c s +:+ "") with (String c (s +:+ "")). rewrite IH. reflexivity.
Qed.

Lemma append_cons c a b : String c a +:+ b = String c (a +:+ b).
Proof. reflexivity. Qed.

Lemma append_snoc a c b : (a +:+ String c "") +:+ b = a +:+ String c b.
Proof. rewrite IngredientsFacts.append_assoc. reflexivity. Qed.

(** A piece without a line feed is one line. *)
Lemma split_lines_from_last l : forall cur,
  has_line_feed l = false -> Recipe.split_lines_from cur l = [cur +:+ l].
Proof.
  induction l as [|c r IH]; intros cur Hl.
  - simpl. rewrite append_empty_r. reflexivity.
  - cbn [has_line_feed] in Hl. apply orb_false_iff in Hl. destruct Hl as [Hc Hr].
    cbn [Recipe.split_lines_from]. rewrite Hc.
    assert (match r with
            | String d _ => (code d =? 10)%nat
            | EmptyString => false
            end = false) as ->.
    { destruct r as [|d r']; [reflexivity|].
      cbn [has_line_feed] in Hr. apply orb_false_iff in Hr. apply Hr. }
    rewrite andb_false_r, (IH _ Hr), append_snoc. reflexivity.
Qed.

(** A piece without a line feed that does not end in a carriage return,
    followed by a line feed, is one line; the rest is split on its own. *)
Lemma split_lines_from_line l : forall cur rest,
  has_line_feed l = false ->
  Ingredients.last_char l <> Some (ascii_of_nat 13) ->
  Recipe.split_lines_from cur (l +:+ String (ascii_of_nat 10) rest)
  = (cur +:+ l) :: Recipe.split_lines_from "" rest.
Proof.
  induction l as [|c r IH]; intros cur rest Hl Hlast.
  - change ("" +:+ String (ascii_of_nat 10) rest) with (String (ascii_of_nat 10) rest).
    rewrite append_empty_r. reflexivity.
  - cbn [has_line_feed] in Hl. apply orb_false_iff in Hl. destruct Hl as [Hc Hr].
    rewrite append_cons. cbn [Recipe.split_lines_from]. rewrite Hc.
    assert ((code c =? 13)%nat
            && match r +:+ String (ascii_of_nat 10) rest with
               | String d _ => (code d =? 10)%nat
               | EmptyString => false
               end = false) as ->.
    { destruct r as [|d r'].
      - apply andb_false_iff. left. apply Nat.eqb_neq. intros Hcode.
        apply Hlast. simpl. f_equal.
        rewrite <- (ascii_nat_embedding c). unfold code in Hcode. rewrite Hcode.
        reflexivity.
      - rewrite append_cons. cbn [has_line_feed] in Hr.
        apply orb_false_iff in Hr. destruct Hr as [-> _]. apply andb_false_r. }
    rewrite IH; [rewrite append_snoc; reflexivity|exact Hr|].
    destruct r as [|d r']; [discriminate|exact Hlast].
Qed.

Lemma last_char_trimEnd s c :
  Ingredients.last_char (trimEnd s) = Some c -> is_space c = false.
Proof.
  induction s as [|a r IH]; [discriminate|].
  cbn [trimEnd]. cbv zeta.
  destruct (is_space a && is_empty (trimEnd r)) eqn:E; [discriminate|].
  destruct (trimEnd r) as [|b r'] eqn:Er.
  - simpl. intros [= <-]. simpl in E. rewrite andb_true_r in E. exact E.
  - intros H. apply IH. exact H.
Qed.

Lemma clean_line_last line :
  clean_line line = true -> Ingredients.last_char line <> Some (ascii_of_nat 13).
Proof.
  intros (_ & Htrim & _)%clean_line_spec Hlast.
  unfold trim in Htrim. rewrite <- Htrim in Hlast.
  apply last_char_trimEnd in Hlast. discriminate.
Qed.

Lemma split_lines_from_join line lines :
  forallb clean_line (line :: lines) = true ->
  Recipe.split_lines_from "" (join (String (ascii_of_nat 10) "") (line :: lines))
  = line :: lines.
Proof.
  revert line; induction lines as [|l2 rest IH]; intros line Hclean.
  - cbn [join]. cbn [forallb] in Hclean. apply andb_true_iff in Hclean.
    destruct Hclean as [(_ & _ & Hlf)%clean_line_spec _].
    rewrite (split_lines_from_last line "" Hlf). reflexivity.
  - cbn [forallb] in Hclean. apply andb_true_iff in Hclean.
    destruct Hclean as [Hline Hrest].
    change (join (String (ascii_of_nat 10) "") (line :: l2 :: rest))
      with (line +:+ String (ascii_of_nat 10) "" +:+
            join (String (ascii_of_nat 10) "") (l2 :: rest)).
    change (String (ascii_of_nat 10) "" +:+ join (String (ascii_of_nat 10) "") (l2 :: rest))
      with (String (ascii_of_nat 10) (join (String (ascii_of_nat 10) "") (l2 :: rest))).
    rewrite split_lines_from_line.
    + rewrite (IH l2 Hrest). reflexivity.
    + apply clean_line_spec in Hline. apply Hline.
    + apply clean_line_last, Hline.
Qed.

(** X4.  [splitNonEmptyLines] returns clean lines only (not empty, no
    white space around them, no line feed in them), and it loses and
    merges nothing: clean lines that are joined by line feeds are split
    into the same lines again. *)
Theorem splitNonEmptyLines_lines :
  (forall s, forallb clean_line (Recipe.splitNonEmptyLines s) = true)
  /\ (forall lines,
        forallb clean_line lines = true ->
        Recipe.splitNonEmptyLines (Some (join (String (ascii_of_nat 10) "") lines))
        = lines)
  /\ Recipe.splitNonEmptyLines None = []
  /\ Recipe.splitNonEmptyLines (Some "") = [].
Proof.
  split; [exact splitNonEmptyLines_clean|]. split; [|split; reflexivity].
  intros [|line lines] Hclean; [reflexivity|].
  unfold Recipe.splitNonEmptyLines.
  assert (is_empty (join (String (ascii_of_nat 10) "") (line :: lines)) = false) as ->.
  { cbn [forallb] in Hclean. apply andb_true_iff in Hclean.
    destruct Hclean as [(Hne & _)%clean_line_spec _].
    destruct line as [|c r]; [congruence|].
    destruct lines; reflexivity. }
  rewrite (split_lines_from_join line lines Hclean).
  rewrite forallb_forall in Hclean.
  assert (map trim (line :: lines) = line :: lines) as ->.
  { rewrite <- (map_id (line :: lines)) at 2. apply map_ext_in.
    intros l Hl. apply Hclean, clean_line_spec in Hl. apply Hl. }
  apply forallb_filter_id. apply forallb_forall. intros l Hl.
  apply Hclean, clean_line_spec in Hl. destruct l; [destruct Hl; congruence|reflexivity].
Qed.

Lemma splitNonEmptyLines_lines_witness :
  Recipe.splitNonEmptyLines
    (Some (join (String (ascii_of_nat 10) "") ["1 cup water"; "2 tbsp tea leaves"]))
  = ["1 cup water"; "2 tbsp tea leaves"].
Proof.
  destruct splitNonEmptyLines_lines as (_ & Hjoin & _).
  apply Hjoin. reflexivity.
Defined.

End ParserHelpersFacts.

(** ** [buildRecipeDTO] and the two importers that call it *)

Module ImportersFacts.
Import Js Json Eff Recipe ParserHelpers Importers Accounting StringFacts.

Section WithCollaborators.
Variable parseIngredient : string -> Ingredients.UnitsMap -> list Ingredients.Ingredient.
Variable inferSystemUsedFromParsed : list Ingredients.Ingredient -> MeasurementSystem.
Variable schema_error : FullRecipeInsertDTO -> option string.
Variable units : Ingredients.UnitsMap.
Variable uuid : string.
Variable base64ToBuffer : string -> result (list Byte.byte).
Variable saveImageBytes : list Byte.byte -> string -> result string.

Local Abbreviation buildRecipeDTO :=
  (buildRecipeDTO parseIngredient inferSystemUsedFromParsed schema_error).
Local Abbreviation parseMelaRecipeToDTO :=
  (parseMelaRecipeToDTO parseIngredient inferSystemUsedFromParsed schema_error units uuid
     base64ToBuffer saveImageBytes).
Local Abbreviation parsePaprikaRecipeToDTO :=
  (parsePaprikaRecipeToDTO parseIngredient inferSystemUsedFromParsed schema_error units uuid
     saveImageBytes).

Lemma mapi_from_Forall {A B : Type} (f : A -> Z -> B) (P : B -> Prop) (l : list A) :
  (forall x j, In x l -> P (f x j)) -> forall i, Forall P (Steps.mapi_from f i l).
Proof.
  induction l as [|x l IH]; intros Hf i; [constructor|].
  cbn [Steps.mapi_from]. constructor.
  - apply Hf. left. reflexivity.
  - apply IH. intros y j Hy. apply Hf. right. exact Hy.
Qed.

Lemma map_step_mapi_from (systemUsed : MeasurementSystem) (l : list string) : forall i,
  map Steps.step (Steps.mapi_from (fun s j => Steps.mkParsedStep s systemUsed j) i l) = l.
Proof.
  induction l as [|s l IH]; intros i; [reflexivity|].
  cbn [Steps.mapi_from map]. rewrite IH. reflexivity.
Qed.

(** A DTO that [buildRecipeDTO] returns is named by the trimmed name, which
    is not empty. *)
Lemma buildRecipeDTO_name input units0 dto :
  buildRecipeDTO input units0 = Ret dto ->
  name dto = trim (in_name input) /\ name dto <> "".
Proof.
  unfold Recipe.buildRecipeDTO.
  assert (is_empty (in_name input) || is_empty (trim (in_name input))
          = is_empty (trim (in_name input))) as ->.
  { destruct (in_name input); reflexivity. }
  destruct (is_empty (trim (in_name input))) eqn:Hname; [discriminate|].
  cbv zeta. destruct (schema_error _) as [message|]; [discriminate|].
  intros H. inversion H as [Hdto]. rewrite <- Hdto in *. clear H Hdto. cbn.
  split; [reflexivity|]. intros H. rewrite H in Hname. discriminate.
Qed.

(** X5.  [buildRecipeDTO] throws "Missing recipe name" exactly when the
    name is blank.  A DTO that it returns passed the schema; its name is
    the trimmed name and is not empty; its steps are the clean lines of the
    instructions (not empty, trimmed, one line each); its tags are trimmed
    and not empty; and every step and every ingredient carries the
    measurement system of the recipe. *)
Theorem buildRecipeDTO_invariants input units0 :
  (buildRecipeDTO input units0 = Throw "Missing recipe name"
   <-> is_empty (trim (in_name input)) = true)
  /\ (forall dto, buildRecipeDTO input units0 = Ret dto ->
        schema_error dto = None
        /\ name dto = trim (in_name input) /\ name dto <> ""
        /\ map Steps.step (steps dto) = splitNonEmptyLines (instructionsText input)
        /\ forallb clean_line (map Steps.step (steps dto)) = true
        /\ Forall (fun t => t <> "" /\ trim t = t) (tags dto)
        /\ Forall (fun st => Steps.systemUsed st = systemUsed dto) (steps dto)
        /\ Forall (fun i => ing_systemUsed i = systemUsed dto) (recipeIngredients dto)).
Proof.
  unfold Recipe.buildRecipeDTO.
  assert (is_empty (in_name input) || is_empty (trim (in_name input))
          = is_empty (trim (in_name input))) as ->.
  { destruct (in_name input); reflexivity. }
  destruct (is_empty (trim (in_name input))) eqn:Hname.
  { split; [split; reflexivity|]. intros dto H. discriminate H. }
  cbv zeta. split.
  - destruct (schema_error _) as [message|]; split; intros H; discriminate H.
  - intros dto. destruct (schema_error _) as [message|] eqn:Hschema; [discriminate|].
    intros H. inversion H as [Hdto]. rewrite <- Hdto in *. clear H Hdto. cbn.
    split; [exact Hschema|]. split; [reflexivity|].
    split; [intros H; rewrite H in Hname; discriminate|].
    unfold Steps.mapi. rewrite map_step_mapi_from.
    split; [reflexivity|].
    split; [apply ParserHelpersFacts.splitNonEmptyLines_clean|].
    split; [|split].
    + apply Forall_forall. intros t Ht. apply list_elem_of_In, in_map_iff in Ht.
      destruct Ht as (cat & <- & Hcat). apply filter_In in Hcat.
      destruct Hcat as [_ Hcat]. apply andb_true_iff in Hcat. destruct Hcat as [_ Hcat].
      split; [|apply trim_idem].
      intros H. rewrite H in Hcat. discriminate.
    + apply mapi_from_Forall. intros; reflexivity.
    + apply mapi_from_Forall. intros; reflexivity.
Qed.

(** *** [parseMelaRecipeToDTO] *)

(** The title as the function reads it. *)
Local Abbreviation title_of json :=
  (trim (match title json with Some t => t | None => "" end)).

(** X6.  [parseMelaRecipeToDTO] throws "Missing title" for a recipe whose
    title is missing or blank, before it stores anything.  A DTO that it
    returns carries the generated id and the trimmed title as its name,
    and at most one image was stored for it, under that id.  A first
    picture that cannot be decoded or stored does not fail the import: the
    outcome is that of the same recipe without pictures. *)
Theorem parseMelaRecipeToDTO_spec json trace :
  (is_empty (title_of json) = true ->
   parseMelaRecipeToDTO json trace = (Throw "Missing title", trace))
  /\ (forall dto trace',
        parseMelaRecipeToDTO json trace = (Ret dto, trace') ->
        id dto = Some uuid
        /\ name dto = title_of json /\ name dto <> ""
        /\ (trace' = trace \/ trace' = trace ++ [SaveImageBytes uuid])
        /\ (image dto <> None -> trace' = trace ++ [SaveImageBytes uuid]))
  /\ (forall first rest,
        images json = Some (first :: rest) ->
        (exists e, base64ToBuffer first = Throw e)
        \/ (exists bytes e, base64ToBuffer first = Ret bytes
                            /\ saveImageBytes bytes uuid = Throw e) ->
        fst (parseMelaRecipeToDTO json trace)
        = fst (parseMelaRecipeToDTO (without_images json) trace)).
Proof.
  unfold Importers.parseMelaRecipeToDTO. cbn [without_images Importers.title Importers.images
    Importers.link Importers.text Importers.yield Importers.prepTime Importers.cookTime
    Importers.totalTime Importers.ingredients Importers.instructions Importers.categories].
  destruct (is_empty (title_of json)) eqn:Htitle.
  { split; [reflexivity|]. split.
    - intros dto trace' H. discriminate H.
    - intros; reflexivity. }
  split; [discriminate|]. split.
  - intros dto trace'.
    unfold saveBase64Image, save, try_catch, bind, lift, ret.
    intros H.
    assert (forall img tr,
              match buildRecipeDTO
                      {| in_name := title_of json; in_image := img;
                         in_url := truthy_string (link json);
                         in_description := truthy_string (text json);
                         in_servings := parseServings (yield json);
                         in_prepMinutes :=
                           option_map Num (parseHumanDurationToMinutes (prepTime json));
                         in_cookMinutes :=
                           option_map Num (parseHumanDurationToMinutes (cookTime json));
                         in_totalMinutes :=
                           option_map Num (parseHumanDurationToMinutes (totalTime json));
                         ingredientsText := ingredients json;
                         instructionsText := instructions json;
                         in_categories := categories json |} units with
              | Ret a => (Ret (with_id a uuid), tr)
              | Throw e => (Throw e, tr)
              end = (Ret dto, trace') ->
              tr = trace' /\ id dto = Some uuid
              /\ name dto = title_of json /\ name dto <> ""
              /\ (image dto <> None -> img <> None)) as Hbuild.
    { intros img tr Hrun.
      destruct (buildRecipeDTO _ units) as [d|e] eqn:Hd; [|discriminate].
      inversion Hrun; subst. clear Hrun.
      lazymatch type of Hd with
      | Recipe.buildRecipeDTO _ _ _ ?i _ = _ =>
          destruct (buildRecipeDTO_name i units d Hd) as (Hn & Hne)
      end.
      cbn [in_name] in Hn. rewrite trim_idem in Hn.
      split; [reflexivity|]. split; [reflexivity|]. cbn [with_id name].
      split; [exact Hn|]. split; [exact Hne|].
      unfold Recipe.buildRecipeDTO in Hd.
      destruct (_ || _); [discriminate|]. cbv zeta in Hd.
      destruct (schema_error _); [discriminate|]. inversion Hd; subst. cbn.
      destruct img as [i|]; [discriminate|]. intros Hi. exact Hi. }
    destruct (images json) as [[|first rest]|].
    + apply Hbuild in H. destruct H as (<- & Hid & Hn & Hne & Him).
      repeat split; auto; intros Hi; destruct (Him Hi); reflexivity.
    + destruct (base64ToBuffer first) as [bytes|e]; cbn beta iota in H.
      * destruct (saveImageBytes bytes uuid) as [path|e]; cbn beta iota in H.
        -- apply Hbuild in H. destruct H as (<- & Hid & Hn & Hne & Him).
           repeat split; auto.
        -- apply Hbuild in H. destruct H as (<- & Hid & Hn & Hne & Him).
           repeat split; auto; intros Hi; destruct (Him Hi); reflexivity.
      * apply Hbuild in H. destruct H as (<- & Hid & Hn & Hne & Him).
        repeat split; auto; intros Hi; destruct (Him Hi); reflexivity.
    + apply Hbuild in H. destruct H as (<- & Hid & Hn & Hne & Him).
      repeat split; auto; intros Hi; destruct (Him Hi); reflexivity.
  - intros first rest -> Hfail.
    unfold saveBase64Image, save, try_catch, bind, lift, ret.
    destruct Hfail as [[e ->]|(bytes & e & -> & ->)]; cbn beta iota;
      destruct (buildRecipeDTO _ units); reflexivity.
Qed.

(** *** [parsePaprikaRecipeToDTO] *)

(** X8.  [parsePaprikaRecipeToDTO] validates what it is handed and
    throws, before it stores anything, when the value does not fit the
    schema or when the name is blank ("Missing recipe name").  Without an
    image buffer, or with an empty one, it stores nothing.  A DTO that it
    returns carries the generated id, the trimmed name, and as its URL the
    [source_url] of the recipe or, when that is missing or empty, its
    [source]. *)
Theorem parsePaprikaRecipeToDTO_spec json imageBuffer trace :
  (forall e, Paprika.PaprikaRecipeSchema_parse json = Throw e ->
     parsePaprikaRecipeToDTO json imageBuffer trace = (Throw e, trace))
  /\ (forall validated,
        Paprika.PaprikaRecipeSchema_parse json = Ret validated ->
        (is_empty (trim (Paprika.name validated)) = true ->
         parsePaprikaRecipeToDTO json imageBuffer trace
         = (Throw "Missing recipe name", trace))
        /\ (imageBuffer = None \/ imageBuffer = Some [] ->
            snd (parsePaprikaRecipeToDTO json imageBuffer trace) = trace)
        /\ (forall dto trace',
              parsePaprikaRecipeToDTO json imageBuffer trace = (Ret dto, trace') ->
              id dto = Some uuid
              /\ name dto = trim (Paprika.name validated) /\ name dto <> ""
              /\ url dto
                 = match nullable_truthy (Paprika.source_url validated) with
                   | Some u => Some u
                   | None => nullable_truthy (Paprika.source validated)
                   end
              /\ (trace' = trace \/ trace' = trace ++ [SaveImageBytes uuid]))).
Proof.
  split.
  - intros e He. unfold Importers.parsePaprikaRecipeToDTO, bind, lift.
    rewrite He. reflexivity.
  - intros validated Hv.
    unfold Importers.parsePaprikaRecipeToDTO, saveBufferImage, save, try_catch, bind, lift,
      ret, throw.
    rewrite Hv. cbn beta iota.
    destruct (is_empty (trim (Paprika.name validated))) eqn:Hname.
    { split; [reflexivity|]. split; [reflexivity|]. intros dto trace' H. discriminate H. }
    split; [discriminate|]. split.
    + intros [-> | ->]; cbn beta iota;
        destruct (buildRecipeDTO _ units); reflexivity.
    + intros dto trace' H.
      assert (forall img tr u,
                match buildRecipeDTO
                        {| in_name := trim (Paprika.name validated); in_image := img;
                           in_url := u;
                           in_description :=
                             nullable_truthy (Paprika.description validated);
                           in_servings :=
                             parseServings
                               (option_map ServingsString
                                  (nullable_value (Paprika.servings validated)));
                           in_prepMinutes :=
                             option_map Num
                               (parseHumanDurationToMinutes
                                  (nullable_value (Paprika.prep_time validated)));
                           in_cookMinutes :=
                             option_map Num
                               (parseHumanDurationToMinutes
                                  (nullable_value (Paprika.cook_time validated)));
                           in_totalMinutes :=
                             option_map Num
                               (parseHumanDurationToMinutes
                                  (nullable_value (Paprika.total_time validated)));
                           ingredientsText :=
                             nullable_truthy (Paprika.ingredients validated);
                           instructionsText :=
                             nullable_truthy (Paprika.directions validated);
                           in_categories := Some (Paprika.categories validated) |} units with
                | Ret a => (Ret (with_id a uuid), tr)
                | Throw e => (Throw e, tr)
                end = (Ret dto, trace') ->
                tr = trace' /\ id dto = Some uuid
                /\ name dto = trim (Paprika.name validated) /\ name dto <> ""
                /\ url dto = truthy_string u) as Hbuild.
      { intros img tr u Hrun.
        destruct (buildRecipeDTO _ units) as [d|e] eqn:Hd; [|discriminate].
        inversion Hrun; subst. clear Hrun.
        lazymatch type of Hd with
        | Recipe.buildRecipeDTO _ _ _ ?i _ = _ =>
            destruct (buildRecipeDTO_name i units d Hd) as (Hn & Hne)
        end.
        cbn [in_name] in Hn. rewrite trim_idem in Hn.
        split; [reflexivity|]. split; [reflexivity|]. cbn [with_id name url].
        split; [exact Hn|]. split; [exact Hne|].
        unfold Recipe.buildRecipeDTO in Hd.
        destruct (_ || _); [discriminate|]. cbv zeta in Hd.
        destruct (schema_error _); [discriminate|]. inversion Hd; subst. reflexivity. }
      assert (truthy_string
                match nullable_truthy (Paprika.source_url validated) with
                | Some u => Some u
                | None => nullable_truthy (Paprika.source validated)
                end
              = match nullable_truthy (Paprika.source_url validated) with
                | Some u => Some u
                | None => nullable_truthy (Paprika.source validated)
                end) as Hurl.
      { unfold nullable_truthy, truthy_string.
        destruct (Paprika.source_url validated) as [| |u]; cbn;
          try (destruct (is_empty u) eqn:Eu; cbn; rewrite ?Eu; try reflexivity);
          destruct (Paprika.source validated) as [| |v]; cbn; try reflexivity;
          destruct (is_empty v) eqn:Ev; cbn; rewrite ?Ev; reflexivity. }
      destruct imageBuffer as [[|b bytes]|]; cbn beta iota in H.
      * apply Hbuild in H. destruct H as (<- & Hid & Hn & Hne & Hu).
        rewrite Hurl in Hu. repeat split; auto.
      * destruct (saveImageBytes (b :: bytes) uuid) as [path|e]; cbn beta iota in H;
          apply Hbuild in H; destruct H as (<- & Hid & Hn & Hne & Hu);
          rewrite Hurl in Hu; repeat split; auto.
      * apply Hbuild in H. destruct H as (<- & Hid & Hn & Hne & Hu).
        rewrite Hurl in Hu. repeat split; auto.
Qed.

End WithCollaborators.

Section WithArchive.
Variable read_string : Paprika.ZipEntry -> result string.
Variable json_parse : string -> result json.

Local Abbreviation parseMelaArchive := (parseMelaArchive read_string json_parse).
Local Abbreviation read_entry_json := (read_entry_json read_string json_parse).

(** *** [parseMelaArchive] *)

Lemma parse_entry_spec entry recipes log :
  parse_entry read_string json_parse entry recipes log
  = (Ret (recipes ++ mela_recipe_of (read_entry_json entry)),
     log ++ mela_warning_of entry (read_entry_json entry)).
Proof.
  unfold parse_entry, Importers.read_entry_json, Paprika.rbind, try_catch, bind, lift,
    modify, ret.
  destruct (read_string entry) as [text|e]; cbn.
  - destruct (json_parse text) as [j|e]; cbn; rewrite ?app_nil_r; reflexivity.
  - rewrite app_nil_r. reflexivity.
Qed.

Lemma parse_entries_spec entries : forall recipes log,
  parse_entries read_string json_parse entries recipes log
  = (Ret (recipes ++ flat_map (fun e => mela_recipe_of (read_entry_json e)) entries),
     log ++ flat_map (fun e => mela_warning_of e (read_entry_json e)) entries).
Proof.
  induction entries as [|entry r IH]; intros recipes log.
  - cbn. unfold ret. rewrite !app_nil_r. reflexivity.
  - cbn [parse_entries flat_map]. unfold bind at 1. rewrite parse_entry_spec, IH.
    rewrite <- !app_assoc. reflexivity.
Qed.

Lemma accounts_length entries :
  length (flat_map (fun e => mela_recipe_of (read_entry_json e)) entries)
  + length (flat_map (fun e => mela_warning_of e (read_entry_json e)) entries)
  = length entries.
Proof.
  induction entries as [|e r IH]; [reflexivity|].
  cbn [flat_map]. rewrite !length_app. cbn [length].
  destruct (read_entry_json e); cbn [mela_recipe_of mela_warning_of length]; lia.
Qed.

(** X7.  [parseMelaArchive] never throws.  It returns the documents of the
    [.melarecipe] files that can be read and parsed, in the order of the
    archive, and logs one warning for each of the others, so that every
    such file is accounted for exactly once; folders and files with
    another name count for nothing. *)
Theorem parseMelaArchive_accounts zip log :
  exists recipes warnings,
    parseMelaArchive zip log = (Ret recipes, log ++ warnings)
    /\ recipes = flat_map (fun e => mela_recipe_of (read_entry_json e)) (mela_files zip)
    /\ warnings = flat_map (fun e => mela_warning_of e (read_entry_json e)) (mela_files zip)
    /\ length recipes + length warnings = length (mela_files zip)
    /\ (forall e, In e (mela_files zip) <->
                  In e zip /\ Paprika.entry_dir e = false
                  /\ is_melarecipe (Paprika.entry_name e) = true)
    /\ (forall w, In w warnings ->
          exists e, In e (mela_files zip)
                    /\ Paprika.warn_fileName w = Paprika.entry_name e
                    /\ read_entry_json e = Throw (Paprika.warn_error w)).
Proof.
  eexists _, _. split; [apply parse_entries_spec|].
  split; [reflexivity|]. split; [reflexivity|]. split; [|split].
  - apply (accounts_length (mela_files zip)).
  - intros e. unfold mela_files. rewrite <- !list_elem_of_In, list_elem_of_filter.
    rewrite andb_true_iff, negb_true_iff. tauto.
  - intros w Hw. apply in_flat_map in Hw. destruct Hw as (e & He & Hw).
    exists e. split; [exact He|].
    destruct (read_entry_json e) as [j|err]; [contradiction|].
    destruct Hw as [<-|[]]. split; reflexivity.
Qed.

End WithArchive.

Lemma buildRecipeDTO_invariants_witness :
  exists dto,
    Recipe.buildRecipeDTO Ingredients.leading_parser (fun _ => Us) (fun _ => None)
      tea_input Ingredients.example_units = Ret dto
    /\ name dto = "Tea"
    /\ map Steps.step (steps dto) = ["Boil water"; "Steep leaves"].
Proof.
  eexists. split; [vm_compute; reflexivity|].
  match goal with
  | |- context [steps ?d] =>
      destruct (proj2 (buildRecipeDTO_invariants Ingredients.leading_parser (fun _ => Us)
                         (fun _ => None) tea_input Ingredients.example_units) d
                  ltac:(vm_compute; reflexivity)) as (_ & Hn & _ & Hs & _)
  end.
  split; [rewrite Hn; vm_compute; reflexivity|].
  rewrite Hs. vm_compute. reflexivity.
Defined.

(** A picture that cannot be stored: the Mela recipe of the example is
    imported without it. *)
Lemma parseMelaRecipeToDTO_spec_witness :
  fst (Importers.parseMelaRecipeToDTO Ingredients.leading_parser (fun _ => Us)
         (fun _ => None) Ingredients.example_units "r1"
         (fun _ => Ret [Byte.x68]) (fun _ _ => Throw "ENOSPC") mela_tea [])
  = fst (Importers.parseMelaRecipeToDTO Ingredients.leading_parser (fun _ => Us)
           (fun _ => None) Ingredients.example_units "r1"
           (fun _ => Ret [Byte.x68]) (fun _ _ => Throw "ENOSPC")
           (without_images mela_tea) []).
Proof.
  apply (proj2 (proj2 (parseMelaRecipeToDTO_spec Ingredients.leading_parser (fun _ => Us)
                         (fun _ => None) Ingredients.example_units "r1"
                         (fun _ => Ret [Byte.x68]) (fun _ _ => Throw "ENOSPC") mela_tea []))
           "aGVsbG8=" []).
  - reflexivity.
  - right. exists [Byte.x68], "ENOSPC". split; reflexivity.
Defined.

Example parseMelaRecipeToDTO_example :
  match Importers.parseMelaRecipeToDTO Ingredients.leading_parser (fun _ => Us)
          (fun _ => None) Ingredients.example_units "r1"
          (fun _ => Ret [Byte.x68]) (fun _ _ => Ret "/recipes/r1/a.jpg") mela_tea [] with
  | (Ret dto, trace) =>
      Some (id dto, name dto, image dto, url dto, description dto, servings dto,
            prepMinutes dto, cookMinutes dto, totalMinutes dto, tags dto,
            map Steps.step (steps dto), trace)
  | _ => None
  end
  = Some (Some "r1", "Tea", Some "/recipes/r1/a.jpg", Some "https://example.org/tea",
          None, Some (Num 2), Some (Num 5), Some (Num 5), Some (Num 10), ["Drinks"; "Hot"],
          ["Boil water"; "Steep leaves"], [SaveImageBytes "r1"]).
Proof. vm_compute. reflexivity. Qed.

Lemma parseMelaArchive_accounts_witness :
  parseMelaArchive mela_read mela_json mela_zip []
  = (Ret [JObj []],
     [Paprika.mkWarning "Recipes/Broken.MelaRecipe" "Unexpected end of JSON input"
        "Skipping corrupted .melarecipe file"]).
Proof.
  destruct (parseMelaArchive_accounts mela_read mela_json mela_zip [])
    as (recipes & warnings & -> & -> & -> & _).
  vm_compute. reflexivity.
Defined.

(** The tea recipe of the Paprika example, with a blank name: nothing is
    stored, although there is a picture. *)
Lemma parsePaprikaRecipeToDTO_spec_witness :
  Importers.parsePaprikaRecipeToDTO Ingredients.leading_parser (fun _ => Us)
    (fun _ => None) Ingredients.example_units "r1" (fun _ _ => Ret "/recipes/r1/a.jpg")
    (JObj [("name", JStr "  "); ("ingredients", JStr "1 cup water")])
    (Some [Byte.xff; Byte.xd8]) []
  = (Throw "Missing recipe name", []).
Proof.
  destruct (parsePaprikaRecipeToDTO_spec Ingredients.leading_parser (fun _ => Us)
              (fun _ => None) Ingredients.example_units "r1"
              (fun _ _ => Ret "/recipes/r1/a.jpg")
              (JObj [("name", JStr "  "); ("ingredients", JStr "1 cup water")])
              (Some [Byte.xff; Byte.xd8]) []) as [_ H].
  destruct (H _ eq_refl) as [Hblank _].
  apply Hblank. reflexivity.
Defined.

Example parsePaprikaRecipeToDTO_example :
  match Importers.parsePaprikaRecipeToDTO Ingredients.leading_parser (fun _ => Us)
          (fun _ => None) Ingredients.example_units "r1"
          (fun _ _ => Ret "/recipes/r1/a.jpg")
          (JObj [("name", JStr " Tea "); ("ingredients", JStr "1 cup water");
                 ("directions", JStr "Boil water"); ("servings", JStr "Serves 2");
                 ("source", JStr "Grandma"); ("source_url", JStr "");
                 ("cook_time", JStr "1 hr 5 min"); ("categories", JArr [JStr "Drinks"])])
          (Some [Byte.xff; Byte.xd8]) [] with
  | (Ret dto, trace) =>
      Some (id dto, name dto, image dto, url dto, servings dto, cookMinutes dto,
            tags dto, map Steps.step (steps dto), trace)
  | _ => None
  end
  = Some (Some "r1", "Tea", Some "/recipes/r1/a.jpg", Some "Grandma", Some (Num 2),
          Some (Num 65), ["Drinks"], ["Boil water"], [SaveImageBytes "r1"]).
Proof. vm_compute. reflexivity. Qed.

End ImportersFacts.

(** ** [extractPaprikaRecipes]: every file is accounted for *)

Module PaprikaAccountingFacts.
Import Js Json Eff Paprika.

Section WithCollaborators.
Variable read_entry : ZipEntry -> result (list Byte.byte).
Variable gunzip : list Byte.byte -> result (list Byte.byte).
Variable json_of_buffer : list Byte.byte -> result json.
Variable base64ToBuffer : string -> result (list Byte.byte).

Local Abbreviation decode_entry := (decode_entry read_entry gunzip json_of_buffer base64ToBuffer).
Local Abbreviation extractPaprikaRecipes :=
  (extractPaprikaRecipes read_entry gunzip json_of_buffer base64ToBuffer).
Local Abbreviation extracted_of := (extracted_of read_entry gunzip json_of_buffer base64ToBuffer).
Local Abbreviation warnings_of := (warnings_of read_entry gunzip json_of_buffer base64ToBuffer).

Lemma decode_entry_fileName f x : decode_entry f = Ret x -> fileName x = entry_name f.
Proof.
  unfold Paprika.decode_entry, rbind.
  destruct (read_entry f) as [c|]; [|discriminate].
  destruct (gunzip c) as [d|]; [|discriminate].
  destruct (json_of_buffer d) as [j|]; [|discriminate].
  destruct (PaprikaRecipeSchema_parse j) as [r|]; [|discriminate].
  intros [= <-]. reflexivity.
Qed.

Lemma extracted_of_In files x :
  In x (extracted_of files) <-> exists f, In f files /\ decode_entry f = Ret x.
Proof.
  induction files as [|f r IH]; [simpl; split; [contradiction|intros (f & [] & _)]|].
  cbn [Paprika.extracted_of]. destruct (decode_entry f) as [y|e] eqn:E.
  - cbn [In]. rewrite IH. split.
    + intros [<-|(g & Hg & Hd)]; [exists f; auto|exists g; auto].
    + intros (g & [<-|Hg] & Hd); [left; congruence|right; exists g; auto].
  - rewrite IH. split.
    + intros (g & Hg & Hd). exists g. cbn [In]. auto.
    + intros (g & [<-|Hg] & Hd); [congruence|exists g; auto].
Qed.

Lemma warnings_of_In files w :
  In w (warnings_of files)
  <-> exists f e, In f files /\ decode_entry f = Throw e /\ w = skip_warning f e.
Proof.
  induction files as [|f r IH]; [simpl; split; [contradiction|intros (f & e & [] & _)]|].
  cbn [Paprika.warnings_of]. destruct (decode_entry f) as [y|e] eqn:E.
  - rewrite IH. split.
    + intros (g & e & Hg & Hd & Hw). exists g, e. cbn [In]. auto.
    + intros (g & e & [<-|Hg] & Hd & Hw); [congruence|exists g, e; auto].
  - cbn [In]. rewrite IH. split.
    + intros [<-|(g & e' & Hg & Hd & Hw)]; [exists f, e; auto|exists g, e'; auto].
    + intros (g & e' & [<-|Hg] & Hd & Hw).
      * left. rewrite E in Hd. inversion Hd; subst. reflexivity.
      * right. exists g, e'. auto.
Qed.

Lemma extracted_warnings_length files :
  length (extracted_of files) + length (warnings_of files) = length files.
Proof.
  induction files as [|f r IH]; [reflexivity|].
  cbn [Paprika.extracted_of Paprika.warnings_of].
  destruct (decode_entry f); cbn [length]; lia.
Qed.

Lemma extracted_of_sublist files :
  sublist (map fileName (extracted_of files)) (map entry_name files).
Proof.
  induction files as [|f r IH]; [constructor|].
  cbn [Paprika.extracted_of map]. destruct (decode_entry f) as [x|e] eqn:E.
  - cbn [map]. rewrite (decode_entry_fileName f x E). apply sublist_skip, IH.
  - apply sublist_cons, IH.
Qed.

(** X9.  [extractPaprikaRecipes] never throws, whatever the archive holds.
    Every [.paprikarecipe] file of the archive is accounted for exactly
    once: it gives one recipe, under its own file name and in the order of
    the archive, or one warning that names the file and the error; folders
    and files with another name count for nothing. *)
Theorem extractPaprikaRecipes_accounts zip log :
  exists results warnings,
    extractPaprikaRecipes zip log = (Ret results, log ++ warnings)
    /\ length results + length warnings = length (zip_files zip)
    /\ sublist (map fileName results) (map entry_name (zip_files zip))
    /\ (forall x, In x results <->
                  exists f, In f (zip_files zip) /\ decode_entry f = Ret x)
    /\ (forall w, In w warnings <->
                  exists f e, In f (zip_files zip) /\ decode_entry f = Throw e
                              /\ w = skip_warning f e)
    /\ (forall f, In f (zip_files zip) <->
                  In f zip /\ entry_dir f = false
                  /\ is_paprikarecipe (entry_name f) = true).
Proof.
  exists (extracted_of (zip_files zip)), (warnings_of (zip_files zip)).
  split; [apply PaprikaFacts.extractPaprikaRecipes_total|].
  split; [apply extracted_warnings_length|].
  split; [apply extracted_of_sublist|].
  split; [apply extracted_of_In|].
  split; [apply warnings_of_In|].
  intros f. unfold zip_files. rewrite <- !list_elem_of_In, list_elem_of_filter.
  rewrite andb_true_iff, negb_true_iff. tauto.
Qed.

End WithCollaborators.

Lemma extractPaprikaRecipes_accounts_witness :
  exists results warnings,
    extractPaprikaRecipes example_read example_gunzip example_json example_base64
      example_zip [] = (Ret results, warnings)
    /\ map fileName results = ["Recipes/Tea.PaprikaRecipe"]
    /\ map warn_fileName warnings = ["Recipes/broken.paprikarecipe"].
Proof.
  destruct (extractPaprikaRecipes_accounts example_read example_gunzip example_json
              example_base64 example_zip []) as (results & warnings & E & _).
  exists results, ([] ++ warnings). split; [exact E|].
  vm_compute in E. inversion E. split; reflexivity.
Defined.

End PaprikaAccountingFacts.

(** ** The other paths of the orchestrator *)

Module OrchestratorPathsFacts.
Import Js Json Eff Recipe Orchestrator Calls.

Section WithCollaborators.
Variable isVideoUrl : string -> bool.
Variable isVideoParsingEnabled : result bool.
Variable processVideoRecipe :
  string -> string -> option (list string) -> result FullRecipeInsertDTO.
Variable fetchViaPlaywright : string -> result (option string).
Variable getContentIndicators : result ContentIndicators.
Variable shouldAlwaysUseAI : result bool.
Variable tryExtractRecipeFromJsonLd :
  string -> string -> string -> result (option FullRecipeInsertDTO).
Variable tryExtractRecipeFromMicrodata :
  string -> string -> string -> result (option FullRecipeInsertDTO).
Variable jsonLdInput : string -> option string.
Variable isAIEnabled : result bool.
Variable extractRecipeWithAI :
  string -> string -> string -> option (list string) -> result AIResult.

Local Abbreviation parseRecipeFromUrl :=
  (parseRecipeFromUrl isVideoUrl isVideoParsingEnabled processVideoRecipe
     fetchViaPlaywright getContentIndicators shouldAlwaysUseAI
     tryExtractRecipeFromJsonLd tryExtractRecipeFromMicrodata jsonLdInput
     isAIEnabled extractRecipeWithAI).

Ltac run_import :=
  unfold Orchestrator.parseRecipeFromUrl, tryHandleVideoUrl, isPageLikelyRecipe,
    extractWithAIPreference, tryStructuredParsers, tryExtractWithAI,
    try_catch, bind, call, log, modify, throw, ret.

Ltac events_done :=
  rewrite <- ?app_assoc; cbn [app];
  eexists; split; [reflexivity|].

(** X13.  The flag [usedAI] of a returned result tells the truth about
    what ran: with [usedAI = false] the recipe has an ingredient and a
    step and neither the model nor the video pipeline was called; with
    [usedAI = true] one of the two was called. *)
Theorem parseRecipeFromUrl_usedAI url recipeId allergies forceAI trace :
  let outcome := parseRecipeFromUrl url recipeId allergies forceAI trace in
  exists events,
    snd outcome = trace ++ events
    /\ forall r, fst outcome = Ret r ->
         (usedAI r = false ->
          hasValidRecipeData (Some (recipe r)) = true
          /\ existsb is_ai_call events = false
          /\ existsb is_video_call events = false)
         /\ (usedAI r = true ->
             existsb is_ai_call events || existsb is_video_call events = true).
Proof.
  cbv zeta. run_import.
  repeat (case_match; cbn [fst snd negb] in *; simplify_eq);
    events_done; intros r Hr; cbn [fst snd] in Hr; simplify_eq; cbn [usedAI recipe];
    (split; intros Hu; [try discriminate Hu|]); cbn; auto.
Qed.

(** X10.  For a video URL the import is the video pipeline and nothing
    else: the page is never fetched and no extractor for pages runs.  A
    result comes from [processVideoRecipe] and is marked as made with AI;
    with video parsing switched off the import throws before the pipeline
    is called; an error of the pipeline is logged and thrown again. *)
Theorem parseRecipeFromUrl_video url recipeId allergies forceAI trace :
  isVideoUrl url = true ->
  let outcome := parseRecipeFromUrl url recipeId allergies forceAI trace in
  (exists events,
      snd outcome = trace ++ events
      /\ existsb is_fetch events = false
      /\ existsb is_structured_call events = false
      /\ existsb is_ai_call events = false)
  /\ (forall r, fst outcome = Ret r ->
        usedAI r = true
        /\ isVideoParsingEnabled = Ret true
        /\ processVideoRecipe url recipeId allergies = Ret (recipe r))
  /\ (isVideoParsingEnabled = Ret false ->
      outcome = (Throw "Video recipe parsing is not enabled.",
                 trace ++ [IsVideoParsingEnabled]))
  /\ (forall e,
        isVideoParsingEnabled = Ret true ->
        processVideoRecipe url recipeId allergies = Throw e ->
        outcome = (Throw e,
                   trace ++ [IsVideoParsingEnabled; ProcessVideoRecipe url;
                             Log "error" "Video processing failed"])).
Proof.
  intros Hvideo. cbv zeta. run_import. rewrite Hvideo. cbn [negb].
  split; [|split; [|split]].
  - repeat (case_match; cbn [fst snd negb] in *; simplify_eq);
      events_done; cbn; auto.
  - intros r.
    repeat (case_match; cbn [fst snd negb] in *; simplify_eq);
      intros Hr; cbn [fst snd] in Hr; simplify_eq; cbn [usedAI recipe];
      (split; [reflexivity|]); (split; [|reflexivity]);
      match goal with
      | Hb : negb ?b = false |- _ => destruct b; [reflexivity|discriminate Hb]
      end.
  - intros ->. reflexivity.
  - intros e -> ->. cbn. rewrite <- !app_assoc. reflexivity.
Qed.

Local Abbreviation page_accepted :=
  (page_accepted isVideoUrl fetchViaPlaywright getContentIndicators).

(** X11.  Nothing is extracted from a page that could not be fetched or
    that does not look like a recipe: the import throws "Cannot fetch
    recipe page." or "Page does not appear to contain a recipe." right
    after the fetch or the look at the page, and whenever an extractor for
    pages was called, the page had been fetched and accepted. *)
Theorem parseRecipeFromUrl_gate url recipeId allergies forceAI trace :
  isVideoUrl url = false ->
  let outcome := parseRecipeFromUrl url recipeId allergies forceAI trace in
  (forall fetched,
      fetchViaPlaywright url = Ret fetched -> truthy_string fetched = None ->
      outcome = (Throw "Cannot fetch recipe page.", trace ++ [FetchViaPlaywright url]))
  /\ (forall fetched html indicators,
        fetchViaPlaywright url = Ret fetched -> truthy_string fetched = Some html ->
        getContentIndicators = Ret indicators -> page_likely html indicators = false ->
        outcome = (Throw "Page does not appear to contain a recipe.",
                   trace ++ [FetchViaPlaywright url; GetContentIndicators]))
  /\ (exists events,
        snd outcome = trace ++ events
        /\ (existsb is_extraction events = true -> exists html, page_accepted url html)).
Proof.
  intros Hvideo. cbv zeta. run_import. rewrite Hvideo. cbn [negb].
  split; [|split].
  - intros fetched -> ->. reflexivity.
  - intros fetched html indicators -> -> -> ->. cbn. rewrite <- !app_assoc. reflexivity.
  - repeat (case_match; cbn [fst snd negb] in *; simplify_eq);
      events_done; cbn; intros Hx; try discriminate Hx;
      match goal with
      | Hf : fetchViaPlaywright url = Ret ?f, Ht : truthy_string ?f = Some ?h,
        Hl : negb (page_likely ?h ?c) = false |- _ =>
          exists h; unfold Calls.page_accepted;
          split; [exact Hvideo|]; split; [exists f; auto|];
          exists c; split; [reflexivity|];
          destruct (page_likely h c); [reflexivity|discriminate Hl]
      end.
Qed.

(** X12.  In AI-only mode (forced by the caller, or configured when the
    caller does not say) the structured extractors are never called for an
    accepted page: the model is asked, a result is marked as made with AI,
    and the import throws when AI is not enabled. *)
Theorem parseRecipeFromUrl_ai_only url recipeId allergies forceAI html trace :
  page_accepted url html ->
  forceAI = Some true \/ (forceAI = None /\ shouldAlwaysUseAI = Ret true) ->
  let outcome := parseRecipeFromUrl url recipeId allergies forceAI trace in
  (exists events,
      snd outcome = trace ++ events
      /\ existsb is_structured_call events = false
      /\ In IsAIEnabled events)
  /\ (forall r, fst outcome = Ret r ->
        usedAI r = true
        /\ isAIEnabled = Ret true
        /\ exists input,
             extractRecipeWithAI input recipeId url allergies = Ret (AISuccess (recipe r))
             /\ (input = html \/ jsonLdInput html = Some input))
  /\ (isAIEnabled = Ret false ->
      fst outcome = Throw "AI-only import requested but AI is not enabled.").
Proof.
  intros (Hvideo & (fetched & Hfetch & Hhtml) & (ind & Hind & Hlikely)) Hai.
  cbv zeta. run_import. rewrite Hvideo. cbn [negb].
  rewrite Hfetch. cbn beta iota. rewrite Hhtml, Hind. cbn beta iota.
  rewrite Hlikely. cbn [negb].
  destruct Hai as [-> | [-> ->]]; cbn beta iota;
    (split; [|split]).
  1, 4: repeat (case_match; cbn [fst snd negb] in *; simplify_eq);
      events_done; cbn; auto 10.
  1, 3: intros r;
    repeat (case_match; cbn [fst snd negb] in *; simplify_eq);
      intros Hr; cbn [fst snd] in Hr; simplify_eq; cbn [usedAI recipe];
      (split; [reflexivity|]);
      (split; [match goal with
               | Hb : negb ?b = false |- _ => destruct b; [reflexivity|discriminate Hb]
               end|]);
      eauto.
  1, 2: intros ->; cbn; destruct (jsonLdInput html); reflexivity.
Qed.

End WithCollaborators.

(** Pages of a site whose JSON-LD and microdata are never asked because
    AI-only mode is configured. *)
Lemma parseRecipeFromUrl_ai_only_witness :
  fst (Orchestrator.parseRecipeFromUrl
         (fun _ => false) (Ret false) (fun _ _ _ => Throw "not a video")
         (fun _ => Ret (Some example_page)) (Ret example_indicators) (Ret true)
         (fun _ _ _ => Ret (Some (example_dto [])))
         (fun _ _ _ => Ret (Some (example_dto [])))
         (fun _ => None) (Ret false) (fun _ _ _ _ => Ret (AIError "disabled" "AI_DISABLED"))
         "https://example.org/tea" "r1" None None [])
  = Throw "AI-only import requested but AI is not enabled.".
Proof.
  assert (Orchestrator.page_likely example_page example_indicators = true) as Hlikely
    by (vm_compute; reflexivity).
  pose proof (parseRecipeFromUrl_ai_only
           (fun _ => false) (Ret false) (fun _ _ _ => Throw "not a video")
           (fun _ => Ret (Some example_page)) (Ret example_indicators) (Ret true)
           (fun _ _ _ => Ret (Some (example_dto [])))
           (fun _ _ _ => Ret (Some (example_dto [])))
           (fun _ => None) (Ret false) (fun _ _ _ _ => Ret (AIError "disabled" "AI_DISABLED"))
           "https://example.org/tea" "r1" None None example_page []
           (conj eq_refl
              (conj (ex_intro _ (Some example_page) (conj eq_refl eq_refl))
                    (ex_intro _ example_indicators (conj eq_refl Hlikely))))
           (or_intror (conj eq_refl eq_refl))) as H.
  cbv zeta in H. destruct H as (_ & _ & H). apply H. reflexivity.
Defined.

Lemma parseRecipeFromUrl_video_witness :
  Orchestrator.parseRecipeFromUrl
    (fun _ => true) (Ret false) (fun _ _ _ => Throw "unused")
    (fun _ => Ret (Some example_page)) (Ret example_indicators) (Ret false)
    (fun _ _ _ => Ret None) (fun _ _ _ => Ret None)
    (fun _ => None) (Ret false) (fun _ _ _ _ => Ret (AIError "disabled" "AI_DISABLED"))
    "https://video.example/watch?v=1" "r1" None None []
  = (Throw "Video recipe parsing is not enabled.", [IsVideoParsingEnabled]).
Proof.
  pose proof (parseRecipeFromUrl_video
           (fun _ => true) (Ret false) (fun _ _ _ => Throw "unused")
           (fun _ => Ret (Some example_page)) (Ret example_indicators) (Ret false)
           (fun _ _ _ => Ret None) (fun _ _ _ => Ret None)
           (fun _ => None) (Ret false) (fun _ _ _ _ => Ret (AIError "disabled" "AI_DISABLED"))
           "https://video.example/watch?v=1" "r1" None None [] eq_refl) as H.
  cbv zeta in H. destruct H as (_ & _ & H & _). apply H. reflexivity.
Defined.

Lemma parseRecipeFromUrl_gate_witness :
  Orchestrator.parseRecipeFromUrl
    (fun _ => false) (Ret false) (fun _ _ _ => Throw "unused")
    (fun _ => Ret (Some "<html><p>Hello</p></html>")) (Ret example_indicators) (Ret false)
    (fun _ _ _ => Ret (Some (example_dto []))) (fun _ _ _ => Ret None)
    (fun _ => None) (Ret true) (fun _ _ _ _ => Ret (AISuccess (example_dto [])))
    "https://example.org/hello" "r1" None None []
  = (Throw "Page does not appear to contain a recipe.",
     [FetchViaPlaywright "https://example.org/hello"; GetContentIndicators]).
Proof.
  pose proof (parseRecipeFromUrl_gate
           (fun _ => false) (Ret false) (fun _ _ _ => Throw "unused")
           (fun _ => Ret (Some "<html><p>Hello</p></html>")) (Ret example_indicators)
           (Ret false)
           (fun _ _ _ => Ret (Some (example_dto []))) (fun _ _ _ => Ret None)
           (fun _ => None) (Ret true) (fun _ _ _ _ => Ret (AISuccess (example_dto [])))
           "https://example.org/hello" "r1" None None [] eq_refl) as H.
  cbv zeta in H. destruct H as (_ & H & _).
  apply (H (Some "<html><p>Hello</p></html>") "<html><p>Hello</p></html>"
           example_indicators); try reflexivity.
Defined.

End OrchestratorPathsFacts.

(** ** More on [parseVideos] *)

Module VideosMoreFacts.
Import Js Json Eff Videos TempFiles.

Lemma unlinks_app t1 t2 : unlinks (t1 ++ t2) = unlinks t1 ++ unlinks t2.
Proof.
  induction t1 as [|e t1 IH]; [reflexivity|].
  destruct e; simpl; rewrite IH; reflexivity.
Qed.

Section WithCollaborators.
Variable decode : string -> string.
Variable parseDuration : option string -> option Q.
Variable getVideoMetadata : string -> list Event -> result (option Q).
Variable downloadVideo : string -> list Event -> result (option string).
Variable getFfmpegPath : list Event -> result (option string).
Variable convertToMp4 : string -> option string -> list Event -> result string.
Variable saveVideoFile : string -> string -> option Q -> list Event -> result (string * option Q).
Variable unlink : string -> list Event -> result unit.

Local Abbreviation downloadAndSaveVideo :=
  (downloadAndSaveVideo getVideoMetadata downloadVideo getFfmpegPath convertToMp4
     saveVideoFile unlink).
Local Abbreviation parseVideos :=
  (parseVideos decode parseDuration getVideoMetadata downloadVideo getFfmpegPath
     convertToMp4 saveVideoFile unlink).

(** A candidate that [normalizeVideoObject] accepts has a URL to hand to
    the downloader. *)
Lemma normalizeVideoObject_url node c :
  normalizeVideoObject decode node = Some c ->
  exists u, path_set (video_url c) = Some u.
Proof.
  unfold normalizeVideoObject. destruct node as [| | | | |obj]; try discriminate.
  destruct (negb _); [discriminate|].
  destruct (match field "contentUrl" obj with Some (JStr s) => Some s | _ => None end)
    as [cu|] eqn:Hcu;
  destruct (match field "url" obj with Some (JStr s) => Some s | _ => None end)
    as [u|] eqn:Hu; cbn beta iota.
  - destruct (is_empty cu) eqn:Ecu; destruct (is_empty u) eqn:Eu; cbn;
      try discriminate; intros [= <-]; unfold video_url, path_set; cbn;
      rewrite ?Ecu, ?Eu; eauto.
  - destruct (is_empty cu) eqn:Ecu; cbn;
      try discriminate; intros [= <-]; unfold video_url, path_set; cbn;
      rewrite ?Ecu; eauto.
  - destruct (is_empty u) eqn:Eu; cbn;
      try discriminate; intros [= <-]; unfold video_url, path_set; cbn;
      rewrite ?Eu; eauto.
  - discriminate.
Qed.

Lemma extractVideoCandidates_url videoField c :
  In c (extractVideoCandidates decode videoField) ->
  exists u, path_set (video_url c) = Some u.
Proof.
  unfold extractVideoCandidates.
  destruct videoField as [v|]; [|contradiction].
  assert (forall node, In c (match normalizeVideoObject decode node with
                             | Some c0 => [c0]
                             | None => []
                             end) -> exists u, path_set (video_url c) = Some u) as Hone.
  { intros node. destruct (normalizeVideoObject decode node) as [c0|] eqn:E;
      [|contradiction].
    intros [<-|[]]. apply (normalizeVideoObject_url node c0 E). }
  destruct v as [| b | z | s | l | o]; cbn [truthy]; intros Hin;
    try (apply in_flat_map in Hin; destruct Hin as (node & _ & Hin);
         exact (Hone node Hin));
    repeat match type of Hin with
           | In _ (if ?b then _ else _) => destruct b
           | In _ [] => contradiction
           end;
    match type of Hin with
    | In _ (match normalizeVideoObject _ ?n with _ => _ end) => exact (Hone n Hin)
    end.
Qed.

Lemma urls_of_length cands :
  (forall c, In c cands -> exists u, path_set (video_url c) = Some u) ->
  length (urls_of cands) = length cands.
Proof.
  induction cands as [|c r IH]; intros H; [reflexivity|].
  cbn [urls_of]. destruct (H c (or_introl eq_refl)) as [u ->].
  cbn [length]. rewrite IH; [reflexivity|]. intros c' Hc'. apply H. right. exact Hc'.
Qed.



End WithCollaborators.



Example downloadAndSaveVideo_cleanup_example :
  unlinks (snd (Videos.downloadAndSaveVideo example_metadata example_download
                  example_ffmpeg example_convert
                  (fun _ _ _ _ => Throw "ENOSPC") example_unlink
                  "https://cdn.example/ok.webm" "r1" 0 None None []))
  = ["/tmp/ok.mp4"].
Proof. vm_compute. reflexivity. Qed.

End VideosMoreFacts.

(** ** [normalizeIngredientName] and the flags of a match *)

Module StoresMoreFacts.
Import Js Stores NormalNames StringFacts.

Lemma collapse_spaces_lower s :
  collapse_spaces (toLowerCase s) = toLowerCase (collapse_spaces s).
Proof.
  induction s as [|c r IH]; [reflexivity|].
  cbn [toLowerCase collapse_spaces]. rewrite is_space_lower.
  destruct (is_space c) eqn:Ec.
  - destruct r as [|d r']; [reflexivity|].
    cbn [toLowerCase] in *. rewrite is_space_lower.
    destruct (is_space d); [exact IH|].
    cbn [toLowerCase]. rewrite <- IH. reflexivity.
  - cbn [toLowerCase]. rewrite IH. reflexivity.
Qed.

Lemma trimEnd_fixed c r :
  trimEnd (String c r) = String c r ->
  trimEnd r = r /\ is_space c && is_empty r = false.
Proof.
  cbn [trimEnd]. cbv zeta.
  destruct (is_space c && is_empty (trimEnd r)) eqn:E; [discriminate|].
  intros [= H]. rewrite H in E. auto.
Qed.

Lemma collapse_spaces_head c r :
  is_space c = false -> collapse_spaces (String c r) = String c (collapse_spaces r).
Proof. intros H. cbn [collapse_spaces]. rewrite H. reflexivity. Qed.

Lemma single_spaced_collapse t :
  trimEnd t = t -> single_spaced (collapse_spaces t) = true.
Proof.
  induction t as [|c r IH]; [reflexivity|].
  intros [Hr Hc]%trimEnd_fixed. specialize (IH Hr).
  cbn [collapse_spaces]. destruct (is_space c) eqn:Ec.
  - destruct r as [|d r']; [discriminate Hc|].
    destruct (is_space d) eqn:Ed; [exact IH|].
    rewrite (collapse_spaces_head d r' Ed) in *.
    cbn [single_spaced] in *. rewrite Ed in *. cbn. exact IH.
  - cbn [single_spaced]. rewrite Ec. exact IH.
Qed.

Lemma single_spaced_trimEnd s : single_spaced s = true -> trimEnd s = s.
Proof.
  induction s as [|c r IH]; [reflexivity|].
  cbn [single_spaced]. intros [Hc Hr]%andb_true_iff.
  cbn [trimEnd]. cbv zeta. rewrite (IH Hr).
  destruct (is_space c); [|reflexivity].
  destruct r as [|d r']; [|reflexivity].
  rewrite andb_false_r in Hc. discriminate.
Qed.

Lemma single_spaced_collapse_fixed s :
  single_spaced s = true -> collapse_spaces s = s.
Proof.
  induction s as [|c r IH]; [reflexivity|].
  cbn [single_spaced]. intros [Hc Hr]%andb_true_iff.
  cbn [collapse_spaces]. rewrite (IH Hr).
  destruct (is_space c); [|reflexivity].
  apply andb_true_iff in Hc. destruct Hc as [Hc Hd].
  apply bool_decide_eq_true in Hc. subst c.
  destruct r as [|d r']; [discriminate|].
  apply negb_true_iff in Hd. rewrite Hd. reflexivity.
Qed.

Lemma trimStart_head s :
  match trimStart s with String c _ => negb (is_space c) | EmptyString => true end = true.
Proof.
  induction s as [|c r IH]; [reflexivity|].
  cbn [trimStart]. destruct (is_space c) eqn:E; [exact IH|].
  rewrite E. reflexivity.
Qed.

Lemma trimStart_fixed s :
  match s with String c _ => negb (is_space c) | EmptyString => true end = true ->
  trimStart s = s.
Proof.
  destruct s as [|c r]; [reflexivity|].
  cbn [trimStart]. intros ->%negb_true_iff. reflexivity.
Qed.

Lemma trim_head s :
  match trim s with String c _ => negb (is_space c) | EmptyString => true end = true.
Proof.
  unfold trim. pose proof (trimStart_head s) as H.
  destruct (trimStart s) as [|c r]; [reflexivity|].
  apply negb_true_iff in H. cbn [trimEnd]. cbv zeta. rewrite H. cbn. rewrite H.
  reflexivity.
Qed.

Lemma normalizeIngredientName_normal name :
  normal_name (normalizeIngredientName name) = true.
Proof.
  unfold normal_name, normalizeIngredientName.
  apply andb_true_iff. split; [apply andb_true_iff; split|].
  - apply bool_decide_eq_true.
    rewrite <- collapse_spaces_lower, <- trim_lower, toLowerCase_idem. reflexivity.
  - pose proof (trim_head (toLowerCase name)) as H.
    destruct (trim (toLowerCase name)) as [|c r]; [reflexivity|].
    apply negb_true_iff in H. rewrite (collapse_spaces_head c r H). cbn. rewrite H.
    reflexivity.
  - apply single_spaced_collapse. unfold trim. apply trimEnd_idem.
Qed.

Lemma normal_name_fixed name :
  normal_name name = true -> normalizeIngredientName name = name.
Proof.
  unfold normal_name, normalizeIngredientName.
  intros [[Hl Hh]%andb_true_iff Hs]%andb_true_iff.
  apply bool_decide_eq_true in Hl. rewrite Hl. unfold trim.
  rewrite (trimStart_fixed name Hh), (single_spaced_trimEnd name Hs).
  apply single_spaced_collapse_fixed, Hs.
Qed.

Lemma collapse_spaces_empty s : is_empty (collapse_spaces s) = is_empty s.
Proof.
  destruct s as [|c r]; [reflexivity|].
  cbn [collapse_spaces].
  destruct (is_space c); [|reflexivity].
  destruct r as [|d r']; [reflexivity|].
  destruct (is_space d); [|reflexivity].
  revert d. induction r' as [|e r'' IH]; intros d.
  - cbn. destruct (is_space d); reflexivity.
  - cbn [collapse_spaces]. destruct (is_space d); [|reflexivity].
    destruct (is_space e) eqn:Ee; [|reflexivity].
    specialize (IH e). cbn [collapse_spaces] in IH. rewrite Ee in IH. exact IH.
Qed.

(** X16.  [normalizeIngredientName] puts a name in normal form: lower
    case, no white space at its head or its end, single plain spaces
    between its words.  A name in normal form is left as it is, so that
    normalizing twice is normalizing once, and the normalized name is
    empty exactly for the names that [findBestIngredientStorePreference]
    refuses as blank. *)
Theorem normalizeIngredientName_canonical :
  (forall name, normal_name (normalizeIngredientName name) = true)
  /\ (forall name, normal_name name = true -> normalizeIngredientName name = name)
  /\ (forall name, normalizeIngredientName (normalizeIngredientName name)
                   = normalizeIngredientName name)
  /\ (forall name, is_empty (normalizeIngredientName name) = is_empty (trim name)).
Proof.
  split; [exact normalizeIngredientName_normal|].
  split; [exact normal_name_fixed|]. split.
  - intros name. apply normal_name_fixed, normalizeIngredientName_normal.
  - intros name. unfold normalizeIngredientName.
    rewrite collapse_spaces_empty, trim_lower, is_empty_lower. reflexivity.
Qed.

Lemma normalizeIngredientName_canonical_witness :
  normalizeIngredientName "whole milk" = "whole milk".
Proof.
  destruct normalizeIngredientName_canonical as (_ & Hfixed & _).
  apply Hfixed. reflexivity.
Defined.

Example normalizeIngredientName_example :
  normalizeIngredientName ("  Whole   MILK " +:+ String (ascii_of_nat 9) "2% ")
  = "whole milk 2%".
Proof. vm_compute. reflexivity. Qed.

Section WithFuse.
Variable table : list IngredientStorePreferenceDto.
Variable fuse_search : list IngredientStorePreferenceDto -> string -> list FuseResult.

Local Abbreviation findBest := (findBestIngredientStorePreference table fuse_search).

Lemma listed_preference userIds p :
  In p (listIngredientStorePreferencesForUsers table userIds) ->
  In p table /\ In (userId p) userIds.
Proof.
  unfold listIngredientStorePreferencesForUsers.
  destruct userIds as [|u us]; [contradiction|].
  intros [Hp Hu]%filter_In. split; [exact Hp|].
  apply bool_decide_eq_true in Hu. apply list_elem_of_In. exact Hu.
Qed.

Lemma head_filter {A : Type} (P : A -> bool) (l : list A) x r :
  List.filter P l = x :: r -> In x l /\ P x = true.
Proof.
  intros H. apply filter_In. rewrite H. left. reflexivity.
Qed.

(** X17.  The flags of a match that [findBestIngredientStorePreference]
    returns tell the truth: [isCurrentUser] holds exactly when the
    preference is the current user's; an exact match has score 0, the
    normalized search name as its name, and is a stored preference of a
    member of the household; any other match is one of the results of the
    fuzzy search, with the score of that result (1 when it has none).
    Nothing is returned for a blank search name. *)
Theorem findBestIngredientStorePreference_flags currentUserId userIds searchName m :
  findBest currentUserId userIds searchName = Some m ->
  (isCurrentUser m = true <-> userId (preference m) = currentUserId)
  /\ (isExactMatch m = true ->
      score m = 0%Q
      /\ normalizedName (preference m) = normalizeIngredientName searchName
      /\ In (preference m) table
      /\ In (userId (preference m)) userIds)
  /\ (isExactMatch m = false ->
      exists r,
        In r (fuse_search (listIngredientStorePreferencesForUsers table userIds)
                (normalizeIngredientName searchName))
        /\ preference m = item r /\ score m = score_or_1 r)
  /\ is_empty (trim searchName) = false.
Proof.
  unfold Stores.findBestIngredientStorePreference.
  destruct (is_empty_list userIds || is_empty (trim searchName)) eqn:Hguard;
    [discriminate|].
  apply orb_false_iff in Hguard. destruct Hguard as [_ Hblank].
  destruct (is_empty_list _); [discriminate|].
  match goal with
  | |- context [List.find ?f ?l] => destruct (List.find f l) as [p|] eqn:Hmine
  end.
  { intros [= <-]. apply find_some in Hmine. destruct Hmine as [Hin Hp].
    apply andb_true_iff in Hp. destruct Hp as [Hu Hn].
    apply bool_decide_eq_true in Hu. apply bool_decide_eq_true in Hn.
    destruct (listed_preference userIds p Hin) as [Ht Hm]. cbn.
    repeat split; auto; discriminate. }
  match goal with
  | |- context [List.find ?f ?l] => destruct (List.find f l) as [p|] eqn:Hother
  end.
  { intros [= <-]. apply find_some in Hother. destruct Hother as [Hin Hp].
    apply andb_true_iff in Hp. destruct Hp as [Hu Hn].
    apply negb_true_iff, bool_decide_eq_false in Hu. apply bool_decide_eq_true in Hn.
    destruct (listed_preference userIds p Hin) as [Ht Hm]. cbn.
    repeat split; auto; try discriminate; try (intros H; contradiction). }
  destruct (is_empty_list _); [discriminate|].
  match goal with
  | |- context [List.filter ?f ?l] => destruct (List.filter f l) as [|best rest] eqn:Hf1
  end.
  - match goal with
    | |- context [List.filter ?f ?l] => destruct (List.filter f l) as [|best rest] eqn:Hf2
    end; [discriminate|].
    intros [= <-]. apply head_filter in Hf2. destruct Hf2 as [Hin Hp].
    apply negb_true_iff, bool_decide_eq_false in Hp. cbn.
    repeat split; auto; try discriminate; try (intros H; contradiction);
      intros _; exists best; auto.
  - intros [= <-]. apply head_filter in Hf1. destruct Hf1 as [Hin Hp].
    apply bool_decide_eq_true in Hp. cbn.
    repeat split; auto; try discriminate;
      intros _; exists best; auto.
Qed.

End WithFuse.

Lemma findBestIngredientStorePreference_flags_witness :
  isCurrentUser (mkMatch (mkPreference "eve" "milk" "store-e") 0 true false) = true
  <-> "eve" = "ann".
Proof.
  apply (findBestIngredientStorePreference_flags example_table example_fuse
           "ann" ["ann"; "bob"; "eve"] " Milk "
           (mkMatch (mkPreference "eve" "milk" "store-e") 0 true false)).
  vm_compute. reflexivity.
Defined.

End StoresMoreFacts.

(** ** More on the steps *)

Module StepsMoreFacts.
Import Js Json Steps StringFacts.

Lemma heading_not_blank s : is_heading s = true -> is_blank s = false.
Proof.
  unfold is_heading, is_blank. destruct (trim s); [discriminate|reflexivity].
Qed.

Lemma filter_steps_distinct l : forall seen,
  Forall (fun s => is_blank s = false) (filter_steps seen l)
  /\ NoDup (map step_key
              (List.filter (fun s => negb (is_heading s)) (filter_steps seen l)))
  /\ (forall s, In s (filter_steps seen l) -> is_heading s = false ->
                step_key s ∉ seen)
  /\ (forall s, In s l -> is_blank s = false -> is_heading s = false ->
                step_key s ∈ seen
                \/ exists s', In s' (filter_steps seen l) /\ is_heading s' = false
                              /\ step_key s' = step_key s)
  /\ (forall s, In s l -> is_heading s = true -> In s (filter_steps seen l)).
Proof.
  induction l as [|x l IH]; intros seen.
  { cbn. repeat split; try constructor; intros; contradiction. }
  rewrite DedupFacts.filter_steps_cons.
  destruct (is_blank x) eqn:Hb.
  { destruct (IH seen) as (H1 & H2 & H3 & H4 & H5).
    repeat split; auto.
    - intros s [<-|Hs] Hsb Hsh; [congruence|auto].
    - intros s [<-|Hs] Hsh; [|auto].
      apply heading_not_blank in Hsh. congruence. }
  destruct (is_heading x) eqn:Hh.
  { destruct (IH seen) as (H1 & H2 & H3 & H4 & H5).
    split; [constructor; auto|]. split; [|split; [|split]].
    - cbn [List.filter]. rewrite Hh. cbn [negb]. exact H2.
    - intros s [<-|Hs] Hsh; [congruence|auto].
    - intros s [<-|Hs] Hsb Hsh; [congruence|].
      destruct (H4 s Hs Hsb Hsh) as [Hseen|(s' & Hin & Hk)]; [left; exact Hseen|].
      right. exists s'. split; [right; exact Hin|exact Hk].
    - intros s [<-|Hs] Hsh; [left; reflexivity|right; auto]. }
  destruct (decide (step_key x ∈ seen)) as [Hseen|Hnew].
  { destruct (IH seen) as (H1 & H2 & H3 & H4 & H5).
    repeat split; auto.
    - intros s [<-|Hs] Hsb Hsh; [left; exact Hseen|auto].
    - intros s [<-|Hs] Hsh; [congruence|auto]. }
  destruct (IH ({[step_key x]} ∪ seen)) as (H1 & H2 & H3 & H4 & H5).
  split; [constructor; auto|]. split; [|split; [|split]].
  - cbn [List.filter]. rewrite Hh. cbn [negb map]. apply NoDup_cons_2; [|exact H2].
    intros Hin. apply list_elem_of_In, in_map_iff in Hin.
    destruct Hin as (s & Hk & Hs). apply filter_In in Hs. destruct Hs as [Hs Hsh].
    apply negb_true_iff in Hsh. apply (H3 s Hs Hsh). rewrite Hk. set_solver.
  - intros s [<-|Hs] Hsh; [exact Hnew|].
    intros Hin. apply (H3 s Hs Hsh). set_solver.
  - intros s [<-|Hs] Hsb Hsh.
    + right. exists x. split; [left; reflexivity|]. split; [exact Hsh|reflexivity].
    + destruct (H4 s Hs Hsb Hsh) as [Hin|(s' & Hin & Hk)].
      * apply elem_of_union in Hin. destruct Hin as [Hin|Hin]; [|left; exact Hin].
        apply elem_of_singleton in Hin. right. exists x.
        split; [left; reflexivity|]. split; [exact Hh|symmetry; exact Hin].
      * right. exists s'. split; [right; exact Hin|exact Hk].
  - intros s [<-|Hs] Hsh; [congruence|right; auto].
Qed.

(** X18.  What [deduplicateSteps] returns holds no blank entry and no two
    steps that are equal up to case and surrounding white space; every
    heading of the input is kept, and every step of the input that is not
    blank is still there in one spelling. *)
Theorem deduplicateSteps_distinct l :
  Forall (fun s => is_blank s = false) (deduplicateSteps l)
  /\ NoDup (map step_key
              (List.filter (fun s => negb (is_heading s)) (deduplicateSteps l)))
  /\ (forall s, In s l -> is_heading s = true -> In s (deduplicateSteps l))
  /\ (forall s, In s l -> is_blank s = false -> is_heading s = false ->
                exists s', In s' (deduplicateSteps l) /\ is_heading s' = false
                           /\ step_key s' = step_key s).
Proof.
  unfold deduplicateSteps.
  destruct (filter_steps_distinct l ∅) as (H1 & H2 & _ & H4 & H5).
  repeat split; auto.
  intros s Hs Hb Hh. destruct (H4 s Hs Hb Hh) as [Hin|H]; [set_solver|exact H].
Qed.

Lemma deduplicateSteps_distinct_witness :
  exists s', In s' (deduplicateSteps ["Mix."; "# Sauce"; " MIX. "])
             /\ is_heading s' = false /\ step_key s' = step_key " MIX. ".
Proof.
  destruct (deduplicateSteps_distinct ["Mix."; "# Sauce"; " MIX. "]) as (_ & _ & _ & H).
  apply H.
  - right. right. left. reflexivity.
  - reflexivity.
  - reflexivity.
Defined.

(** *** What [collectSteps] and [parseSteps] return *)

Lemma trimEnd_append a b :
  trimEnd b = b -> b <> "" -> trimEnd (a +:+ b) = a +:+ b.
Proof.
  intros Hb Hne. induction a as [|c a IH]; [exact Hb|].
  rewrite ParserHelpersFacts.append_cons. cbn [trimEnd]. cbv zeta. rewrite IH.
  assert (is_empty (a +:+ b) = false) as ->.
  { destruct a; [destruct b; [congruence|reflexivity]|reflexivity]. }
  rewrite andb_false_r. reflexivity.
Qed.

(** A text that starts with a character that is not white space and ends
    with a trimmed text is trimmed. *)
Lemma trim_append c a x :
  is_space c = false -> is_empty (trim x) = false ->
  trim (String c a +:+ trim x) = String c a +:+ trim x.
Proof.
  intros Hc Hx. unfold trim at 1.
  rewrite ParserHelpersFacts.append_cons. cbn [trimStart]. rewrite Hc.
  rewrite <- ParserHelpersFacts.append_cons. apply trimEnd_append.
  - unfold trim. apply trimEnd_idem.
  - intros H. rewrite H in Hx. discriminate.
Qed.

Section WithDecode.
Variable decode : string -> string.

Local Abbreviation clean := TextShape.clean_text.

Lemma clean_trim x : is_empty (trim x) = false -> clean (trim x).
Proof.
  intros H. split; [intros E; rewrite E in H; discriminate|apply trim_idem].
Qed.

Lemma text_property_clean k node s :
  text_property decode k node = Some s ->
  exists x, s = trim x /\ is_empty (trim x) = false.
Proof.
  unfold text_property.
  destruct (match field k node with
            | Some (JStr s0) => Some (trim (decode s0))
            | _ =>
                match item_object node with
                | Some item =>
                    match field k item with
                    | Some (JStr s0) => Some (trim (decode s0))
                    | _ => None
                    end
                | None => None
                end
            end) as [raw|] eqn:Hraw; [|discriminate].
  destruct (is_empty raw) eqn:He; [discriminate|]. intros [= <-].
  assert (exists x, raw = trim x) as [x ->]; [|eauto].
  destruct (field k node) as [[| | |s0| |]|];
    try (inversion Hraw; eauto; fail);
    destruct (item_object node) as [item|]; try discriminate;
    destruct (field k item) as [[| | |s1| |]|]; try discriminate;
    inversion Hraw; eauto.
Qed.

Lemma extractTextFromNode_clean node text :
  extractTextFromNode decode node = Some text -> clean text.
Proof.
  unfold extractTextFromNode.
  destruct (text_property decode "name" node) as [n|] eqn:Hn;
    destruct (text_property decode "text" node) as [t|] eqn:Ht;
    try discriminate; intros [= <-].
  - destruct (text_property_clean _ _ _ Ht) as (x & -> & Hx).
    change ("**" +:+ n +:+ ":** " +:+ trim x)
      with (String "*" ("*" +:+ n +:+ ":** " +:+ trim x)).
    assert (("*" +:+ n +:+ ":** " +:+ trim x) = ("*" +:+ n +:+ ":** ") +:+ trim x) as ->.
    { rewrite !IngredientsFacts.append_assoc. reflexivity. }
    rewrite <- ParserHelpersFacts.append_cons.
    split; [discriminate|]. apply trim_append; [reflexivity|exact Hx].
  - destruct (text_property_clean _ _ _ Hn) as (x & -> & Hx). apply clean_trim, Hx.
  - destruct (text_property_clean _ _ _ Ht) as (x & -> & Hx). apply clean_trim, Hx.
Qed.

Lemma own_steps_clean obj : Forall clean (own_steps decode obj).
Proof.
  unfold own_steps. destruct (isSectionType _).
  - destruct (field "name" obj) as [[| | |n| |]|]; try constructor.
    destruct (is_empty (trim (decode n))) eqn:He; constructor; [|constructor].
    change ("# " +:+ trim (decode n)) with (String "#" " " +:+ trim (decode n)).
    split; [discriminate|]. apply trim_append; [reflexivity|exact He].
  - destruct (extractTextFromNode decode obj) as [text|] eqn:E; [|constructor].
    destruct (_ || _); constructor; [|constructor].
    apply (extractTextFromNode_clean obj text E).
Qed.

Lemma visit_clean node : Forall clean (visit decode node []).
Proof.
  induction node as [| b | z | t | l IH | o IH] using StepsFacts.json_induction;
    try constructor.
  - rewrite StepsFacts.visit_string.
    destruct (is_empty t); [constructor|].
    destruct (is_empty (trim (decode t))) eqn:He; constructor; [|constructor].
    apply clean_trim, He.
  - rewrite StepsFacts.visit_array.
    assert (forall acc, Forall clean acc ->
              Forall clean
                (fold_left (fun acc x => visit decode x acc) l acc)) as Hfold.
    { induction IH as [|x r Hx Hr IHr]; intros acc Hacc; [exact Hacc|].
      cbn [fold_left]. apply IHr. rewrite StepsFacts.visit_app.
      apply Forall_app. split; [exact Hacc|exact Hx]. }
    apply Hfold. constructor.
  - change (visit decode (JObj o) []) with (collectSteps decode (JObj o)).
    rewrite StepsFacts.collectSteps_object.
    assert (forall k, Forall clean (child_steps decode k o)) as Hchild.
    { intros k. unfold child_steps. destruct (field k o) as [v|] eqn:Hf; [|constructor].
      destruct (truthy v); [|constructor].
      apply (StepsFacts.field_Forall
               (fun j => Forall clean (visit decode j [])) k o v IH Hf). }
    apply Forall_app. split; [apply own_steps_clean|].
    apply Forall_app. split; apply Hchild.
Qed.

(** X19.  Every step that [collectSteps] collects is a text that is not
    empty and has no white space around it, whatever the shape of the
    instructions; instructions that are a number, a boolean or [null] give
    no step.  [parseSteps] keeps a part of these steps in their order,
    numbers them 1, 2, ... without a gap and gives each the measurement
    system it was handed. *)
Theorem parseSteps_steps recipeInstructions systemUsed :
  let collected :=
    match recipeInstructions with Some node => collectSteps decode node | None => [] end in
  let steps := parseSteps decode recipeInstructions systemUsed in
  Forall (fun s => s <> "" /\ trim s = s) collected
  /\ sublist (map step steps) collected
  /\ map order steps = seqZ 1 (Z.of_nat (length steps))
  /\ Forall (fun st => step st <> "" /\ trim (step st) = step st
                       /\ Steps.systemUsed st = systemUsed) steps
  /\ (match recipeInstructions with
      | None | Some JNull | Some (JBool _) | Some (JNum _) => steps = []
      | _ => True
      end).
Proof.
  cbv zeta.
  assert (Forall (fun s => s <> "" /\ trim s = s)
            match recipeInstructions with
            | Some node => collectSteps decode node
            | None => []
            end) as Hclean.
  { destruct recipeInstructions as [node|]; [apply visit_clean|constructor]. }
  assert (map step (parseSteps decode recipeInstructions systemUsed)
          = deduplicateSteps match recipeInstructions with
                             | Some node => collectSteps decode node
                             | None => []
                             end) as Hsteps.
  { unfold parseSteps, mapi. cbv zeta. generalize 0%Z.
    induction (deduplicateSteps _) as [|s l IH]; intros i; [reflexivity|].
    cbn [mapi_from map step]. rewrite IH. reflexivity. }
  split; [exact Hclean|]. split; [|split; [|split]].
  - rewrite Hsteps. apply DedupFacts.filter_steps_sublist.
  - unfold parseSteps, mapi. cbv zeta. rewrite RecipeFacts.length_mapi_from.
    apply (RecipeFacts.map_mapi_from _ order 1 0). intros x j. reflexivity.
  - assert (Forall (fun s => s <> "" /\ trim s = s)
              (map step (parseSteps decode recipeInstructions systemUsed))) as Hs.
    { rewrite Hsteps. rewrite Forall_forall in Hclean. apply Forall_forall.
      intros s Hs. apply Hclean.
      apply (elem_of_sublist _ _ _ Hs (DedupFacts.filter_steps_sublist _ _)). }
    assert (Forall (fun st => Steps.systemUsed st = systemUsed)
              (parseSteps decode recipeInstructions systemUsed)) as Hsys.
    { unfold parseSteps, mapi. cbv zeta.
      apply ImportersFacts.mapi_from_Forall. intros; reflexivity. }
    rewrite Forall_map in Hs. rewrite Forall_forall in Hs, Hsys. apply Forall_forall.
    intros st Hst. destruct (Hs st Hst). auto.
  - destruct recipeInstructions as [[| | | | |]|]; try exact I; reflexivity.
Qed.

End WithDecode.

End StepsMoreFacts.

(** ** The alternatives of the recovery pattern *)

Module UnitSpellingsFacts.
Import Js Ingredients UnitSpellings.

Lemma set_add_In u l x : In x (set_add u l) <-> x = u \/ In x l.
Proof.
  unfold set_add. destruct (decide (u ∈ l)) as [Hin|Hnot].
  - split; [auto|]. intros [->|H]; [apply list_elem_of_In; exact Hin|exact H].
  - rewrite in_app_iff. cbn. intuition.
Qed.

Lemma set_add_NoDup u l : NoDup l -> NoDup (set_add u l).
Proof.
  unfold set_add. destruct (decide (u ∈ l)) as [Hin|Hnot]; [auto|].
  intros H. apply NoDup_app. split; [exact H|]. split.
  - intros x Hx Hx'. apply list_elem_of_singleton in Hx'. subst. contradiction.
  - apply NoDup_singleton.
Qed.

Lemma fold_set_add_In alts : forall l x,
  In x (fold_left (fun acc a => set_add a acc) alts l) <-> In x alts \/ In x l.
Proof.
  induction alts as [|a r IH]; intros l x; cbn [fold_left].
  - cbn. intuition.
  - rewrite IH, set_add_In. cbn. intuition.
Qed.

Lemma fold_set_add_NoDup alts : forall l,
  NoDup l -> NoDup (fold_left (fun acc a => set_add a acc) alts l).
Proof.
  induction alts as [|a r IH]; intros l H; cbn [fold_left]; [exact H|].
  apply IH, set_add_NoDup, H.
Qed.

Lemma set_add_truthy_In s l x :
  In x (set_add_truthy s l)
  <-> In x (match s with Some u => if is_empty u then [] else [u] | None => [] end)
      \/ In x l.
Proof.
  unfold set_add_truthy. destruct s as [u|]; [|cbn; intuition].
  destruct (is_empty u); [cbn; intuition|]. rewrite set_add_In. cbn. intuition.
Qed.

Lemma set_add_truthy_NoDup s l : NoDup l -> NoDup (set_add_truthy s l).
Proof.
  unfold set_add_truthy. destruct s as [u|]; [|auto].
  destruct (is_empty u); [auto|]. apply set_add_NoDup.
Qed.

Lemma add_unit_In l entry x :
  In x (add_unit l entry) <-> In x (added_spellings entry) \/ In x l.
Proof.
  unfold add_unit, added_spellings. destruct entry as [key def]. cbn [fst snd].
  destruct (alternates def) as [alts|].
  - rewrite fold_set_add_In, !set_add_truthy_In, set_add_In.
    cbn [In]. rewrite !in_app_iff. intuition.
  - rewrite !set_add_truthy_In, set_add_In.
    cbn [In]. rewrite !in_app_iff. cbn [In]. intuition.
Qed.

Lemma add_unit_NoDup l entry : NoDup l -> NoDup (add_unit l entry).
Proof.
  unfold add_unit. destruct entry as [key def]. intros H.
  destruct (alternates def) as [alts|].
  - apply fold_set_add_NoDup, set_add_truthy_NoDup, set_add_truthy_NoDup, set_add_NoDup, H.
  - apply set_add_truthy_NoDup, set_add_truthy_NoDup, set_add_NoDup, H.
Qed.

Lemma fold_add_unit units : forall l,
  (NoDup l -> NoDup (fold_left add_unit units l))
  /\ (forall x, In x (fold_left add_unit units l)
                <-> (exists entry, In entry units /\ In x (added_spellings entry))
                    \/ In x l).
Proof.
  induction units as [|entry r IH]; intros l; cbn [fold_left].
  - split; [auto|]. intros x. split; [auto|]. intros [(e & [] & _)|H]; exact H.
  - destruct (IH (add_unit l entry)) as [Hnd Hin]. split.
    + intros H. apply Hnd, add_unit_NoDup, H.
    + intros x. rewrite Hin, add_unit_In. split.
      * intros [(e & He & Hx)|[Hx|Hx]]; [left; exists e; cbn; auto| |auto].
        left. exists entry. cbn. auto.
      * intros [(e & [<-|He] & Hx)|Hx]; [auto| |auto].
        left. exists e. auto.
Qed.

Lemma insert_by_length_perm u l : Permutation (insert_by_length u l) (u :: l).
Proof.
  induction l as [|v r IH]; [reflexivity|].
  cbn [insert_by_length]. destruct (_ <? _)%nat; [reflexivity|].
  rewrite IH. apply perm_swap.
Qed.

Lemma insert_by_length_sorted u l :
  StronglySorted longer_first l -> StronglySorted longer_first (insert_by_length u l).
Proof.
  induction 1 as [|v r Hr IH Hv]; cbn [insert_by_length].
  - constructor; constructor.
  - destruct (String.length v <? String.length u)%nat eqn:E.
    + apply Nat.ltb_lt in E. constructor; [constructor; assumption|].
      constructor; [unfold longer_first; lia|].
      eapply Forall_impl; [exact Hv|]. unfold longer_first. intros; cbn in *; lia.
    + apply Nat.ltb_ge in E. constructor; [exact IH|].
      rewrite (insert_by_length_perm u r). constructor; [exact E|exact Hv].
Qed.

Lemma filter_none {A : Type} (f : A -> bool) (l : list A) :
  (forall x, In x l -> f x = false) -> List.filter f l = [].
Proof.
  induction l as [|x l IH]; intros H; [reflexivity|].
  cbn [List.filter]. rewrite (H x (or_introl eq_refl)). apply IH.
  intros y Hy. apply H. right. exact Hy.
Qed.

(** In a sorted list the new element is put behind the elements of its
    own length. *)
Lemma insert_by_length_of_length n u l :
  StronglySorted longer_first l ->
  of_length n (insert_by_length u l)
  = of_length n l ++ (if (String.length u =? n)%nat then [u] else []).
Proof.
  unfold of_length.
  induction 1 as [|v r Hr IH Hv]; cbn [insert_by_length].
  - cbn. destruct (_ =? _)%nat; reflexivity.
  - destruct (String.length v <? String.length u)%nat eqn:E.
    + apply Nat.ltb_lt in E.
      assert (String.length u = n ->
              List.filter (fun w => (String.length w =? n)%nat) (v :: r) = []) as Hnone.
      { intros Eu. apply filter_none. intros w [<-|Hw].
        - apply Nat.eqb_neq. lia.
        - rewrite Forall_forall in Hv. specialize (Hv w).
          rewrite list_elem_of_In in Hv. specialize (Hv Hw).
          unfold longer_first in Hv. apply Nat.eqb_neq. lia. }
      remember (v :: r) as vr eqn:Hvr. cbn [List.filter].
      destruct (String.length u =? n)%nat eqn:Eu.
      * apply Nat.eqb_eq in Eu. rewrite (Hnone Eu). reflexivity.
      * rewrite app_nil_r. reflexivity.
    + cbn [List.filter]. rewrite IH.
      destruct (String.length v =? n)%nat; reflexivity.
Qed.

Lemma sort_by_length_snoc l u :
  sort_by_length (l ++ [u]) = insert_by_length u (sort_by_length l).
Proof. unfold sort_by_length. rewrite fold_left_app. reflexivity. Qed.

Lemma sort_by_length_spec l :
  Permutation (sort_by_length l) l
  /\ StronglySorted longer_first (sort_by_length l)
  /\ forall n, of_length n (sort_by_length l) = of_length n l.
Proof.
  induction l as [|u l IH] using rev_ind.
  - split; [reflexivity|]. split; [constructor|reflexivity].
  - destruct IH as (Hp & Hs & Hn). rewrite sort_by_length_snoc.
    split; [|split].
    + rewrite insert_by_length_perm, Hp. apply Permutation_cons_append.
    + apply insert_by_length_sorted, Hs.
    + intros n. rewrite (insert_by_length_of_length n u _ Hs), Hn.
      unfold of_length. rewrite List.filter_app. cbn [List.filter].
      destruct (_ =? _)%nat; reflexivity.
Qed.

(** X20.  The alternatives of the recovery pattern are the spellings of
    the dictionary (the keys, the short and plural forms that are not
    empty, the alternates), each one once, sorted by length with the
    longest first, spellings of the same length in the order in which the
    dictionary lists them; for an empty dictionary the only alternative is
    the empty string. *)
Theorem unit_alternatives_order units :
  NoDup (all_units units)
  /\ (forall u, In u (all_units units)
                <-> exists entry, In entry units /\ In u (added_spellings entry))
  /\ Permutation (sort_by_length (all_units units)) (all_units units)
  /\ StronglySorted longer_first (sort_by_length (all_units units))
  /\ (forall n, of_length n (sort_by_length (all_units units))
                = of_length n (all_units units))
  /\ (units <> [] -> unit_alternatives units = sort_by_length (all_units units))
  /\ unit_alternatives [] = [""].
Proof.
  destruct (fold_add_unit units []) as [Hnd Hin].
  destruct (sort_by_length_spec (all_units units)) as (Hp & Hs & Hn).
  split; [apply Hnd; constructor|]. split.
  { intros u. unfold all_units. rewrite Hin. cbn. intuition. }
  split; [exact Hp|]. split; [exact Hs|]. split; [exact Hn|]. split; [|reflexivity].
  intros Hne. unfold unit_alternatives.
  destruct (sort_by_length (all_units units)) as [|a r] eqn:E; [|reflexivity].
  exfalso. destruct units as [|[key def] rest]; [congruence|].
  assert (In key (all_units ((key, def) :: rest))) as Hkey.
  { unfold all_units. apply Hin. left. exists (key, def). cbn. auto. }
  apply Permutation_nil in Hp. rewrite Hp in Hkey. contradiction.
Qed.

Lemma unit_alternatives_order_witness :
  unit_alternatives example_units = sort_by_length (all_units example_units).
Proof.
  destruct (unit_alternatives_order example_units) as (_ & _ & _ & _ & _ & H & _).
  apply H. discriminate.
Defined.

End UnitSpellingsFacts.

(** ** [sortTagsWithAllergyPriority] *)

Module TagOrderFacts.
Import Js Helpers.

Section WithTag.
Variable T : Type.
Variable name : T -> string.

Local Abbreviation sortTags := (sortTagsWithAllergyPriority T name).

Lemma fold_push_tag (allergySet : gset string) tags : forall a n,
  fold_left (push_tag T name allergySet) tags (a, n)
  = (a ++ List.filter (fun t => isAllergenTag (name t) allergySet) tags,
     n ++ List.filter (fun t => negb (isAllergenTag (name t) allergySet)) tags).
Proof.
  induction tags as [|t r IH]; intros a n.
  - cbn. rewrite !app_nil_r. reflexivity.
  - cbn [fold_left List.filter]. unfold push_tag at 2. cbn [fst snd].
    destruct (decide (toLowerCase (name t) ∈ allergySet)) as [Hin|Hnot].
    + assert (isAllergenTag (name t) allergySet = true) as ->
        by (apply bool_decide_eq_true_2, Hin).
      cbn [negb]. rewrite IH, <- app_assoc. reflexivity.
    + assert (isAllergenTag (name t) allergySet = false) as ->
        by (apply bool_decide_eq_false_2, Hnot).
      cbn [negb]. rewrite IH, <- app_assoc. reflexivity.
Qed.

Lemma partition_perm (p : T -> bool) l :
  Permutation (List.filter p l ++ List.filter (fun t => negb (p t)) l) l.
Proof.
  induction l as [|t r IH]; [reflexivity|].
  cbn [List.filter]. destruct (p t); cbn [negb app].
  - constructor. exact IH.
  - rewrite <- Permutation_middle. constructor. exact IH.
Qed.

Lemma filter_filter_same (p : T -> bool) l :
  List.filter p (List.filter p l) = List.filter p l.
Proof.
  induction l as [|t r IH]; [reflexivity|].
  cbn [List.filter]. destruct (p t) eqn:E; [|exact IH].
  cbn [List.filter]. rewrite E, IH. reflexivity.
Qed.

Lemma filter_filter_other (p q : T -> bool) l :
  (forall t, p t = true -> q t = false) -> List.filter q (List.filter p l) = [].
Proof.
  intros H. induction l as [|t r IH]; [reflexivity|].
  cbn [List.filter]. destruct (p t) eqn:E; [|exact IH].
  cbn [List.filter]. rewrite (H t E). exact IH.
Qed.

(** X21.  [sortTagsWithAllergyPriority] is a stable partition: it returns
    the tags that are allergens, then the other tags, both in the order
    they had; no tag is lost or repeated; sorting a sorted list changes
    nothing; and a tag is an allergen exactly when its name equals one of
    the allergies up to case. *)
Theorem sortTagsWithAllergyPriority_spec tags allergies :
  let allergySet : gset string := list_to_set (map toLowerCase allergies) in
  let sorted := sortTags tags allergies in
  sorted
  = List.filter (fun t => isAllergenTag (name t) allergySet) tags
    ++ List.filter (fun t => negb (isAllergenTag (name t) allergySet)) tags
  /\ Permutation sorted tags
  /\ sortTags sorted allergies = sorted
  /\ (forall t, isAllergenTag (name t) allergySet = true
                <-> exists a, In a allergies /\ toLowerCase a = toLowerCase (name t)).
Proof.
  cbv zeta.
  assert (forall l,
            sortTags l allergies
            = List.filter
                (fun t => isAllergenTag (name t) (list_to_set (map toLowerCase allergies)))
                l
              ++ List.filter
                   (fun t => negb (isAllergenTag (name t)
                                     (list_to_set (map toLowerCase allergies)))) l)
    as Hsort.
  { intros l. unfold sortTagsWithAllergyPriority. cbv zeta.
    rewrite fold_push_tag. reflexivity. }
  split; [apply Hsort|]. split; [rewrite Hsort; apply partition_perm|]. split.
  - rewrite (Hsort (sortTags tags allergies)), (Hsort tags).
    rewrite !List.filter_app, !filter_filter_same.
    rewrite (filter_filter_other (fun t => negb (isAllergenTag (name t) _))
               (fun t => isAllergenTag (name t) _)).
    2: { intros t Ht. apply negb_true_iff in Ht. exact Ht. }
    rewrite (filter_filter_other (fun t => isAllergenTag (name t) _)
               (fun t => negb (isAllergenTag (name t) _))).
    2: { intros t Ht. rewrite Ht. reflexivity. }
    rewrite app_nil_r. reflexivity.
  - intros t. unfold isAllergenTag. rewrite bool_decide_eq_true, elem_of_list_to_set.
    rewrite list_elem_of_In, in_map_iff. split; intros (a & H1 & H2); exists a; auto.
Qed.

End WithTag.

Example sortTagsWithAllergyPriority_example :
  sortTagsWithAllergyPriority string (fun t => t)
    ["Vegan"; "Peanuts"; "Quick"; "GLUTEN"; "peanuts"] ["gluten"; "PEANUTS"]
  = ["Peanuts"; "GLUTEN"; "peanuts"; "Vegan"; "Quick"].
Proof. vm_compute. reflexivity. Qed.

End TagOrderFacts.

(** ** [parseImages] *)

Module ImagesFacts.
Import Js Json Eff Recipe Images.

Lemma local_path_spec img :
  local_path img = if isLocalPath img then match img with JStr s => [s] | _ => [] end else [].
Proof. destruct img; reflexivity. Qed.

Lemma local_paths_length l :
  length (flat_map local_path (List.filter isLocalPath l))
  = length (List.filter isLocalPath l).
Proof.
  induction l as [|x r IH]; [reflexivity|].
  cbn [List.filter]. destruct (isLocalPath x) eqn:Ex; [|exact IH].
  cbn [flat_map]. rewrite length_app, IH, local_path_spec, Ex.
  destruct x; try discriminate. reflexivity.
Qed.

Lemma mapi_from_paths (l : list string) : forall i,
  map image_path (Steps.mapi_from (fun img index => mkParsedImage img index) i l) = l.
Proof.
  induction l as [|x l IH]; intros i; [reflexivity|].
  cbn [Steps.mapi_from map image_path]. rewrite IH. reflexivity.
Qed.

Section WithDownloader.
Variable MAX_RECIPE_IMAGES : Z.
Variable downloadAllImagesFromJsonLd : json -> string -> Z -> result (list string).

Local Abbreviation parseImages := (parseImages MAX_RECIPE_IMAGES downloadAllImagesFromJsonLd).
Local Abbreviation downloaded_images :=
  (downloaded_images MAX_RECIPE_IMAGES downloadAllImagesFromJsonLd).

(** What [parseImages] makes of the array [downloadedImages]. *)
Lemma parseImages_result imageField recipeId trace images primary trace' :
  parseImages imageField recipeId trace = (Ret (images, primary), trace') ->
  map image_order images = seqZ 0 (Z.of_nat (length images))
  /\ primary = head (map image_path images)
  /\ (truthy_opt imageField = false -> images = [] /\ trace' = trace)
  /\ (forall field, imageField = Some field -> truthy field = true ->
        downloaded_images field recipeId trace = (Ret (map image_path images), trace')).
Proof.
  unfold Images.parseImages.
  destruct (truthy_opt imageField) eqn:Ht; cbn [negb].
  - destruct imageField as [field|]; [|discriminate].
    unfold bind, ret.
    destruct (downloaded_images field recipeId trace) as [[l|e] tr] eqn:E; [|discriminate].
    intros [= <- <- <-]. unfold Steps.mapi.
    rewrite RecipeFacts.length_mapi_from, mapi_from_paths.
    split; [apply (RecipeFacts.map_mapi_from _ image_order 0 0); intros; cbn; lia|].
    split; [reflexivity|]. split; [discriminate|].
    intros f [= <-] _. exact E.
  - intros [= <- <- <-]. split; [reflexivity|]. split; [reflexivity|].
    split; [auto|]. intros field -> Hf. cbn in Ht. congruence.
Qed.

(** X22.  In what [parseImages] returns the images are numbered 0, 1, ...
    in their order and the primary image is the first of them (none when
    there is no image).  Pictures that are already stored (paths under
    /recipes/) are never handed to the downloader: a single stored path is
    returned as it is without any call, and of an array the stored paths
    come first, in their order and all of them, followed by what the one
    call of the downloader returned for the other elements, which was
    asked for at most MAX_RECIPE_IMAGES minus the number of stored
    paths. *)
Theorem parseImages_spec imageField recipeId trace :
  (truthy_opt imageField = false ->
   parseImages imageField recipeId trace = (Ret ([], None), trace))
  /\ (forall images primary trace',
        parseImages imageField recipeId trace = (Ret (images, primary), trace') ->
        map image_order images = seqZ 0 (Z.of_nat (length images))
        /\ primary = head (map image_path images))
  /\ (forall s,
        imageField = Some (JStr s) -> startsWith "/recipes/" s = true ->
        parseImages imageField recipeId trace
        = (Ret ([mkParsedImage s 0], Some s), trace))
  /\ (forall l images primary trace',
        imageField = Some (JArr l) ->
        parseImages imageField recipeId trace = (Ret (images, primary), trace') ->
        let localPaths := List.filter isLocalPath l in
        let remotePaths := List.filter (fun img => negb (isLocalPath img)) l in
        exists downloaded,
          map image_path images = flat_map local_path localPaths ++ downloaded
          /\ length (flat_map local_path localPaths) = length localPaths
          /\ (remotePaths = [] -> downloaded = [] /\ trace' = trace)
          /\ (remotePaths <> [] ->
              downloadAllImagesFromJsonLd (JArr remotePaths) recipeId
                (MAX_RECIPE_IMAGES - Z.of_nat (length localPaths)) = Ret downloaded
              /\ trace' = trace ++ [DownloadAllImagesFromJsonLd (JArr remotePaths) recipeId
                                      (MAX_RECIPE_IMAGES - Z.of_nat (length localPaths))]))
  /\ (forall field e,
        imageField = Some field -> truthy field = true -> isLocalPath field = false ->
        (forall l, field <> JArr l) ->
        downloadAllImagesFromJsonLd field recipeId MAX_RECIPE_IMAGES = Throw e ->
        fst (parseImages imageField recipeId trace) = Throw e).
Proof.
  split; [|split; [|split; [|split]]].
  - intros Ht. unfold Images.parseImages. rewrite Ht. reflexivity.
  - intros images primary trace' H.
    destruct (parseImages_result _ _ _ _ _ _ H) as (Ho & Hp & _). auto.
  - intros s -> Hs. unfold Images.parseImages, Images.downloaded_images, bind, ret.
    assert (truthy_opt (Some (JStr s)) = true) as ->.
    { destruct s; [discriminate|reflexivity]. }
    cbn [negb isLocalPath local_path]. rewrite Hs. reflexivity.
  - intros l images primary trace' -> H. cbv zeta.
    destruct (parseImages_result _ _ _ _ _ _ H) as (_ & _ & _ & Hd).
    specialize (Hd (JArr l) eq_refl eq_refl).
    unfold Images.downloaded_images in Hd. cbn [isLocalPath] in Hd.
    pose proof (local_paths_length l) as Hlen.
    destruct (List.filter (fun img => negb (isLocalPath img)) l) as [|r0 rs] eqn:Hr.
    + cbn [is_empty_list] in Hd. unfold ret in Hd. inversion Hd as [[Hi Ht]].
      exists []. rewrite app_nil_r.
      split; [reflexivity|]. split; [exact Hlen|]. split; [auto|].
      intros Hne. congruence.
    + cbn [is_empty_list] in Hd. unfold bind, download, ret in Hd.
      destruct (downloadAllImagesFromJsonLd _ _ _) as [d|e] eqn:Ed; [|discriminate].
      inversion Hd as [[Hi Ht]].
      exists d. split; [reflexivity|]. split; [exact Hlen|].
      split; [discriminate|]. intros _. split; reflexivity.
  - intros field e -> Ht Hl Harr He.
    unfold Images.parseImages, Images.downloaded_images, bind, download.
    cbn [truthy_opt]. rewrite Ht, Hl. cbn [negb].
    destruct field; try (rewrite He; reflexivity).
    exfalso. eapply Harr. reflexivity.
Qed.

End WithDownloader.

Lemma parseImages_spec_witness :
  exists downloaded,
    map image_path
      [mkParsedImage "/recipes/r1/a.jpg" 0; mkParsedImage "/recipes/r1/b.jpg" 1;
       mkParsedImage "/recipes/r1/downloaded.jpg" 2]
    = ["/recipes/r1/a.jpg"; "/recipes/r1/b.jpg"] ++ downloaded.
Proof.
  destruct (parseImages_spec 3 example_downloader
              (Some (JArr [JStr "https://cdn.example/x.jpg"; JStr "/recipes/r1/a.jpg";
                           JObj [("url", JStr "https://cdn.example/y.jpg")];
                           JStr "/recipes/r1/b.jpg"])) "r1" [])
    as (_ & _ & _ & H & _).
  destruct (H _ [mkParsedImage "/recipes/r1/a.jpg" 0; mkParsedImage "/recipes/r1/b.jpg" 1;
                 mkParsedImage "/recipes/r1/downloaded.jpg" 2]
              (Some "/recipes/r1/a.jpg")
              [DownloadAllImagesFromJsonLd
                 (JArr [JStr "https://cdn.example/x.jpg";
                        JObj [("url", JStr "https://cdn.example/y.jpg")]]) "r1" 1]
              eq_refl) as (downloaded & Hd & _).
  - vm_compute. reflexivity.
  - exists downloaded. exact Hd.
Defined.

End ImagesFacts.

(** ** What [normalizeRecipeFromJson] returns *)

Module NormalizeFacts.
Import Js Json Eff Recipe StringFacts.

Section WithCollaborators.
Variable decode : string -> string.
Variable parseIngredient : string -> Ingredients.UnitsMap -> list Ingredients.Ingredient.
Variable inferSystemUsedFromParsed : list Ingredients.Ingredient -> MeasurementSystem.
Variable extractNutrition : list (string * json) -> ParsedNutrition.
Variable getUnits : result Ingredients.UnitsMap.
Variable randomUUID : string.
Variable MAX_RECIPE_IMAGES : Z.
Variable downloadAllImagesFromJsonLd : json -> string -> Z -> result (list string).
Variable parseDuration : option string -> option Q.
Variable getVideoMetadata : string -> list Videos.Event -> result (option Q).
Variable downloadVideo : string -> list Videos.Event -> result (option string).
Variable getFfmpegPath : list Videos.Event -> result (option string).
Variable convertToMp4 : string -> option string -> list Videos.Event -> result string.
Variable saveVideoFile :
  string -> string -> option Q -> list Videos.Event -> result (string * option Q).
Variable unlink : string -> list Videos.Event -> result unit.

Local Abbreviation normalizeRecipeFromJson :=
  (Normalize.normalizeRecipeFromJson decode parseIngredient inferSystemUsedFromParsed
     extractNutrition getUnits randomUUID MAX_RECIPE_IMAGES downloadAllImagesFromJsonLd
     parseDuration getVideoMetadata downloadVideo getFfmpegPath convertToMp4
     saveVideoFile unlink).
Local Abbreviation parseImages :=
  (Images.parseImages MAX_RECIPE_IMAGES downloadAllImagesFromJsonLd).
Local Abbreviation parseVideos :=
  (Videos.parseVideos decode parseDuration getVideoMetadata downloadVideo getFfmpegPath
     convertToMp4 saveVideoFile unlink).

Lemma nonempty_some s n : Metadata.nonempty s = Some n -> n <> "".
Proof.
  unfold Metadata.nonempty. destruct (is_empty s) eqn:E; [discriminate|].
  intros [= <-] H. rewrite H in E. discriminate.
Qed.

Lemma parseMetadata_name obj : Metadata.name (Metadata.parseMetadata decode obj) <> "".
Proof.
  unfold Metadata.parseMetadata. cbn [Metadata.name].
  destruct (Metadata.getName decode obj) as [n|] eqn:E; [|discriminate].
  unfold Metadata.getName, Metadata.name_of_raw in E.
  destruct (nullish_or _ _) as [[| | |s|l|]|]; try discriminate;
    apply (nonempty_some _ _ E).
Qed.

Lemma parseTags_lower keywords : Forall (fun t => toLowerCase t = t) (parseTags keywords).
Proof.
  unfold parseTags. destruct keywords as [[| | | |l|]|]; try constructor.
  induction l as [|k r IH]; [constructor|].
  cbn [flat_map]. destruct k; try exact IH.
  cbn [app]. constructor; [apply toLowerCase_idem|exact IH].
Qed.


End WithCollaborators.


End NormalizeFacts.

(** ** Names for grouping *)

Module GroupingFacts.
Import Js Grouping NormalNames StringFacts.

Example normalizeIngredientNameForGrouping_examples :
  map normalizeIngredientNameForGrouping
    [Some "Tomatoes (diced)"; Some "  Olive   Oil [optional] {extra virgin} ";
     Some "(optional)"; Some "Flour (all-purpose) , sifted"; Some "a (b (c) d) e";
     Some "milk ( 2%"; Some ""; None; Some "salt)(pepper"]
  = ["tomatoes"; "olive oil"; ""; "flour , sifted"; "a d) e"; "milk ( 2%"; ""; "";
     "salt)(pepper"].
Proof. vm_compute. reflexivity. Qed.

Example getDisplayName_examples :
  map getDisplayName
    [Some "Tomatoes (diced)"; Some "(optional)"; None; Some "Olive Oil {extra}"]
  = ["Tomatoes"; "Unknown item"; "Unknown item"; "Olive Oil {extra}"].
Proof. vm_compute. reflexivity. Qed.

Lemma spaced_collapse s : spaced (collapse_spaces s) = true.
Proof.
  induction s as [|c r IH]; [reflexivity|].
  cbn [collapse_spaces]. destruct (is_space c) eqn:Ec.
  - destruct r as [|d r']; [reflexivity|].
    destruct (is_space d) eqn:Ed; [exact IH|].
    rewrite (StoresMoreFacts.collapse_spaces_head d r' Ed) in *.
    cbn [spaced] in *. rewrite Ed in *. cbn. exact IH.
  - cbn [spaced]. rewrite Ec. exact IH.
Qed.

Lemma spaced_trimStart s : spaced s = true -> spaced (trimStart s) = true.
Proof.
  induction s as [|c r IH]; [reflexivity|].
  intros H. cbn [trimStart]. destruct (is_space c) eqn:Ec; [|exact H].
  cbn [spaced] in H. apply andb_true_iff in H. apply IH, H.
Qed.

Lemma trimEnd_head r d x : trimEnd r = String d x -> exists r', r = String d r'.
Proof.
  destruct r as [|c r']; [discriminate|].
  cbn [trimEnd]. cbv zeta. destruct (_ && _); [discriminate|].
  intros [= -> _]. eauto.
Qed.

Lemma spaced_trimEnd s : spaced s = true -> single_spaced (trimEnd s) = true.
Proof.
  induction s as [|c r IH]; [reflexivity|].
  cbn [spaced]. intros [Hc Hr]%andb_true_iff. specialize (IH Hr).
  cbn [trimEnd]. cbv zeta.
  destruct (is_space c && is_empty (trimEnd r)) eqn:E; [reflexivity|].
  cbn [single_spaced]. rewrite IH, andb_true_r.
  destruct (is_space c); [|reflexivity].
  cbn in E. destruct (trimEnd r) as [|d x] eqn:Er; [discriminate|].
  destruct (trimEnd_head r d x Er) as [r' ->].
  exact Hc.
Qed.

Lemma single_spaced_lower s : single_spaced (toLowerCase s) = single_spaced s.
Proof.
  induction s as [|c r IH]; [reflexivity|].
  cbn [toLowerCase single_spaced]. rewrite IH, is_space_lower.
  destruct (is_space c) eqn:Ec; [|reflexivity].
  f_equal. f_equal.
  - destruct c as [[] [] [] [] [] [] [] []]; try reflexivity; discriminate Ec.
  - destruct r as [|d r']; [reflexivity|]. cbn [toLowerCase]. rewrite is_space_lower.
    reflexivity.
Qed.

(** Whatever [x] is, [x.replace(/\s+/g, " ").trim().toLowerCase()] is in
    normal form. *)
Lemma lower_trim_collapse_normal x :
  normal_name (toLowerCase (trim (collapse_spaces x))) = true.
Proof.
  unfold normal_name. apply andb_true_iff. split; [apply andb_true_iff; split|].
  - apply bool_decide_eq_true, toLowerCase_idem.
  - pose proof (StoresMoreFacts.trim_head (collapse_spaces x)) as H.
    destruct (trim (collapse_spaces x)) as [|c r]; [reflexivity|].
    cbn [toLowerCase]. rewrite is_space_lower. exact H.
  - rewrite single_spaced_lower. unfold trim.
    apply spaced_trimEnd, spaced_trimStart, spaced_collapse.
Qed.

Lemma trimStart_collapse s :
  trimStart (collapse_spaces s) = collapse_spaces (trimStart s).
Proof.
  induction s as [|c r IH]; [reflexivity|].
  cbn [collapse_spaces trimStart]. destruct (is_space c) eqn:Ec.
  - destruct r as [|d r']; [reflexivity|].
    destruct (is_space d) eqn:Ed; [exact IH|].
    cbn [trimStart]. exact IH.
  - cbn [trimStart]. rewrite Ec.
    rewrite (StoresMoreFacts.collapse_spaces_head c r Ec). reflexivity.
Qed.

Lemma collapse_spaces_space c d r :
  is_space c = true ->
  collapse_spaces (String c (String d r))
  = if is_space d then collapse_spaces (String d r)
    else String " " (collapse_spaces (String d r)).
Proof.
  intros H.
  change (collapse_spaces (String c (String d r)))
    with (if is_space c
          then if is_space d then collapse_spaces (String d r)
               else String " " (collapse_spaces (String d r))
          else String c (collapse_spaces (String d r))).
  rewrite H. reflexivity.
Qed.

Lemma trimEnd_empty_collapse c r :
  is_space c = true -> trimEnd r = "" -> trimEnd (collapse_spaces (String c r)) = "".
Proof.
  revert c. induction r as [|d r' IH]; intros c Hc Hr.
  - cbn [collapse_spaces]. rewrite Hc. reflexivity.
  - cbn [trimEnd] in Hr. cbv zeta in Hr.
    destruct (is_space d && is_empty (trimEnd r')) eqn:E; [|discriminate].
    apply andb_true_iff in E. destruct E as [Hd He].
    rewrite (collapse_spaces_space c d r' Hc), Hd.
    apply (IH d Hd). destruct (trimEnd r'); [reflexivity|discriminate].
Qed.

Lemma trimEnd_collapse s :
  trimEnd (collapse_spaces s) = collapse_spaces (trimEnd s).
Proof.
  induction s as [|c r IH]; [reflexivity|].
  destruct (is_space c) eqn:Ec.
  - destruct (trimEnd r) as [|d x] eqn:Er.
    + rewrite (trimEnd_empty_collapse c r Ec Er).
      cbn [trimEnd]. cbv zeta. rewrite Er, Ec. reflexivity.
    + destruct (trimEnd_head r d x Er) as [r' ->].
      rewrite (collapse_spaces_space c d r' Ec).
      assert (trimEnd (String c (String d r')) = String c (String d x)) as ->.
      { change (trimEnd (String c (String d r')))
          with (if is_space c && is_empty (trimEnd (String d r')) then ""
                else String c (trimEnd (String d r'))).
        rewrite Er, andb_false_r. reflexivity. }
      rewrite (collapse_spaces_space c d x Ec).
      destruct (is_space d) eqn:Ed.
      * exact IH.
      * change (trimEnd (String " " (collapse_spaces (String d r'))))
          with (if is_space " " && is_empty (trimEnd (collapse_spaces (String d r')))
                then "" else String " " (trimEnd (collapse_spaces (String d r')))).
        rewrite IH, (StoresMoreFacts.collapse_spaces_head d x Ed). reflexivity.
  - rewrite (StoresMoreFacts.collapse_spaces_head c r Ec).
    cbn [trimEnd]. cbv zeta. rewrite Ec. cbn [andb].
    rewrite (StoresMoreFacts.collapse_spaces_head c _ Ec), IH. reflexivity.
Qed.

Lemma trim_collapse s : trim (collapse_spaces s) = collapse_spaces (trim s).
Proof. unfold trim. rewrite trimStart_collapse, trimEnd_collapse. reflexivity. Qed.

Lemma trimStart_no_char c s :
  has_char c s = false ->
  match trimStart s with String d _ => d <> c | EmptyString => True end.
Proof.
  induction s as [|d r IH]; [intros; exact I|].
  cbn [has_char]. intros [Hd Hr]%orb_false_iff.
  cbn [trimStart]. destruct (is_space d); [apply IH, Hr|].
  apply bool_decide_eq_false in Hd. exact Hd.
Qed.

Lemma qualifier_at_no_open open close s :
  has_char open s = false -> qualifier_at open close s = None.
Proof.
  intros H. unfold qualifier_at. pose proof (trimStart_no_char open s H) as Hh.
  destruct (trimStart s) as [|d r]; [reflexivity|].
  destruct (decide (d = open)); [contradiction|reflexivity].
Qed.

(** Without the opening bracket there is nothing to replace. *)
Lemma strip_qualifiers_no_open open close s :
  has_char open s = false -> strip_qualifiers open close s = s.
Proof.
  unfold strip_qualifiers. induction s as [|c r IH]; [reflexivity|].
  intros H. cbn [strip_from]. rewrite (qualifier_at_no_open open close _ H).
  cbn [has_char] in H. apply orb_false_iff in H. rewrite (IH (proj2 H)). reflexivity.
Qed.

(** The replacement brings in plain spaces only. *)
Lemma has_char_strip_from c open close s : forall skip,
  c <> " "%char -> has_char c s = false ->
  has_char c (strip_from open close skip s) = false.
Proof.
  induction s as [|d r IH]; intros skip Hc H; [reflexivity|].
  cbn [has_char] in H. apply orb_false_iff in H. destruct H as [Hd Hr].
  cbn [strip_from]. destruct skip as [|k]; [|apply IH; assumption].
  destruct (qualifier_at open close (String d r)).
  - cbn [has_char]. rewrite (IH _ Hc Hr).
    rewrite bool_decide_eq_false_2; [reflexivity|congruence].
  - cbn [has_char]. rewrite Hd, (IH _ Hc Hr). reflexivity.
Qed.

Lemma no_brackets_spec s :
  no_brackets s = true ->
  has_char "(" s = false /\ has_char "[" s = false /\ has_char "{" s = false.
Proof.
  unfold no_brackets. rewrite !andb_true_iff, !negb_true_iff. tauto.
Qed.

(** X25.  The name under which groceries are grouped is always in normal
    form: lower case, no white space at its head or end, single plain
    spaces between its words; it is empty for a missing or empty name.
    For a name without brackets it is the name that
    [normalizeIngredientName] of the store preferences gives, so the two
    normalizations agree wherever there is no qualifier to strip. *)
Theorem normalizeIngredientNameForGrouping_normal :
  (forall name, normal_name (normalizeIngredientNameForGrouping name) = true)
  /\ normalizeIngredientNameForGrouping None = ""
  /\ normalizeIngredientNameForGrouping (Some "") = ""
  /\ (forall name,
        no_brackets name = true ->
        normalizeIngredientNameForGrouping (Some name)
        = Stores.normalizeIngredientName name).
Proof.
  split; [|split; [reflexivity|split; [reflexivity|]]].
  - intros [name|]; [|reflexivity]. unfold normalizeIngredientNameForGrouping.
    destruct (is_empty name); [reflexivity|]. apply lower_trim_collapse_normal.
  - intros name (Hp & Hb & Hc)%no_brackets_spec.
    unfold normalizeIngredientNameForGrouping, Stores.normalizeIngredientName.
    destruct (is_empty name) eqn:E; [destruct name; [reflexivity|discriminate]|].
    rewrite (strip_qualifiers_no_open "(" ")" name Hp).
    rewrite (strip_qualifiers_no_open "[" "]" name Hb).
    rewrite (strip_qualifiers_no_open "{" "}" name Hc).
    rewrite trim_collapse, <- StoresMoreFacts.collapse_spaces_lower, trim_lower.
    reflexivity.
Qed.

Lemma normalizeIngredientNameForGrouping_normal_witness :
  normalizeIngredientNameForGrouping (Some "  Whole   MILK ")
  = Stores.normalizeIngredientName "  Whole   MILK ".
Proof.
  destruct normalizeIngredientNameForGrouping_normal as (_ & _ & _ & H).
  apply H. reflexivity.
Defined.

(** X26.  The name a group is shown under is never empty ("Unknown item"
    stands in for a name that is missing, empty or nothing but
    qualifiers).  For a name without a curly bracket the grouping name is
    the shown name in lower case, unless the shown name is the stand-in,
    and then the grouping name is empty. *)
Theorem getDisplayName_spec name :
  getDisplayName name <> ""
  /\ (forall n,
        name = Some n -> has_char "{" n = false ->
        (normalizeIngredientNameForGrouping name <> "" ->
         normalizeIngredientNameForGrouping name = toLowerCase (getDisplayName name))
        /\ (normalizeIngredientNameForGrouping name = "" ->
            getDisplayName name = "Unknown item")).
Proof.
  split.
  - unfold getDisplayName. destruct name as [n|]; [|discriminate].
    destruct (is_empty n); [discriminate|]. cbv zeta.
    destruct (is_empty (trim _)) eqn:E; [discriminate|].
    intros H. rewrite H in E. discriminate.
  - intros n -> Hn. unfold normalizeIngredientNameForGrouping, getDisplayName.
    destruct (is_empty n); [split; [congruence|reflexivity]|]. cbv zeta.
    rewrite (strip_qualifiers_no_open "{" "}").
    2: { apply has_char_strip_from; [discriminate|].
         apply has_char_strip_from; [discriminate|exact Hn]. }
    destruct (trim (collapse_spaces _)) as [|c r]; cbn [is_empty toLowerCase].
    + split; [congruence|reflexivity].
    + split; [reflexivity|discriminate].
Qed.

Lemma getDisplayName_spec_witness :
  normalizeIngredientNameForGrouping (Some "Tomatoes (diced)")
  = toLowerCase (getDisplayName (Some "Tomatoes (diced)")).
Proof.
  destruct (getDisplayName_spec (Some "Tomatoes (diced)")) as [_ H].
  destruct (H "Tomatoes (diced)" eq_refl eq_refl) as [Hshown _].
  apply Hshown. discriminate.
Defined.

End GroupingFacts.

(** ** [hasGroupableItems] *)

Module GroupingItemsFacts.
Import Js Grouping GroupingItems.

Lemma size_list_to_set_le (l : list string) :
  (size (list_to_set l : gset string) <= length l)%nat
  /\ (size (list_to_set l : gset string) = length l <-> NoDup l).
Proof.
  induction l as [|x l [IHle IHeq]].
  - rewrite list_to_set_nil, size_empty.
    split; [cbn; lia|]. split; [constructor|reflexivity].
  - cbn [list_to_set length]. destruct (decide (x ∈ l)) as [Hin|Hnot].
    + assert (({[x]} ∪ list_to_set l : gset string) = list_to_set l) as ->.
      { apply set_eq. intros y. rewrite elem_of_union, elem_of_singleton.
        split; [intros [->|H]; [apply elem_of_list_to_set; exact Hin|exact H]|auto]. }
      split; [lia|]. split; [lia|].
      intros Hnd. apply NoDup_cons in Hnd. destruct Hnd. contradiction.
    + rewrite size_union, size_singleton.
      2: { apply disjoint_singleton_l. rewrite elem_of_list_to_set. exact Hnot. }
      split; [lia|]. rewrite NoDup_cons. split.
      * intros H. split; [exact Hnot|]. apply IHeq. lia.
      * intros [_ Hnd]. apply IHeq in Hnd. lia.
Qed.

Lemma filter_length (f : string -> bool) l :
  (length (List.filter f l) <= length l)%nat
  /\ (length (List.filter f l) = length l <-> List.filter f l = l).
Proof.
  induction l as [|x l [IHle IHeq]]; [split; [cbn; lia|split; reflexivity]|].
  cbn [List.filter]. destruct (f x); cbn [length].
  - split; [lia|]. split.
    + intros H. f_equal. apply IHeq. lia.
    + intros [= H]. rewrite H. reflexivity.
  - split; [lia|]. split; [lia|].
    intros H. exfalso. assert (length (List.filter f l) = length (x :: l)) as Hl
      by (rewrite H; reflexivity).
    cbn in Hl. lia.
Qed.

Lemma filter_all (f : string -> bool) l :
  List.filter f l = l <-> Forall (fun x => f x = true) l.
Proof.
  induction l as [|x l IH]; [split; constructor|].
  cbn [List.filter]. destruct (f x) eqn:E.
  - rewrite Forall_cons. split.
    + intros [= H]. split; [exact E|apply IH, H].
    + intros [_ H]. f_equal. apply IH, H.
  - split.
    + intros H. exfalso. destruct (filter_length f l) as [Hle _].
      assert (length (List.filter f l) = length (x :: l)) as Hl by (rewrite H; reflexivity).
      cbn in Hl. lia.
    + intros H. apply Forall_cons in H. destruct H as [H _]. congruence.
Qed.

Section WithGrocery.
Variable GroceryDto : Type.
Variable storeId : GroceryDto -> option string.
Variable name : GroceryDto -> option string.

Local Abbreviation hasGroupableItems := (hasGroupableItems GroceryDto storeId name).
Local Abbreviation store_names := (store_names GroceryDto storeId name).
Local Abbreviation store_groceries := (store_groceries GroceryDto storeId).

(** X27.  [hasGroupableItems] answers no exactly when the groceries of the
    store have grouping names that are all different and none of them
    empty; it answers yes as soon as two groceries of the store share a
    grouping name, and also as soon as one of them has an empty grouping
    name (a name that is missing or made of qualifiers only).  The
    groceries of the other stores do not matter. *)
Theorem hasGroupableItems_spec groceries store :
  (hasGroupableItems groceries store = false
   <-> NoDup (store_names groceries store)
       /\ Forall (fun n => n <> "") (store_names groceries store))
  /\ hasGroupableItems groceries store
     = hasGroupableItems (store_groceries groceries store) store
  /\ (forall g, In g groceries -> storeId g = store ->
                normalizeIngredientNameForGrouping (name g) = "" ->
                hasGroupableItems groceries store = true).
Proof.
  assert (hasGroupableItems groceries store = false
          <-> NoDup (store_names groceries store)
              /\ Forall (fun n => n <> "") (store_names groceries store)) as Hno.
  { unfold GroupingItems.hasGroupableItems. cbv zeta. rewrite Nat.ltb_ge.
    assert (length (store_groceries groceries store)
            = length (store_names groceries store)) as ->.
    { unfold GroupingItems.store_names. rewrite length_map. reflexivity. }
    set (names := store_names groceries store).
    set (kept := List.filter (fun n => negb (is_empty n)) names).
    destruct (size_list_to_set_le kept) as [Hle Heq].
    destruct (filter_length (fun n => negb (is_empty n)) names) as [Hfle Hfeq].
    fold kept in Hfle, Hfeq.
    assert (Forall (fun n => negb (is_empty n) = true) names
            <-> Forall (fun n => n <> "") names) as Hne.
    { split; intros H; eapply Forall_impl; try exact H; intros n; cbn;
        destruct n; cbn; congruence. }
    split.
    - intros H.
      assert (length kept = length names) as Hlen by lia.
      apply Hfeq in Hlen. split.
      + rewrite <- Hlen. apply Heq. lia.
      + apply Hne, filter_all. exact Hlen.
    - intros [Hnd Hall]. apply Hne, filter_all in Hall. fold kept in Hall.
      rewrite Hall in *. apply Heq in Hnd. lia. }
  split; [exact Hno|]. split.
  - unfold GroupingItems.hasGroupableItems, GroupingItems.store_names,
      GroupingItems.store_groceries. cbv zeta.
    assert (forall l, List.filter (fun g => bool_decide (storeId g = store))
                        (List.filter (fun g => bool_decide (storeId g = store)) l)
                      = List.filter (fun g => bool_decide (storeId g = store)) l) as Hff.
    { induction l as [|g l IH]; [reflexivity|].
      cbn [List.filter]. destruct (bool_decide (storeId g = store)) eqn:E; [|exact IH].
      cbn [List.filter]. rewrite E, IH. reflexivity. }
    rewrite !Hff. reflexivity.
  - intros g Hg Hs Hn.
    destruct (hasGroupableItems groceries store) eqn:E; [reflexivity|].
    destruct (proj1 Hno eq_refl) as [_ Hall]. rewrite Forall_forall in Hall.
    exfalso. apply (Hall ""); [|reflexivity].
    apply list_elem_of_In. unfold GroupingItems.store_names. apply in_map_iff.
    exists g. split; [exact Hn|].
    unfold GroupingItems.store_groceries. apply filter_In. split; [exact Hg|].
    apply bool_decide_eq_true. exact Hs.
Qed.

End WithGrocery.

Lemma hasGroupableItems_spec_witness :
  GroupingItems.hasGroupableItems (option string * string) fst (fun g => Some (snd g))
    [(Some "s1", "Milk"); (None, "milk"); (Some "s1", "(optional)")] (Some "s1")
  = true.
Proof.
  destruct (hasGroupableItems_spec (option string * string) fst (fun g => Some (snd g))
              [(Some "s1", "Milk"); (None, "milk"); (Some "s1", "(optional)")] (Some "s1"))
    as (_ & _ & H).
  apply (H (Some "s1", "(optional)")).
  - right. right. left. reflexivity.
  - reflexivity.
  - reflexivity.
Defined.

End GroupingItemsFacts.

(** ** The bracketed form of a name *)

Module MetadataMoreFacts.
Import Js Json Metadata.

Lemma rev_app_append s1 : forall s2, String.rev_app s1 s2 = String.rev_app s1 "" +:+ s2.
Proof.
  induction s1 as [|a s1 IH]; intros s2; [reflexivity|].
  cbn [String.rev_app]. rewrite (IH (String a s2)), (IH (String a "")).
  rewrite IngredientsFacts.append_assoc. reflexivity.
Qed.

Lemma rev_cons c s : String.rev (String c s) = String.rev s +:+ String c "".
Proof. unfold String.rev. cbn [String.rev_app]. apply rev_app_append. Qed.

Lemma rev_append a b : String.rev (a +:+ b) = String.rev b +:+ String.rev a.
Proof.
  induction a as [|c a IH].
  - change ("" +:+ b) with b. change (String.rev "") with "".
    rewrite ParserHelpersFacts.append_empty_r. reflexivity.
  - rewrite ParserHelpersFacts.append_cons, !rev_cons, IH.
    rewrite IngredientsFacts.append_assoc. reflexivity.
Qed.

Lemma rev_rev s : String.rev (String.rev s) = s.
Proof.
  induction s as [|c s IH]; [reflexivity|].
  rewrite rev_cons, rev_append, IH. reflexivity.
Qed.

Lemma all_space_append a b :
  Ingredients.all_space (a +:+ b) = Ingredients.all_space a && Ingredients.all_space b.
Proof.
  induction a as [|c a IH]; [reflexivity|].
  rewrite ParserHelpersFacts.append_cons. cbn [Ingredients.all_space].
  rewrite IH, andb_assoc. reflexivity.
Qed.

Lemma all_space_rev w : Ingredients.all_space (String.rev w) = Ingredients.all_space w.
Proof.
  induction w as [|c w IH]; [reflexivity|].
  rewrite rev_cons, all_space_append, IH. cbn [Ingredients.all_space].
  rewrite andb_true_r, andb_comm. reflexivity.
Qed.

Lemma trimStart_spaces w c x :
  Ingredients.all_space w = true -> is_space c = false ->
  trimStart (w +:+ String c x) = String c x.
Proof.
  intros Hw Hc. induction w as [|d w IH].
  - change ("" +:+ String c x) with (String c x). cbn [trimStart]. rewrite Hc. reflexivity.
  - cbn [Ingredients.all_space] in Hw. apply andb_true_iff in Hw. destruct Hw as [Hd Hw].
    rewrite ParserHelpersFacts.append_cons. cbn [trimStart]. rewrite Hd. apply IH, Hw.
Qed.

Lemma bracketed_capture_form ws1 body ws2 :
  Ingredients.all_space ws1 = true -> Ingredients.all_space ws2 = true ->
  is_empty body = false -> no_line_terminator body = true ->
  bracketed_capture ("[" +:+ ws1 +:+ "'" +:+ body +:+ "'" +:+ ws2 +:+ "]") = Some body.
Proof.
  intros H1 H2 Hne Hlt.
  change ("[" +:+ ws1 +:+ "'" +:+ body +:+ "'" +:+ ws2 +:+ "]")
    with (String "[" (ws1 +:+ String "'" (body +:+ String "'" (ws2 +:+ "]")))).
  unfold bracketed_capture.
  rewrite (trimStart_spaces ws1 "'" _ H1 eq_refl).
  rewrite rev_append, rev_cons, rev_append.
  change (String.rev "]") with "]".
  change (("]" +:+ String.rev ws2) +:+ "'") with (String "]" (String.rev ws2 +:+ "'")).
  rewrite ParserHelpersFacts.append_cons.
  rewrite IngredientsFacts.append_assoc.
  change ("'" +:+ String.rev body) with (String "'" (String.rev body)).
  rewrite (trimStart_spaces (String.rev ws2) "'" _); [|rewrite all_space_rev; exact H2|reflexivity].
  rewrite rev_rev, Hne, Hlt. reflexivity.
Qed.

Section WithDecode.
Variable decode : string -> string.

(** X24.  A name that is written as a bracketed, quoted text, as in
    "['Fish pie']" with any white space between the brackets and the
    quotes, is read as the text between the quotes, decoded; a name that
    does not start with a bracket is read as it is, decoded; and in both
    cases a text that decodes to nothing counts as no name. *)
Theorem getName_bracketed json :
  (forall ws1 body ws2,
      field "name" json
      = Some (JStr ("[" +:+ ws1 +:+ "'" +:+ body +:+ "'" +:+ ws2 +:+ "]")) ->
      Ingredients.all_space ws1 = true -> Ingredients.all_space ws2 = true ->
      is_empty body = false -> no_line_terminator body = true ->
      getName decode json = nonempty (decode body))
  /\ (forall c r,
        field "name" json = Some (JStr (String c r)) -> c <> "["%char ->
        getName decode json = nonempty (decode (String c r))).
Proof.
  split.
  - intros ws1 body ws2 Hf H1 H2 Hne Hlt.
    unfold getName. rewrite Hf. cbn [nullish_or name_of_raw]. unfold unwrap_bracketed.
    rewrite (bracketed_capture_form ws1 body ws2 H1 H2 Hne Hlt). reflexivity.
  - intros c r Hf Hc. unfold getName. rewrite Hf. cbn [nullish_or name_of_raw].
    unfold unwrap_bracketed, bracketed_capture.
    destruct c as [[] [] [] [] [] [] [] []]; try reflexivity. congruence.
Qed.

End WithDecode.

Lemma getName_bracketed_witness :
  getName decode_predefined [("name", JStr "[ 'Fish &amp; chips' ]")]
  = Some "Fish & chips".
Proof.
  destruct (getName_bracketed decode_predefined [("name", JStr "[ 'Fish &amp; chips' ]")])
    as [H _].
  rewrite (H " " "Fish &amp; chips" " "); reflexivity.
Defined.

End MetadataMoreFacts.
